(* ===== verification/_CoqProject ===== *)
-Q . S2P
Prelude.v
GoBytes.v
GoStrconv.v
GoIeee.v
GoBase64.v
GoUtf8.v
GoFloat.v
GoTime.v
GoJson.v
MemCache.v
GoHeap.v
MemCacheTTL.v
Fail2Ban.v
RateLimiter.v
Middleware.v
HttpClient.v
WebClients.v
GinWeb.v
Ntlm.v
Websspi.v
Utils.v
UtilsIO.v
Uuid.v
LdapUtils.v
LdapClient.v
LdapAccess.v
Bbolt.v
Crypt.v
RabbitMQ.v
RabbitConsumer.v
MailSender.v
Smsc.v
SmscPdu.v
SmscStore.v
SmscSession.v
TcWire.v
TcClient.v
TcPumps.v
TcSequential.v
TcToken.v
EnvOs.v
Codecs.v
Config.v
DbHelpers.v
Postgres.v
DbSql.v
Otello.v
PrettyLog.v
Lifecycle.v
App.v
Concurrent.v
Services.v
ConcurrentSystem.v
