(* ===== verification/Prelude.v ===== *)
(** * arcella-lib: a verification library (root file)

    arcella-lib is a library of services for Go programs: a controller that
    runs a program made of services, and the services themselves (databases,
    message queue, mail, SMS, chat, telemetry, web server, caches), with the
    middlewares and utilities they share.  This development models it file by
    file, as written, and proves what makes each part correct.

    ** How the program hangs together

    A program gives the controller ([app/v3/appcv3.go]) a list of services.
    [Run] loads the configuration ([app/v3/config/basic]), starts the services
    in order, calls the hooks, waits for a signal or a timer, and stops the
    services; if one fails to start, those before it are stopped.  A service
    holds connections, pools and goroutines, which it opens on [Start], may
    replace while it runs, and has to give back on [Stop].  Most theorems are
    about that promise: nothing a service opens is ever lost, whatever the
    libraries answer and however goroutines interleave; or they give the
    exact behaviour of a request handler, a conversion or a decision.

    The promise is the class [Releases] of Lifecycle.v.  App.v proves the
    theorems of the controller for any service that keeps it; Services.v
    discharges it for nine services of the library with the theorems of their
    files and composes them into one program ([system_released],
    [system_rollback]).  There services move only when they are called.
    Concurrent.v lets their goroutines, their clients and the network go on
    between the calls: a service is a transition system (class [Process]), the
    controller one more thread, and the sequential controller one of the
    interleavings ([Run_body_included]); ConcurrentSystem.v composes RabbitMQ,
    the web server and four mutex-protected services in this way
    ([running_system_released]).  In the same way Crypt.v, Bbolt.v and
    SmscStore.v are written against classes that state what the code relies
    on of a library, with an instance that satisfies them where a theorem
    needs it.

    ** The files

    What Go and its standard library mean.
    - Prelude.v: results, machine integers, time, loops that delete from the
      map they range over, reachability.
    - GoBytes.v, GoStrconv.v, GoBase64.v, GoUtf8.v, GoFloat.v, GoHeap.v: bytes
      and [strings], [encoding/hex], [encoding/binary], [strconv],
      [encoding/base64], [unicode/utf8], durations scaled in [float64],
      [container/heap].
    - GoIeee.v: float32 and float64 with their rounding, [ParseFloat],
      [FormatFloat] and [math.Pow]; what is written is read back.
    - GoTime.v: the calendar, time zones as tables of transitions, layouts
      ([Format], [Parse], [ParseInLocation]) and [ParseDuration].
    - GoJson.v: the text of JSON values and its parser, with the round trip,
      and the filling of structures.

    Caches, and tables per address.
    - MemCache.v (cache/memcache): pointers to stored values; refines a map.
    - MemCacheTTL.v (cache/memcachettl): items, expirations and the reaper
      goroutine.  The eviction removes exactly the expired items, the limit
      holds, and the heap invariant survives every interleaving.
    - Fail2Ban.v, RateLimiter.v (web/gin/middleware): when an address is
      banned and for how long; one limiter per address.

    Web.
    - Middleware.v, Ntlm.v, Websspi.v (web/gin/middleware): handlers as traces
      of calls on the context; who is let through, and with what.
    - LdapAccess.v: the NTLM middleware with the LDAP client as the one that
      checks users.
    - HttpClient.v (web/std/client, web/ClientDTS.go), WebClients.v
      (web/fasthttp/client, web/std/client/middleware/log): the requests
      built, the answers read, the client cached, what is logged.
    - GinWeb.v (web/gin/ginWeb.go): the server's goroutines and shutdown.

    Services.
    - RabbitMQ.v, RabbitConsumer.v (mq/rabbitmq): the reconnecting connection
      and the workers of a consumer, as step relations.
    - MailSender.v (mail/sender), Smsc.v, SmscPdu.v, SmscStore.v,
      SmscSession.v (smsc): what is sent, how often, which answer belongs to
      it, and which session is open.
    - TcWire.v, TcClient.v, TcPumps.v, TcSequential.v, TcToken.v (tc/dts.go,
      tc/tcClientSender): the messages and what is read of the answers, the
      websocket client sequentially, its goroutines, the histories of the
      first as schedules of the second, and the redaction of its log.
    - Postgres.v (db/postgres), DbSql.v (db/mssql, db/oracle), Bbolt.v
      (db/bbolt), LdapClient.v (ldap/client.go), Otello.v (monitoring/otel):
      handles open and given back, retries, restarts; the channel of
      notifications of Postgres.v.
    - PrettyLog.v (app/v3/log/prettylog): lines, derived handlers, the pool
      of buffers.
    - Config.v (app/v3/config/basic); Lifecycle.v, App.v, Services.v: the
      controller and its composition with the services; Concurrent.v,
      ConcurrentSystem.v: the same among running goroutines.

    Utilities.
    - Utils.v, UtilsIO.v (utils: conversions, files, readers, process and
      goroutine helpers), Uuid.v (utils/uuid), LdapUtils.v
      (ldap/utils.go), Crypt.v (crypt), Codecs.v (codec, crypt/bcrypt: the
      interface of the codecs with its laws, password hashes), DbHelpers.v (db/types, utils/db,
      db/helpers/gorm), EnvOs.v (utils/env, utils/os/win).

    ** How code becomes definitions

    An object is a record with its fields, a method a function on it; a
    method that calls a library takes the answer as an argument, so a theorem
    quantifies over all answers.  What is open in the outside world
    (connections, pools, handles, sockets, files) is part of the state, so
    that a leak is a value.  [(T, error)] is [result T], or a pair where the
    code returns both; a panic is [None], [Err] or a value of its own, as the
    file says.  Clock readings, random numbers and environment variables are
    arguments.  Integers wrap at their width ([wrap64]) where the code can
    reach it.  Code that shares memory on purpose (pointers in a cache, slices
    of derived log handlers, pooled buffers) runs on a store of cells.

    A mutex makes its section one step.  Objects whose methods are single
    sections are sequences of operations; where a method releases the mutex
    or a goroutine runs on its own (RabbitMQ.v, RabbitConsumer.v, LdapClient.v,
    Postgres.v, TcPumps.v, PrettyLog.v, GinWeb.v, the reaper and [Get] of
    MemCacheTTL.v) threads have program counters, and the theorems range over
    all schedules.

    ** What the groups of theorems show

    - Nothing is lost: [connections_owned], [stopped_releases_all],
      [single_connection], [connection_owned], [pools_owned],
      [ldap_connections_accounted], [otello_released], [calls_ready], [mssql_no_leak],
      [oracle_single_handle], [smsc_single_session],
      [started_once_releases], and through the controller [run_releases],
      [initServices_rollback], [system_released], [system_rollback]; under
      all interleavings [finished_releases], [failed_releases],
      [running_system_released].
    - Goroutines end and do not get in each other's way: [consumer_drains],
      [stop_final], [reaper_unique], [one_restart], [messages_accounted],
      [lines_whole], [get_interleaved], [notifications_in_order],
      [query_pool_live].
    - Retries and delays are bounded: [backoffDelay_bounds],
      [wsRestart_backoff], [restart_delays], [SendMessage_attempts],
      [SendMessage_bounded], [pingWithRetry_spec], [sleeps_in_bounds].
    - A component implements its specification: [memcache_refines_map],
      [store_refines_map], [handlers_independent], [Load_cache_transparent],
      [limiter_isolated], [popExpired_exact], [queue_order], [CopyFile_atomic];
      a sequential description is one of the interleavings of
      a concurrent one: [Run_body_included], [sequential_runs_included].
    - Access decisions: [NTLMMiddleware_fail_closed], [BasicAuthFunc_spec],
      [basic_auth_accepted], [VerifyUser_accepts], [ntlm_ldap_access],
      [HashPassword_checked], [ban_holds], [banned_at_WatchCount],
      [listen_statements_safe].
    - Secrets stay out of logs: [token_not_logged], [secrets_not_logged].
    - Round trips and conversions: [Encrypt_Decrypt], [encoded_value],
      [Crypt_DeCrypt], [getDateFromStringT_spec], [getTSFromLong_filetime],
      [NullTime_reads_texts], [ParseDuration_unit], [parse_format_stamp],
      [Parse_Marshal], [token_request_spec], [read_token_spec],
      [response_text_reads],
      [Xor_roundtrip], [guid_roundtrip], [int_roundtrip], [float32_roundtrip],
      [Float64ToByte_injective], [NullFloat64_reads_texts], [column_roundtrip],
      [SubStr_runes], [RemoveUnreadable_runes], [SieveOfEratosthenes_primes], [decodeSID_layout],
      [RowsToObj_spec], [modifyStruct_shape].
    - What the code does that its callers may not expect:
      [restart_race_leaks], [stale_dial_leaks], [stale_connected_blocks], [confirms_not_reset],
      [stop_undone], [smsc_stop_undone], [getDateFromString_unconverted],
      [second_failure_leaks], [authentication_dropped],
      [cleared_channel_blocks], [escaped_token_logged], [reader_crashes],
      [panic_leaves_services], [same_length_same_user],
      [listen_failure_final], [query_during_restart],
      [TruncateFloat_rounds], [float32_overflows] and the lemmas next to them.

    ** Fuel

    Recursion that is not structural runs on fuel computed from the input,
    and the theorems are about the result with that fuel: the length of the
    text for the loops over bytes (each step takes at least one byte), twice
    the length of a JSON text ([Parse_total]: more changes nothing), one
    more than the size of the heap for the eviction (each step pops one
    entry), the length of the heap for [up] and [down], the length of the
    layout for its chunks and of the text for the elements of a duration (each
    takes at least one character), [Z.log2] for printing
    (each step divides by ten or sixteen), 63 for the bits of the exponent of
    [Pow], the digits of the exact decimal for the shortest text of a float
    (with all of them it is read back: [exact_reads]), the interval for the sieve, the
    number of attempts for retries.  Loops that the program ends from outside
    (listeners, pings, reconnections, pumps) are step relations without fuel.

    ** Not modelled

    - Libraries and drivers: they enter as arguments or classes; so does the
      encoder of the messages to TrueConf, which is not Go's.
    - The Unicode tables of graphic characters above U+00FF, a parameter of
      [RemoveUnreadable]; the payload of NaNs.
    - The contents of the time zone database: a zone is a table of offsets,
      and the theorems say which tables they hold for.
    - What the databases answer to queries, and what a notification carries
      besides its text.
    - Files that only forward a call to a library or declare constants and
      settings: the gorilla client, the interface of the web clients, the
      structures of settings.
    - The Go memory model: a section is taken to be atomic, and a race on an
      unprotected field is an interleaving of its reads and writes.

    ** Where to go next

    ConcurrentSystem.v can take more services: the LDAP client, whose
    connection is opened by its users, and PostgreSQL and the TrueConf client
    under the conditions in which they keep the promise. *)

From stdpp Require Export base gmap strings list fin_maps sorting.
From Stdlib Require Export ZArith Lia.

#[global] Open Scope Z_scope.

(** ** Results of fallible Go calls

    [(T, error)] results are modelled by [result T]: a Go function of this
    repository returns either a meaningful value or a non-nil error. *)

Inductive result (A : Type) : Type :=
| Ok (a : A)
| Err (e : string).
Arguments Ok {A} _.
Arguments Err {A} _.

Definition result_bind {A B : Type} (r : result A) (k : A → result B) : result B :=
  match r with
  | Ok a => k a
  | Err e => Err e
  end.

Declare Scope go_scope.
Delimit Scope go_scope with go.
Notation "'let?' x ':=' e 'in' k" := (result_bind e (λ x, k))
  (at level 10, x pattern, e at level 100, k at level 200) : go_scope.
#[global] Open Scope go_scope.

#[global] Instance result_eq_dec {A} `{EqDecision A} : EqDecision (result A).
Proof. solve_decision. Defined.

Definition is_ok {A : Type} (r : result A) : bool :=
  match r with Ok _ => true | Err _ => false end.

Lemma forallb_Forall {A : Type} (p : A → bool) (l : list A) : forallb p l = true ↔ Forall (λ x, p x = true) l.
Proof. rewrite forallb_forall, Forall_forall. by setoid_rewrite list_elem_of_In. Qed.

(** A fallible step on each element of a list, up to the first that fails. *)
Section traverse.
Context {A B : Type} (f : A → result B).

Fixpoint traverse (l : list A) : result (list B) :=
  match l with
  | [] => Ok []
  | x :: l => let? y := f x in let? l' := traverse l in Ok (y :: l')
  end.

Lemma traverse_ok {C : Type} (g : B → C) (h : A → C) (l : list A) :
  Forall (λ x, ∃ y, f x = Ok y ∧ g y = h x) l → ∃ l', traverse l = Ok l' ∧ g <$> l' = h <$> l.
Proof.
  induction 1 as [|x l (y & Hy & Hg) _ (l' & Hl' & Hgl)]; [by exists []|].
  exists (y :: l'). cbn. rewrite Hy. cbn. rewrite Hl'. cbn. by rewrite Hg, Hgl.
Qed.
End traverse.

(** ** Machine integers *)

Definition MinInt64 : Z := - 2 ^ 63.
Definition MaxInt64 : Z := 2 ^ 63 - 1.
Definition MaxUint64 : Z := 2 ^ 64 - 1.
Definition in_int64 (z : Z) : Prop := MinInt64 ≤ z ≤ MaxInt64.
Definition in_uint64 (z : Z) : Prop := 0 ≤ z ≤ MaxUint64.

(** Two's complement reduction to [w] bits, signed and unsigned. *)
Definition wrapU (w : Z) (z : Z) : Z := z mod 2 ^ w.
Definition wrapS (w : Z) (z : Z) : Z := (z + 2 ^ (w - 1)) mod 2 ^ w - 2 ^ (w - 1).
Definition wrap64 : Z → Z := wrapS 64.
Definition wrapU64 : Z → Z := wrapU 64.

Lemma wrap64_id z : in_int64 z → wrap64 z = z.
Proof.
  unfold in_int64, MinInt64, MaxInt64, wrap64, wrapS. intros Hz.
  rewrite Z.mod_small; [lia|]. change (64 - 1) with 63. lia.
Qed.

Lemma wrapU_range w z : 0 ≤ w → 0 ≤ wrapU w z < 2 ^ w.
Proof. intros ?. apply Z.mod_pos_bound. lia. Qed.

Lemma wrapU64_id z : in_uint64 z → wrapU64 z = z.
Proof.
  unfold in_uint64, MaxUint64, wrapU64, wrapU. intros ?. apply Z.mod_small. lia.
Qed.

(** Assembling a number from disjoint bit ranges. *)
Lemma lor_add k a b : 0 ≤ k → 0 ≤ b < 2 ^ k → (2 ^ k | a) → Z.lor a b = a + b.
Proof.
  intros Hk Hb [q ->]. symmetry. apply Z.add_nocarry_lor, Z.bits_inj'. intros n Hn.
  rewrite Z.land_spec, Z.bits_0. destruct (decide (n < k)).
  - by rewrite Z.mul_pow2_bits_low.
  - rewrite <- (Z.mod_small b (2 ^ k)) by lia. rewrite Z.mod_pow2_bits_high by lia.
    apply andb_false_r.
Qed.

Lemma lor_shiftl_add k a b : 0 ≤ k → 0 ≤ a < 2 ^ k → Z.lor a (Z.shiftl b k) = a + b * 2 ^ k.
Proof.
  intros Hk Ha. rewrite Z.lor_comm, Z.shiftl_mul_pow2 by done.
  rewrite (lor_add k); [lia|done|done|by exists b].
Qed.

(** ** Time

    [time.Time] is an instant in nanoseconds since the Unix epoch and
    [time.Duration] a 64-bit count of nanoseconds.  The zero [time.Time] is
    January 1 of year 1.  Every call of [time.Now] in the source is an
    explicit argument of the operation that makes it. *)

Abbreviation Time := Z (only parsing).
Abbreviation Duration := Z (only parsing).

Definition Nanosecond : Duration := 1.
Definition Millisecond : Duration := 1000000.
Definition Second : Duration := 1000000000.
Definition Minute : Duration := 60 * Second.
Definition Hour : Duration := 60 * Minute.

Definition zeroTime : Time := -62135596800 * Second.

Module time.
Definition Before (t u : Time) : bool := t <? u.
Definition After (t u : Time) : bool := u <? t.
Definition Equal (t u : Time) : bool := t =? u.
Definition Add (t : Time) (d : Duration) : Time := t + d.
(** [Time.Sub] saturates at the bounds of [Duration]. *)
Definition Sub (t u : Time) : Duration := Z.max MinInt64 (Z.min MaxInt64 (t - u)).
Definition IsZero (t : Time) : bool := t =? zeroTime.
End time.

Lemma Sub_exact t u : in_int64 (t - u) → time.Sub t u = t - u.
Proof. unfold time.Sub, in_int64. lia. Qed.

Lemma Before_spec t u : time.Before t u = true ↔ t < u.
Proof. apply Z.ltb_lt. Qed.
Lemma After_spec t u : time.After t u = true ↔ u < t.
Proof. apply Z.ltb_lt. Qed.
Lemma Before_false t u : time.Before t u = false ↔ u ≤ t.
Proof. apply Z.ltb_ge. Qed.
Lemma After_false t u : time.After t u = false ↔ t ≤ u.
Proof. apply Z.ltb_ge. Qed.

(** ** Range loops that delete from the map they iterate over

    Go iterates over a map in an unspecified order and allows the body to
    delete entries.  [range_delete p l m] is
    [for k, v := range m { if p(v) { delete(m, k) } }] run in the order [l]. *)

Section range_delete.
Context {K V : Type} `{Countable K}.
Implicit Types (m : gmap K V) (p : V → bool).

Definition range_delete_step p (m : gmap K V) (kv : K * V) : gmap K V :=
  if p kv.2 then delete kv.1 m else m.

Definition range_delete p (l : list (K * V)) m : gmap K V :=
  fold_left (range_delete_step p) l m.

(** [len(m)] as a Go [int]. *)
Definition len_map (m : gmap K V) : Z := Z.of_nat (size m).

Lemma range_delete_lookup p l m k :
  range_delete p l m !! k =
    if bool_decide (Exists (λ kv, kv.1 = k ∧ p kv.2 = true) l) then None else m !! k.
Proof.
  revert m. induction l as [|[k' v'] l IH]; intros m.
  - done.
  - change (range_delete p ((k', v') :: l) m) with
      (range_delete p l (range_delete_step p m (k', v'))).
    rewrite IH. unfold range_delete_step; simpl fst; simpl snd.
    destruct (bool_decide (Exists _ l)) eqn:E1.
    + rewrite bool_decide_eq_true_2; [done|].
      apply bool_decide_eq_true in E1. by constructor 2.
    + apply bool_decide_eq_false in E1.
      destruct (decide (k' = k ∧ p v' = true)) as [[-> Hp]|Hn].
      * rewrite bool_decide_eq_true_2; [|by constructor 1].
        rewrite Hp. apply lookup_delete_eq.
      * rewrite bool_decide_eq_false_2; [|intros [[? ?]|?]%Exists_cons; [by apply Hn|done]].
        destruct (p v') eqn:Hp; [|done].
        rewrite lookup_delete_ne; naive_solver.
Qed.

(** Whatever the iteration order, the loop is a filter. *)
Lemma range_delete_filter p m l :
  l ≡ₚ map_to_list m →
  range_delete p l m = filter (λ kv : K * V, p kv.2 = false) m.
Proof.
  intros Hl. apply map_eq. intros k. rewrite range_delete_lookup.
  assert (HE : Exists (λ kv, kv.1 = k ∧ p kv.2 = true) l ↔
               ∃ v, m !! k = Some v ∧ p v = true).
  { rewrite Exists_exists. split.
    - intros ([k' v] & Hin & Hk & Hp); simpl in *; subst k'.
      exists v. split; [|done]. apply elem_of_map_to_list. by rewrite <- Hl.
    - intros (v & Hv & Hp). exists (k, v). split; [|done].
      rewrite Hl. by apply elem_of_map_to_list. }
  destruct (bool_decide _) eqn:E.
  - apply bool_decide_eq_true, HE in E as (v & Hv & Hp).
    symmetry. apply map_lookup_filter_None_2. right. intros v' Hv'. simplify_eq/=. congruence.
  - apply bool_decide_eq_false in E. destruct (m !! k) as [v|] eqn:Hv.
    + symmetry. apply map_lookup_filter_Some_2; [done|]. simpl.
      destruct (p v) eqn:Hp; [|done]. destruct E. apply HE. eauto.
    + symmetry. apply map_lookup_filter_None_2. by left.
Qed.

Lemma range_delete_subseteq p l m : range_delete p l m ⊆ m.
Proof.
  apply map_subseteq_spec. intros k v. rewrite range_delete_lookup.
  by destruct (bool_decide _).
Qed.
End range_delete.

(** ** Reflexive transitive closure of a step relation *)

Section star.
Context {S : Type} (step : S → S → Prop).

Inductive star : S → S → Prop :=
| star_refl s : star s s
| star_step s1 s2 s3 : step s1 s2 → star s2 s3 → star s1 s3.

Lemma star_one s1 s2 : step s1 s2 → star s1 s2.
Proof. intros. eapply star_step; [done|apply star_refl]. Qed.

Lemma star_trans s1 s2 s3 : star s1 s2 → star s2 s3 → star s1 s3.
Proof. induction 1; eauto using star. Qed.

(** Rule induction in the form the components use: a property kept by every
    step is kept by every run. *)
Lemma star_invariant (I : S → Prop) :
  (∀ s1 s2, I s1 → step s1 s2 → I s2) → ∀ s1 s2, I s1 → star s1 s2 → I s2.
Proof. intros Hstep s1 s2 H1 Hs. induction Hs; eauto. Qed.
End star.

(** ** Automation shared by the components *)

Create HintDb arcella.
Create Rewrite HintDb arcella.
#[export] Hint Resolve star_refl star_one : arcella.
#[export] Hint Rewrite @lookup_insert_eq @lookup_delete_eq @lookup_empty : arcella.

(** Case analysis on the boolean tests of the code, with the comparisons on
    [Z] turned into inequalities. *)
Ltac bool_to_prop :=
  repeat match goal with
  | H : (_ <? _) = true |- _ => apply Z.ltb_lt in H
  | H : (_ <? _) = false |- _ => apply Z.ltb_ge in H
  | H : (_ <=? _) = true |- _ => apply Z.leb_le in H
  | H : (_ <=? _) = false |- _ => apply Z.leb_gt in H
  | H : (_ =? _) = true |- _ => apply Z.eqb_eq in H
  | H : (_ =? _) = false |- _ => apply Z.eqb_neq in H
  | H : (_ && _) = true |- _ => apply andb_prop in H; destruct H
  | H : negb _ = true |- _ => apply negb_true_iff in H
  | H : negb _ = false |- _ => apply negb_false_iff in H
  | H : time.Before _ _ = _ |- _ => unfold time.Before in H
  | H : time.After _ _ = _ |- _ => unfold time.After in H
  | H : bool_decide _ = true |- _ => apply bool_decide_eq_true in H
  | H : bool_decide _ = false |- _ => apply bool_decide_eq_false in H
  end.

(** Decide a boolean test of the goal from linear arithmetic. *)
Ltac ztest :=
  repeat match goal with
  | |- context [?a <? ?b] =>
      first [ replace (a <? b) with true by (symmetry; apply Z.ltb_lt; lia)
            | replace (a <? b) with false by (symmetry; apply Z.ltb_ge; lia) ]
  | |- context [?a <=? ?b] =>
      first [ replace (a <=? b) with true by (symmetry; apply Z.leb_le; lia)
            | replace (a <=? b) with false by (symmetry; apply Z.leb_gt; lia) ]
  | |- context [?a =? ?b] =>
      first [ replace (a =? b) with true by (symmetry; apply Z.eqb_eq; lia)
            | replace (a =? b) with false by (symmetry; apply Z.eqb_neq; lia) ]
  end.

(** ** Weights of threads

    The measures that make runs of threads end add up a weight per thread. *)

Lemma sum_list_insert {A} (f : A → nat) (l : list A) i x y :
  l !! i = Some x → (sum_list (f <$> <[i := y]> l) + f x = sum_list (f <$> l) + f y)%nat.
Proof.
  revert i. induction l as [|z l IH]; intros [|i] Hi; try done.
  - injection Hi as ->. cbn. lia.
  - specialize (IH i Hi). change (<[S i := y]> (z :: l)) with (z :: <[i := y]> l).
    rewrite !fmap_cons. cbn [sum_list]. lia.
Qed.

Lemma Forall_or_lookup {A} (P : A → Prop) `{!∀ x, Decision (P x)} (l : list A) :
  Forall P l ∨ ∃ i x, l !! i = Some x ∧ ¬ P x.
Proof.
  induction l as [|x l IH]; [by left|]. destruct (decide (P x)) as [Hx|Hx]; [|right; by exists 0%nat, x].
  destruct IH as [Hl|(i & y & Hi & Hy)]; [left; by constructor|right; by exists (S i), y].
Qed.
