(* ===== verification/GoBytes.v ===== *)
(** * Bytes and strings of Go

    A [[]byte] is a list of integers in [0, 256); a Go string is a Rocq
    [string], that is a list of bytes, with the functions of package [strings]
    the sources call.  Also [encoding/hex] and the fixed-width encodings of
    [encoding/binary]. *)

From S2P Require Import Prelude.
From Stdlib Require Export Ascii.

Abbreviation bytes := (list Z).

Definition is_byte (b : Z) : Prop := 0 ≤ b < 256.
#[global] Instance is_byte_dec b : Decision (is_byte b).
Proof. unfold is_byte. apply _. Defined.
Definition wf_bytes (l : bytes) : Prop := Forall is_byte l.

Definition byte_of_ascii (a : ascii) : Z := Z.of_N (N_of_ascii a).
Definition ascii_of_byte (b : Z) : ascii := ascii_of_N (Z.to_N b).

(** [[]byte(s)] and [string(b)]. *)
Fixpoint bytes_of_string (s : string) : bytes :=
  match s with
  | EmptyString => []
  | String a s => byte_of_ascii a :: bytes_of_string s
  end.

Fixpoint string_of_bytes (l : bytes) : string :=
  match l with
  | [] => EmptyString
  | b :: l => String (ascii_of_byte b) (string_of_bytes l)
  end.

Lemma byte_of_ascii_range a : is_byte (byte_of_ascii a).
Proof. unfold is_byte, byte_of_ascii. pose proof (N_ascii_bounded a). lia. Qed.

Lemma ascii_of_byte_of_ascii a : ascii_of_byte (byte_of_ascii a) = a.
Proof. unfold ascii_of_byte, byte_of_ascii. by rewrite N2Z.id, ascii_N_embedding. Qed.

Lemma byte_of_ascii_of_byte b : is_byte b → byte_of_ascii (ascii_of_byte b) = b.
Proof.
  unfold is_byte, ascii_of_byte, byte_of_ascii. intros ?.
  rewrite N_ascii_embedding by lia. lia.
Qed.

Lemma string_of_bytes_of_string s : string_of_bytes (bytes_of_string s) = s.
Proof. induction s as [|a s IH]; simpl; [done|]. by rewrite ascii_of_byte_of_ascii, IH. Qed.

Lemma bytes_of_string_of_bytes l : wf_bytes l → bytes_of_string (string_of_bytes l) = l.
Proof.
  induction 1 as [|b l Hb Hl IH]; simpl; [done|]. by rewrite byte_of_ascii_of_byte, IH.
Qed.

Lemma bytes_of_string_wf s : wf_bytes (bytes_of_string s).
Proof. induction s; simpl; constructor; auto using byte_of_ascii_range. Qed.

Lemma bytes_of_string_inj s1 s2 : bytes_of_string s1 = bytes_of_string s2 → s1 = s2.
Proof.
  intros H. rewrite <- (string_of_bytes_of_string s1), H. apply string_of_bytes_of_string.
Qed.

(** stdpp keeps [simpl] from unfolding [String.append]. *)
Lemma string_app_cons a s t : String a s +:+ t = String a (s +:+ t).
Proof. done. Qed.

Lemma string_app_nil t : "" +:+ t = t.
Proof. done. Qed.

Lemma bytes_of_string_app s1 s2 :
  bytes_of_string (s1 +:+ s2) = bytes_of_string s1 ++ bytes_of_string s2.
Proof. induction s1 as [|a s IH]; [done|]. rewrite string_app_cons. simpl. f_equal. apply IH. Qed.

Lemma string_of_bytes_app l1 l2 :
  string_of_bytes (l1 ++ l2) = string_of_bytes l1 +:+ string_of_bytes l2.
Proof. induction l1 as [|a s IH]; [done|]. simpl. rewrite string_app_cons. f_equal. apply IH. Qed.

Lemma length_bytes_of_string s : length (bytes_of_string s) = String.length s.
Proof. induction s; simpl; [done|]. by f_equal. Qed.

Lemma length_string_of_bytes l : String.length (string_of_bytes l) = length l.
Proof. induction l; simpl; [done|]. by f_equal. Qed.

Lemma wf_bytes_app l1 l2 : wf_bytes (l1 ++ l2) ↔ wf_bytes l1 ∧ wf_bytes l2.
Proof. apply Forall_app. Qed.

#[export] Hint Resolve bytes_of_string_wf byte_of_ascii_range : arcella.
#[export] Hint Rewrite string_of_bytes_of_string bytes_of_string_app string_of_bytes_app
  length_bytes_of_string length_string_of_bytes : arcella.

(** ** package strings *)

(** [strings.Index] on byte lists: the first position where [p] occurs. *)
Fixpoint bytes_prefix (p l : bytes) : bool :=
  match p, l with
  | [], _ => true
  | a :: p, b :: l => (a =? b) && bytes_prefix p l
  | _ :: _, [] => false
  end.

Fixpoint bytes_index (l p : bytes) : option Z :=
  if bytes_prefix p l then Some 0
  else
    match l with
    | [] => None
    | _ :: l => option_map Z.succ (bytes_index l p)
    end.

Lemma bytes_prefix_spec p l : bytes_prefix p l = true ↔ ∃ t, l = p ++ t.
Proof.
  revert l. induction p as [|a p IH]; intros l; simpl; [naive_solver|].
  destruct l as [|b l]; [naive_solver|]. rewrite andb_true_iff, Z.eqb_eq, IH. naive_solver.
Qed.

(** The position found is an occurrence, and the first one. *)
Lemma bytes_index_Some l p i :
  bytes_index l p = Some i →
  ∃ pre post, l = pre ++ p ++ post ∧ Z.of_nat (length pre) = i ∧
    ∀ pre' post', l = pre' ++ p ++ post' → (length pre ≤ length pre')%nat.
Proof.
  revert i. induction l as [|b l IH]; intros i; cbn [bytes_index];
    destruct (bytes_prefix p _) eqn:E; intros H; simplify_eq.
  1,2: apply bytes_prefix_spec in E as [t ->]; exists [], t; split_and!; [done..|simpl; lia].
  destruct (bytes_index l p) as [k|]; simplify_eq/=.
  destruct (IH k eq_refl) as (pre & post & -> & Hk & Hmin).
  exists (b :: pre), post. split_and!; [done|simpl; lia|].
  intros [|c pre'] post' Heq; simplify_eq/=.
  - assert (bytes_prefix p (b :: pre ++ p ++ post) = true) by (apply bytes_prefix_spec; by exists post').
    congruence.
  - apply le_n_S, (Hmin pre' post'). done.
Qed.

Lemma bytes_index_None l p : bytes_index l p = None → ∀ pre post, l ≠ pre ++ p ++ post.
Proof.
  induction l as [|b l IH]; cbn [bytes_index]; destruct (bytes_prefix p _) eqn:E; intros H pre post Heq;
    try done.
  - destruct pre, p; done.
  - destruct (bytes_index l p) eqn:Hi; [done|]. destruct pre as [|c pre]; simplify_eq/=.
    + assert (bytes_prefix p (b :: l) = true) by (apply bytes_prefix_spec; by exists post). congruence.
    + by eapply IH.
Qed.

Module strings.

Definition len (s : string) : Z := Z.of_nat (String.length s).

Definition HasPrefix (s prefix : string) : bool := String.prefix prefix s.

(** [s[n:]] and [s[:n]] for [n] within bounds. *)
Fixpoint drop (n : nat) (s : string) : string :=
  match n, s with
  | O, _ => s
  | S n, String _ s => drop n s
  | S _, EmptyString => EmptyString
  end.

Fixpoint take (n : nat) (s : string) : string :=
  match n, s with
  | O, _ => EmptyString
  | S n, String a s => String a (take n s)
  | S _, EmptyString => EmptyString
  end.

Definition HasSuffix (s suffix : string) : bool :=
  (String.length suffix <=? String.length s)%nat &&
  (drop (String.length s - String.length suffix) s =? suffix)%string.

Definition TrimSuffix (s suffix : string) : string :=
  if HasSuffix s suffix then take (String.length s - String.length suffix) s else s.

(** [strings.Index], [None] for -1. *)
Fixpoint Index (s substr : string) : option nat :=
  if HasPrefix s substr then Some O
  else match s with
       | EmptyString => None
       | String _ s => S <$> Index s substr
       end.

Definition Contains (s substr : string) : bool :=
  match Index s substr with Some _ => true | None => false end.

(** [strings.Split(s, sep)] and [strings.SplitN(s, sep, 2)] for a one-byte
    separator. *)
Fixpoint Split (s : string) (sep : ascii) : list string :=
  match s with
  | EmptyString => [EmptyString]
  | String a s =>
      if (a =? sep)%char then EmptyString :: Split s sep
      else match Split s sep with
           | w :: ws => String a w :: ws
           | [] => [String a EmptyString]
           end
  end.

Fixpoint SplitN2 (s : string) (sep : ascii) : list string :=
  match s with
  | EmptyString => [EmptyString]
  | String a s' =>
      if (a =? sep)%char then [EmptyString; s']
      else match SplitN2 s' sep with
           | w :: ws => String a w :: ws
           | [] => [String a EmptyString]
           end
  end.

(** [strings.ToLower] on ASCII; bytes above 127 are left alone. *)
Definition lower_ascii (a : ascii) : ascii :=
  let b := byte_of_ascii a in
  if (65 <=? b) && (b <=? 90) then ascii_of_byte (b + 32) else a.

Fixpoint ToLower (s : string) : string :=
  match s with
  | EmptyString => EmptyString
  | String a s => String (lower_ascii a) (ToLower s)
  end.

Definition upper_ascii (a : ascii) : ascii :=
  let b := byte_of_ascii a in
  if (97 <=? b) && (b <=? 122) then ascii_of_byte (b - 32) else a.

Fixpoint ToUpper (s : string) : string :=
  match s with
  | EmptyString => EmptyString
  | String a s => String (upper_ascii a) (ToUpper s)
  end.

Lemma take_drop n s : take n s +:+ drop n s = s.
Proof.
  revert s. induction n as [|n IH]; intros [|a s]; try done.
  simpl. rewrite string_app_cons. f_equal. apply IH.
Qed.

Lemma drop_app s t : drop (String.length s) (s +:+ t) = t.
Proof. induction s as [|a s IH]; [by destruct t|]. rewrite string_app_cons. apply IH. Qed.

Lemma take_app s t : take (String.length s) (s +:+ t) = s.
Proof.
  induction s as [|a s IH]; [by destruct t|]. rewrite string_app_cons. simpl. f_equal. apply IH.
Qed.

Lemma app_empty_r s : s +:+ "" = s.
Proof. induction s as [|a s IH]; [done|]. rewrite string_app_cons. f_equal. apply IH. Qed.

Lemma length_app s t : String.length (s +:+ t) = (String.length s + String.length t)%nat.
Proof. induction s as [|a s IH]; [done|]. rewrite string_app_cons. simpl. f_equal. apply IH. Qed.

Lemma length_drop n s : String.length (drop n s) = (String.length s - n)%nat.
Proof. revert s. induction n as [|n IH]; intros [|a s]; try done. apply IH. Qed.

Lemma HasPrefix_cons a s b p :
  HasPrefix (String a s) (String b p) = (b =? a)%char && HasPrefix s p.
Proof.
  unfold HasPrefix. simpl. destruct (ascii_dec b a) as [->|Hne].
  - by rewrite Ascii.eqb_refl.
  - apply Ascii.eqb_neq in Hne. by rewrite Hne.
Qed.

Lemma HasPrefix_spec s p : HasPrefix s p = true ↔ ∃ t, s = p +:+ t.
Proof.
  revert s. induction p as [|b p IH]; intros s.
  - split; [by exists s|]. intros _. by destruct s.
  - destruct s as [|a s].
    + split; [done|]. by intros [t Ht].
    + rewrite HasPrefix_cons, andb_true_iff, Ascii.eqb_eq, IH. split.
      * intros [-> [t ->]]. by exists t.
      * intros [t Ht]. rewrite string_app_cons in Ht. injection Ht as -> ->. eauto.
Qed.

Lemma HasPrefix_app p t : HasPrefix (p +:+ t) p = true.
Proof. apply HasPrefix_spec. by eexists. Qed.

Lemma HasSuffix_spec s p : HasSuffix s p = true ↔ ∃ t, s = t +:+ p.
Proof.
  unfold HasSuffix. split.
  - intros [Hl Hd]%andb_prop. apply String.eqb_eq in Hd.
    exists (take (String.length s - String.length p) s).
    rewrite <- Hd at 2. by rewrite take_drop.
  - intros [t ->]. rewrite length_app. apply andb_true_intro. split.
    + apply Nat.leb_le. lia.
    + apply String.eqb_eq. replace (_ - _)%nat with (String.length t) by lia. apply drop_app.
Qed.

Lemma TrimSuffix_app t p : TrimSuffix (t +:+ p) p = t.
Proof.
  unfold TrimSuffix. assert (H : HasSuffix (t +:+ p) p = true) by (apply HasSuffix_spec; eauto).
  rewrite H, length_app. replace (_ - _)%nat with (String.length t) by lia. apply take_app.
Qed.

(** [Index] finds the first occurrence. *)
Lemma Index_Some s p i :
  Index s p = Some i ↔
    HasPrefix (drop i s) p = true ∧ (i ≤ String.length s)%nat ∧
    ∀ j, (j < i)%nat → HasPrefix (drop j s) p = false.
Proof.
  revert i. induction s as [|a s IH]; intros i.
  - cbn [Index]. destruct (HasPrefix "" p) eqn:E.
    + split.
      * intros [= <-]. split_and!; [done|simpl; lia|]. intros j Hj. lia.
      * intros (_ & Hi & _). f_equal. simpl in Hi. lia.
    + split; [done|]. intros (H & _). assert (Hd : drop i "" = "") by (by destruct i). congruence.
  - cbn [Index]. destruct (HasPrefix (String a s) p) eqn:E.
    + split.
      * intros [= <-]. split_and!; [done|simpl; lia|]. intros j Hj. lia.
      * intros (_ & _ & Hmin). destruct i as [|i]; [done|].
        specialize (Hmin 0%nat ltac:(lia)). change (drop 0 (String a s)) with (String a s) in Hmin.
        congruence.
    + split.
      * intros Hi. apply fmap_Some in Hi as (i' & Hi' & ->). apply IH in Hi' as (H1 & H2 & H3).
        split_and!; [done|simpl; lia|]. intros [|j] Hj; [done|]. apply H3. lia.
      * intros (H1 & H2 & H3). destruct i as [|i].
        { change (drop 0 (String a s)) with (String a s) in H1. congruence. }
        apply fmap_Some. exists i. split; [|done]. apply IH. split_and!; [done|simpl in H2; lia|].
        intros j Hj. apply (H3 (S j)). lia.
Qed.

(** Splitting in two at the first separator. *)
Lemma SplitN2_app u v sep :
  Forall (λ a, a ≠ sep) (String.list_ascii_of_string u) →
  SplitN2 (u +:+ String sep v) sep = [u; v].
Proof.
  induction u as [|a u IH]; simpl; intros Hu.
  - by rewrite Ascii.eqb_refl.
  - inversion_clear Hu as [|?? Ha Hu']. apply Ascii.eqb_neq in Ha. rewrite Ha.
    by rewrite IH.
Qed.

Lemma SplitN2_two s sep u v :
  SplitN2 s sep = [u; v] → s = u +:+ String sep v ∧ Forall (λ a, a ≠ sep) (String.list_ascii_of_string u).
Proof.
  revert u v. induction s as [|a s IH]; simpl; intros u v H; [done|].
  destruct (a =? sep)%char eqn:E.
  - apply Ascii.eqb_eq in E as ->. injection H as <- <-. by split; [|constructor].
  - apply Ascii.eqb_neq in E. destruct (SplitN2 s sep) as [|w ws] eqn:Es; [done|].
    injection H as <- ->. destruct (IH w v eq_refl) as [-> Hw]. split; [done|].
    simpl. by constructor.
Qed.

(** [Split] into two pieces: exactly one separator. *)
Lemma Split_nonempty s sep : Split s sep ≠ [].
Proof. destruct s as [|a s]; cbn [Split]; [done|]. destruct (a =? sep)%char; [done|]. by destruct (Split s sep). Qed.

Lemma Split_one s sep u : Split s sep = [u] → s = u.
Proof.
  revert u. induction s as [|a s IH]; cbn [Split]; intros u H; [by injection H|].
  destruct (a =? sep)%char; [injection H as _ H; by apply Split_nonempty in H|].
  destruct (Split s sep) as [|w ws] eqn:Es; [by apply Split_nonempty in Es|].
  injection H as <- ->. by rewrite (IH w eq_refl).
Qed.

Lemma Split_two s sep u v : Split s sep = [u; v] → s = u +:+ String sep v.
Proof.
  revert u v. induction s as [|a s IH]; cbn [Split]; intros u v H; [done|].
  destruct (a =? sep)%char eqn:E.
  - apply Ascii.eqb_eq in E as ->. injection H as <- H. by rewrite (Split_one s sep v).
  - destruct (Split s sep) as [|w ws] eqn:Es; [done|]. injection H as <- ->.
    by rewrite (IH w v eq_refl), string_app_cons.
Qed.

Lemma SplitN2_shape s sep :
  SplitN2 s sep = [s] ∨ ∃ u v, SplitN2 s sep = [u; v].
Proof.
  induction s as [|a s IH]; simpl; [by left|].
  destruct (a =? sep)%char; [right; by eexists _, _|].
  destruct IH as [->|(u & v & ->)]; [by left|right; by eexists _, _].
Qed.
End strings.

(** ** encoding/hex *)

Module hex.

Definition digit (d : Z) : Z := if d <? 10 then 48 + d else 87 + d.

Definition encode_byte (b : Z) : bytes := [digit (b / 16); digit (b mod 16)].

(** [hex.Encode]: lower case, two digits a byte. *)
Definition Encode (l : bytes) : bytes := l ≫= encode_byte.

Definition undigit (c : Z) : option Z :=
  if (48 <=? c) && (c <=? 57) then Some (c - 48)
  else if (97 <=? c) && (c <=? 102) then Some (c - 87)
  else if (65 <=? c) && (c <=? 70) then Some (c - 55)
  else None.

Fixpoint Decode (l : bytes) : option bytes :=
  match l with
  | [] => Some []
  | c1 :: c2 :: l =>
      match undigit c1, undigit c2, Decode l with
      | Some d1, Some d2, Some r => Some (16 * d1 + d2 :: r)
      | _, _, _ => None
      end
  | [_] => None
  end.

Lemma undigit_digit d : 0 ≤ d < 16 → undigit (digit d) = Some d.
Proof.
  intros Hd. unfold undigit, digit. destruct (d <? 10) eqn:E; bool_to_prop; ztest; cbn [andb].
  - f_equal. lia.
  - f_equal. lia.
Qed.

Lemma Encode_cons b l : Encode (b :: l) = digit (b / 16) :: digit (b mod 16) :: Encode l.
Proof. done. Qed.

Lemma Encode_app l1 l2 : Encode (l1 ++ l2) = Encode l1 ++ Encode l2.
Proof. apply bind_app. Qed.

Lemma Encode_length l : length (Encode l) = (2 * length l)%nat.
Proof. induction l as [|b l IH]; [done|]. rewrite Encode_cons. simpl. rewrite IH. lia. Qed.

Lemma Decode_Encode l : wf_bytes l → Decode (Encode l) = Some l.
Proof.
  induction 1 as [|b l Hb Hl IH]; [done|]. rewrite Encode_cons. cbn [Decode].
  unfold is_byte in Hb. rewrite !undigit_digit, IH.
  - f_equal. f_equal. pose proof (Z.div_mod b 16). lia.
  - pose proof (Z.mod_pos_bound b 16). lia.
  - split; [apply Z.div_pos; lia|apply Z.div_lt_upper_bound; lia].
Qed.

Lemma digit_byte d : 0 ≤ d < 16 → is_byte (digit d).
Proof. unfold digit, is_byte. destruct (d <? 10); lia. Qed.

Lemma Encode_wf l : wf_bytes l → wf_bytes (Encode l).
Proof.
  induction 1 as [|b l Hb Hl IH]; [constructor|]. rewrite Encode_cons. unfold is_byte in Hb.
  constructor; [|constructor; [|done]]; apply digit_byte.
  - split; [apply Z.div_pos; lia|apply Z.div_lt_upper_bound; lia].
  - apply Z.mod_pos_bound. lia.
Qed.
End hex.

(** ** encoding/binary *)

Module binary.

(** [BigEndian.PutUint64] of a 64-bit value, as the eight bytes written. *)
Definition be64 (v : Z) : bytes :=
  (λ i, Z.land (Z.shiftr v (8 * (7 - Z.of_nat i))) 255) <$> seq 0 8.

(** [LittleEndian.Uint16]; the two bytes are within bounds at every call. *)
Definition le16 (l : bytes) (i : nat) : Z :=
  match l !! i, l !! S i with
  | Some a, Some b => a + 256 * b
  | _, _ => 0
  end.

(** [LittleEndian.PutUint32] and [PutUint16]. *)
Definition put32 (v : Z) : bytes :=
  [Z.land v 255; Z.land (Z.shiftr v 8) 255; Z.land (Z.shiftr v 16) 255; Z.land (Z.shiftr v 24) 255].
Definition put16 (v : Z) : bytes := [Z.land v 255; Z.land (Z.shiftr v 8) 255].

Lemma land_255_byte v : is_byte (Z.land v 255).
Proof.
  unfold is_byte. change 255 with (Z.ones 8). rewrite Z.land_ones by lia.
  apply Z.mod_pos_bound. lia.
Qed.

Lemma be64_wf v : wf_bytes (be64 v).
Proof. unfold be64. simpl. repeat constructor; apply land_255_byte. Qed.

(** The number that bytes are, most significant first. *)
Definition be_value (l : bytes) : Z := fold_left (λ acc b, acc * 256 + b) l 0.

Lemma be_value_acc l acc : fold_left (λ acc b, acc * 256 + b) l acc = acc * 256 ^ Z.of_nat (length l) + be_value l.
Proof.
  revert acc. unfold be_value. induction l as [|b l IH]; intros acc; cbn [fold_left length]; [lia|].
  rewrite IH, (IH (0 * 256 + b)), Nat2Z.inj_succ, Z.pow_succ_r by lia. lia.
Qed.

Lemma be_value_cons b l : be_value (b :: l) = b * 256 ^ Z.of_nat (length l) + be_value l.
Proof. unfold be_value at 1. cbn [fold_left]. rewrite be_value_acc. lia. Qed.

Lemma be_value_range l : wf_bytes l → 0 ≤ be_value l < 256 ^ Z.of_nat (length l).
Proof.
  induction 1 as [|b l Hb Hl IH]; [done|]. rewrite be_value_cons. cbn [length].
  rewrite Nat2Z.inj_succ, Z.pow_succ_r by lia. unfold is_byte in Hb. nia.
Qed.

Lemma be64_value v : 0 ≤ v < 2 ^ 64 → be_value (be64 v) = v.
Proof.
  intros Hv. unfold be64, be_value. cbn [seq fmap list_fmap fold_left].
  change 255 with (Z.ones 8). rewrite !Z.land_ones, !Z.shiftr_div_pow2 by lia. cbn.
  change (2 ^ 64) with 18446744073709551616 in Hv. Z.div_mod_to_equations. lia.
Qed.

Lemma le16_put16 pre v rest : 0 ≤ v < 65536 → le16 (pre ++ put16 v ++ rest) (length pre) = v.
Proof.
  intros Hv. unfold le16. rewrite (lookup_app_r _ _ (length pre)), Nat.sub_diag by lia.
  rewrite (lookup_app_r _ _ (S (length pre))) by lia.
  replace (S (length pre) - length pre)%nat with 1%nat by lia. cbn.
  change 255 with (Z.ones 8). rewrite !Z.land_ones, Z.shiftr_div_pow2 by lia.
  change (2 ^ 8) with 256. Z.div_mod_to_equations. lia.
Qed.

Lemma put32_halves v : put32 v = put16 v ++ put16 (Z.shiftr v 16).
Proof. unfold put32, put16. cbn. by rewrite Z.shiftr_shiftr by lia. Qed.

Lemma le16_bound l i : wf_bytes l → 0 ≤ le16 l i < 65536.
Proof.
  intros Hl. unfold le16. destruct (l !! i) as [a|] eqn:Ha; [|lia].
  destruct (l !! S i) as [b|] eqn:Hb; [|lia].
  pose proof (Forall_lookup_1 _ _ _ _ Hl Ha) as H1. pose proof (Forall_lookup_1 _ _ _ _ Hl Hb) as H2.
  unfold is_byte in *. lia.
Qed.
End binary.
