(* ===== verification/GoStrconv.v ===== *)
(** * package strconv: integers and booleans

    [ParseUint], [ParseInt], [Atoi], [FormatInt] and [ParseBool], translated
    from Go's standard library for the bases the sources use (10 and 16, so no
    prefix and no underscores).  A parser returns its value together with its
    error, as in Go: on [ErrRange] the value is the bound that was crossed. *)

From S2P Require Import Prelude GoBytes.

Module strconv.

Inductive numError := ErrSyntax | ErrRange.
#[global] Instance numError_eq_dec : EqDecision numError.
Proof. solve_decision. Defined.

(** The value of a digit, letters in either case. *)
Definition digit_val (c : Z) : option Z :=
  if (48 <=? c) && (c <=? 57) then Some (c - 48)
  else
    let l := Z.lor c 32 in
    if (97 <=? l) && (l <=? 122) then Some (l - 97 + 10) else None.

Fixpoint ParseUint_loop (base maxVal : Z) (n : Z) (l : bytes) : Z * option numError :=
  match l with
  | [] => (n, None)
  | c :: l =>
      match digit_val c with
      | None => (0, Some ErrSyntax)
      | Some d =>
          if base <=? d then (0, Some ErrSyntax)
          else if MaxUint64 / base + 1 <=? n then (maxVal, Some ErrRange)
          else
            let n1 := n * base + d in
            if (MaxUint64 <? n1) || (maxVal <? n1) then (maxVal, Some ErrRange)
            else ParseUint_loop base maxVal n1 l
      end
  end.

Definition ParseUint (s : string) (base bitSize : Z) : Z * option numError :=
  if (s =? "")%string then (0, Some ErrSyntax)
  else ParseUint_loop base (2 ^ bitSize - 1) 0 (bytes_of_string s).

(** The sign of a number, and the rest. *)
Definition sign (s : string) : bool * string :=
  match s with
  | String "+" s' => (false, s')
  | String "-" s' => (true, s')
  | _ => (false, s)
  end.

Definition ParseInt (s : string) (base bitSize : Z) : Z * option numError :=
  if (s =? "")%string then (0, Some ErrSyntax)
  else
    let '(neg, s') := sign s in
    match ParseUint s' base bitSize with
    | (_, Some ErrSyntax) => (0, Some ErrSyntax)
    | (un, _) =>
        let cutoff := 2 ^ (bitSize - 1) in
        if negb neg && (cutoff <=? un) then (cutoff - 1, Some ErrRange)
        else if neg && (cutoff <? un) then (- cutoff, Some ErrRange)
        else ((if neg then - un else un), None)
    end.

Definition Atoi (s : string) : Z * option numError := ParseInt s 10 64.

(** [FormatUint] to a list of digits, most significant first; the number of
    binary digits bounds the number of divisions. *)
Fixpoint fmt (fuel : nat) (base n : Z) (acc : bytes) : bytes :=
  match fuel with
  | O => acc
  | S fuel =>
      if n <? base then hex.digit n :: acc
      else fmt fuel base (n / base) (hex.digit (n mod base) :: acc)
  end.

Definition fmt_fuel (n : Z) : nat := S (Z.to_nat (Z.log2 n)).

Definition FormatUint (n base : Z) : string := string_of_bytes (fmt (fmt_fuel n) base n []).

Definition FormatInt (n base : Z) : string :=
  if n <? 0 then String "-" (FormatUint (- n) base) else FormatUint n base.

Definition Itoa (n : Z) : string := FormatInt n 10.

Definition ParseBool (s : string) : option bool :=
  if bool_decide (s ∈ ["1"; "t"; "T"; "true"; "TRUE"; "True"]) then Some true
  else if bool_decide (s ∈ ["0"; "f"; "F"; "false"; "FALSE"; "False"]) then Some false
  else None.

(** ** Round trip *)

Lemma digit_val_digit d : 0 ≤ d < 16 → digit_val (hex.digit d) = Some d.
Proof.
  intros Hd. assert (d ∈ seqZ 0 16) as Hin by (apply elem_of_seqZ; lia).
  assert (Hall : Forall (λ d, digit_val (hex.digit d) = Some d) (seqZ 0 16)).
  { vm_compute. repeat constructor. }
  rewrite Forall_forall in Hall. by apply Hall.
Qed.

Lemma loop_digit base maxVal n d l :
  2 ≤ base ≤ 16 → 0 ≤ d < base → 0 ≤ n → n * base + d ≤ maxVal → maxVal ≤ MaxUint64 →
  ParseUint_loop base maxVal n (hex.digit d :: l) = ParseUint_loop base maxVal (n * base + d) l.
Proof.
  intros Hb Hd Hn Hmax Hu. cbn [ParseUint_loop]. rewrite digit_val_digit by lia.
  assert (n ≤ MaxUint64 / base) by (apply Z.div_le_lower_bound; lia).
  by ztest.
Qed.

Lemma fmt_parse fuel base maxVal n acc :
  2 ≤ base ≤ 16 → 0 ≤ n ≤ maxVal → maxVal ≤ MaxUint64 → n < 2 ^ Z.of_nat fuel →
  (0 < fuel)%nat →
  ParseUint_loop base maxVal 0 (fmt fuel base n acc) = ParseUint_loop base maxVal n acc.
Proof.
  intros Hb Hn Hu. revert n acc Hn. induction fuel as [|fuel IH]; intros n acc Hn Hf Hpos; [lia|].
  cbn [fmt]. destruct (n <? base) eqn:E; bool_to_prop.
  - rewrite loop_digit by lia. by rewrite Z.mul_0_l, Z.add_0_l.
  - pose proof (Z.div_mod n base ltac:(lia)) as Hdm.
    pose proof (Z.mod_pos_bound n base ltac:(lia)).
    assert (0 < n / base) by (apply Z.div_str_pos; lia).
    assert (Hlt : n / base < 2 ^ Z.of_nat fuel).
    { apply Z.div_lt_upper_bound; [lia|].
      replace (Z.of_nat (S fuel)) with (Z.of_nat fuel + 1) in Hf by lia.
      rewrite Z.pow_add_r in Hf by lia. nia. }
    destruct fuel as [|fuel]; [simpl in Hlt; lia|].
    rewrite IH; [|nia|done|lia]. rewrite loop_digit; [|lia..]. f_equal. lia.
Qed.

Lemma fmt_fuel_enough n : 0 ≤ n → n < 2 ^ Z.of_nat (fmt_fuel n).
Proof.
  intros Hn. unfold fmt_fuel. rewrite Nat2Z.inj_succ, Z2Nat.id by apply Z.log2_nonneg.
  destruct (Z.eq_dec n 0) as [->|?]; [done|]. by apply Z.log2_spec; lia.
Qed.

Lemma fmt_wf fuel base n acc :
  2 ≤ base ≤ 16 → 0 ≤ n → wf_bytes acc → wf_bytes (fmt fuel base n acc).
Proof.
  intros Hb. revert n acc. induction fuel as [|fuel IH]; intros n acc Hn Hacc; [done|].
  cbn [fmt]. destruct (n <? base) eqn:E; bool_to_prop.
  - constructor; [apply hex.digit_byte; lia|done].
  - pose proof (Z.mod_pos_bound n base ltac:(lia)). apply IH.
    + apply Z.div_pos; lia.
    + constructor; [apply hex.digit_byte; lia|done].
Qed.

(** A formatted number begins with a digit of the base. *)
Lemma fmt_cons fuel base n acc :
  0 ≤ n → 2 ≤ base → ∃ d l, fmt (S fuel) base n acc = hex.digit d :: l ∧ 0 ≤ d < base.
Proof.
  intros Hn Hb. revert n acc Hn. induction fuel as [|fuel IH]; intros n acc Hn.
  - cbn [fmt]. pose proof (Z.mod_pos_bound n base ltac:(lia)).
    destruct (n <? base) eqn:E; bool_to_prop; eexists _, _; (split; [done|lia]).
  - change (fmt (S (S fuel)) base n acc) with
      (if n <? base then hex.digit n :: acc
       else fmt (S fuel) base (n / base) (hex.digit (n mod base) :: acc)).
    destruct (n <? base) eqn:E; bool_to_prop.
    + eexists _, _. split; [done|lia].
    + apply IH. apply Z.div_pos; lia.
Qed.

(** [ParseUint (FormatUint n base) base bits] returns [n]. *)
Lemma ParseUint_FormatUint n base bits :
  2 ≤ base ≤ 16 → 0 ≤ n < 2 ^ bits → 0 ≤ bits ≤ 64 →
  ParseUint (FormatUint n base) base bits = (n, None).
Proof.
  intros Hb Hn Hbits. unfold ParseUint, FormatUint.
  assert (Hwf : wf_bytes (fmt (fmt_fuel n) base n [])) by (apply fmt_wf; [done|lia|constructor]).
  destruct (fmt_cons (Z.to_nat (Z.log2 n)) base n [] ltac:(lia) ltac:(lia)) as (d & l & Hc & Hd).
  fold (fmt_fuel n) in Hc.
  destruct (String.eqb _ "") eqn:E.
  { apply String.eqb_eq in E. by rewrite Hc in E. }
  rewrite bytes_of_string_of_bytes by done.
  assert (2 ^ bits ≤ 2 ^ 64) by (apply Z.pow_le_mono_r; lia).
  rewrite fmt_parse; [done|done|lia|unfold MaxUint64; lia|apply fmt_fuel_enough; lia|unfold fmt_fuel; lia].
Qed.

Lemma sign_FormatUint n base :
  0 ≤ n → 2 ≤ base ≤ 16 → sign (FormatUint n base) = (false, FormatUint n base).
Proof.
  intros Hn Hb. unfold FormatUint.
  destruct (fmt_cons (Z.to_nat (Z.log2 n)) base n [] Hn ltac:(lia)) as (d & l & Hc & Hd).
  fold (fmt_fuel n) in Hc. rewrite Hc.
  assert (Hall : Forall (λ d, ∀ s, sign (String (ascii_of_byte (hex.digit d)) s) =
    (false, String (ascii_of_byte (hex.digit d)) s)) (seqZ 0 16)).
  { vm_compute. repeat constructor. }
  rewrite Forall_forall in Hall. cbn [string_of_bytes]. apply Hall, elem_of_seqZ. lia.
Qed.

Lemma FormatUint_nonempty n base : 0 ≤ n → 2 ≤ base → (FormatUint n base =? "")%string = false.
Proof.
  intros Hn Hb. unfold FormatUint.
  destruct (fmt_cons (Z.to_nat (Z.log2 n)) base n [] Hn Hb) as (d & l & Hc & Hd).
  fold (fmt_fuel n) in Hc. by rewrite Hc.
Qed.

Lemma digit_val_nonneg c d : digit_val c = Some d → 0 ≤ d.
Proof.
  unfold digit_val. destruct ((48 <=? c) && (c <=? 57)) eqn:E1; [bool_to_prop; intros [= <-]; lia|].
  cbn zeta. destruct ((97 <=? _) && _) eqn:E2; [|done]. bool_to_prop. intros [= <-]. lia.
Qed.

Lemma ParseUint_loop_nonneg base m n l :
  0 < base → 0 ≤ m → 0 ≤ n → 0 ≤ (ParseUint_loop base m n l).1.
Proof.
  intros Hb Hm. revert n. induction l as [|c l IH]; intros n Hn; cbn [ParseUint_loop]; [done|].
  destruct (digit_val c) as [d|] eqn:E; [|by cbn]. apply digit_val_nonneg in E.
  destruct (base <=? d); [by cbn|]. destruct (_ <=? n); [by cbn|]. destruct (_ || _); [by cbn|]. apply IH. nia.
Qed.

(** What parses as an [int64] is one. *)
Lemma ParseInt64_range s v : ParseInt s 10 64 = (v, None) → in_int64 v.
Proof.
  unfold ParseInt. destruct (s =? "")%string; [done|]. destruct (sign s) as [neg s'].
  assert (Hn : 0 ≤ (ParseUint s' 10 64).1).
  { unfold ParseUint. destruct (s' =? "")%string; [done|]. by apply ParseUint_loop_nonneg. }
  destruct (ParseUint s' 10 64) as [un [[]|]]; cbn [fst] in Hn; [done| |];
    (destruct (negb neg && _) eqn:E1; [done|]; destruct (neg && _) eqn:E2; [done|]; intros [= <-];
     unfold in_int64, MinInt64, MaxInt64; change (2 ^ (64 - 1)) with (2 ^ 63) in *;
     destruct neg; cbn [negb andb] in *; bool_to_prop; lia).
Qed.

Lemma ParseInt_FormatInt z base bits :
  2 ≤ base ≤ 16 → 1 ≤ bits ≤ 64 → - 2 ^ (bits - 1) ≤ z < 2 ^ (bits - 1) →
  ParseInt (FormatInt z base) base bits = (z, None).
Proof.
  intros Hb Hbits Hz. assert (Hp : 2 ^ bits = 2 * 2 ^ (bits - 1)).
  { rewrite <- Z.pow_succ_r by lia. f_equal. lia. }
  unfold ParseInt, FormatInt. destruct (z <? 0) eqn:E; bool_to_prop.
  - cbn [sign]. change ((String "-" (FormatUint (- z) base) =? "")%string) with false.
    cbv iota. rewrite ParseUint_FormatUint by lia. cbn [negb andb]. ztest. f_equal. lia.
  - rewrite FormatUint_nonempty, sign_FormatUint by lia.
    rewrite ParseUint_FormatUint by lia. cbn [negb andb]. by ztest.
Qed.

Lemma Atoi_Itoa z : in_int64 z → Atoi (Itoa z) = (z, None).
Proof.
  intros Hz. unfold in_int64, MinInt64, MaxInt64 in Hz. apply ParseInt_FormatInt; [lia..|].
  change (64 - 1) with 63. lia.
Qed.
End strconv.
