(* ===== verification/GoIeee.v ===== *)
(** * float32 and float64: rounding, arithmetic and texts

    A float is a sign, a significand and an exponent, or an infinity or a NaN
    (NaNs are not told apart).  Every operation is the exact result rounded to
    the nearest float, ties to even, as IEEE 754 and the Go specification ask.
    [ParseFloat] and [FormatFloat] are those of package strconv: the first
    follows the scanner of the library and rounds the number read, the second
    gives the fewest digits that are read back as the same float. *)

From S2P Require Import Prelude GoBytes GoStrconv.

Module float.

(** Significands below [2 ^ prec], exponents from [emin]; every finite float
    is below [2 ^ emax]. *)
Record format := MkFormat { prec : Z; emin : Z; emax : Z }.
Definition binary32 : format := MkFormat 24 (-149) 128.
Definition binary64 : format := MkFormat 53 (-1074) 1024.

Inductive float := Fin (neg : bool) (m e : Z) | Inf (neg : bool) | NaN.
#[global] Instance float_eq_dec : EqDecision float.
Proof. solve_decision. Defined.

Record wf_format (f : format) : Prop := { wf_prec : 1 < prec f; wf_emin : emin f ≤ 0; wf_emax : emin f + prec f < emax f }.

(** The representation of a significand and an exponent that the format uses. *)
Definition canonical (f : format) (m e : Z) : Prop :=
  0 ≤ m < 2 ^ prec f ∧ emin f ≤ e ∧ (2 ^ (prec f - 1) ≤ m ∨ e = emin f) ∧ e + prec f ≤ emax f.
Definition wf (f : format) (x : float) : Prop := match x with Fin _ m e => canonical f m e | _ => True end.

Definition zero (f : format) (neg : bool) : float := Fin neg 0 (emin f).

(** ** Rounding *)

(** [n / d] to the nearest integer, ties to even. *)
Definition div_even (n d : Z) : Z :=
  let q := n / d in
  let r := n mod d in
  if (2 * r <? d) || ((2 * r =? d) && Z.even q) then q else q + 1.

(** A ratio times a power of two, as a ratio. *)
Definition scale (e n d : Z) : Z * Z := (n * 2 ^ Z.max 0 e, d * 2 ^ Z.max 0 (- e)).

(** The integer part of the binary logarithm of [n / d]. *)
Definition log2_ratio (n d : Z) : Z :=
  let k := Z.log2 n - Z.log2 d in
  let '(n, d) := scale (- k) n d in
  if d <=? n then k else k - 1.

(** The significand and the exponent nearest to [n / d], without upper
    bound on the exponent. *)
Definition round_ratio (f : format) (n d : Z) : Z * Z :=
  let e := Z.max (emin f) (log2_ratio n d - prec f + 1) in
  let '(n, d) := scale (- e) n d in
  let m := div_even n d in
  if m =? 2 ^ prec f then (2 ^ (prec f - 1), e + 1) else (m, e).

(** The float nearest to [n / d] with the sign [neg]. *)
Definition round (f : format) (neg : bool) (n d : Z) : float :=
  if n =? 0 then zero f neg
  else
    let '(m, e) := round_ratio f n d in
    if emax f <? e + prec f then Inf neg else Fin neg m e.

(** ** Arithmetic *)

Definition of_int (f : format) (z : Z) : float := round f (z <? 0) (Z.abs z) 1.

(** [float32(x)] of a float64, and back. *)
Definition convert (f : format) (x : float) : float :=
  match x with
  | Fin neg m e => let '(n, d) := scale e m 1 in round f neg n d
  | _ => x
  end.

Definition is_zero (x : float) : bool := match x with Fin _ m _ => m =? 0 | _ => false end.

Definition mul (f : format) (x y : float) : float :=
  match x, y with
  | NaN, _ | _, NaN => NaN
  | Inf s, y => if is_zero y then NaN else Inf (xorb s (match y with Fin s' _ _ => s' | Inf s' => s' | NaN => false end))
  | Fin s m _, Inf s' => if m =? 0 then NaN else Inf (xorb s s')
  | Fin s m e, Fin s' m' e' => let '(n, d) := scale (e + e') (m * m') 1 in round f (xorb s s') n d
  end.

Definition div (f : format) (x y : float) : float :=
  match x, y with
  | NaN, _ | _, NaN => NaN
  | Inf _, Inf _ => NaN
  | Inf s, Fin s' _ _ => Inf (xorb s s')
  | Fin s _ _, Inf s' => zero f (xorb s s')
  | Fin s m e, Fin s' m' e' =>
      if m' =? 0 then if m =? 0 then NaN else Inf (xorb s s')
      else let '(n, d) := scale (e - e') m m' in round f (xorb s s') n d
  end.

(** The integer part of a finite float. *)
Definition int_part (x : float) : Z :=
  match x with
  | Fin neg m e => let '(n, d) := scale e m 1 in if neg then - (n / d) else n / d
  | _ => 0
  end.

(** [math.Trunc] *)
Definition Trunc (f : format) (x : float) : float :=
  match x with
  | Fin neg m e => let '(n, d) := scale e m 1 in round f neg (n / d) 1
  | _ => x
  end.

(** [math.Float64bits] of a float that is not a NaN. *)
Definition bits (f : format) (x : float) : option Z :=
  let sign (neg : bool) := if neg then 2 ^ (prec f - 1) * (2 * emax f) else 0 in
  match x with
  | Fin neg m e => Some (sign neg + (e - emin f) * 2 ^ (prec f - 1) + m)
  | Inf neg => Some (sign neg + (2 * emax f - 1) * 2 ^ (prec f - 1))
  | NaN => None
  end.

(** [math.Frexp] of a positive float: a fraction in [1/2, 1) and its power of
    two; [math.Ldexp]. *)
Definition Frexp (f : format) (x : float) : float * Z :=
  match x with
  | Fin neg m e =>
      if m =? 0 then (x, 0)
      else
        let k := Z.log2 m + 1 in
        let '(n, d) := scale (- k) m 1 in (round f neg n d, e + k)
  | _ => (x, 0)
  end.
Definition Ldexp (f : format) (x : float) (k : Z) : float :=
  match x with
  | Fin neg m e => let '(n, d) := scale (e + k) m 1 in round f neg n d
  | _ => x
  end.

(** [math.Pow(x, y)] for a finite [x] above 1 and an integer [y >= 0] held by
    a float: the loop over the bits of [y] multiplies fractions and adds
    exponents. *)
Definition half (f : format) : float := round f false 1 2.
Definition below_half (f : format) (x : float) : bool :=
  match x with Fin _ m e => let '(n, d) := scale e m 1 in 2 * n <? d | _ => false end.

Fixpoint Pow_loop (fuel : nat) (f : format) (i : Z) (a1 : float) (ae : Z) (x1 : float) (xe : Z) : float * Z :=
  match fuel with
  | O => (a1, ae)
  | S fuel =>
      if i =? 0 then (a1, ae)
      else if (xe <? - 2 ^ 12) || (2 ^ 12 <? xe) then (a1, ae + xe)
      else
        let '(a1, ae) := if Z.odd i then (mul f a1 x1, ae + xe) else (a1, ae) in
        let x1 := mul f x1 x1 in
        let xe := 2 * xe in
        let '(x1, xe) := if below_half f x1 then (mul f (of_int f 2) x1, xe - 1) else (x1, xe) in
        Pow_loop fuel f (i / 2) a1 ae x1 xe
  end.

Definition Pow (f : format) (x : float) (y : Z) : float :=
  if y =? 0 then of_int f 1
  else if y =? 1 then x
  else if 2 ^ 63 <=? y then Inf false
  else
    let '(x1, xe) := Frexp f x in
    let '(a1, ae) := Pow_loop 63 f y (of_int f 1) 0 x1 xe in Ldexp f a1 ae.

(** ** Texts read: [strconv.ParseFloat] *)

Definition lower (c : Z) : Z := Z.lor c 32.
Definition isDigit (c : Z) : bool := (48 <=? c) && (c <=? 57).

(** [underscoreOK]: an underscore separates digits; one may follow the prefix. *)
Inductive last_seen := Beginning | Digit | Underscore | Other.

Fixpoint underscore_loop (hex : bool) (saw : last_seen) (s : bytes) : bool :=
  match s with
  | [] => match saw with Underscore => false | _ => true end
  | c :: s =>
      if isDigit c || hex && (97 <=? lower c) && (lower c <=? 102) then underscore_loop hex Digit s
      else if c =? 95 then match saw with Digit => underscore_loop hex Underscore s | _ => false end
      else match saw with Underscore => false | _ => underscore_loop hex Other s end
  end.

Definition unsigned (s : bytes) : option bool * bytes :=
  match s with
  | c :: s' => if c =? 43 then (Some false, s') else if c =? 45 then (Some true, s') else (None, s)
  | [] => (None, [])
  end.

Definition underscoreOK (s : bytes) : bool :=
  let s := (unsigned s).2 in
  match s with
  | c :: p :: s' =>
      if (c =? 48) && ((lower p =? 98) || (lower p =? 111) || (lower p =? 120))
      then underscore_loop (lower p =? 120) Digit s'
      else underscore_loop false Beginning s
  | _ => underscore_loop false Beginning s
  end.

(** [special]: infinities and NaNs, in any case of letters. *)
Definition special (s : bytes) : option float :=
  let low c := if (65 <=? c) && (c <=? 90) then c + 32 else c in
  let '(sgn, s') := unsigned s in
  let w := low <$> s' in
  if bool_decide (w = bytes_of_string "inf") || bool_decide (w = bytes_of_string "infinity")
  then Some (Inf (match sgn with Some b => b | None => false end))
  else match sgn with
       | None => if bool_decide (w = bytes_of_string "nan") then Some NaN else None
       | Some _ => None
       end.

(** The digits of [readFloat]: the significand read so far, the digits after
    the point, and what has been seen. *)
Record scan := MkScan { mant : Z; frac : Z; sawdot : bool; sawdigits : bool; underscores : bool }.
Definition scan0 : scan := MkScan 0 0 false false false.

Fixpoint scan_digits (base : Z) (st : scan) (s : bytes) : scan * bytes :=
  match s with
  | [] => (st, [])
  | c :: s' =>
      if c =? 95 then scan_digits base (MkScan (mant st) (frac st) (sawdot st) (sawdigits st) true) s'
      else if c =? 46 then
        if sawdot st then (st, s)
        else scan_digits base (MkScan (mant st) (frac st) true (sawdigits st) (underscores st)) s'
      else match strconv.digit_val c with
           | Some d =>
               if d <? base then
                 scan_digits base
                   (MkScan (mant st * base + d) (if sawdot st then frac st + 1 else frac st) (sawdot st) true (underscores st)) s'
               else (st, s)
           | None => (st, s)
           end
  end.

(** The digits of the exponent, which stops growing above 10000. *)
Fixpoint scan_exponent (e : Z) (us : bool) (s : bytes) : Z * bool * bytes :=
  match s with
  | [] => (e, us, [])
  | c :: s' =>
      if c =? 95 then scan_exponent e true s'
      else if isDigit c then scan_exponent (if e <? 10000 then e * 10 + (c - 48) else e) us s'
      else (e, us, s)
  end.

(** [readFloat]: the sign, the significand, the base and its exponent. *)
Record number := MkNumber { n_neg : bool; n_mant : Z; n_hex : bool; n_exp : Z }.

Definition readFloat (s : bytes) : option (number * bytes) :=
  let '(sgn, s1) := unsigned s in
  let neg := match sgn with Some b => b | None => false end in
  let '(hex, s2) :=
    match s1 with
    | c :: p :: (_ :: _) as s' => if (c =? 48) && (lower p =? 120) then (true, drop 2 s1) else (false, s1)
    | _ => (false, s1)
    end in
  let '(st, s3) := scan_digits (if hex then 16 else 10) scan0 s2 in
  if negb (sawdigits st) then None
  else
    let exponent :=
      match s3 with
      | c :: s4 =>
          if lower c =? (if hex then 112 else 101) then
            let '(esgn, s5) := unsigned s4 in
            match s5 with
            | d :: _ =>
                if isDigit d then
                  let '(e, us, s6) := scan_exponent 0 (underscores st) s5 in
                  Some (match esgn with Some true => - e | _ => e end, us, s6)
                else None
            | [] => None
            end
          else if hex then None else Some (0, underscores st, s3)
      | [] => if hex then None else Some (0, underscores st, [])
      end in
    match exponent with
    | None => None
    | Some (e, us, rest) =>
        if us && negb (underscoreOK (take (length s - length rest) s)) then None
        else Some (MkNumber neg (mant st) hex (e - (if hex then 4 else 1) * frac st), rest)
    end.

(** [D * 10 ^ X] as a ratio. *)
Definition decimal_ratio (D X : Z) : Z * Z := (D * 10 ^ Z.max 0 X, 10 ^ Z.max 0 (- X)).

Definition value_of (f : format) (x : number) : float :=
  let '(n, d) := if n_hex x then scale (n_exp x) (n_mant x) 1 else decimal_ratio (n_mant x) (n_exp x) in
  round f (n_neg x) n d.

Definition ParseFloat (s : bytes) (f : format) : float * option strconv.numError :=
  match special s with
  | Some x => (x, None)
  | None =>
      match readFloat s with
      | Some (x, []) =>
          let v := value_of f x in
          match v with Inf _ => (v, Some strconv.ErrRange) | _ => (v, None) end
      | _ => (zero f false, Some strconv.ErrSyntax)
      end
  end.

(** ** Texts written: [strconv.FormatFloat(x, 'f', -1, bits)] *)

Definition decimal (n : Z) : bytes := strconv.fmt (strconv.fmt_fuel n) 10 n [].

(** The fewest digits [D] of [N * 10 ^ X] such that [D] and its power of ten
    are read as [x]; [k] digits are left out at first. *)
Fixpoint shortest (f : format) (x : float) (neg : bool) (N X : Z) (k : nat) : Z * Z :=
  let p := 10 ^ Z.of_nat k in
  let reads D := let '(n, d) := decimal_ratio D (X + Z.of_nat k) in bool_decide (round f neg n d = x) in
  let lo := N / p in
  let r := N mod p in
  if reads lo then
    (if reads (lo + 1) && ((p <? 2 * r) || ((2 * r =? p) && Z.odd lo)) then lo + 1 else lo, X + Z.of_nat k)
  else if reads (lo + 1) then (lo + 1, X + Z.of_nat k)
  else match k with O => (N, X) | S k => shortest f x neg N X k end.

(** The digits [D] with the point where [X] puts it. *)
Definition fixed (D X : Z) : bytes :=
  let ds := decimal D in
  if 0 <=? X then ds ++ replicate (Z.to_nat X) 48
  else
    let k := Z.to_nat (- X) in
    let ds := replicate (S k - length ds) 48 ++ ds in
    take (length ds - k) ds ++ [46] ++ drop (length ds - k) ds.

(** [m * 2 ^ e] as an integer times a power of ten. *)
Definition exact_decimal (m e : Z) : Z * Z := if 0 <=? e then (m * 2 ^ e, 0) else (m * 5 ^ (- e), e).

Definition FormatFloat (f : format) (x : float) : bytes :=
  match x with
  | NaN => bytes_of_string "NaN"
  | Inf neg => bytes_of_string (if neg then "-Inf" else "+Inf")
  | Fin neg m e =>
      (if neg then [45] else []) ++
      (if m =? 0 then [48]
       else
         let '(N, X) := exact_decimal m e in
         let '(D, Y) := shortest f x neg N X (length (decimal N) - 1) in
         fixed D Y)
  end.

(** ** What rounding does *)

Lemma pow2_pos k : 0 < 2 ^ Z.max 0 k.
Proof. apply Z.pow_pos_nonneg; lia. Qed.

(** Scaling, seen from far enough. *)
Lemma scale_common e n d N :
  0 ≤ N → 0 ≤ N + e →
  let '(n', d') := scale e n d in ∃ c, 0 < c ∧ n * 2 ^ (N + e) = n' * c ∧ d * 2 ^ N = d' * c.
Proof.
  intros HN He. unfold scale. exists (2 ^ (N + Z.min 0 e)). split; [apply Z.pow_pos_nonneg; lia|].
  rewrite <- !Z.mul_assoc, <- !Z.pow_add_r by lia. split; do 2 f_equal; lia.
Qed.

Lemma scale_pos e n d : 0 < n → 0 < d → let '(n', d') := scale e n d in 0 < n' ∧ 0 < d'.
Proof. intros. cbn. pose proof (pow2_pos e). pose proof (pow2_pos (- e)). nia. Qed.

Lemma scale_succ e n d :
  let '(n1, d1) := scale e n d in let '(n2, d2) := scale (e - 1) n d in
  n2 = n1 ∧ d2 = 2 * d1 ∨ n1 = 2 * n2 ∧ d2 = d1.
Proof.
  cbn. destruct (decide (e ≤ 0)) as [He|He].
  - left. replace (Z.max 0 (e - 1)) with (Z.max 0 e) by lia. split; [done|].
    replace (Z.max 0 (- (e - 1))) with (Z.succ (Z.max 0 (- e))) by lia. rewrite Z.pow_succ_r by lia. ring.
  - right. replace (Z.max 0 e) with (Z.succ (Z.max 0 (e - 1))) by lia. rewrite Z.pow_succ_r by lia.
    replace (Z.max 0 (- (e - 1))) with (Z.max 0 (- e)) by lia. split; [ring|done].
Qed.

Lemma log2_ratio_spec n d :
  0 < n → 0 < d → let '(n', d') := scale (- log2_ratio n d) n d in d' ≤ n' < 2 * d'.
Proof.
  intros Hn Hd. unfold log2_ratio. set (k := Z.log2 n - Z.log2 d).
  pose proof (Z.log2_spec n Hn) as Hln. pose proof (Z.log2_spec d Hd) as Hld.
  assert (Hk : let '(n', d') := scale (- k) n d in n' < 2 * d' ∧ d' < 2 * n').
  { pose proof (scale_common (- k) n d (Z.log2 n + Z.log2 d) ltac:(pose proof (Z.log2_nonneg n); pose proof (Z.log2_nonneg d); lia)
      ltac:(subst k; pose proof (Z.log2_nonneg n); pose proof (Z.log2_nonneg d); lia)) as Hc.
    destruct (scale (- k) n d) as [n' d']. destruct Hc as (c & Hc & H1 & H2).
    rewrite Z.pow_succ_r in Hln, Hld by apply Z.log2_nonneg.
    replace (Z.log2 n + Z.log2 d + - k) with (Z.log2 d + Z.log2 d) in H1 by lia.
    rewrite Z.pow_add_r in H1, H2 by apply Z.log2_nonneg.
    assert (0 < 2 ^ Z.log2 d) by (apply Z.pow_pos_nonneg; [lia|apply Z.log2_nonneg]).
    assert (0 < 2 ^ Z.log2 n) by (apply Z.pow_pos_nonneg; [lia|apply Z.log2_nonneg]).
    set (A := 2 ^ Z.log2 n) in *. set (B := 2 ^ Z.log2 d) in *. clearbody A B k.
    assert (n * B < 2 * A * d) by nia. assert (A * d < 2 * B * n) by nia.
    split; apply (Z.mul_lt_mono_pos_r (c * 1)); [lia| |lia|].
    - assert (n' * c < 2 * d' * c); [|lia]. rewrite <- Z.mul_assoc, <- H1, <- H2. nia.
    - assert (d' * c < 2 * n' * c); [|lia]. rewrite <- Z.mul_assoc, <- H1, <- H2. nia. }
  pose proof (scale_succ (- k + 1) n d) as Hs. replace (- k + 1 - 1) with (- k) in Hs by lia.
  destruct (scale (- k) n d) as [n' d'] eqn:E. destruct (d' <=? n') eqn:El; bool_to_prop.
  - rewrite E. lia.
  - replace (- (k - 1)) with (- k + 1) by lia. destruct (scale (- k + 1) n d) as [n2 d2]. lia.
Qed.

Lemma log2_ratio_unique n d k :
  0 < n → 0 < d → (let '(n', d') := scale (- k) n d in d' ≤ n' < 2 * d') → log2_ratio n d = k.
Proof.
  intros Hn Hd Hk. pose proof (log2_ratio_spec n d Hn Hd) as Hl. set (l := log2_ratio n d) in *.
  set (N := Z.abs k + Z.abs l).
  pose proof (scale_common (- k) n d N ltac:(lia) ltac:(lia)) as H1.
  pose proof (scale_common (- l) n d N ltac:(lia) ltac:(lia)) as H2.
  destruct (scale (- k) n d) as [n1 d1]. destruct (scale (- l) n d) as [n2 d2].
  destruct H1 as (c1 & ? & H11 & H12). destruct H2 as (c2 & ? & H21 & H22).
  assert (Hb1 : d * 2 ^ N ≤ n * 2 ^ (N + - k) < 2 * (d * 2 ^ N)) by nia.
  assert (Hb2 : d * 2 ^ N ≤ n * 2 ^ (N + - l) < 2 * (d * 2 ^ N)) by nia.
  destruct (Z.lt_trichotomy l k) as [Hlt|[Heq|Hgt]]; [|done|].
  - replace (N + - l) with (Z.succ (N + - k + (k - l - 1))) in Hb2 by lia.
    rewrite Z.pow_succ_r, Z.pow_add_r in Hb2 by lia. assert (0 < 2 ^ (k - l - 1)) by (apply Z.pow_pos_nonneg; lia). nia.
  - replace (N + - k) with (Z.succ (N + - l + (l - k - 1))) in Hb1 by lia.
    rewrite Z.pow_succ_r, Z.pow_add_r in Hb1 by lia. assert (0 < 2 ^ (l - k - 1)) by (apply Z.pow_pos_nonneg; lia). nia.
Qed.

Lemma div_even_exact m d : 0 < d → div_even (m * d) d = m.
Proof. intros Hd. unfold div_even. rewrite Z.div_mul, Z.mod_mul by lia. by ztest. Qed.

Lemma div_even_near n d : 0 < d → 2 * Z.abs (n - div_even n d * d) ≤ d.
Proof.
  intros Hd. unfold div_even. pose proof (Z.div_mod n d ltac:(lia)). pose proof (Z.mod_pos_bound n d Hd).
  destruct (_ || _) eqn:E; [|]; bool_to_prop; [|nia].
  apply orb_prop in E as [E|E]; bool_to_prop; nia.
Qed.

Lemma div_even_bounds n d a b : 0 < d → a * d ≤ n ≤ b * d → a ≤ div_even n d ≤ b.
Proof. intros Hd Hn. pose proof (div_even_near n d Hd). nia. Qed.

Section rounding.
Context (f : format) (Hf : wf_format f).

(** The exponent chosen leaves at most [prec] bits before the point, and
    exactly as many unless it is the least one. *)
Lemma exponent_bounds n d :
  0 < n → 0 < d →
  let e := Z.max (emin f) (log2_ratio n d - prec f + 1) in
  let '(n', d') := scale (- e) n d in
  n' < 2 ^ prec f * d' ∧ (emin f < e → 2 ^ (prec f - 1) * d' ≤ n').
Proof.
  intros Hn Hd e. pose proof (log2_ratio_spec n d Hn Hd) as Hl. set (l := log2_ratio n d) in *.
  destruct Hf as [Hp _ _]. set (N := Z.abs e + Z.abs l + prec f).
  pose proof (scale_common (- l) n d N ltac:(lia) ltac:(lia)) as H1.
  pose proof (scale_common (- e) n d N ltac:(lia) ltac:(lia)) as H2.
  destruct (scale (- l) n d) as [n1 d1]. destruct (scale (- e) n d) as [n2 d2].
  destruct H1 as (c1 & ? & H11 & H12). destruct H2 as (c2 & ? & H21 & H22).
  assert (Hb : d * 2 ^ N ≤ n * 2 ^ (N + - l) < 2 * (d * 2 ^ N)) by nia.
  assert (0 < 2 ^ (N - e)) by (apply Z.pow_pos_nonneg; lia).
  assert (0 < 2 ^ (N - l)) by (apply Z.pow_pos_nonneg; lia).
  replace (N + - l) with (N - l) in * by lia. replace (N + - e) with (N - e) in * by lia.
  split.
  - assert (Hx : 2 ^ (N - e) * 2 ≤ 2 ^ prec f * 2 ^ (N - l)).
    { rewrite <- Z.pow_add_r, Z.mul_comm, <- Z.pow_succ_r by lia. apply Z.pow_le_mono_r; lia. }
    apply (Z.mul_lt_mono_pos_r c2); [done|]. rewrite <- Z.mul_assoc, <- H21, <- H22. nia.
  - intros He. assert (Hx : 2 ^ (N - e) = 2 ^ (prec f - 1) * 2 ^ (N - l)).
    { rewrite <- Z.pow_add_r by lia. f_equal. lia. }
    apply (Z.mul_le_mono_pos_r _ _ c2); [done|]. rewrite <- Z.mul_assoc, <- H21, <- H22, Hx. nia.
Qed.

(** The significand and the exponent are within half a unit of the last place
    of the ratio, and of the format but for the largest exponent. *)
Lemma round_ratio_spec n d :
  0 < n → 0 < d →
  let '(m, e) := round_ratio f n d in
  0 ≤ m < 2 ^ prec f ∧ emin f ≤ e ∧ (2 ^ (prec f - 1) ≤ m ∨ e = emin f) ∧
  let '(n', d') := scale (- e) n d in 2 * Z.abs (n' - m * d') ≤ d'.
Proof.
  intros Hn Hd. pose proof (exponent_bounds n d Hn Hd) as Hb. cbv zeta in Hb. unfold round_ratio.
  set (e := Z.max _ _) in *. pose proof (scale_pos (- e) n d Hn Hd) as Hpos.
  pose proof (scale_succ (- e) n d) as Hs. destruct Hf as [Hp _ _].
  assert (H2 : 2 ^ prec f = 2 * 2 ^ (prec f - 1)) by (rewrite <- Z.pow_succ_r by lia; f_equal; lia).
  assert (0 < 2 ^ (prec f - 1)) by (apply Z.pow_pos_nonneg; lia).
  destruct (scale (- e) n d) as [n' d'] eqn:E. destruct Hb as [Hb1 Hb2]. destruct Hpos as [Hn' Hd'].
  pose proof (div_even_near n' d' Hd') as Hnear.
  pose proof (div_even_bounds n' d' 0 (2 ^ prec f) Hd' ltac:(lia)) as Hm.
  destruct (div_even n' d' =? 2 ^ prec f) eqn:Em; bool_to_prop.
  - split; [lia|]. split; [lia|]. split; [lia|]. replace (- (e + 1)) with (- e - 1) by lia.
    destruct (scale (- e - 1) n d) as [n2 d2]. rewrite Em, H2 in Hnear. destruct Hs as [[-> ->]|[-> ->]]; lia.
  - split; [lia|]. split; [lia|]. rewrite E. split; [|exact Hnear].
    destruct (decide (emin f < e)) as [He|He]; [left|right; lia].
    apply (div_even_bounds n' d' (2 ^ (prec f - 1)) (2 ^ prec f) Hd'). split; [by apply Hb2|lia].
Qed.

(** A ratio that is a float is not changed. *)
Lemma round_ratio_exact n d m e :
  0 < m → 0 < n → 0 < d → canonical f m e → (let '(n', d') := scale (- e) n d in n' = m * d') →
  round_ratio f n d = (m, e).
Proof.
  intros Hm0 Hn Hd (Hm & He & Hlow & _) Hx. destruct Hf as [Hp _ _].
  assert (Hl : log2_ratio n d = Z.log2 m + e).
  { apply log2_ratio_unique; [done..|]. pose proof (Z.log2_spec m Hm0) as Hs.
    rewrite Z.pow_succ_r in Hs by apply Z.log2_nonneg. pose proof (Z.log2_nonneg m).
    set (N := Z.abs e + Z.log2 m).
    pose proof (scale_common (- e) n d N ltac:(lia) ltac:(lia)) as H1.
    pose proof (scale_common (- (Z.log2 m + e)) n d N ltac:(lia) ltac:(lia)) as H2.
    destruct (scale (- e) n d) as [n1 d1]. destruct (scale _ n d) as [n2 d2]. subst n1.
    destruct H1 as (c1 & ? & H11 & H12). destruct H2 as (c2 & ? & H21 & H22).
    replace (N + - e) with (Z.log2 m + (N + - (Z.log2 m + e))) in H11 by lia.
    rewrite Z.pow_add_r in H11 by lia. set (P := 2 ^ Z.log2 m) in *. set (Q := 2 ^ (N + _)) in *.
    assert (HP : P * (n2 * c2) = m * (d2 * c2)).
    { rewrite <- H21, <- H22, H12. lia. }
    assert (P * n2 = m * d2) by (apply (Z.mul_reg_r _ _ c2); lia).
    pose proof (scale_pos (- (Z.log2 m + e)) n d Hn Hd). assert (0 < d2) by nia.
    split; nia. }
  assert (Hme : Z.max (emin f) (log2_ratio n d - prec f + 1) = e).
  { rewrite Hl. assert (Z.log2 m < prec f) by (apply Z.log2_lt_pow2; lia).
    destruct Hlow as [Hlow| ->]; [|lia]. pose proof (Z.log2_le_mono _ _ Hlow) as Hg.
    rewrite Z.log2_pow2 in Hg by lia. lia. }
  unfold round_ratio. rewrite Hme. pose proof (scale_pos (- e) n d Hn Hd).
  destruct (scale (- e) n d) as [n' d']. subst n'. rewrite div_even_exact by lia. by ztest.
Qed.
End rounding.

Lemma round_exact f neg n d m e :
  wf_format f → 0 < m → 0 < n → 0 < d → canonical f m e → (let '(n', d') := scale (- e) n d in n' = m * d') →
  round f neg n d = Fin neg m e.
Proof.
  intros Hf Hm Hn Hd Hc Hx. unfold round. rewrite (round_ratio_exact f Hf n d m e) by done.
  destruct Hc as (_ & _ & _ & Hc). by ztest.
Qed.

(** ** What is written is read *)

Definition dval (acc : Z) (ds : bytes) : Z := fold_left (λ a c, a * 10 + (c - 48)) ds acc.
Definition digit (c : Z) : Prop := 48 ≤ c ≤ 57.
Definition plain (c : Z) : Prop := digit c ∨ c = 46.

Lemma dval_cons a c l : dval a (c :: l) = dval (a * 10 + (c - 48)) l.
Proof. done. Qed.

Lemma dval_app a l1 l2 : dval a (l1 ++ l2) = dval (dval a l1) l2.
Proof. apply fold_left_app. Qed.

Lemma dval_zeros a k : dval a (replicate k 48) = a * 10 ^ Z.of_nat k.
Proof.
  revert a. induction k as [|k IH]; intros a; [cbn; lia|]. cbn [replicate].
  rewrite dval_cons, IH, Nat2Z.inj_succ, Z.pow_succ_r by lia. lia.
Qed.

Lemma hex_digit_digit d : 0 ≤ d < 10 → digit (hex.digit d) ∧ hex.digit d - 48 = d.
Proof. intros. unfold digit, hex.digit. ztest. lia. Qed.

Lemma fmt_digits fuel n acc : 0 ≤ n → Forall digit acc → Forall digit (strconv.fmt fuel 10 n acc).
Proof.
  revert n acc. induction fuel as [|fuel IH]; intros n acc Hn Ha; [done|]. cbn [strconv.fmt].
  destruct (n <? 10) eqn:E; bool_to_prop.
  - constructor; [apply hex_digit_digit; lia|done].
  - apply IH; [apply Z.div_pos; lia|]. constructor; [|done]. apply hex_digit_digit, Z.mod_pos_bound. lia.
Qed.

Lemma fmt_dval fuel n acc :
  0 ≤ n < 2 ^ Z.of_nat fuel → (0 < fuel)%nat → dval 0 (strconv.fmt fuel 10 n acc) = dval n acc.
Proof.
  revert n acc. induction fuel as [|fuel IH]; intros n acc Hn Hf; [lia|]. cbn [strconv.fmt].
  rewrite Nat2Z.inj_succ, Z.pow_succ_r in Hn by lia. pose proof (Z.div_mod n 10 ltac:(lia)).
  pose proof (Z.mod_pos_bound n 10 ltac:(lia)). destruct (n <? 10) eqn:E; bool_to_prop.
  - rewrite dval_cons. f_equal. destruct (hex_digit_digit n); lia.
  - assert (0 ≤ n / 10 < 2 ^ Z.of_nat fuel) by lia.
    destruct fuel as [|fuel]; [cbn in *; lia|]. rewrite IH by (done || lia). rewrite dval_cons. f_equal.
    destruct (hex_digit_digit (n mod 10)); lia.
Qed.

Lemma decimal_spec n : 0 ≤ n → Forall digit (decimal n) ∧ dval 0 (decimal n) = n ∧ decimal n ≠ [].
Proof.
  intros Hn. unfold decimal. split; [by apply fmt_digits|]. split.
  - apply (fmt_dval (strconv.fmt_fuel n) n []); [split; [done|by apply strconv.fmt_fuel_enough]|unfold strconv.fmt_fuel; lia].
  - destruct (strconv.fmt_cons (Z.to_nat (Z.log2 n)) 10 n [] Hn ltac:(lia)) as (d & l & Hc & _).
    unfold strconv.fmt_fuel. by rewrite Hc.
Qed.

Lemma digit_val_of c : digit c → strconv.digit_val c = Some (c - 48).
Proof. unfold digit. intros Hc. unfold strconv.digit_val. by ztest. Qed.

Lemma scan_digits_app st ds rest :
  Forall digit ds →
  scan_digits 10 st (ds ++ rest) =
  scan_digits 10 (MkScan (dval (mant st) ds) (if sawdot st then frac st + Z.of_nat (length ds) else frac st)
    (sawdot st) (match ds with [] => sawdigits st | _ => true end) (underscores st)) rest.
Proof.
  intros Hds. revert st. induction Hds as [|c ds Hc Hds IH]; intros st.
  - cbn. destruct st as [? ? [] ? ?]; cbn; by rewrite ?Z.add_0_r.
  - cbn [app scan_digits]. rewrite digit_val_of by done. unfold digit in Hc. ztest.
    rewrite IH. cbn [mant frac sawdot sawdigits underscores dval fold_left length]. f_equal. f_equal.
    + destruct (sawdot st); lia.
    + by destruct ds.
Qed.

(** The text of [fixed]: digits, perhaps a point and digits. *)
Lemma fixed_shape D X :
  0 ≤ D →
  ∃ ds fs, fixed D X = ds ++ (if 0 <=? X then [] else [46] ++ fs) ∧ ds ≠ [] ∧ Forall digit ds ∧ Forall digit fs ∧
    if 0 <=? X then dval 0 ds = D * 10 ^ X else dval (dval 0 ds) fs = D ∧ Z.of_nat (length fs) = - X.
Proof.
  intros HD. destruct (decimal_spec D HD) as (H1 & H2 & H3). unfold fixed. destruct (0 <=? X) eqn:E; bool_to_prop.
  - exists (decimal D ++ replicate (Z.to_nat X) 48), []. rewrite app_nil_r. split; [done|].
    split; [by destruct (decimal D)|]. split; [apply Forall_app; split; [done|by apply Forall_replicate]|].
    split; [done|]. rewrite dval_app, H2, dval_zeros. by rewrite Z2Nat.id by lia.
  - set (k := Z.to_nat (- X)). assert (Hk : Z.of_nat k = - X) by (subst k; lia). set (ds := replicate (S k - length (decimal D)) 48 ++ decimal D).
    assert (Hlen : (S k ≤ length ds)%nat) by (subst ds; rewrite length_app, length_replicate; lia).
    assert (Hds : Forall digit ds) by (apply Forall_app; split; [by apply Forall_replicate|done]).
    exists (take (length ds - k) ds), (drop (length ds - k) ds). split; [done|]. split.
    { intros Hnil%(f_equal length). rewrite length_take in Hnil. cbn [length] in Hnil. lia. }
    split; [by apply Forall_take|]. split; [by apply Forall_drop|]. rewrite length_drop. split; [|lia].
    rewrite <- dval_app, take_drop. subst ds. by rewrite dval_app, dval_zeros, Z.mul_0_l.
Qed.

Lemma lower_plain c k : plain c → 58 ≤ k → lower c ≠ k.
Proof.
  intros Hc Hk. assert (Hl : lower c = c).
  { assert (Hin : c ∈ seqZ 46 12) by (apply elem_of_seqZ; unfold plain, digit in Hc; lia).
    assert (Hall : Forall (λ c, c = 47 ∨ lower c = c) (seqZ 46 12)) by (vm_compute; repeat (constructor; [by (left + right)|]); constructor).
    rewrite Forall_forall in Hall. destruct (Hall c Hin); [|done]. unfold plain, digit in Hc. lia. }
  unfold plain, digit in Hc. lia.
Qed.

(** A text of digits and a point is a number, without sign and prefix. *)
Lemma unsigned_plain c s : plain c → unsigned (c :: s) = (None, c :: s).
Proof. intros Hc. unfold unsigned, plain, digit in *. by ztest. Qed.

Lemma special_plain (neg : bool) c s : plain c → special ((if neg then [45] else []) ++ c :: s) = None.
Proof.
  intros Hc. set (low c := if (65 <=? c) && (c <=? 90) then c + 32 else c).
  assert (Hlow : ∀ w k, 58 ≤ k → low <$> c :: s ≠ k :: w).
  { intros w k Hk. cbn. unfold low, plain, digit in *. ztest. intros [= ? _]. lia. }
  unfold special. cbv zeta. fold low.
  change (bytes_of_string "inf") with [105; 110; 102].
  change (bytes_of_string "infinity") with [105; 110; 102; 105; 110; 105; 116; 121].
  change (bytes_of_string "nan") with [110; 97; 110].
  destruct neg; cbn [app]; [change (unsigned (45 :: c :: s)) with (Some true, c :: s)|rewrite unsigned_plain by done];
    cbv beta iota; by rewrite !bool_decide_false by (apply Hlow; lia).
Qed.

(** A signed text of digits with an optional fraction. *)
Lemma readFloat_digits (neg point : bool) ds fs :
  Forall digit ds → Forall digit fs → ds ≠ [] →
  readFloat ((if neg then [45] else []) ++ ds ++ (if point then [46] ++ fs else [])) =
    Some (MkNumber neg (if point then dval (dval 0 ds) fs else dval 0 ds) false
            (if point then - Z.of_nat (length fs) else 0), []).
Proof.
  intros Hds Hfs Hne. set (body := ds ++ if point then [46] ++ fs else []).
  assert (Hpl : Forall plain body).
  { apply Forall_app. split; [eapply Forall_impl; [exact Hds|by left]|]. destruct point; [|done].
    constructor; [by right|]. eapply Forall_impl; [exact Hfs|by left]. }
  assert (Hhex : match body with
      | c :: p :: (_ :: _) as s' => if (c =? 48) && (lower p =? 120) then (true, drop 2 body) else (false, body)
      | _ => (false, body) end = (false, body)).
  { destruct body as [|c [|p [|x b]]]; try done. apply Forall_cons in Hpl as [_ Hpl].
    apply Forall_cons in Hpl as [Hp _]. pose proof (lower_plain p 120 Hp ltac:(lia)).
    replace (lower p =? 120) with false by (symmetry; by apply Z.eqb_neq). by rewrite andb_false_r. }
  assert (Hscan : scan_digits 10 scan0 body =
    (MkScan (if point then dval (dval 0 ds) fs else dval 0 ds) (if point then Z.of_nat (length fs) else 0) point true false, [])).
  { unfold body. rewrite (scan_digits_app scan0 ds _ Hds). cbn [scan0 mant frac sawdot sawdigits underscores].
    destruct ds as [|d ds']; [done|]. destruct point; [|done]. cbn [app scan_digits].
    change (46 =? 95) with false. change (46 =? 46) with true. cbv iota.
    cbn [mant frac sawdot sawdigits underscores]. replace (scan_digits 10 _ fs) with (scan_digits 10 (MkScan (dval 0 (d :: ds')) 0 true true false) (fs ++ [])) by (by rewrite app_nil_r).
    rewrite (scan_digits_app _ fs [] Hfs). cbn [mant frac sawdot sawdigits underscores scan_digits]. by destruct fs. }
  assert (Hu : unsigned ((if neg then [45] else []) ++ body) = (if neg then Some true else None, body)).
  { destruct neg; [done|]. cbn [app]. unfold body. destruct ds as [|d ds']; [done|]. apply Forall_cons in Hds as [Hd _].
    apply unsigned_plain. by left. }
  unfold readFloat. rewrite Hu, Hhex, Hscan. cbn [sawdigits underscores mant frac negb andb].
  f_equal. f_equal. f_equal; [by destruct neg|]. destruct point; lia.
Qed.

Lemma ParseFloat_fixed f (neg : bool) D X :
  0 ≤ D →
  ParseFloat ((if neg then [45] else []) ++ fixed D X) f =
    let '(n, d) := decimal_ratio D X in
    let v := round f neg n d in (v, match v with Inf _ => Some strconv.ErrRange | _ => None end).
Proof.
  intros HD. destruct (fixed_shape D X HD) as (ds & fs & Ht & Hne & Hds & Hfs & Hv). rewrite Ht. unfold ParseFloat.
  assert (Hs : special ((if neg then [45] else []) ++ ds ++ (if 0 <=? X then [] else [46] ++ fs)) = None).
  { destruct ds as [|c ds']; [done|]. apply Forall_cons in Hds as [Hc _]. apply special_plain. by left. }
  rewrite Hs. pose proof (readFloat_digits neg (negb (0 <=? X)) ds fs Hds Hfs Hne) as Hr.
  assert (Hd : decimal_ratio (if negb (0 <=? X) then dval (dval 0 ds) fs else dval 0 ds)
    (if negb (0 <=? X) then - Z.of_nat (length fs) else 0) = decimal_ratio D X).
  { unfold decimal_ratio. destruct (0 <=? X) eqn:E; bool_to_prop; cbn [negb].
    - rewrite Hv, (Z.max_r 0 X), (Z.max_l 0 (- X)) by lia.
      change (10 ^ Z.max 0 0) with 1. change (10 ^ Z.max 0 (- 0)) with 1. f_equal. lia.
    - destruct Hv as [-> ->]. by rewrite Z.opp_involutive. }
  destruct (0 <=? X); cbn [negb] in *; rewrite Hr; unfold value_of; cbn [n_hex n_mant n_exp n_neg];
    rewrite Hd; destruct (decimal_ratio D X); by destruct (round f neg _ _).
Qed.

Definition reads (f : format) (x : float) (neg : bool) (D X : Z) : Prop :=
  let '(n, d) := decimal_ratio D X in round f neg n d = x.

Lemma shortest_reads f x neg N X k :
  0 ≤ N → reads f x neg N X → let '(D, Y) := shortest f x neg N X k in 0 ≤ D ∧ reads f x neg D Y.
Proof.
  intros HN Hx. revert k. fix IH 1. intros k.
  assert (Hlo : 0 ≤ N / 10 ^ Z.of_nat k) by (apply Z.div_pos; [done|apply Z.pow_pos_nonneg; lia]).
  assert (Hr : ∀ D Y, (let '(n, d) := decimal_ratio D Y in bool_decide (round f neg n d = x)) = true → reads f x neg D Y).
  { intros D Y. unfold reads. destruct (decimal_ratio D Y). apply bool_decide_eq_true_1. }
  destruct k as [|k]; cbn [shortest];
    (destruct (let '(n, d) := decimal_ratio (N / _) _ in _) eqn:E1;
      [destruct (_ && _) eqn:E2; [apply andb_prop in E2 as [E2 _]|]; (split; [lia|by apply Hr])|]);
    (destruct (let '(n, d) := decimal_ratio (N / _ + 1) _ in _) eqn:E3; [split; [lia|by apply Hr]|]).
  - done.
  - apply IH.
Qed.

Lemma exact_reads f neg m e :
  wf_format f → 0 < m → canonical f m e →
  let '(N, X) := exact_decimal m e in 0 ≤ N ∧ reads f (Fin neg m e) neg N X.
Proof.
  intros Hf Hm Hc. unfold exact_decimal, reads, decimal_ratio. destruct (0 <=? e) eqn:E; bool_to_prop.
  - assert (0 < 2 ^ e) by (apply Z.pow_pos_nonneg; lia). split; [lia|]. apply round_exact; [done..|nia|done|done|].
    unfold scale. rewrite (Z.max_l 0 (- e)), (Z.max_r 0 (- - e)), Z.opp_involutive by lia.
    change (Z.max 0 0) with 0. change (Z.max 0 (- 0)) with 0. rewrite !Z.pow_0_r. lia.
  - assert (0 < 5 ^ (- e)) by (apply Z.pow_pos_nonneg; lia).
    rewrite (Z.max_l 0 e), (Z.max_r 0 (- e)), Z.pow_0_r by lia. split; [lia|].
    apply round_exact; [done..|nia|apply Z.pow_pos_nonneg; lia|done|].
    unfold scale. rewrite (Z.max_r 0 (- e)), (Z.max_l 0 (- - e)), Z.pow_0_r by lia.
    replace (10 ^ (- e)) with (5 ^ (- e) * 2 ^ (- e)) by (rewrite <- Z.pow_mul_l; done). ring.
Qed.

Lemma canonical_0 f e : wf_format f → canonical f 0 e → e = emin f.
Proof.
  intros Hf (_ & _ & [H| ->] & _); [|done]. assert (0 < 2 ^ (prec f - 1)); [|lia].
  apply Z.pow_pos_nonneg; destruct Hf; lia.
Qed.

Lemma FormatFloat_fixed f (neg : bool) m e :
  wf_format f → canonical f m e → m ≠ 0 →
  ∃ D Y, FormatFloat f (Fin neg m e) = (if neg then [45] else []) ++ fixed D Y ∧ 0 ≤ D ∧ reads f (Fin neg m e) neg D Y.
Proof.
  intros Hf Hx Hm0. assert (Hm : 0 < m) by (destruct Hx; lia). pose proof (exact_reads f neg m e Hf Hm Hx) as He.
  cbn [FormatFloat]. apply Z.eqb_neq in Hm0. rewrite Hm0.
  destruct (exact_decimal m e) as [N X]. destruct He as [HN He].
  pose proof (shortest_reads f _ neg N X (length (decimal N) - 1) HN He) as Hs.
  destruct (shortest _ _ _ _ _ _) as [D Y]. exists D, Y. by destruct Hs.
Qed.

(** Every float of the format is read back from its text. *)
Lemma ParseFloat_FormatFloat f x : wf_format f → wf f x → ParseFloat (FormatFloat f x) f = (x, None).
Proof.
  intros Hf Hx. destruct x as [neg m e|[]|]; [|by vm_compute..]. destruct (decide (m = 0)) as [->|Hm].
  - rewrite (canonical_0 f e Hf Hx). by destruct neg.
  - destruct (FormatFloat_fixed f neg m e Hf Hx Hm) as (D & Y & -> & HD & Hr). rewrite ParseFloat_fixed by done.
    unfold reads in Hr. destruct (decimal_ratio D Y) as [n d]. cbv zeta. by rewrite Hr.
Qed.

Lemma wf_binary32 : wf_format binary32.
Proof. split; cbn; lia. Qed.
Lemma wf_binary64 : wf_format binary64.
Proof. split; cbn; lia. Qed.

(** Rounding gives floats of the format. *)
Lemma round_wf f neg n d : wf_format f → 0 ≤ n → 0 < d → wf f (round f neg n d).
Proof.
  intros Hf Hn Hd. unfold round. destruct (n =? 0) eqn:E; bool_to_prop.
  - destruct Hf. split; [split; [done|apply Z.pow_pos_nonneg; lia]|]. split; [done|]. split; [by right|]. lia.
  - pose proof (round_ratio_spec f Hf n d ltac:(lia) Hd) as Hs. destruct (round_ratio f n d) as [m e].
    destruct Hs as (H1 & H2 & H3 & _). destruct (emax f <? e + prec f) eqn:El; bool_to_prop; [done|]. done.
Qed.

Lemma of_int_1 : of_int binary64 1 = Fin false (2 ^ 52) (-52).
Proof. by vm_compute. Qed.

(** An integer of 64 bits and its decimal text are the same float. *)
Lemma of_int_finite z : Z.abs z ≤ 2 ^ 63 → ∀ s, of_int binary64 z ≠ Inf s.
Proof.
  intros Hz s. unfold of_int, round. destruct (Z.abs z =? 0) eqn:E; bool_to_prop; [done|].
  assert (Hl : log2_ratio (Z.abs z) 1 ≤ 63).
  { pose proof (Z.log2_le_mono _ _ Hz) as Hm. rewrite Z.log2_pow2 in Hm by lia. unfold log2_ratio.
    change (Z.log2 1) with 0. destruct (scale _ _ _). destruct (_ <=? _); lia. }
  unfold round_ratio. destruct (scale _ _ _) as [n' d']. destruct (_ =? 2 ^ prec binary64); cbn [prec emin emax binary64] in *; by ztest.
Qed.

Lemma ParseFloat_Itoa z :
  in_int64 z → ParseFloat (bytes_of_string (strconv.Itoa z)) binary64 = (of_int binary64 z, None).
Proof.
  intros Hz. unfold in_int64, MinInt64, MaxInt64 in Hz.
  assert (Ht : bytes_of_string (strconv.Itoa z) = (if z <? 0 then [45] else []) ++ fixed (Z.abs z) 0).
  { assert (Hu : ∀ n, 0 ≤ n → bytes_of_string (strconv.FormatUint n 10) = fixed n 0).
    { intros n Hn. unfold strconv.FormatUint, fixed. cbn [Z.leb Z.to_nat replicate]. rewrite app_nil_r.
      apply bytes_of_string_of_bytes, strconv.fmt_wf; [lia|done|constructor]. }
    unfold strconv.Itoa, strconv.FormatInt. destruct (z <? 0) eqn:E; bool_to_prop.
    - cbn [bytes_of_string app]. rewrite Hu by lia. by rewrite Z.abs_neq by lia.
    - rewrite Hu by lia. by rewrite Z.abs_eq by lia. }
  rewrite Ht, ParseFloat_fixed by lia. unfold decimal_ratio. cbn [Z.max Z.compare Z.opp].
  rewrite !Z.pow_0_r, Z.mul_1_r. fold (of_int binary64 z). cbv zeta.
  pose proof (of_int_finite z ltac:(lia)) as Hf. destruct (of_int binary64 z) as [| s|] eqn:E; [done| |done].
  by destruct (Hf s).
Qed.

(** The bytes of a text: no comma among them. *)
Lemma FormatFloat_no_comma f x : wf_format f → wf f x → Forall (λ c, c ≠ 44) (FormatFloat f x).
Proof.
  intros Hf Hx. destruct x as [neg m e|[]|]; [|repeat (constructor; [done|]); constructor..].
  destruct (decide (m = 0)) as [->|Hm]; [cbn [FormatFloat]; by destruct neg; repeat constructor|].
  destruct (FormatFloat_fixed f neg m e Hf Hx Hm) as (D & Y & -> & HD & _).
  destruct (fixed_shape D Y HD) as (ds & fs & -> & _ & Hds & Hfs & _).
  assert (Hd : ∀ l, Forall digit l → Forall (λ c, c ≠ 44) l).
  { intros l Hl. eapply Forall_impl; [exact Hl|]. unfold digit. intros c Hc. cbn in Hc. lia. }
  apply Forall_app. split; [by destruct neg; repeat constructor|]. apply Forall_app. split; [by apply Hd|].
  destruct (0 <=? Y); [constructor|]. constructor; [done|by apply Hd].
Qed.

(** A float32 keeps its value in a float64, and back. *)
Lemma convert_widen x : wf binary32 x → convert binary32 (convert binary64 x) = x.
Proof.
  intros Hx. destruct x as [neg m e| |]; [|done..]. destruct (decide (m = 0)) as [->|Hm].
  { cbn [convert]. unfold scale. rewrite Z.mul_0_l. cbn. by rewrite (canonical_0 _ e wf_binary32 Hx). }
  assert (Hm0 : 0 < m) by (destruct Hx; lia). pose proof (Z.log2_spec m Hm0) as Hl. pose proof (Z.log2_nonneg m) as Hl0.
  assert (Hl24 : Z.log2 m < 24) by (destruct Hx as [? _]; apply Z.log2_lt_pow2; cbn in *; lia).
  set (s := 52 - Z.log2 m). assert (Hs : 0 < 2 ^ s) by (apply Z.pow_pos_nonneg; lia).
  assert (Hw : convert binary64 (Fin neg m e) = Fin neg (m * 2 ^ s) (e - s)).
  { cbn [convert]. pose proof (scale_pos e m 1 Hm0 ltac:(lia)) as Hp. unfold scale in *. destruct Hp.
    destruct Hx as (_ & He & _ & Hemax). cbn [binary32 prec emin emax] in *.
    apply round_exact; [apply wf_binary64|nia|done|done| |].
    - rewrite Z.pow_succ_r in Hl by lia.
      assert (H52 : 2 ^ 52 = 2 ^ Z.log2 m * 2 ^ s) by (rewrite <- Z.pow_add_r by lia; f_equal; lia).
      split; [change (2 ^ prec binary64) with (2 * 2 ^ 52); nia|]. split; [cbn; lia|]. split; [|cbn; lia].
      left. change (2 ^ (prec binary64 - 1)) with (2 ^ 52). nia.
    - unfold scale. rewrite <- !Z.mul_assoc, !Z.mul_1_l, <- !Z.pow_add_r by lia. do 2 f_equal. lia. }
  rewrite Hw. cbn [convert]. pose proof (scale_pos (e - s) (m * 2 ^ s) 1 ltac:(nia) ltac:(lia)) as Hp. unfold scale in *.
  destruct Hp. apply round_exact; [apply wf_binary32|done..|].
  unfold scale. rewrite <- !Z.mul_assoc, !Z.mul_1_l, <- !Z.pow_add_r by lia. do 2 f_equal. lia.
Qed.

(** Multiplying and dividing a float64 by one. *)
Lemma mul_1 x : wf binary64 x → mul binary64 x (of_int binary64 1) = x.
Proof.
  intros Hx. rewrite of_int_1. destruct x as [s m e|[]|]; [|done..]. cbn [mul]. rewrite xorb_false_r.
  destruct (decide (m = 0)) as [->|Hm].
  { unfold scale. rewrite !Z.mul_0_l. cbn. by rewrite (canonical_0 _ e wf_binary64 Hx). }
  assert (Hm0 : 0 < m) by (destruct Hx; lia).
  pose proof (scale_pos (e + -52) (m * 2 ^ 52) 1 ltac:(lia) ltac:(lia)) as Hp. unfold scale in *. destruct Hp.
  apply round_exact; [apply wf_binary64|done..|].
  unfold scale. rewrite <- !Z.mul_assoc, !Z.mul_1_l, <- !Z.pow_add_r by lia. do 2 f_equal. lia.
Qed.

Lemma div_1 x : wf binary64 x → div binary64 x (of_int binary64 1) = x.
Proof.
  intros Hx. rewrite of_int_1. destruct x as [s m e|[]|]; [|done..]. cbn [div]. rewrite xorb_false_r.
  change (2 ^ 52 =? 0) with false. cbv iota. destruct (decide (m = 0)) as [->|Hm].
  { unfold scale. rewrite !Z.mul_0_l. cbn. by rewrite (canonical_0 _ e wf_binary64 Hx). }
  assert (Hm0 : 0 < m) by (destruct Hx; lia).
  pose proof (scale_pos (e - -52) m (2 ^ 52) ltac:(lia) ltac:(lia)) as Hp. unfold scale in *. destruct Hp.
  apply round_exact; [apply wf_binary64|done..|].
  unfold scale. rewrite <- !Z.mul_assoc, <- !Z.pow_add_r by lia. do 2 f_equal. lia.
Qed.

Lemma Trunc_wf f x : wf_format f → wf f x → wf f (Trunc f x).
Proof.
  intros Hf Hx. destruct x as [s m e| |]; [|done..]. cbn [Trunc]. unfold scale.
  apply round_wf; [done| |lia]. destruct Hx as [Hm _]. pose proof (pow2_pos e). pose proof (pow2_pos (- e)).
  apply Z.div_pos; nia.
Qed.

(** The 64 bits determine the float. *)
Lemma bits_range x z : wf binary64 x → bits binary64 x = Some z → 0 ≤ z < 2 ^ 64.
Proof.
  destruct x as [neg m e|neg|]; [| |done]; intros Hx [= <-]; [destruct Hx as (Hm & He & _ & Hm')|];
    destruct neg; cbn [prec emin emax binary64] in *; lia.
Qed.

Lemma bits_inj x y z : wf binary64 x → wf binary64 y → bits binary64 x = Some z → bits binary64 y = Some z → x = y.
Proof.
  assert (Hfin : ∀ m e, canonical binary64 m e → 0 ≤ (e - emin binary64) * 2 ^ (prec binary64 - 1) + m < 2047 * 2 ^ 52).
  { intros m e (Hm & He & _ & Hm'). cbn [prec emin emax binary64] in *. lia. }
  assert (Hinj : ∀ m e m' e', canonical binary64 m e → canonical binary64 m' e' →
    (e - emin binary64) * 2 ^ (prec binary64 - 1) + m = (e' - emin binary64) * 2 ^ (prec binary64 - 1) + m' → m = m' ∧ e = e').
  { intros m e m' e' (Hm & He & Hl & _) (Hm' & He' & Hl' & _) Heq. cbn [prec emin emax binary64] in *. lia. }
  intros Hx Hy. destruct x as [s m e|s|], y as [s' m' e'|s'|]; try done; cbn [bits]; intros [= Hz] [= Hz'].
  - pose proof (Hfin m e Hx). pose proof (Hfin m' e' Hy). destruct (Hinj m e m' e' Hx Hy) as [-> ->];
      [|f_equal]; destruct s, s'; cbn [prec emin emax binary64] in *; done || lia.
  - pose proof (Hfin m e Hx). destruct s, s'; cbn [prec emin emax binary64] in *; lia.
  - pose proof (Hfin m' e' Hy). destruct s, s'; cbn [prec emin emax binary64] in *; lia.
  - destruct s, s'; cbn [prec emin emax binary64] in *; done || lia.
Qed.
End float.
