(* ===== verification/GoBase64.v ===== *)
(** * package encoding/base64: StdEncoding

    [EncodeToString] and [DecodeString] of Go's standard library for
    [base64.StdEncoding] (padding with [=], not strict).  The decoder is the
    loop of [decodeQuantum] over the whole input: it skips carriage returns and
    line feeds, and on an error it returns the bytes decoded so far together
    with the error, which some callers of this repository drop. *)

From S2P Require Import Prelude GoBytes.

Module base64.

Definition pad : Z := 61.

Definition char (v : Z) : Z :=
  if v <? 26 then 65 + v
  else if v <? 52 then 97 + (v - 26)
  else if v <? 62 then 48 + (v - 52)
  else if v =? 62 then 43 else 47.

Definition sextet (c : Z) : option Z :=
  if (65 <=? c) && (c <=? 90) then Some (c - 65)
  else if (97 <=? c) && (c <=? 122) then Some (c - 97 + 26)
  else if (48 <=? c) && (c <=? 57) then Some (c - 48 + 52)
  else if c =? 43 then Some 62
  else if c =? 47 then Some 63
  else None.

(** The 24-bit group of three bytes, its four characters, and back. *)
Definition group (a b c : Z) : Z := a * 65536 + b * 256 + c.
Definition char_at (val : Z) (i : Z) : Z := char ((val / 2 ^ (6 * (3 - i))) mod 64).

Fixpoint encode (l : bytes) : bytes :=
  match l with
  | a :: b :: c :: l' =>
      let val := group a b c in
      char_at val 0 :: char_at val 1 :: char_at val 2 :: char_at val 3 :: encode l'
  | [a; b] => let val := group a b 0 in [char_at val 0; char_at val 1; char_at val 2; pad]
  | [a] => let val := group a 0 0 in [char_at val 0; char_at val 1; pad; pad]
  | [] => []
  end.

Definition EncodeToString (l : bytes) : string := string_of_bytes (encode l).

Definition is_newline (c : Z) : bool := (c =? 10) || (c =? 13).

Fixpoint skip_newlines (l : bytes) : bytes :=
  match l with
  | c :: l' => if is_newline c then skip_newlines l' else l
  | [] => []
  end.

(** The bytes of a quantum of four sextets; absent sextets count as 0. *)
Definition quantum (v0 v1 v2 v3 : Z) : Z := v0 * 262144 + v1 * 4096 + v2 * 64 + v3.
Definition byte_at (val : Z) (i : Z) : Z := (val / 2 ^ (8 * (2 - i))) mod 256.

(** [decode src acc out]: [acc] are the sextets of the current quantum, [out]
    the bytes written.  The boolean is [err == nil]. *)
Fixpoint decode (src acc out : bytes) : bytes * bool :=
  match src with
  | [] => (out, bool_decide (acc = []))
  | c :: src' =>
      match sextet c with
      | Some v =>
          match acc with
          | [v0; v1; v2] =>
              let val := quantum v0 v1 v2 v in
              decode src' [] (out ++ [byte_at val 0; byte_at val 1; byte_at val 2])
          | _ => decode src' (acc ++ [v]) out
          end
      | None =>
          if is_newline c then decode src' acc out
          else if negb (c =? pad) then (out, false)
          else
            match acc with
            | [v0; v1] =>
                match skip_newlines src' with
                | d :: r =>
                    if d =? pad
                    then (out ++ [byte_at (quantum v0 v1 0 0) 0], bool_decide (skip_newlines r = []))
                    else (out, false)
                | [] => (out, false)
                end
            | [v0; v1; v2] =>
                let val := quantum v0 v1 v2 0 in
                (out ++ [byte_at val 0; byte_at val 1], bool_decide (skip_newlines src' = []))
            | _ => (out, false)
            end
      end
  end.

Definition DecodeString (s : string) : bytes * bool := decode (bytes_of_string s) [] [].

(** ** Round trip *)

Lemma char_range v : 0 ≤ v < 64 → is_byte (char v) ∧ sextet (char v) = Some v.
Proof.
  intros Hv. assert (Hall : Forall (λ v, (0 <=? char v) && (char v <? 256) = true ∧
    sextet (char v) = Some v) (seqZ 0 64)).
  { apply Forall_forall. intros x Hx. apply elem_of_seqZ in Hx.
    unfold char, sextet.
    repeat match goal with |- context [if ?b then _ else _] => destruct b eqn:?; bool_to_prop end;
      try lia; split; try (f_equal; lia); bool_to_prop; repeat ztest; done. }
  rewrite Forall_forall in Hall. destruct (Hall v) as [H1 H2]; [apply elem_of_seqZ; lia|].
  bool_to_prop. split; [unfold is_byte; lia|done].
Qed.

Lemma char_at_spec val i : is_byte (char_at val i) ∧
  sextet (char_at val i) = Some ((val / 2 ^ (6 * (3 - i))) mod 64).
Proof. apply char_range, Z.mod_pos_bound. lia. Qed.

Lemma quantum_group a b c :
  is_byte a → is_byte b → is_byte c →
  let val := group a b c in
  quantum ((val / 2 ^ (6 * (3 - 0))) mod 64) ((val / 2 ^ (6 * (3 - 1))) mod 64)
    ((val / 2 ^ (6 * (3 - 2))) mod 64) ((val / 2 ^ (6 * (3 - 3))) mod 64) = val.
Proof.
  unfold is_byte, quantum, group. intros Ha Hb Hc.
  change (2 ^ (6 * (3 - 0))) with 262144. change (2 ^ (6 * (3 - 1))) with 4096.
  change (2 ^ (6 * (3 - 2))) with 64. change (2 ^ (6 * (3 - 3))) with 1.
  cbn zeta. Z.div_mod_to_equations. lia.
Qed.

Lemma bytes_group a b c :
  is_byte a → is_byte b → is_byte c →
  byte_at (group a b c) 0 = a ∧ byte_at (group a b c) 1 = b ∧ byte_at (group a b c) 2 = c.
Proof.
  unfold is_byte, byte_at, group. intros Ha Hb Hc.
  change (2 ^ (8 * (2 - 0))) with 65536. change (2 ^ (8 * (2 - 1))) with 256.
  change (2 ^ (8 * (2 - 2))) with 1.
  split_and!; Z.div_mod_to_equations; lia.
Qed.

Lemma decode_sextet c v src acc out :
  sextet c = Some v → (length acc < 3)%nat → decode (c :: src) acc out = decode src (acc ++ [v]) out.
Proof. intros Hc Hl. cbn [decode]. rewrite Hc. by destruct acc as [|? [|? [|? [|]]]]; simpl in Hl; try lia. Qed.

Lemma decode_sextet4 c v v0 v1 v2 src out :
  sextet c = Some v →
  decode (c :: src) [v0; v1; v2] out =
    decode src [] (out ++ [byte_at (quantum v0 v1 v2 v) 0; byte_at (quantum v0 v1 v2 v) 1;
                           byte_at (quantum v0 v1 v2 v) 2]).
Proof. intros Hc. cbn [decode]. by rewrite Hc. Qed.

(** Induction three bytes at a time. *)
Lemma bytes_ind3 (P : bytes → Prop) :
  P [] → (∀ a, P [a]) → (∀ a b, P [a; b]) → (∀ a b c l, P l → P (a :: b :: c :: l)) → ∀ l, P l.
Proof.
  intros H0 H1 H2 H3. fix IH 1. intros [|a [|b [|c l]]]; [done|apply H1|apply H2|apply H3, IH].
Qed.

Lemma encode_wf l : wf_bytes (encode l).
Proof.
  induction l as [|a|a b|a b c l IH] using bytes_ind3; cbn [encode]; repeat constructor;
    try apply char_at_spec; done.
Qed.

Lemma decode_encode l out : wf_bytes l → decode (encode l) [] out = (out ++ l, true).
Proof.
  revert out. induction l as [|a|a b|a b c l IH] using bytes_ind3; intros out Hwf;
    unfold wf_bytes in Hwf; rewrite ?Forall_cons in Hwf.
  - simpl. by rewrite app_nil_r.
  - destruct Hwf as [Ha _]. cbn [encode].
    erewrite decode_sextet; [|apply char_at_spec|simpl; lia].
    erewrite decode_sextet; [|apply char_at_spec|simpl; lia]. simpl app.
    cbn [decode]. change (sextet pad) with (@None Z). change (is_newline pad) with false.
    cbn [negb Z.eqb skip_newlines]. cbn [is_newline pad]. cbn -[byte_at quantum group Z.div Z.modulo Z.pow Z.mul Z.sub].
    f_equal. f_equal. f_equal.
    pose proof (quantum_group a 0 0 Ha ltac:(done) ltac:(done)) as Hq. cbn zeta in Hq.
    pose proof (bytes_group a 0 0 Ha ltac:(done) ltac:(done)) as [Hb _].
    transitivity (byte_at (group a 0 0) 0); [f_equal|done].
    revert Hq. unfold is_byte, quantum, group in *.
    change (2 ^ (6 * (3 - 0))) with 262144. change (2 ^ (6 * (3 - 1))) with 4096.
    change (2 ^ (6 * (3 - 2))) with 64. change (2 ^ (6 * (3 - 3))) with 1.
    intros _. Z.div_mod_to_equations. lia.
  - destruct Hwf as (Ha & Hb & _). cbn [encode].
    do 3 (erewrite decode_sextet; [|apply char_at_spec|simpl; lia]). simpl app.
    cbn [decode]. change (sextet pad) with (@None Z). change (is_newline pad) with false.
    cbn -[byte_at quantum group Z.div Z.modulo Z.pow Z.mul Z.sub].
    f_equal. f_equal.
    pose proof (bytes_group a b 0 Ha Hb ltac:(done)) as (Hb1 & Hb2 & _).
    match goal with |- [byte_at ?q _; _] = _ => replace q with (group a b 0) end; [by rewrite Hb1, Hb2|].
    unfold is_byte, quantum, group in *.
    change (2 ^ (6 * (3 - 0))) with 262144. change (2 ^ (6 * (3 - 1))) with 4096.
    change (2 ^ (6 * (3 - 2))) with 64. Z.div_mod_to_equations. lia.
  - destruct Hwf as (Ha & Hb & Hc & Hl). cbn [encode].
    do 3 (erewrite decode_sextet; [|apply char_at_spec|simpl; lia]). simpl app.
    erewrite decode_sextet4 by apply char_at_spec.
    rewrite quantum_group by done. rewrite IH by done.
    pose proof (bytes_group a b c Ha Hb Hc) as (-> & -> & ->). by rewrite <- app_assoc.
Qed.

Lemma DecodeString_EncodeToString l :
  wf_bytes l → DecodeString (EncodeToString l) = (l, true).
Proof.
  intros Hl. unfold DecodeString, EncodeToString.
  rewrite bytes_of_string_of_bytes by apply encode_wf. by rewrite decode_encode.
Qed.
End base64.
