(* ===== verification/GoUtf8.v ===== *)
(** * package unicode/utf8, and the conversions between strings and runes

    [DecodeRune] with Go's table of first bytes (so overlong forms,
    surrogates and values above 10FFFF are rejected with width 1),
    [EncodeRune], and the conversions [[]rune(s)] and [string(runes)]. *)

From S2P Require Import Prelude GoBytes.

Module utf8.

Definition RuneError : Z := 65533.

Definition in_range (lo hi c : Z) : bool := (lo <=? c) && (c <=? hi).
Definition cont (c : Z) : bool := in_range 128 191 c.

(** Width announced by the first byte and accepted range of the second. *)
Definition first (c : Z) : option (nat * Z * Z) :=
  if in_range 194 223 c then Some (2%nat, 128, 191)
  else if c =? 224 then Some (3%nat, 160, 191)
  else if c =? 237 then Some (3%nat, 128, 159)
  else if in_range 225 239 c then Some (3%nat, 128, 191)
  else if c =? 240 then Some (4%nat, 144, 191)
  else if in_range 241 243 c then Some (4%nat, 128, 191)
  else if c =? 244 then Some (4%nat, 128, 143)
  else None.

(** [utf8.DecodeRune]: the rune and its width. *)
Definition DecodeRune (l : bytes) : Z * nat :=
  match l with
  | [] => (RuneError, 0%nat)
  | c0 :: l' =>
      if c0 <? 128 then (c0, 1%nat)
      else
        match first c0, l' with
        | Some (2%nat, lo, hi), c1 :: _ =>
            if in_range lo hi c1 then ((c0 - 192) * 64 + (c1 - 128), 2%nat) else (RuneError, 1%nat)
        | Some (3%nat, lo, hi), c1 :: c2 :: _ =>
            if in_range lo hi c1 && cont c2
            then ((c0 - 224) * 4096 + (c1 - 128) * 64 + (c2 - 128), 3%nat) else (RuneError, 1%nat)
        | Some (4%nat, lo, hi), c1 :: c2 :: c3 :: _ =>
            if in_range lo hi c1 && cont c2 && cont c3
            then ((c0 - 240) * 262144 + (c1 - 128) * 4096 + (c2 - 128) * 64 + (c3 - 128), 4%nat)
            else (RuneError, 1%nat)
        | _, _ => (RuneError, 1%nat)
        end
  end.

Definition ValidRune (r : Z) : bool := in_range 0 55295 r || in_range 57344 1114111 r.

Definition EncodeRune (r : Z) : bytes :=
  let r := if ValidRune r then r else RuneError in
  if r <? 128 then [r]
  else if r <? 2048 then [192 + r / 64; 128 + r mod 64]
  else if r <? 65536 then [224 + r / 4096; 128 + r / 64 mod 64; 128 + r mod 64]
  else [240 + r / 262144; 128 + r / 4096 mod 64; 128 + r / 64 mod 64; 128 + r mod 64].

(** A string cut into the byte sequences of its runes, in order. *)
Fixpoint chunks_loop (fuel : nat) (l : bytes) : list (Z * bytes) :=
  match fuel, l with
  | S fuel, _ :: _ =>
      let '(r, size) := DecodeRune l in (r, take size l) :: chunks_loop fuel (drop size l)
  | _, _ => []
  end.

Definition chunks (l : bytes) : list (Z * bytes) := chunks_loop (length l) l.

(** [[]rune(s)] and [string(runes)]. *)
Definition runes (l : bytes) : list Z := (chunks l).*1.
Definition of_runes (rs : list Z) : bytes := rs ≫= EncodeRune.

(** ** Lemmas *)

Lemma DecodeRune_size l : l ≠ [] → (1 ≤ (DecodeRune l).2 ≤ length l)%nat.
Proof.
  destruct l as [|c0 l']; [done|intros _]. unfold DecodeRune.
  destruct (c0 <? 128); [simpl; lia|].
  destruct (first c0) as [[[n lo] hi]|]; [|simpl; lia].
  destruct n as [|[|[|[|[|n]]]]]; destruct l' as [|c1 [|c2 [|c3 l']]];
    repeat case_match; simpl in *; simplify_eq; simpl; lia.
Qed.

Lemma chunks_fuel n m l :
  (length l ≤ n)%nat → (length l ≤ m)%nat → chunks_loop n l = chunks_loop m l.
Proof.
  revert m l. induction n as [|n IH]; intros m l Hn Hm; [by destruct l; [destruct m|simpl in Hn; lia]|].
  destruct m as [|m]; [by destruct l; [|simpl in Hm; lia]|].
  destruct l as [|c l]; [done|]. cbn [chunks_loop].
  pose proof (DecodeRune_size (c :: l) ltac:(done)) as Hs.
  destruct (DecodeRune (c :: l)) as [r size]. simpl in Hs. f_equal.
  apply IH; rewrite length_drop; simpl in *; lia.
Qed.

Lemma chunks_nil : chunks [] = [].
Proof. done. Qed.

Lemma chunks_step l :
  l ≠ [] → chunks l = ((DecodeRune l).1, take (DecodeRune l).2 l) :: chunks (drop (DecodeRune l).2 l).
Proof.
  intros Hl. pose proof (DecodeRune_size l Hl) as Hs. unfold chunks.
  destruct l as [|c l]; [done|]. change (length (c :: l)) with (S (length l)). cbn [chunks_loop].
  destruct (DecodeRune (c :: l)) as [r size]. simpl in Hs. f_equal.
  apply chunks_fuel; rewrite length_drop; simpl; lia.
Qed.

(** Induction rune by rune. *)
Lemma chunks_ind (P : bytes → Prop) :
  P [] → (∀ l, l ≠ [] → P (drop (DecodeRune l).2 l) → P l) → ∀ l, P l.
Proof.
  intros H0 H1 l. remember (length l) as n eqn:Hn. revert l Hn.
  induction (lt_wf n) as [n _ IH]. intros l ->. destruct l as [|c l]; [done|].
  apply H1; [done|]. pose proof (DecodeRune_size (c :: l) ltac:(done)).
  eapply IH; [|done]. rewrite length_drop. simpl in *. lia.
Qed.

(** The chunks are the string, cut. *)
Lemma chunks_concat l : concat (chunks l).*2 = l.
Proof.
  induction l as [|l Hl IH] using chunks_ind; [done|].
  rewrite chunks_step by done. cbn [fmap list_fmap snd concat]. rewrite IH. apply take_drop.
Qed.

Lemma DecodeRune_EncodeRune r l :
  ValidRune r = true → DecodeRune (EncodeRune r ++ l) = (r, length (EncodeRune r)).
Proof.
  intros Hv. unfold EncodeRune. rewrite Hv. unfold ValidRune, in_range in Hv.
  assert (Hr : 0 ≤ r ≤ 55295 ∨ 57344 ≤ r ≤ 1114111).
  { apply orb_prop in Hv as [Hv|Hv]; bool_to_prop; lia. }
  destruct (r <? 128) eqn:E1; bool_to_prop.
  { simpl. by ztest. }
  destruct (r <? 2048) eqn:E2; bool_to_prop.
  { unfold DecodeRune, first, in_range. simpl app. cbv beta iota.
    assert (2 ≤ r / 64 ≤ 31) by (Z.div_mod_to_equations; lia).
    assert (0 ≤ r mod 64 < 64) by (Z.div_mod_to_equations; lia).
    ztest. simpl. ztest. simpl. f_equal. Z.div_mod_to_equations; lia. }
  destruct (r <? 65536) eqn:E3; bool_to_prop.
  { assert (0 ≤ r / 4096 ≤ 15) by (Z.div_mod_to_equations; lia).
    assert (0 ≤ r mod 64 < 64) by (Z.div_mod_to_equations; lia).
    assert (0 ≤ r / 64 mod 64 < 64) by (Z.div_mod_to_equations; lia).
    assert (r / 4096 = 0 → 32 ≤ r / 64 mod 64) by (Z.div_mod_to_equations; lia).
    assert (r / 4096 = 13 → r / 64 mod 64 < 32) by (Z.div_mod_to_equations; lia).
    assert (r = (224 + r / 4096 - 224) * 4096 + (128 + r / 64 mod 64 - 128) * 64 + (128 + r mod 64 - 128))
      by (Z.div_mod_to_equations; lia).
    unfold DecodeRune, first, cont, in_range. simpl app. cbv beta iota.
    destruct (decide (r / 4096 = 0)); [|destruct (decide (r / 4096 = 13))];
      ztest; simpl; ztest; simpl; f_equal; lia. }
  { assert (0 ≤ r / 262144 ≤ 4) by (Z.div_mod_to_equations; lia).
    assert (0 ≤ r mod 64 < 64) by (Z.div_mod_to_equations; lia).
    assert (0 ≤ r / 64 mod 64 < 64) by (Z.div_mod_to_equations; lia).
    assert (0 ≤ r / 4096 mod 64 < 64) by (Z.div_mod_to_equations; lia).
    assert (r / 262144 = 0 → 16 ≤ r / 4096 mod 64) by (Z.div_mod_to_equations; lia).
    assert (r / 262144 = 4 → r / 4096 mod 64 < 16) by (Z.div_mod_to_equations; lia).
    assert (r = (240 + r / 262144 - 240) * 262144 + (128 + r / 4096 mod 64 - 128) * 4096
                + (128 + r / 64 mod 64 - 128) * 64 + (128 + r mod 64 - 128))
      by (Z.div_mod_to_equations; lia).
    unfold DecodeRune, first, cont, in_range. simpl app. cbv beta iota.
    destruct (decide (r / 262144 = 0)); [|destruct (decide (r / 262144 = 4))];
      ztest; simpl; ztest; simpl; f_equal; lia. }
Qed.

Lemma EncodeRune_nonempty r : EncodeRune r ≠ [].
Proof. unfold EncodeRune. repeat case_match; done. Qed.

Lemma chunks_of_runes rs :
  Forall (λ r, ValidRune r = true) rs → chunks (of_runes rs) = (λ r, (r, EncodeRune r)) <$> rs.
Proof.
  induction 1 as [|r rs Hr Hrs IH]; [done|].
  unfold of_runes in *. cbn [mbind list_bind].
  pose proof (DecodeRune_EncodeRune r (rs ≫= EncodeRune) Hr) as Hd.
  rewrite chunks_step.
  2: { destruct (EncodeRune r) eqn:E; [by apply EncodeRune_nonempty in E|done]. }
  rewrite Hd. cbn [fst snd fmap list_fmap]. rewrite drop_app_length, take_app_length.
  f_equal. exact IH.
Qed.

(** [[]rune(string(rs))] is [rs] when every rune is valid. *)
Lemma runes_of_runes rs : Forall (λ r, ValidRune r = true) rs → runes (of_runes rs) = rs.
Proof.
  intros Hrs. unfold runes. rewrite chunks_of_runes by done.
  rewrite <- list_fmap_compose. rewrite (list_fmap_ext _ id); [apply list_fmap_id|done].
Qed.

(** A string is valid UTF-8 when it is the encoding of its runes. *)
Definition Valid (l : bytes) : Prop :=
  ∃ rs, Forall (λ r, ValidRune r = true) rs ∧ l = of_runes rs.

Lemma Valid_chunks l : Valid l → (chunks l).*2 = EncodeRune <$> runes l.
Proof.
  intros (rs & Hrs & ->). rewrite runes_of_runes, chunks_of_runes by done.
  by rewrite <- list_fmap_compose.
Qed.

Lemma Valid_runes l : Valid l → of_runes (runes l) = l ∧ Forall (λ r, ValidRune r = true) (runes l).
Proof. intros (rs & Hrs & ->). by rewrite runes_of_runes. Qed.
(** What [DecodeRune] reads: an ASCII byte, an invalid one, or the encoding
    of a valid rune. *)
Lemma DecodeRune_cases l :
  wf_bytes l → l ≠ [] →
  let '(r, size) := DecodeRune l in
  (size = 1%nat ∧ 0 ≤ r < 128 ∧ take size l = [r]) ∨
  (size = 1%nat ∧ r = RuneError) ∨
  (128 ≤ r ∧ (1 < size)%nat ∧ ValidRune r = true ∧ take size l = EncodeRune r).
Proof.
  intros Hwf Hl. destruct l as [|c0 l']; [done|]. apply Forall_cons in Hwf as [[H0 H0'] Hwf].
  unfold DecodeRune. destruct (c0 <? 128) eqn:E0; bool_to_prop; [left; by split_and!|].
  assert (Herr : ∀ P Q : Prop, P ∨ (1%nat = 1%nat ∧ RuneError = RuneError) ∨ Q) by tauto.
  unfold first. repeat case_match; simplify_eq; try apply Herr.
  all: unfold in_range, cont in *; bool_to_prop; unfold in_range in *; bool_to_prop.
  all: right; right.
  all: match goal with |- 128 ≤ ?r ∧ _ =>
    assert (Hr : 128 ≤ r ∧ (r < 55296 ∨ 57344 ≤ r) ∧ r ≤ 1114111) by lia end.
  all: destruct Hr as (Hr1 & Hr2 & Hr3); split; [done|]; split; [lia|].
  all: assert (Hv : ∀ r, 128 ≤ r → r < 55296 ∨ 57344 ≤ r → r ≤ 1114111 → ValidRune r = true)
    by (intros r' ? ? ?; unfold ValidRune, in_range; rewrite orb_true_iff, !andb_true_iff, !Z.leb_le; lia).
  all: split; [by apply Hv|].
  all: unfold EncodeRune; rewrite (Hv _ Hr1 Hr2 Hr3).
  all: ztest; cbn [take]; repeat f_equal; Z.div_mod_to_equations; lia.
Qed.

(** Whatever the bytes, their runes are valid. *)
Lemma runes_valid l : wf_bytes l → Forall (λ r, ValidRune r = true) (runes l).
Proof.
  induction l as [|l Hl IH] using chunks_ind; intros Hwf; [constructor|].
  unfold runes. rewrite chunks_step by done. cbn [fmap list_fmap fst]. constructor.
  - pose proof (DecodeRune_cases l Hwf Hl) as H. destruct (DecodeRune l) as [r size]. cbn [fst].
    destruct H as [(_ & Hr & _)|[(_ & ->)|(_ & _ & Hv & _)]]; [|done|done].
    unfold ValidRune, in_range. ztest. done.
  - by apply IH, Forall_drop.
Qed.

(** [strings.Map]: a negative result drops the rune; the others are encoded,
    so that an invalid byte goes through as the replacement character. *)
Definition Map (mapping : Z → Z) (s : bytes) : bytes :=
  of_runes (filter (λ r, 0 ≤ r) (mapping <$> runes s)).
End utf8.
