(* ===== verification/GoFloat.v ===== *)
(** * float64 products of durations

    The code scales durations by random or constant factors in [float64] and
    truncates back to [time.Duration].  A positive double is modelled as an
    integer over a power of two, so what is left of the arithmetic is the
    rounding of integers to 53 significant bits, ties to even. *)

From S2P Require Import Prelude.

(** Exponent of the last kept bit. *)
Definition exp53 (z : Z) : Z := Z.max 0 (Z.log2 z - 52).

Definition rnd53 (z : Z) : Z :=
  let u := 2 ^ exp53 z in
  let q := z / u in
  let r := z mod u in
  if (2 * r <? u) || ((2 * r =? u) && Z.even q) then q * u else (q + 1) * u.

(** A number with at most 53 significant bits. *)
Definition representable (a : Z) : Prop := ∃ m j, 0 ≤ m < 2 ^ 53 ∧ 0 ≤ j ∧ a = m * 2 ^ j.

Lemma exp53_nonneg z : 0 ≤ exp53 z.
Proof. unfold exp53. lia. Qed.

Lemma exp53_large z j m :
  0 < z → 0 ≤ j < exp53 z → 0 ≤ m < 2 ^ 53 → m * 2 ^ j < 2 ^ (exp53 z + 52) ∧ 2 ^ (exp53 z + 52) ≤ z.
Proof.
  intros Hz Hj Hm. unfold exp53 in *. replace (Z.max 0 (Z.log2 z - 52) + 52) with (Z.log2 z) by lia.
  split; [|by apply Z.log2_spec]. apply Z.lt_le_trans with (2 ^ 53 * 2 ^ j).
  - apply Z.mul_lt_mono_pos_r; lia.
  - rewrite <- Z.pow_add_r by lia. apply Z.pow_le_mono_r; lia.
Qed.

Lemma rnd53_lower a z : representable a → 0 < z → a ≤ z → a ≤ rnd53 z.
Proof.
  intros (m & j & Hm & Hj & ->) Hz Ha.
  assert (Hle : m * 2 ^ j ≤ z / 2 ^ exp53 z * 2 ^ exp53 z).
  { pose proof (exp53_nonneg z). destruct (decide (exp53 z ≤ j)) as [He|He].
    - replace (2 ^ j) with (2 ^ (j - exp53 z) * 2 ^ exp53 z) in * by (rewrite <- Z.pow_add_r by lia; f_equal; lia).
      rewrite Z.mul_assoc in *. apply Z.mul_le_mono_nonneg_r; [lia|]. apply Z.div_le_lower_bound; lia.
    - destruct (exp53_large z j m) as [H1 H2]; [lia..|].
      apply Z.lt_le_incl, (Z.lt_le_trans _ (2 ^ (exp53 z + 52))); [done|].
      rewrite Z.add_comm, Z.pow_add_r in H2 |- * by lia.
      apply Z.mul_le_mono_nonneg_r; [lia|]. apply Z.div_le_lower_bound; lia. }
  unfold rnd53. destruct (_ || _); [done|]. assert (0 < 2 ^ exp53 z) by (apply Z.pow_pos_nonneg; [lia|apply exp53_nonneg]).
  lia.
Qed.

Lemma rnd53_upper b z : representable b → 0 < z → z ≤ b → rnd53 z ≤ b.
Proof.
  intros (m & j & Hm & Hj & ->) Hz Hb. pose proof (exp53_nonneg z).
  assert (Hu : 0 < 2 ^ exp53 z) by (apply Z.pow_pos_nonneg; lia).
  pose proof (Z.div_mod z (2 ^ exp53 z) ltac:(lia)) as Hdm.
  pose proof (Z.mod_pos_bound z (2 ^ exp53 z) Hu) as Hr.
  destruct (decide (exp53 z ≤ j)) as [He|He].
  - replace (2 ^ j) with (2 ^ (j - exp53 z) * 2 ^ exp53 z) in * by (rewrite <- Z.pow_add_r by lia; f_equal; lia).
    unfold rnd53. destruct (_ || _) eqn:E; [lia|].
    assert (z mod 2 ^ exp53 z ≠ 0).
    { intros H0. rewrite H0 in E. replace (2 * 0 <? 2 ^ exp53 z) with true in E; [done|].
      symmetry. apply Z.ltb_lt. lia. }
    rewrite Z.mul_assoc in *. apply Z.mul_le_mono_nonneg_r; [lia|].
    assert (z / 2 ^ exp53 z < m * 2 ^ (j - exp53 z)); [|lia]. nia.
  - destruct (exp53_large z j m) as [H1 H2]; [lia..|]. lia.
Qed.

(** [time.Duration(float64(d) * f)] for the double [f = k / 2^53]; the
    conversion of [d] is exact below [2^53]. *)
Definition mul_trunc (d k : Z) : Z := rnd53 (d * k) / 2 ^ 53.

Lemma mul_trunc_bounds d k lo hi :
  0 < d → 0 < k → representable (d * lo) → representable (d * hi) → lo ≤ k ≤ hi →
  d * lo / 2 ^ 53 ≤ mul_trunc d k ≤ d * hi / 2 ^ 53.
Proof.
  intros Hd Hk Hlo Hhi Hb. unfold mul_trunc.
  assert (d * lo ≤ rnd53 (d * k)) by (apply rnd53_lower; [done|nia|nia]).
  assert (rnd53 (d * k) ≤ d * hi) by (apply rnd53_upper; [done|nia|nia]).
  split; apply Z.div_le_mono; lia.
Qed.
