(* ===== verification/GoTime.v ===== *)
(** * package time: the civil calendar, zones, layouts and durations

    What the sources use of Go's [time]: civil dates of the proleptic
    Gregorian calendar, [Location] as a table of transitions, [Date],
    [UnixMilli], [Format] and [Parse] for the layouts that occur, and
    [ParseDuration] with its [float64] fractions.  An instant is a number of
    seconds or nanoseconds since the Unix epoch. *)

From S2P Require Import Prelude GoBytes GoStrconv GoIeee.

(** ** The Gregorian calendar *)

Module civil.

Definition isLeap (year : Z) : bool :=
  (year mod 4 =? 0) && (negb (year mod 100 =? 0) || (year mod 400 =? 0)).

Definition daysIn (m year : Z) : Z :=
  if (m =? 2) then (if isLeap year then 29 else 28)
  else 30 + (m + Z.shiftr m 3) mod 2.

(** Days from January 1 of year 1 to January 1 of [year]. *)
Definition daysBeforeYear (year : Z) : Z :=
  365 * (year - 1) + (year - 1) / 4 - (year - 1) / 100 + (year - 1) / 400.

(** Days of the year before the month. *)
Definition daysBeforeMonth (leap : bool) (m : Z) : Z :=
  nth (Z.to_nat m) [0; 0; 31; 59; 90; 120; 151; 181; 212; 243; 273; 304; 334; 365] 0
  + (if leap && (2 <? m) then 1 else 0).

(** Days since January 1 of year 1. *)
Definition days_of (year month day : Z) : Z :=
  daysBeforeYear year + daysBeforeMonth (isLeap year) month + (day - 1).

(** Cycles of 400, 100, 4 and 1 years; the last day of a cycle of 400 or 4
    years is not the first of one more century or year. *)
Definition year_of (days : Z) : Z :=
  let n400 := days / 146097 in
  let d := days mod 146097 in
  let n100 := Z.min 3 (d / 36524) in
  let d := d - 36524 * n100 in
  let n4 := d / 1461 in
  let d := d mod 1461 in
  let n1 := Z.min 3 (d / 365) in
  400 * n400 + 100 * n100 + 4 * n4 + n1 + 1.

(** The month that holds a day of the year: a guess, at most one too low. *)
Definition month_of (leap : bool) (yday : Z) : Z :=
  let m := yday / 31 + 1 in
  if daysBeforeMonth leap (m + 1) <=? yday then m + 1 else m.

Definition of_days (days : Z) : Z * Z * Z :=
  let year := year_of days in
  let yday := days - daysBeforeYear year in
  let month := month_of (isLeap year) yday in
  (year, month, yday - daysBeforeMonth (isLeap year) month + 1).

Definition valid_date (year month day : Z) : Prop := 1 ≤ month ≤ 12 ∧ 1 ≤ day ≤ daysIn month year.

(** *** Years *)

Definition yearLen (year : Z) : Z := if isLeap year then 366 else 365.

Lemma daysBeforeYear_succ year : daysBeforeYear (year + 1) = daysBeforeYear year + yearLen year.
Proof.
  unfold daysBeforeYear, yearLen, isLeap. replace (year + 1 - 1) with year by lia.
  destruct (year mod 4 =? 0) eqn:E4, (year mod 100 =? 0) eqn:E100, (year mod 400 =? 0) eqn:E400;
    bool_to_prop; cbn [andb orb negb]; Z.div_mod_to_equations; lia.
Qed.

Lemma daysBeforeYear_mono y1 y2 : y1 ≤ y2 → daysBeforeYear y1 ≤ daysBeforeYear y2.
Proof.
  intros H. unfold daysBeforeYear.
  assert ((y1 - 1) / 4 ≤ (y2 - 1) / 4) by (apply Z.div_le_mono; lia).
  assert ((y1 - 1) / 400 ≤ (y2 - 1) / 400) by (apply Z.div_le_mono; lia).
  assert ((y2 - 1) / 100 ≤ (y1 - 1) / 100 + (y2 - y1)).
  { Z.div_mod_to_equations. lia. }
  lia.
Qed.

Lemma year_of_bounds days : daysBeforeYear (year_of days) ≤ days < daysBeforeYear (year_of days + 1).
Proof.
  unfold year_of. cbn zeta.
  pose proof (Z.div_mod days 146097 ltac:(lia)) as H400. pose proof (Z.mod_pos_bound days 146097 ltac:(lia)).
  set (a := days / 146097) in *. set (r := days mod 146097) in *. clearbody a r.
  set (b := Z.min 3 (r / 36524)). assert (Hb : 0 ≤ b ≤ 3 ∧ 36524 * b ≤ r ∧ (b < 3 → r < 36524 * b + 36524)).
  { subst b. Z.div_mod_to_equations. lia. }
  clearbody b. set (r2 := r - 36524 * b) in *.
  assert (Hr2 : 0 ≤ r2 ≤ 36524 ∧ (b < 3 → r2 < 36524)) by lia.
  pose proof (Z.div_mod r2 1461 ltac:(lia)) as H4. pose proof (Z.mod_pos_bound r2 1461 ltac:(lia)).
  set (c := r2 / 1461) in *. set (r4 := r2 mod 1461) in *. clearbody c r4.
  set (e := Z.min 3 (r4 / 365)). assert (He : 0 ≤ e ≤ 3 ∧ 365 * e ≤ r4 ∧ (e < 3 → r4 < 365 * e + 365)).
  { subst e. Z.div_mod_to_equations. lia. }
  clearbody e. assert (Hc : 0 ≤ c ≤ 24) by lia.
  unfold daysBeforeYear.
  set (y := 400 * a + 100 * b + 4 * c + e).
  assert (E1 : y / 4 = 100 * a + 25 * b + c) by (subst y; symmetry; apply Z.div_unique with e; lia).
  assert (E2 : y / 100 = 4 * a + b) by (subst y; symmetry; apply Z.div_unique with (4 * c + e); lia).
  assert (E3 : y / 400 = a) by (subst y; symmetry; apply Z.div_unique with (100 * b + 4 * c + e); lia).
  replace (y + 1 - 1) with y by lia. replace (y + 1 + 1 - 1) with (y + 1) by lia.
  rewrite E1, E2, E3. split; [subst y; lia|].
  assert (a ≤ (y + 1) / 400 ∧ (y + 1) / 400 ≤ a + 1 ∧ (b = 3 ∧ c = 24 ∧ e = 3 → (y + 1) / 400 = a + 1)) as (?&?&?).
  { subst y. Z.div_mod_to_equations. lia. }
  assert ((y + 1) / 100 ≤ 4 * a + b + 1 ∧ ((y + 1) / 100 = 4 * a + b + 1 → c = 24 ∧ e = 3)) as (?&?).
  { subst y. Z.div_mod_to_equations. lia. }
  assert ((y + 1) / 4 = 100 * a + 25 * b + c + (if e =? 3 then 1 else 0)) as ->.
  { subst y. destruct (e =? 3) eqn:E; bool_to_prop; Z.div_mod_to_equations; lia. }
  subst y. destruct (e =? 3) eqn:E; bool_to_prop; lia.
Qed.

Lemma year_of_unique days year :
  daysBeforeYear year ≤ days < daysBeforeYear (year + 1) → year_of days = year.
Proof.
  intros H. pose proof (year_of_bounds days) as B.
  destruct (Z.lt_trichotomy (year_of days) year) as [L|[L|L]]; [|done|].
  - pose proof (daysBeforeYear_mono (year_of days + 1) year ltac:(lia)). lia.
  - pose proof (daysBeforeYear_mono (year + 1) (year_of days) ltac:(lia)). lia.
Qed.

(** *** Months: every day of both kinds of year *)

Definition month_ok (leap : bool) (yday : Z) : bool :=
  let m := month_of leap yday in
  (1 <=? m) && (m <=? 12) && (daysBeforeMonth leap m <=? yday)
  && (yday <? daysBeforeMonth leap (m + 1)).

Lemma month_of_bounds (leap : bool) (yday : Z) :
  0 ≤ yday < (if leap then 366 else 365) →
  1 ≤ month_of leap yday ≤ 12 ∧
  daysBeforeMonth leap (month_of leap yday) ≤ yday < daysBeforeMonth leap (month_of leap yday + 1).
Proof.
  intros H.
  assert (Hall : forallb (month_ok leap) (seqZ 0 (if leap then 366 else 365)) = true) by (by destruct leap; vm_compute).
  rewrite List.forallb_forall in Hall. specialize (Hall yday). unfold month_ok in Hall. cbn zeta in Hall.
  rewrite <- list_elem_of_In, elem_of_seqZ in Hall. specialize (Hall ltac:(destruct leap; lia)).
  bool_to_prop. lia.
Qed.

Lemma daysBeforeMonth_succ leap m year :
  1 ≤ m ≤ 12 → leap = isLeap year → daysBeforeMonth leap (m + 1) = daysBeforeMonth leap m + daysIn m year.
Proof.
  intros Hm ->. unfold daysIn. assert (Hin : m ∈ seqZ 1 12) by (apply elem_of_seqZ; lia).
  assert (Hall : Forall (λ m, ∀ leap : bool, daysBeforeMonth leap (m + 1) = daysBeforeMonth leap m +
    (if m =? 2 then if leap then 29 else 28 else 30 + (m + Z.shiftr m 3) mod 2)) (seqZ 1 12)).
  { vm_compute. repeat constructor; intros []; done. }
  rewrite Forall_forall in Hall. by apply Hall.
Qed.

Lemma daysBeforeMonth_mono leap m1 m2 :
  1 ≤ m1 → m1 ≤ m2 → m2 ≤ 13 → daysBeforeMonth leap m1 ≤ daysBeforeMonth leap m2.
Proof.
  intros H1 H H2. set (year := if leap then 4 else 1).
  assert (Hl : leap = isLeap year) by (by destruct leap).
  replace m2 with (m1 + Z.of_nat (Z.to_nat (m2 - m1))) in * by lia.
  induction (Z.to_nat (m2 - m1)) as [|n IH]; [replace (m1 + Z.of_nat 0) with m1 by lia; lia|].
  replace (m1 + Z.of_nat (S n)) with (m1 + Z.of_nat n + 1) by lia.
  rewrite (daysBeforeMonth_succ leap _ year) by (try lia; done).
  assert (1 ≤ daysIn (m1 + Z.of_nat n) year).
  { unfold daysIn. destruct (_ =? 2); [by destruct (isLeap year)|].
    pose proof (Z.mod_pos_bound (m1 + Z.of_nat n + Z.shiftr (m1 + Z.of_nat n) 3) 2 ltac:(lia)). lia. }
  specialize (IH ltac:(lia) ltac:(lia)). lia.
Qed.

Lemma daysBeforeMonth_end leap : daysBeforeMonth leap 13 = if leap then 366 else 365.
Proof. by destruct leap. Qed.

(** *** Dates and day numbers are in bijection *)

Lemma yday_bounds year month day :
  valid_date year month day →
  0 ≤ daysBeforeMonth (isLeap year) month + (day - 1) < yearLen year.
Proof.
  intros [Hm Hd].
  pose proof (daysBeforeMonth_succ (isLeap year) month year Hm eq_refl).
  pose proof (daysBeforeMonth_mono (isLeap year) 1 month ltac:(lia) ltac:(lia) ltac:(lia)).
  pose proof (daysBeforeMonth_mono (isLeap year) (month + 1) 13 ltac:(lia) ltac:(lia) ltac:(lia)).
  assert (daysBeforeMonth (isLeap year) 1 = 0) by (by destruct (isLeap year)).
  rewrite daysBeforeMonth_end in *. unfold yearLen. destruct (isLeap year); lia.
Qed.

Lemma of_days_of year month day :
  valid_date year month day → of_days (days_of year month day) = (year, month, day).
Proof.
  intros Hv. pose proof (yday_bounds _ _ _ Hv) as Hy. destruct Hv as [Hm Hd].
  unfold of_days, days_of. set (yday := daysBeforeMonth (isLeap year) month + (day - 1)) in *.
  replace (daysBeforeYear year + daysBeforeMonth (isLeap year) month + (day - 1))
    with (daysBeforeYear year + yday) by (subst yday; lia).
  rewrite (year_of_unique _ year) by (rewrite daysBeforeYear_succ; lia).
  replace (daysBeforeYear year + yday - daysBeforeYear year) with yday by lia.
  assert (Hmo : month_of (isLeap year) yday = month).
  { destruct (month_of_bounds (isLeap year) yday) as [Hr Hb]; [unfold yearLen in Hy; by destruct (isLeap year)|].
    pose proof (daysBeforeMonth_succ (isLeap year) month year Hm eq_refl).
    destruct (Z.lt_trichotomy (month_of (isLeap year) yday) month) as [L|[L|L]]; [|done|].
    - pose proof (daysBeforeMonth_mono (isLeap year) (month_of (isLeap year) yday + 1) month). lia.
    - pose proof (daysBeforeMonth_mono (isLeap year) (month + 1) (month_of (isLeap year) yday)). lia. }
  rewrite Hmo. f_equal. subst yday. lia.
Qed.

Lemma days_of_of days : let '(y, m, d) := of_days days in days_of y m d = days ∧ valid_date y m d.
Proof.
  unfold of_days. cbn zeta. pose proof (year_of_bounds days) as B.
  set (y := year_of days) in *. rewrite daysBeforeYear_succ in B.
  set (yday := days - daysBeforeYear y).
  destruct (month_of_bounds (isLeap y) yday) as [Hr Hb].
  { subst yday. unfold yearLen in B. destruct (isLeap y); lia. }
  set (m := month_of (isLeap y) yday) in *.
  pose proof (daysBeforeMonth_succ (isLeap y) m y Hr eq_refl).
  unfold days_of, valid_date. subst yday. lia.
Qed.

End civil.

(** ** Time zones

    A [Location] is the offset in force before the first transition and the
    transitions in order, each with the offset from then on. *)

Module zone.

Record Location := MkLocation {
  firstOffset : Z;
  tx : list (Z * Z)
}.

Definition UTC : Location := MkLocation 0 [].
Definition FixedZone (offset : Z) : Location := MkLocation offset [].

Fixpoint lookup_loop (offset start : Z) (l : list (Z * Z)) (sec : Z) : Z * Z * Z :=
  match l with
  | [] => (offset, start, MaxInt64)
  | (when, offset') :: l =>
      if sec <? when then (offset, start, when) else lookup_loop offset' when l sec
  end.

(** The offset at an instant and the interval in which it is in force. *)
Definition lookup (loc : Location) (sec : Z) : Z * Z * Z :=
  lookup_loop (firstOffset loc) MinInt64 (tx loc) sec.

Definition offset (loc : Location) (sec : Z) : Z := (lookup loc sec).1.1.

(** The end of [time.Date]: the instant at which the clocks of [loc] show
    [wall].  The zone is looked up as if [wall] were UTC, and once more if
    the instant found is outside the interval of that zone. *)
Definition date_unix (loc : Location) (wall : Z) : Z :=
  let '(off, start, stop) := lookup loc wall in
  if off =? 0 then wall
  else
    let utc := wall - off in
    if (utc <? start) || (stop <=? utc) then wall - offset loc utc else utc.

(** Offsets of less than a day, transitions at least two days apart. *)
Fixpoint spaced_loop (offset start : Z) (l : list (Z * Z)) : Prop :=
  - 86400 < offset < 86400 ∧
  match l with
  | [] => True
  | (when, offset') :: l => start + 172800 ≤ when ∧ spaced_loop offset' when l
  end.
Definition spaced (loc : Location) : Prop := spaced_loop (firstOffset loc) MinInt64 (tx loc).

(** Instants away from the ends of [int64]. *)
Definition in_range (sec : Z) : Prop := MinInt64 + 172800 ≤ sec ≤ MaxInt64 - 172800.

Lemma lookup_loop_spec off0 start0 l sec off start stop :
  spaced_loop off0 start0 l → start0 ≤ sec < MaxInt64 →
  lookup_loop off0 start0 l sec = (off, start, stop) →
  start0 ≤ start ≤ sec ∧ sec < stop ∧ - 86400 < off < 86400 ∧
  (stop = MaxInt64 ∨ start + 172800 ≤ stop) ∧
  ∀ sec', start ≤ sec' < stop → lookup_loop off0 start0 l sec' = (off, start, stop).
Proof.
  revert off0 start0. induction l as [|[when off'] l IH]; intros off0 start0 [Hoff Hs] Hsec; cbn [lookup_loop].
  - intros [= <- <- <-]. repeat split; try lia.
  - destruct Hs as [Hw Hs]. destruct (sec <? when) eqn:E; bool_to_prop.
    + intros [= <- <- <-]. repeat split; try lia. intros sec' [? ?]. by ztest.
    + intros H. destruct (IH _ _ Hs ltac:(lia) H) as (? & ? & ? & ? & Hall). repeat split; try lia.
      intros sec' ?. ztest. by apply Hall.
Qed.

Section laws.
Context (loc : Location) (Hspaced : spaced loc).

Lemma lookup_spec sec off start stop :
  in_range sec → lookup loc sec = (off, start, stop) →
  start ≤ sec < stop ∧ - 86400 < off < 86400 ∧
  (stop = MaxInt64 ∨ start + 172800 ≤ stop) ∧
  ∀ sec', start ≤ sec' < stop → lookup loc sec' = (off, start, stop).
Proof.
  unfold in_range. intros Hr H.
  destruct (lookup_loop_spec _ _ _ sec off start stop Hspaced) as (? & ? & ? & ? & ?); [lia|done|].
  repeat split; try lia; done.
Qed.

(** Intervals of [lookup] are equal or disjoint. *)
Lemma lookup_disjoint sec1 off1 s1 e1 sec2 off2 s2 e2 :
  in_range sec1 → in_range sec2 →
  lookup loc sec1 = (off1, s1, e1) → lookup loc sec2 = (off2, s2, e2) → sec1 ≤ sec2 →
  (off1, s1, e1) = (off2, s2, e2) ∨ e1 ≤ s2.
Proof.
  intros R1 R2 H1 H2 Hle.
  destruct (lookup_spec _ _ _ _ R1 H1) as (? & _ & _ & A1).
  destruct (lookup_spec _ _ _ _ R2 H2) as (? & _ & _ & A2).
  destruct (decide (e1 ≤ s2)) as [|N]; [by right|left].
  destruct (decide (s2 ≤ sec1)) as [M|M].
  - by rewrite <- H1, A2 by lia.
  - by rewrite <- (A1 s2), <- (A2 s2) by lia.
Qed.

(** Instants less than a day apart on the same side of a transition have the
    same offset. *)
Lemma lookup_near sec1 sec2 b :
  in_range sec1 → in_range sec2 → in_range b → Z.abs (sec1 - sec2) < 86400 →
  (∃ off e, lookup loc b = (off, b, e)) →
  (b - 86400 ≤ sec1 < b ∧ b - 86400 ≤ sec2 < b) ∨ (b ≤ sec1 < b + 86400 ∧ b ≤ sec2 < b + 86400) →
  offset loc sec1 = offset loc sec2.
Proof.
  intros R1 R2 Rb Hd (offb & eb & Hb) Hside. unfold offset.
  destruct (lookup loc sec1) as [[off1 s1] e1] eqn:H1. destruct (lookup loc sec2) as [[off2 s2] e2] eqn:H2.
  destruct (lookup_spec _ _ _ _ R1 H1) as (? & _ & L1 & _).
  destruct (lookup_spec _ _ _ _ R2 H2) as (? & _ & L2 & _).
  destruct (lookup_spec _ _ _ _ Rb Hb) as (? & _ & Lb & Ab). cbn [fst].
  assert (HD : (off1, s1, e1) = (off2, s2, e2) ∨ e1 ≤ s2 ∨ e2 ≤ s1).
  { destruct (decide (sec1 ≤ sec2)).
    - destruct (lookup_disjoint _ _ _ _ _ _ _ _ R1 R2 H1 H2 ltac:(lia)) as [?|?]; auto.
    - destruct (lookup_disjoint _ _ _ _ _ _ _ _ R2 R1 H2 H1 ltac:(lia)) as [?|?]; auto. }
  destruct HD as [[= -> _ _]|HD]; [done|exfalso]. unfold in_range in *.
  destruct Hside as [[? ?]|[? ?]].
  - destruct (lookup_disjoint _ _ _ _ _ _ _ _ R1 Rb H1 Hb ltac:(lia)) as [[= ? ? ?]|?]; [lia|].
    destruct (lookup_disjoint _ _ _ _ _ _ _ _ R2 Rb H2 Hb ltac:(lia)) as [[= ? ? ?]|?]; lia.
  - destruct (lookup_disjoint _ _ _ _ _ _ _ _ Rb R1 Hb H1 ltac:(lia)) as [[= ? ? ?]|?];
    destruct (lookup_disjoint _ _ _ _ _ _ _ _ Rb R2 Hb H2 ltac:(lia)) as [[= ? ? ?]|?]; lia.
Qed.

(** [Date] returns an instant that shows the wall clock it was given, if
    there is one. *)
Lemma date_unix_exact wall :
  MinInt64 + 400000 ≤ wall ≤ MaxInt64 - 400000 →
  (∃ u, in_range u ∧ u + offset loc u = wall) →
  date_unix loc wall + offset loc (date_unix loc wall) = wall.
Proof.
  intros Hw (u & Ru & Hu). unfold date_unix. set (ou := offset loc u) in *.
  assert (Bu : - 86400 < ou < 86400).
  { unfold ou, offset. destruct (lookup loc u) as [[? ?] ?] eqn:E. by apply lookup_spec in E as (_ & ? & _). }
  destruct (lookup loc wall) as [[off start] stop] eqn:H.
  destruct (lookup_spec wall off start stop) as (HI & Hoff & HL & HA); [unfold in_range; lia|done|].
  destruct (off =? 0) eqn:E0; bool_to_prop; [subst; unfold offset; rewrite H; cbn; lia|].
  destruct ((wall - off <? start) || (stop <=? wall - off)) eqn:E.
  2: { apply orb_false_iff in E as [? ?]. bool_to_prop. unfold offset. rewrite HA by lia. cbn. lia. }
  (* The instant exists in a neighbouring zone, which is the one found. *)
  assert (Hout : u < start ∨ stop ≤ u).
  { destruct (decide (start ≤ u < stop)) as [I|]; [|lia]. apply orb_true_iff in E.
    assert (ou = off) as Ho by (unfold ou, offset; by rewrite HA). destruct E; bool_to_prop; lia. }
  assert (Hn : offset loc (wall - off) = ou).
  { unfold ou. apply orb_true_iff in E. destruct E; bool_to_prop.
    - apply (lookup_near _ _ start); unfold in_range in *; [lia..| |left; lia].
      eexists _, _. apply HA. lia.
    - assert (Hstop : ∃ off' e, lookup loc stop = (off', stop, e)).
      { destruct (lookup loc stop) as [[off' s'] e'] eqn:Hs. 
        destruct (lookup_spec stop off' s' e') as (? & _ & _ & A'); [unfold in_range; lia|done|].
        eexists _, _. f_equal. f_equal. destruct (decide (s' = stop)) as [|]; [done|].
        assert (lookup loc (stop - 1) = (off', s', e')) as X by (apply A'; lia).
        rewrite HA in X by lia. injection X as -> -> ->. lia. }
      apply (lookup_near _ _ stop); unfold in_range in *; [lia..|done|right; lia]. }
  rewrite Hn. replace (wall - ou) with u by lia. fold ou. lia.
Qed.

End laws.

Lemma date_unix_UTC wall : date_unix UTC wall = wall.
Proof. done. Qed.

Lemma date_unix_fixed off wall :
  MinInt64 ≤ wall - off < MaxInt64 → date_unix (FixedZone off) wall = wall - off.
Proof.
  intros H. unfold date_unix, FixedZone, offset, lookup. cbn. destruct (off =? 0) eqn:E; bool_to_prop; [lia|].
  by destruct (_ || _).
Qed.

End zone.

(** ** Layouts

    The chunks that occur in the layouts of the sources; the other bytes of a
    layout stand for themselves. *)

Module layout.

Inductive chunk :=
| StdLongYear | StdYear | StdZeroMonth | StdZeroDay | StdHour | StdZeroMinute | StdZeroSecond
| StdFracSecond0 (digits : nat)
| StdISO8601ColonTZ
| Lit (c : Z).

Definition isDigit (c : Z) : bool := (48 <=? c) && (c <=? 57).

(** The zeros at the start of a text. *)
Fixpoint zeros (l : bytes) : nat :=
  match l with 48 :: l => S (zeros l) | _ => O end.
Definition starts_with_digit (l : bytes) : bool :=
  match l with c :: _ => isDigit c | [] => false end.

(** [nextStdChunk], repeated: "2006", "06", "01", "02", "15", "04", "05",
    ".000" and "Z07:00"; each step takes a byte. *)
Fixpoint chunks_loop (fuel : nat) (l : bytes) : list chunk :=
  match fuel with
  | O => []
  | S fuel =>
      match l with
      | [] => []
      | 50 :: 48 :: 48 :: 54 :: l => StdLongYear :: chunks_loop fuel l
      | 48 :: 49 :: l => StdZeroMonth :: chunks_loop fuel l
      | 48 :: 50 :: l => StdZeroDay :: chunks_loop fuel l
      | 49 :: 53 :: l => StdHour :: chunks_loop fuel l
      | 48 :: 52 :: l => StdZeroMinute :: chunks_loop fuel l
      | 48 :: 53 :: l => StdZeroSecond :: chunks_loop fuel l
      | 48 :: 54 :: l => StdYear :: chunks_loop fuel l
      | 90 :: 48 :: 55 :: 58 :: 48 :: 48 :: l => StdISO8601ColonTZ :: chunks_loop fuel l
      | c :: l =>
          let n := zeros l in
          if (c =? 46) && (0 <? n)%nat && negb (starts_with_digit (drop n l))
          then StdFracSecond0 n :: chunks_loop fuel (drop n l)
          else Lit c :: chunks_loop fuel l
      end
  end.
Definition chunks (s : string) : list chunk :=
  let l := bytes_of_string s in chunks_loop (length l) l.

(** The fields of a time, in the order of the arguments of [time.Date]. *)
Record fields := MkFields {
  year : Z; month : Z; day : Z; hour : Z; min : Z; sec : Z; nsec : Z
}.

(** *** Printing *)

(** [appendInt]: the digits with leading zeros, the sign before them. *)
Definition appendInt (x : Z) (width : nat) : bytes :=
  let digits := strconv.fmt (strconv.fmt_fuel (Z.abs x)) 10 (Z.abs x) [] in
  (if x <? 0 then [45] else []) ++ replicate (width - length digits) 48 ++ digits.

(** "Z07:00": Z for UTC, else hours and minutes, seconds cut off. *)
Definition format_zone (offset : Z) : bytes :=
  if offset =? 0 then [90]
  else
    let zone := Z.quot offset 60 in
    (if zone <? 0 then [45] else [43])
    ++ appendInt (Z.abs zone / 60) 2 ++ [58] ++ appendInt (Z.abs zone mod 60) 2.

(** The fields of the clock and its offset from UTC. *)
Definition format_chunk (f : fields) (offset : Z) (c : chunk) : bytes :=
  match c with
  | StdLongYear => appendInt (year f) 4
  | StdYear => appendInt (Z.max 0 (year f) mod 100) 2
  | StdZeroMonth => appendInt (month f) 2
  | StdZeroDay => appendInt (day f) 2
  | StdHour => appendInt (hour f) 2
  | StdZeroMinute => appendInt (min f) 2
  | StdZeroSecond => appendInt (sec f) 2
  | StdFracSecond0 n => 46 :: take n (appendInt (nsec f) 9)
  | StdISO8601ColonTZ => format_zone offset
  | Lit c => [c]
  end.
Definition format_fields (cs : list chunk) (offset : Z) (f : fields) : bytes := cs ≫= format_chunk f offset.

(** The clock of a zone at an instant in nanoseconds. *)
Definition clock (loc : zone.Location) (t : Time) : fields :=
  let sec := t / Second in
  let wall := sec + zone.offset loc sec in
  let '(y, m, d) := civil.of_days (wall / 86400 + 719162) in
  let s := wall mod 86400 in
  MkFields y m d (s / 3600) (s mod 3600 / 60) (s mod 60) (t mod Second).

Definition Format (layout : string) (loc : zone.Location) (t : Time) : string :=
  string_of_bytes (format_fields (chunks layout) (zone.offset loc (t / Second)) (clock loc t)).

(** *** Reading *)

(** [getnum]: two digits, or one where the field is not [fixed]. *)
Definition getnum (s : bytes) (fixed : bool) : option (Z * bytes) :=
  match s with
  | c :: s' =>
      if negb (isDigit c) then None
      else
        match s' with
        | d :: s'' =>
            if isDigit d then Some ((c - 48) * 10 + (d - 48), s'')
            else if fixed then None else Some (c - 48, s')
        | [] => if fixed then None else Some (c - 48, s')
        end
  | [] => None
  end.

(** The digits at the start of a text, and the rest. *)
Fixpoint span_digits (l : bytes) : bytes * bytes :=
  match l with
  | c :: l' => if isDigit c then let '(p, r) := span_digits l' in (c :: p, r) else ([], l)
  | [] => ([], [])
  end.
Definition digits_val (l : bytes) : Z := fold_left (λ acc c, acc * 10 + (c - 48)) l 0.

Fixpoint cutspace (l : bytes) : bytes :=
  match l with 32 :: l => cutspace l | _ => l end.

(** A range check on a number just read. *)
Definition ranged (lo hi : Z) (r : option (Z * bytes)) (k : Z → fields) : option (fields * bytes) :=
  match r with
  | Some (v, value) => if (v <? lo) || (hi <? v) then None else Some (k v, value)
  | None => None
  end.

(** An optional sign, and the rest. *)
Definition sign (l : bytes) : bool * bytes :=
  match l with
  | c :: l' => if c =? 45 then (true, l') else if c =? 43 then (false, l') else (false, l)
  | [] => (false, l)
  end.

(** [atoi] of at most nine bytes: an optional sign, then digits. *)
Definition atoi (l : bytes) : option Z :=
  let '(neg, l) := sign l in
  if forallb isDigit l then Some (if neg then - digits_val l else digits_val l) else None.

(** The fraction of a second that the layout does not mention: nine digits
    count, the others are read over. *)
Definition fraction (value : bytes) : option (Z * bytes) :=
  match value with
  | p :: value' =>
      if ((p =? 46) || (p =? 44)) && starts_with_digit value' then
        let '(ds, rest) := span_digits value' in
        let ds := take 9 ds in
        Some (digits_val ds * 10 ^ Z.of_nat (9 - length ds), rest)
      else None
  | [] => None
  end.

(** The next chunk of a layout that is not literal is a fraction. *)
Fixpoint next_is_fraction (cs : list chunk) : bool :=
  match cs with
  | StdFracSecond0 _ :: _ => true
  | Lit _ :: cs => next_is_fraction cs
  | _ => false
  end.

Definition parse_chunk (c : chunk) (next : list chunk) (value : bytes) (f : fields) : option (fields * bytes) :=
  match c, f with
  | Lit 32, _ =>
      match value with
      | [] => Some (f, value)
      | v :: _ => if v =? 32 then Some (f, cutspace value) else None
      end
  | Lit c, _ =>
      match value with
      | v :: value' => if v =? c then Some (f, value') else None
      | [] => None
      end
  | StdLongYear, MkFields _ mo d h mi s ns =>
      let p := take 4 value in
      if (length p =? 4)%nat && forallb isDigit p
      then Some (MkFields (digits_val p) mo d h mi s ns, drop 4 value) else None
  | StdZeroMonth, MkFields y _ d h mi s ns =>
      ranged 1 12 (getnum value true) (λ mo, MkFields y mo d h mi s ns)
  | StdZeroDay, MkFields y mo _ h mi s ns =>
      match getnum value true with
      | Some (d, value) => Some (MkFields y mo d h mi s ns, value)
      | None => None
      end
  | StdHour, MkFields y mo d _ mi s ns =>
      ranged 0 23 (getnum value false) (λ h, MkFields y mo d h mi s ns)
  | StdZeroMinute, MkFields y mo d h _ s ns =>
      ranged 0 59 (getnum value true) (λ mi, MkFields y mo d h mi s ns)
  | StdZeroSecond, MkFields y mo d h mi _ ns =>
      match ranged 0 59 (getnum value true) (λ s, MkFields y mo d h mi s ns) with
      | Some (MkFields y mo d h mi s ns, value) =>
          if next_is_fraction next then Some (MkFields y mo d h mi s ns, value)
          else
            match fraction value with
            | Some (ns, value) => Some (MkFields y mo d h mi s ns, value)
            | None => Some (MkFields y mo d h mi s ns, value)
            end
      | None => None
      end
  | StdFracSecond0 n, MkFields y mo d h mi s _ =>
      match value with
      | p :: value' =>
          let ds := take n value' in
          if ((p =? 46) || (p =? 44)) && (length ds =? n)%nat then
            match atoi (take 9 ds) with
            | Some ns =>
                if ns <? 0 then None
                else Some (MkFields y mo d h mi s (ns * 10 ^ Z.of_nat (9 - n)), drop n value')
            | None => None
            end
          else None
      | [] => None
      end
  | StdYear, MkFields _ mo d h mi s ns =>
      let p := take 2 value in
      match p with
      | [_; _] =>
          match atoi p with
          | Some y => Some (MkFields (if 69 <=? y then y + 1900 else y + 2000) mo d h mi s ns, drop 2 value)
          | None => None
          end
      | _ => None
      end
  | StdISO8601ColonTZ, _ => None
  end.

(** "Z07:00": the offset in seconds.  Twenty-four hours and sixty minutes
    are let through. *)
Definition parse_zone (value : bytes) : option (Z * bytes) :=
  match value with
  | [] => None
  | sign :: value' =>
      if sign =? 90 then Some (0, value')
      else
        match value' with
        | h1 :: h2 :: c :: m1 :: m2 :: rest =>
            if negb (c =? 58) then None
            else
              match getnum [h1; h2] true, getnum [m1; m2] true with
              | Some (hr, _), Some (mm, _) =>
                  if (24 <? hr) || (60 <? mm) then None
                  else if sign =? 43 then Some ((hr * 60 + mm) * 60, rest)
                  else if sign =? 45 then Some (- ((hr * 60 + mm) * 60), rest)
                  else None
              | _, _ => None
              end
        | _ => None
        end
  end.

(** The fields read, and the offset when the text has one. *)
Fixpoint parse_chunks (cs : list chunk) (value : bytes) (f : fields) (z : option Z) : option (fields * option Z) :=
  match cs with
  | [] => match value with [] => Some (f, z) | _ => None end
  | StdISO8601ColonTZ :: cs =>
      match parse_zone value with
      | Some (off, value) => parse_chunks cs value f (Some off)
      | None => None
      end
  | c :: cs =>
      match parse_chunk c cs value f with
      | Some (f, value) => parse_chunks cs value f z
      | None => None
      end
  end.

(** Seconds since the epoch of fields read as UTC. *)
Definition wall_of (f : fields) : Z :=
  (civil.days_of (year f) (month f) (day f) - 719162) * 86400 + hour f * 3600 + min f * 60 + sec f.

(** [time.ParseInLocation]; [time.Parse] is the same in UTC. *)
Definition parse_in (layout : string) (value : bytes) (loc : zone.Location) : option Time :=
  match parse_chunks (chunks layout) value (MkFields 0 1 1 0 0 0 0) None with
  | Some (f, z) =>
      if (day f <? 1) || (civil.daysIn (month f) (year f) <? day f) then None
      else
        let unix := match z with Some off => wall_of f - off | None => zone.date_unix loc (wall_of f) end in
        Some (unix * Second + nsec f)
  | None => None
  end.

Definition ParseInLocation (layout value : string) (loc : zone.Location) : option Time :=
  parse_in layout (bytes_of_string value) loc.
Definition Parse (layout value : string) : option Time := ParseInLocation layout value zone.UTC.

(** *** Reading back what was printed *)

Definition fields_ok (f : fields) : Prop :=
  0 ≤ year f ≤ 9999 ∧ civil.valid_date (year f) (month f) (day f) ∧
  0 ≤ hour f ≤ 23 ∧ 0 ≤ min f ≤ 59 ∧ 0 ≤ sec f ≤ 59 ∧ nsec f = 0.

Lemma appendInt_2 x : 0 ≤ x < 100 → appendInt x 2 = [48 + x / 10; 48 + x mod 10].
Proof.
  intros Hx.
  assert (Hall : forallb (λ x, bool_decide (appendInt x 2 = [48 + x / 10; 48 + x mod 10])) (seqZ 0 100) = true)
    by (by vm_compute).
  rewrite List.forallb_forall in Hall. eapply bool_decide_eq_true, Hall, list_elem_of_In, elem_of_seqZ. lia.
Qed.

Lemma appendInt_4 x :
  0 ≤ x ≤ 9999 → appendInt x 4 = [48 + x / 1000; 48 + x / 100 mod 10; 48 + x / 10 mod 10; 48 + x mod 10].
Proof.
  intros Hx.
  assert (Hall : forallb (λ x, bool_decide
    (appendInt x 4 = [48 + x / 1000; 48 + x / 100 mod 10; 48 + x / 10 mod 10; 48 + x mod 10]))
    (seqZ 0 10000) = true) by (by vm_compute).
  rewrite List.forallb_forall in Hall. eapply bool_decide_eq_true, Hall, list_elem_of_In, elem_of_seqZ. lia.
Qed.

Lemma isDigit_digit d : 0 ≤ d ≤ 9 → isDigit (48 + d) = true.
Proof. intros. unfold isDigit. by ztest. Qed.

Lemma getnum_appendInt x rest fixed : 0 ≤ x < 100 → getnum (appendInt x 2 ++ rest) fixed = Some (x, rest).
Proof.
  intros Hx. rewrite appendInt_2 by done. cbn [app getnum].
  rewrite !isDigit_digit by (Z.div_mod_to_equations; lia). cbn [negb]. f_equal. f_equal.
  Z.div_mod_to_equations. lia.
Qed.

Lemma ranged_appendInt lo hi x rest fixed k :
  lo ≤ x ≤ hi → 0 ≤ lo → hi < 100 → ranged lo hi (getnum (appendInt x 2 ++ rest) fixed) k = Some (k x, rest).
Proof. intros. rewrite getnum_appendInt by lia. unfold ranged. by ztest. Qed.

Lemma year_appendInt y rest :
  0 ≤ y ≤ 9999 →
  let p := take 4 (appendInt y 4 ++ rest) in
  length p = 4%nat ∧ forallb isDigit p = true ∧ digits_val p = y ∧ drop 4 (appendInt y 4 ++ rest) = rest.
Proof.
  intros Hy. rewrite appendInt_4 by done. cbn [app take drop forallb].
  rewrite !isDigit_digit by (Z.div_mod_to_equations; lia). repeat split.
  unfold digits_val. rewrite take_0. cbn [fold_left]. Z.div_mod_to_equations. lia.
Qed.

Lemma valid_date_small y m d : civil.valid_date y m d → 1 ≤ m ≤ 12 ∧ 1 ≤ d ≤ 31.
Proof.
  intros [Hm Hd]. unfold civil.daysIn in Hd.
  destruct (m =? 2); [destruct (civil.isLeap y); lia|].
  pose proof (Z.mod_pos_bound (m + Z.shiftr m 3) 2 ltac:(lia)). lia.
Qed.

(** A printed timestamp is read back. *)
Lemma parse_format_stamp f off :
  fields_ok f →
  parse_chunks (chunks "20060102150405Z") (format_fields (chunks "20060102150405Z") off f)
    (MkFields 0 1 1 0 0 0 0) None = Some (f, None).
Proof.
  intros (Hy & Hv & Hh & Hmi & Hs & Hns). destruct (valid_date_small _ _ _ Hv) as [Hmo Hd].
  destruct f as [y mo d h mi s ns]. cbn [year month day hour min sec nsec] in *. subst ns.
  set (cs := chunks "20060102150405Z"). vm_compute in cs. subst cs.
  unfold format_fields. cbn [mbind list_bind format_chunk year month day hour min sec].
  cbn [parse_chunks parse_chunk].
  destruct (year_appendInt y (appendInt mo 2 ++ appendInt d 2 ++ appendInt h 2 ++ appendInt mi 2 ++
    appendInt s 2 ++ [90] ++ []) Hy) as (-> & -> & -> & ->). cbn [Nat.eqb andb].
  rewrite ranged_appendInt by lia. rewrite getnum_appendInt by lia.
  do 3 rewrite ranged_appendInt by lia. by cbn.
Qed.

(** Without a zone in the layout the offset does not show. *)
Definition zoneless (cs : list chunk) : bool :=
  forallb (λ c, match c with StdISO8601ColonTZ => false | _ => true end) cs.

Lemma format_zoneless cs off f : zoneless cs = true → format_fields cs off f = format_fields cs 0 f.
Proof.
  unfold zoneless, format_fields. induction cs as [|c cs IH]; [done|]. cbn [forallb mbind list_bind].
  intros [Hc H]%andb_prop. rewrite (IH H). by destruct c.
Qed.

(** The clock of UTC shows the fields of the wall clock. *)
Lemma civil_of_wall f :
  civil.valid_date (year f) (month f) (day f) → 0 ≤ hour f ≤ 23 → 0 ≤ min f ≤ 59 → 0 ≤ sec f ≤ 59 →
  civil.of_days (wall_of f / 86400 + 719162) = (year f, month f, day f) ∧
  wall_of f mod 86400 = hour f * 3600 + min f * 60 + sec f.
Proof.
  intros Hv Hh Hm Hs. unfold wall_of.
  set (D := civil.days_of (year f) (month f) (day f)). set (r := hour f * 3600 + min f * 60 + sec f).
  assert (0 ≤ r < 86400) by (subst r; lia).
  replace ((D - 719162) * 86400 + hour f * 3600 + min f * 60 + sec f) with (r + (D - 719162) * 86400) by (subst r; lia).
  rewrite Z.div_add, Z.mod_add, Z.div_small, Z.mod_small by lia. split; [|done].
  replace (0 + (D - 719162) + 719162) with D by lia. by apply civil.of_days_of.
Qed.

Lemma appendInt_wf x w : wf_bytes (appendInt x w).
Proof.
  unfold appendInt. apply wf_bytes_app. split; [by destruct (x <? 0); repeat constructor|].
  apply wf_bytes_app. split; [by apply Forall_replicate|]. apply strconv.fmt_wf; [lia..|constructor].
Qed.

Lemma format_stamp_wf f off : wf_bytes (format_fields (chunks "20060102150405Z") off f).
Proof.
  set (cs := chunks "20060102150405Z"). vm_compute in cs. subst cs.
  unfold format_fields. cbn [mbind list_bind format_chunk].
  rewrite !wf_bytes_app. repeat split; try apply appendInt_wf; by repeat constructor.
Qed.

Lemma daysBeforeYear_range y : 0 ≤ y ≤ 9999 → - 366 ≤ civil.daysBeforeYear y ≤ 3660000.
Proof. intros. unfold civil.daysBeforeYear. Z.div_mod_to_equations. lia. Qed.

Lemma wall_of_range f : fields_ok f → - 10 ^ 11 ≤ wall_of f ≤ 10 ^ 12.
Proof.
  intros (Hy & Hv & Hh & Hm & Hs & _). unfold wall_of, civil.days_of.
  pose proof (daysBeforeYear_range _ Hy). pose proof (civil.yday_bounds _ _ _ Hv).
  assert (civil.yearLen (year f) ≤ 366) by (unfold civil.yearLen; by destruct (civil.isLeap _)). lia.
Qed.

(** The fields of a clock that shows [wall_of f]. *)
Lemma clock_wall loc t f :
  civil.valid_date (year f) (month f) (day f) → 0 ≤ hour f ≤ 23 → 0 ≤ min f ≤ 59 → 0 ≤ sec f ≤ 59 →
  t / Second + zone.offset loc (t / Second) = wall_of f → nsec f = t mod Second →
  clock loc t = f.
Proof.
  intros Hv Hh Hm Hs Hw Hn. destruct (civil_of_wall f Hv Hh Hm Hs) as [Hc Hr].
  unfold clock. rewrite Hw, Hc, Hr. destruct f as [y mo d h mi s ns]. cbn [year month day hour min sec nsec] in *.
  rewrite <- Hn. f_equal; Z.div_mod_to_equations; lia.
Qed.

Definition RFC3339 : string := "2006-01-02T15:04:05Z07:00".

Lemma parse_zone_format off :
  (60 | off) → - 86400 < off < 86400 → parse_zone (format_zone off) = Some (off, []).
Proof.
  intros [q ->] Hq. unfold format_zone. destruct (q * 60 =? 0) eqn:E; bool_to_prop; [by replace q with 0 by lia|].
  rewrite Z.quot_mul by lia. rewrite !appendInt_2 by (Z.div_mod_to_equations; lia).
  assert (Hg : ∀ x, 0 ≤ x < 100 → getnum [48 + x / 10; 48 + x mod 10] true = Some (x, [])).
  { intros x Hx. rewrite <- (getnum_appendInt x [] true) by done. by rewrite appendInt_2. }
  assert (0 ≤ Z.abs q / 60 < 24) by (Z.div_mod_to_equations; lia).
  assert (0 ≤ Z.abs q mod 60 < 60) by (Z.div_mod_to_equations; lia).
  assert (Hval : (Z.abs q / 60 * 60 + Z.abs q mod 60) * 60 = Z.abs q * 60) by (Z.div_mod_to_equations; lia).
  destruct (q <? 0) eqn:E2; bool_to_prop; cbn [app parse_zone Z.eqb negb Pos.eqb];
    rewrite !Hg by lia; rewrite Hval; ztest; cbn [orb]; do 2 f_equal; lia.
Qed.

Lemma format_zone_ends off : ∃ c l, format_zone off = c :: l ∧ ((c =? 46) || (c =? 44)) = false.
Proof.
  unfold format_zone. destruct (off =? 0); [by eexists _, _|]. cbn zeta.
  destruct (_ <? 0); by eexists _, _.
Qed.

(** A whole-second time printed with an offset of whole minutes is read back
    with it. *)
Lemma parse_format_RFC3339 f off :
  fields_ok f → (60 | off) → - 86400 < off < 86400 →
  parse_chunks (chunks RFC3339) (format_fields (chunks RFC3339) off f) (MkFields 0 1 1 0 0 0 0) None =
    Some (f, Some off).
Proof.
  intros (Hy & Hv & Hh & Hmi & Hs & Hns) Hdiv Hoff. destruct (valid_date_small _ _ _ Hv) as [Hmo Hd].
  destruct f as [y mo d h mi s ns]. cbn [year month day hour min sec nsec] in *. subst ns.
  set (cs := chunks RFC3339). vm_compute in cs. subst cs.
  unfold format_fields. cbn [mbind list_bind format_chunk year month day hour min sec].
  cbn [parse_chunks parse_chunk app].
  match goal with |- context [take 4 (appendInt y 4 ++ ?r)] =>
    destruct (year_appendInt y r Hy) as (-> & -> & -> & ->) end. cbn [Nat.eqb andb Z.eqb Pos.eqb].
  rewrite ranged_appendInt by lia. cbn [app Z.eqb Pos.eqb]. rewrite getnum_appendInt by lia. cbn [app Z.eqb Pos.eqb].
  do 3 (rewrite ranged_appendInt by lia; cbn [app Z.eqb Pos.eqb]). rewrite app_nil_r.
  cbn [next_is_fraction]. destruct (format_zone_ends off) as (c & l & Hc & Hcc).
  assert (Hfr : fraction (format_zone off) = None) by (rewrite Hc; cbn; by rewrite Hcc).
  by rewrite Hfr, parse_zone_format.
Qed.

Definition DateTime : string := "2006-01-02 15:04:05".

Lemma cutspace_digit d l : 0 ≤ d ≤ 9 → cutspace (32 :: (48 + d) :: l) = (48 + d) :: l.
Proof.
  intros Hd. assert (d ∈ seqZ 0 10) as Hin by (apply elem_of_seqZ; lia).
  assert (Hall : Forall (λ d, cutspace [32; 48 + d] = [48 + d] ∧ ∀ l, cutspace ((48 + d) :: l) = (48 + d) :: l) (seqZ 0 10))
    by (vm_compute; repeat constructor).
  rewrite Forall_forall in Hall. by apply Hall.
Qed.

(** The layout with a space is read by its own parser, and not as RFC 3339. *)
Lemma parse_format_DateTime f off :
  fields_ok f →
  parse_chunks (chunks RFC3339) (format_fields (chunks DateTime) off f) (MkFields 0 1 1 0 0 0 0) None = None ∧
  parse_chunks (chunks DateTime) (format_fields (chunks DateTime) off f) (MkFields 0 1 1 0 0 0 0) None = Some (f, None).
Proof.
  intros (Hy & Hv & Hh & Hmi & Hs & Hns). destruct (valid_date_small _ _ _ Hv) as [Hmo Hd].
  destruct f as [y mo d h mi s ns]. cbn [year month day hour min sec nsec] in *. subst ns.
  set (rs := chunks RFC3339). vm_compute in rs. subst rs.
  set (cs := chunks DateTime). vm_compute in cs. subst cs.
  unfold format_fields. cbn [mbind list_bind format_chunk year month day hour min sec].
  cbn [parse_chunks parse_chunk app].
  match goal with |- context [take 4 (appendInt y 4 ++ ?r)] =>
    destruct (year_appendInt y r Hy) as (-> & -> & -> & ->) end. cbn [Nat.eqb andb Z.eqb Pos.eqb].
  rewrite ranged_appendInt by lia. cbn [app Z.eqb Pos.eqb]. rewrite getnum_appendInt by lia. cbn [app Z.eqb Pos.eqb].
  split; [done|].
  match goal with |- context [cutspace (32 :: ?l)] => replace (cutspace (32 :: l)) with l end.
  - do 3 (rewrite ranged_appendInt by lia; cbn [app Z.eqb Pos.eqb]). by cbn.
  - rewrite (appendInt_2 h) by lia. cbn [app]. rewrite cutspace_digit by (Z.div_mod_to_equations; lia). done.
Qed.

(** What a date that passes the range checks gives. *)
Lemma parse_in_ok l v loc f z :
  parse_chunks (chunks l) v (MkFields 0 1 1 0 0 0 0) None = Some (f, z) → fields_ok f →
  parse_in l v loc =
    Some ((match z with Some off => wall_of f - off | None => zone.date_unix loc (wall_of f) end) * Second).
Proof.
  intros Hp (_ & (Hm & Hd) & _ & _ & _ & Hn). unfold parse_in. rewrite Hp, Hn.
  destruct (day f <? 1) eqn:E1; bool_to_prop; [lia|].
  destruct (_ <? day f) eqn:E2; bool_to_prop; [lia|]. cbn [orb]. f_equal. destruct z; lia.
Qed.

End layout.

(** ** Durations *)

Module duration.

(** [float64(n)], the quotient and the product of two floats, [uint64(x)]. *)
Definition of_int (n : Z) : float.float := float.of_int float.binary64 n.
Definition div (x y : float.float) : float.float := float.div float.binary64 x y.
Definition mul (x y : float.float) : float.float := float.mul float.binary64 x y.
Definition trunc (x : float.float) : Z := float.int_part x.

(** [leadingInt]: [None] when the number passes [2^63]. *)
Fixpoint leadingInt (x : Z) (s : bytes) : option (Z * bytes) :=
  match s with
  | c :: s' =>
      if layout.isDigit c then
        if 2 ^ 63 / 10 <? x then None
        else let x := x * 10 + (c - 48) in if 2 ^ 63 <? x then None else leadingInt x s'
      else Some (x, s)
  | [] => Some (x, s)
  end.

(** [leadingFraction]: digits that do not fit are read over. *)
Fixpoint leadingFraction (x : Z) (digits : nat) (overflow : bool) (s : bytes) : Z * nat * bytes :=
  match s with
  | c :: s' =>
      if layout.isDigit c then
        if overflow then leadingFraction x digits true s'
        else if (2 ^ 63 - 1) / 10 <? x then leadingFraction x digits true s'
        else
          let y := x * 10 + (c - 48) in
          if 2 ^ 63 <? y then leadingFraction x digits true s'
          else leadingFraction y (S digits) false s'
      else (x, digits, s)
  | [] => (x, digits, s)
  end.

(** [unitMap]; the two spellings of the microsecond are U+00B5 and U+03BC. *)
Definition unitMap (u : bytes) : option Z :=
  if bool_decide (u = [110; 115]) then Some 1
  else if bool_decide (u = [117; 115] ∨ u = [194; 181; 115] ∨ u = [206; 188; 115]) then Some 1000
  else if bool_decide (u = [109; 115]) then Some 1000000
  else if bool_decide (u = [115]) then Some Second
  else if bool_decide (u = [109]) then Some Minute
  else if bool_decide (u = [104]) then Some Hour
  else None.

(** The bytes before the next number. *)
Fixpoint span_unit (s : bytes) : bytes * bytes :=
  match s with
  | c :: s' =>
      if (c =? 46) || layout.isDigit c then ([], s) else let '(u, r) := span_unit s' in (c :: u, r)
  | [] => ([], [])
  end.

(** One number with its unit, and the rest of the text. *)
Definition element (s : bytes) : option (Z * bytes) :=
  if negb (match s with c :: _ => (c =? 46) || layout.isDigit c | [] => false end) then None
  else
    match leadingInt 0 s with
    | None => None
    | Some (v, s1) =>
        let pre := negb (length s1 =? length s)%nat in
        let '(f, digits, s2, post) :=
          match s1 with
          | c :: s1' =>
              if c =? 46 then
                let '(f, digits, s2) := leadingFraction 0 0 false s1' in
                (f, digits, s2, negb (length s2 =? length s1')%nat)
              else (0, O, s1, false)
          | [] => (0, O, s1, false)
          end in
        if negb pre && negb post then None
        else
          let '(u, s3) := span_unit s2 in
          match unitMap u with
          | None => None
          | Some unit =>
              if 2 ^ 63 / unit <? v then None
              else
                let v := v * unit in
                let v :=
                  if 0 <? f
                  then v + trunc (mul (of_int f) (div (of_int unit) (of_int (10 ^ Z.of_nat digits))))
                  else v in
                if (0 <? f) && (2 ^ 63 <? v) then None else Some (v, s3)
          end
    end.

(** Each element takes at least one byte. *)
Fixpoint elements (fuel : nat) (d : Z) (s : bytes) : option Z :=
  match s, fuel with
  | [], _ => Some d
  | _, O => None
  | _, S fuel =>
      match element s with
      | None => None
      | Some (v, s) =>
          let d := wrapU64 (d + v) in
          if 2 ^ 63 <? d then None else elements fuel d s
      end
  end.

Definition ParseDuration (text : string) : option Duration :=
  let '(neg, s) := layout.sign (bytes_of_string text) in
  if bool_decide (s = [48]) then Some 0
  else
    match s with
    | [] => None
    | _ =>
        match elements (length s) 0 s with
        | None => None
        | Some d => if neg then Some (- d) else if MaxInt64 <? d then None else Some d
        end
    end.

(** What the constructors of the services do with a configured duration: a
    text that does not parse, or not to a positive duration, is replaced. *)
Definition positiveOr (d : Duration) (text : string) : Duration :=
  match ParseDuration text with
  | Some t => if t <=? 0 then d else t
  | None => d
  end.

(** *** Lemmas *)

Lemma span_unit_length s : (length (span_unit s).2 ≤ length s)%nat.
Proof.
  induction s as [|c s IH]; [done|]. cbn [span_unit]. destruct (_ || _); [done|].
  destruct (span_unit s) as [u r]. cbn in *. lia.
Qed.

Lemma leadingInt_spec x s v r :
  leadingInt x s = Some (v, r) → 0 ≤ x ≤ 2 ^ 63 → 0 ≤ v ≤ 2 ^ 63 ∧ (length r ≤ length s)%nat.
Proof.
  revert x. induction s as [|c s IH]; intros x; cbn [leadingInt]; [intros [= <- <-]; done|].
  destruct (layout.isDigit c) eqn:E; [|intros [= <- <-]; done].
  destruct (_ <? x); [done|]. destruct (2 ^ 63 <? _) eqn:E2; [done|].
  intros H Hx. unfold layout.isDigit in E. bool_to_prop.
  destruct (IH _ H ltac:(lia)) as [? ?]. cbn [length]. lia.
Qed.

Lemma leadingFraction_length x n o s : (length (leadingFraction x n o s).2 ≤ length s)%nat.
Proof.
  revert x n o. induction s as [|c s IH]; intros x n o; cbn [leadingFraction]; [done|].
  cbn [length]. repeat case_match; try (etrans; [apply IH|]); cbn; lia.
Qed.

Lemma element_shorter s v r : element s = Some (v, r) → (length r < length s)%nat.
Proof.
  unfold element. destruct (negb _) eqn:E0; [done|].
  destruct (leadingInt 0 s) as [[v0 s1]|] eqn:E1; [|done].
  destruct (leadingInt_spec _ _ _ _ E1 ltac:(lia)) as [_ Hl1].
  match goal with |- context [let '(_, _) := ?X in _] => destruct X as [[[f digits] s2] post] eqn:E2 end.
  assert (Hl2 : (length s2 ≤ length s1)%nat ∧ (post = true → length s2 < length s1)%nat).
  { destruct s1 as [|c s1']; [by simplify_eq|].
    destruct (leadingFraction 0 0 false s1') as [[f' d'] s2'] eqn:E3.
    pose proof (leadingFraction_length 0 0 false s1') as L. rewrite E3 in L. cbn [snd] in L.
    destruct (c =? 46); simplify_eq; cbn [length]; [lia|]. split; [lia|done]. }
  destruct (negb (negb (length s1 =? length s)%nat) && negb post) eqn:E3; [done|].
  destruct (span_unit s2) as [u s3] eqn:E4. pose proof (span_unit_length s2) as L4. rewrite E4 in L4. cbn [snd] in L4.
  destruct (unitMap u) as [unit|]; [|done]. destruct (_ <? v0); [done|].
  destruct ((0 <? f) && _); [done|]. intros [= _ <-].
  apply andb_false_iff in E3 as [E3|E3].
  - rewrite negb_involutive in E3. apply Nat.eqb_neq in E3. lia.
  - apply negb_false_iff in E3. destruct Hl2 as [_ Hl2]. specialize (Hl2 E3). lia.
Qed.

(** More fuel than bytes changes nothing. *)
Lemma elements_fuel n1 n2 d s :
  (length s ≤ n1)%nat → (length s ≤ n2)%nat → elements n1 d s = elements n2 d s.
Proof.
  revert n2 d s. induction n1 as [|n1 IH]; intros n2 d s H1 H2; destruct s as [|c s]; cbn [length] in *; try lia;
    [by destruct n2..|].
  destruct n2 as [|n2]; [lia|]. cbn [elements]. destruct (element (c :: s)) as [[v r]|] eqn:E; [|done].
  apply element_shorter in E. cbn [length] in E. destruct (_ <? _); [done|]. apply IH; lia.
Qed.

Lemma elements_range fuel d s z : elements fuel d s = Some z → 0 ≤ d ≤ 2 ^ 63 → 0 ≤ z ≤ 2 ^ 63.
Proof.
  revert d s. induction fuel as [|fuel IH]; intros d s; destruct s as [|c s]; cbn [elements];
    try (by intros [= <-]).
  destruct (element (c :: s)) as [[v r]|]; [|done]. destruct (_ <? _) eqn:E; [done|]. intros H Hd.
  bool_to_prop. apply (IH _ _ H). pose proof (wrapU_range 64 (d + v) ltac:(lia)). unfold wrapU64 in *. lia.
Qed.

(** Whatever parses is a [Duration]. *)
Lemma ParseDuration_range text d : ParseDuration text = Some d → in_int64 d.
Proof.
  unfold ParseDuration, in_int64, MinInt64, MaxInt64. destruct (layout.sign _) as [neg s].
  destruct (bool_decide _); [intros [= <-]; lia|]. destruct s as [|c s]; [done|].
  destruct (elements _ 0 _) as [z|] eqn:E; [|done]. apply elements_range in E; [|lia].
  destruct neg; [intros [= <-]; lia|]. destruct (_ <? z) eqn:Ez; [done|]. bool_to_prop. intros [= <-]. lia.
Qed.

Lemma isDigit_hex d : 0 ≤ d < 10 → layout.isDigit (hex.digit d) = true ∧ hex.digit d - 48 = d.
Proof. intros. unfold layout.isDigit, hex.digit. ztest. split; [by ztest|lia]. Qed.

Lemma leadingInt_fmt fuel n acc :
  0 ≤ n < 2 ^ 63 → n < 2 ^ Z.of_nat fuel → (0 < fuel)%nat →
  leadingInt 0 (strconv.fmt fuel 10 n acc) = leadingInt n acc.
Proof.
  revert n acc. induction fuel as [|fuel IH]; intros n acc Hn Hf Hpos; [lia|].
  assert (Hdig : ∀ x d l, 0 ≤ x → 0 ≤ d < 10 → x * 10 + d < 2 ^ 63 →
    leadingInt x (hex.digit d :: l) = leadingInt (x * 10 + d) l).
  { intros x d l Hx Hd Hxd. cbn [leadingInt]. destruct (isDigit_hex d Hd) as [-> ->].
    assert (x ≤ 2 ^ 63 / 10) by (apply Z.div_le_lower_bound; lia). by ztest. }
  cbn [strconv.fmt]. destruct (n <? 10) eqn:E; bool_to_prop.
  - rewrite Hdig by lia. by rewrite Z.mul_0_l, Z.add_0_l.
  - pose proof (Z.div_mod n 10 ltac:(lia)) as Hdm. pose proof (Z.mod_pos_bound n 10 ltac:(lia)).
    assert (0 < n / 10) by (apply Z.div_str_pos; lia).
    assert (Hlt : n / 10 < 2 ^ Z.of_nat fuel).
    { apply Z.div_lt_upper_bound; [lia|]. replace (Z.of_nat (S fuel)) with (Z.of_nat fuel + 1) in Hf by lia.
      rewrite Z.pow_add_r in Hf by lia. lia. }
    destruct fuel as [|fuel]; [simpl in Hlt; lia|].
    rewrite IH; [|lia|done|lia]. rewrite Hdig; [|lia..]. f_equal. lia.
Qed.

Lemma leadingInt_app s x v t :
  leadingInt x s = Some (v, []) → layout.starts_with_digit t = false → leadingInt x (s ++ t) = Some (v, t).
Proof.
  revert x. induction s as [|c s IH]; intros x; cbn [leadingInt app].
  - intros [= <-] Ht. destruct t as [|c r]; cbn in *; [done|]. by rewrite Ht.
  - destruct (layout.isDigit c); [|done]. destruct (_ <? x); [done|]. destruct (_ <? _); [done|]. apply IH.
Qed.

(** The decimal digits of a number below [2^63], followed by a text that does
    not begin with a digit. *)
Lemma leadingInt_Itoa n t :
  0 ≤ n < 2 ^ 63 → layout.starts_with_digit t = false →
  leadingInt 0 (bytes_of_string (strconv.Itoa n) ++ t) = Some (n, t) ∧
  ∃ c l, bytes_of_string (strconv.Itoa n) = c :: l ∧ layout.isDigit c = true.
Proof.
  intros Hn Ht. unfold strconv.Itoa, strconv.FormatInt. ztest. unfold strconv.FormatUint.
  rewrite bytes_of_string_of_bytes by (apply strconv.fmt_wf; [lia..|constructor]). split.
  - apply leadingInt_app; [|done].
    rewrite leadingInt_fmt; [done|lia|apply strconv.fmt_fuel_enough; lia|unfold strconv.fmt_fuel; lia].
  - destruct (strconv.fmt_cons (Z.to_nat (Z.log2 n)) 10 n []) as (d & l & Hc & Hd); [lia..|].
    fold (strconv.fmt_fuel n) in Hc. rewrite Hc. eexists _, _. split; [done|].
    by destruct (isDigit_hex d Hd).
Qed.

(** A whole number of a unit is read exactly. *)
Lemma ParseDuration_unit n u unit :
  0 ≤ n → n * unit ≤ MaxInt64 → unitMap (bytes_of_string u) = Some unit →
  span_unit (bytes_of_string u) = (bytes_of_string u, []) →
  ParseDuration (strconv.Itoa n +:+ u) = Some (n * unit).
Proof.
  intros Hn Hmax Hu Hspan. unfold MaxInt64 in Hmax.
  assert (Hunit : 1 ≤ unit) by (unfold unitMap in Hu; repeat case_match; simplify_eq; done).
  destruct (bytes_of_string u) as [|cu ru] eqn:Eu; [done|].
  assert (Hcu : (cu =? 46) = false ∧ layout.isDigit cu = false).
  { cbn [span_unit] in Hspan. destruct ((cu =? 46) || layout.isDigit cu) eqn:E; [done|]. by apply orb_false_iff in E. }
  destruct (leadingInt_Itoa n (cu :: ru)) as (Hlead & c & l & Hc & Hdig); [nia|apply Hcu|].
  unfold ParseDuration. rewrite bytes_of_string_app, Eu, Hc. rewrite Hc in Hlead. cbn [app] in *.
  assert (Hel : element (c :: l ++ cu :: ru) = Some (n * unit, [])).
  { unfold element. rewrite Hdig, orb_true_r, Hlead. cbn [negb]. destruct Hcu as [-> ?].
    replace (length (cu :: ru) =? _)%nat with false
      by (symmetry; apply Nat.eqb_neq; cbn [length]; rewrite length_app; cbn; lia).
    cbn [negb andb]. rewrite Hspan, Hu. assert (n ≤ 2 ^ 63 / unit) by (apply Z.div_le_lower_bound; lia). by ztest. }
  assert (Hsign : layout.sign (c :: l ++ cu :: ru) = (false, c :: l ++ cu :: ru)).
  { unfold layout.isDigit in Hdig. bool_to_prop. unfold layout.sign. by ztest. }
  rewrite Hsign. destruct (bool_decide _) eqn:E; bool_to_prop.
  { apply (f_equal length) in E. cbn [length] in E. rewrite length_app in E. cbn in E. lia. }
  cbn [length elements]. rewrite Hel. rewrite Z.add_0_l, wrapU64_id by (unfold in_uint64, MaxUint64; nia).
  destruct (2 ^ 63 <? n * unit) eqn:E2; bool_to_prop; [lia|].
  destruct (length (l ++ cu :: ru)); cbn [elements]; unfold MaxInt64; by ztest.
Qed.

Lemma positiveOr_pos d text : 0 < d → 0 < positiveOr d text.
Proof. intros Hd. unfold positiveOr. destruct (ParseDuration text) as [t|]; [|done]. destruct (t <=? 0) eqn:E; bool_to_prop; lia. Qed.

Lemma positiveOr_range d text : in_int64 d → in_int64 (positiveOr d text).
Proof.
  intros Hd. unfold positiveOr. destruct (ParseDuration text) as [t|] eqn:E; [|done].
  apply ParseDuration_range in E. by destruct (t <=? 0).
Qed.

Example ParseDuration_samples :
  map ParseDuration ["1.5h"; "1h15m30.918273645s"; "-1.5ms"; "0.3333333333333333333h";
                     "9223372036854775808ns"; "-9223372036854775808ns"; "1"; "0"; "+.s"]
  = [Some 5400000000000; Some 4530918273645; Some (-1500000); Some 1200000000000;
     None; Some (- 2 ^ 63); None; Some 0; None].
Proof. by vm_compute. Qed.

End duration.
