(* ===== verification/GoJson.v ===== *)
(** * package encoding/json: the text of values, and its parser

    [Marshal] writes the compact text Go writes, strings escaped for HTML;
    [Parse] is the grammar of the scanner with its nesting limit, strings
    unquoted as Go unquotes them.  A value is what the text says: numbers stay
    literals, objects keep their members in order, duplicates included.
    Structures are filled member by member as [Unmarshal] does. *)

From S2P Require Import Prelude GoBytes GoStrconv GoUtf8.

Module json.

Inductive value :=
| Null
| Bool (b : bool)
| Number (lit : bytes)
| Str (s : bytes)
| Array (l : list value)
| Object (l : list (bytes * value)).

(** The induction principle that knows the elements and the members. *)
Section value_ind.
Context (P : value → Prop).
Context (HNull : P Null) (HBool : ∀ b, P (Bool b)) (HNumber : ∀ lit, P (Number lit)) (HStr : ∀ s, P (Str s)).
Context (HArray : ∀ l, Forall P l → P (Array l)).
Context (HObject : ∀ l, Forall (λ kv, P kv.2) l → P (Object l)).

Fixpoint value_rect_nested (v : value) : P v :=
  match v with
  | Null => HNull
  | Bool b => HBool b
  | Number lit => HNumber lit
  | Str s => HStr s
  | Array l =>
      HArray l ((fix go l : Forall P l :=
        match l with [] => Forall_nil_2 _ | v :: l => Forall_cons_2 _ _ _ (value_rect_nested v) (go l) end) l)
  | Object l =>
      HObject l ((fix go l : Forall (λ kv : bytes * value, P kv.2) l :=
        match l with
        | [] => Forall_nil_2 _
        | (k, v) :: l => Forall_cons_2 (λ kv : bytes * value, P kv.2) (k, v) l (value_rect_nested v) (go l)
        end) l)
  end.
End value_ind.

(** ** Marshal *)

(** The ASCII bytes that stand for themselves. *)
Definition htmlSafe (c : Z) : bool :=
  (32 <=? c) && negb (c =? 34) && negb (c =? 92) && negb (c =? 38) && negb (c =? 60) && negb (c =? 62).

(** [\uXXXX] *)
Definition u_escape (r : Z) : bytes :=
  [92; 117; hex.digit (r / 4096); hex.digit (r / 256 mod 16); hex.digit (r / 16 mod 16); hex.digit (r mod 16)].

(** One rune, decoded as [r] from the bytes [c]. *)
Definition quote_chunk (rc : Z * bytes) : bytes :=
  let '(r, c) := rc in
  if r <? 128 then
    if htmlSafe r then c
    else if (r =? 34) || (r =? 92) then [92; r]
    else if r =? 8 then [92; 98]
    else if r =? 9 then [92; 116]
    else if r =? 10 then [92; 110]
    else if r =? 12 then [92; 102]
    else if r =? 13 then [92; 114]
    else u_escape r
  else if (r =? utf8.RuneError) && (length c =? 1)%nat then u_escape utf8.RuneError
  else if (r =? 8232) || (r =? 8233) then u_escape r
  else c.

Definition quote (s : bytes) : bytes := 34 :: concat (quote_chunk <$> utf8.chunks s) ++ [34].

Fixpoint commas (l : list bytes) : bytes :=
  match l with
  | [] => []
  | [a] => a
  | a :: l => a ++ 44 :: commas l
  end.

Definition null_lit : bytes := [110; 117; 108; 108].
Definition true_lit : bytes := [116; 114; 117; 101].
Definition false_lit : bytes := [102; 97; 108; 115; 101].

Fixpoint Marshal (v : value) : bytes :=
  match v with
  | Null => null_lit
  | Bool b => if b then true_lit else false_lit
  | Number lit => lit
  | Str s => quote s
  | Array l => 91 :: commas (List.map Marshal l) ++ [93]
  | Object l => 123 :: commas (List.map (λ kv, quote kv.1 ++ 58 :: Marshal kv.2) l) ++ [125]
  end.

(** Integers as the encoder writes them. *)
Definition Int (z : Z) : value := Number (bytes_of_string (strconv.FormatInt z 10)).

(** ** Parse *)

Definition is_space (c : Z) : bool := (c =? 32) || (c =? 9) || (c =? 10) || (c =? 13).

Fixpoint skip (l : bytes) : bytes :=
  match l with
  | c :: l' => if is_space c then skip l' else l
  | [] => []
  end.

(** Four hexadecimal digits. *)
Definition u4 (l : bytes) : option (Z * bytes) :=
  match l with
  | a :: b :: c :: d :: l =>
      match hex.undigit a, hex.undigit b, hex.undigit c, hex.undigit d with
      | Some a, Some b, Some c, Some d => Some (a * 4096 + b * 256 + c * 16 + d, l)
      | _, _, _, _ => None
      end
  | _ => None
  end.

(** The rune of [\uXXXX]: two surrogates make one rune, a lone one is
    replaced and what follows it is read again. *)
Definition join_surrogates (r : Z) (l : bytes) : Z * bytes :=
  if utf8.in_range 55296 57343 r then
    match l with
    | b :: u :: l' =>
        if (b =? 92) && (u =? 117) then
          match u4 l' with
          | Some (r1, l2) =>
              if (r <? 56320) && utf8.in_range 56320 57343 r1
              then (65536 + (r - 55296) * 1024 + (r1 - 56320), l2) else (utf8.RuneError, l)
          | None => (utf8.RuneError, l)
          end
        else (utf8.RuneError, l)
    | _ => (utf8.RuneError, l)
    end
  else (r, l).

Definition unescape (e : Z) : option Z :=
  if (e =? 34) || (e =? 92) || (e =? 47) then Some e
  else if e =? 98 then Some 8
  else if e =? 102 then Some 12
  else if e =? 110 then Some 10
  else if e =? 114 then Some 13
  else if e =? 116 then Some 9
  else None.

Definition prepend (p : bytes) (r : option (bytes * bytes)) : option (bytes * bytes) :=
  '(s, rest) ← r; Some (p ++ s, rest).

(** The string after its opening quote, unquoted, and what follows it. *)
Fixpoint string_body (fuel : nat) (l : bytes) : option (bytes * bytes) :=
  match fuel, l with
  | S fuel, c :: l' =>
      if c =? 34 then Some ([], l')
      else if c =? 92 then
        match l' with
        | e :: l'' =>
            if e =? 117 then
              match u4 l'' with
              | Some (r, l3) =>
                  let '(r, l4) := join_surrogates r l3 in prepend (utf8.EncodeRune r) (string_body fuel l4)
              | None => None
              end
            else match unescape e with Some b => prepend [b] (string_body fuel l'') | None => None end
        | [] => None
        end
      else if c <? 32 then None
      else
        let '(r, size) := utf8.DecodeRune l in prepend (utf8.EncodeRune r) (string_body fuel (drop size l))
  | _, _ => None
  end.

Definition parse_string (l : bytes) : option (bytes * bytes) := string_body (length l) l.

(** *** Numbers: the literal and what follows it *)

Definition is_digit (c : Z) : bool := (48 <=? c) && (c <=? 57).

Fixpoint digits (l : bytes) : bytes * bytes :=
  match l with
  | c :: l' => if is_digit c then let '(d, r) := digits l' in (c :: d, r) else ([], l)
  | [] => ([], [])
  end.

Definition scan_int (l : bytes) : option (bytes * bytes) :=
  match l with
  | c :: l' =>
      if c =? 48 then Some ([48], l')
      else if is_digit c then let '(d, r) := digits l' in Some (c :: d, r)
      else None
  | [] => None
  end.

(** At least one digit. *)
Definition digits1 (l : bytes) : option (bytes * bytes) :=
  match digits l with ([], _) => None | r => Some r end.

Definition scan_frac (l : bytes) : option (bytes * bytes) :=
  match l with
  | c :: l' => if c =? 46 then prepend [46] (digits1 l') else Some ([], l)
  | [] => Some ([], [])
  end.

Definition scan_exp (l : bytes) : option (bytes * bytes) :=
  match l with
  | c :: l' =>
      if (c =? 101) || (c =? 69) then
        match l' with
        | s :: l'' => if (s =? 43) || (s =? 45) then prepend [c; s] (digits1 l'') else prepend [c] (digits1 l')
        | [] => None
        end
      else Some ([], l)
  | [] => Some ([], [])
  end.

Definition then_scan (scan : bytes → option (bytes * bytes)) (r : option (bytes * bytes)) : option (bytes * bytes) :=
  '(p, l) ← r; prepend p (scan l).

Definition scan_unsigned (l : bytes) : option (bytes * bytes) :=
  then_scan scan_exp (then_scan scan_frac (scan_int l)).

Definition scan_number (l : bytes) : option (bytes * bytes) :=
  match l with
  | c :: l' => if c =? 45 then prepend [45] (scan_unsigned l') else scan_unsigned l
  | [] => None
  end.

(** *** Values *)

Definition maxNestingDepth : Z := 10000.

(** A value that is not a composite one; [c] is its first byte, at the head
    of [l]. *)
Definition parse_scalar (c : Z) (l : bytes) : option (value * bytes) :=
  if c =? 34 then '(s, r) ← parse_string (tail l); Some (Str s, r)
  else if bytes_prefix null_lit l then Some (Null, drop 4 l)
  else if bytes_prefix true_lit l then Some (Bool true, drop 4 l)
  else if bytes_prefix false_lit l then Some (Bool false, drop 5 l)
  else '(lit, r) ← scan_number l; Some (Number lit, r).

(** [depth] counts the arrays and objects around. *)
Fixpoint parse_value (fuel : nat) (depth : Z) (l : bytes) : option (value * bytes) :=
  match fuel, skip l with
  | S fuel, c :: r =>
      if c =? 91 then
        if depth <? maxNestingDepth then
          match skip r with
          | x :: r' =>
              if x =? 93 then Some (Array [], r')
              else '(vs, r) ← parse_elems fuel (depth + 1) r; Some (Array vs, r)
          | [] => None
          end
        else None
      else if c =? 123 then
        if depth <? maxNestingDepth then
          match skip r with
          | x :: r' =>
              if x =? 125 then Some (Object [], r')
              else '(ms, r) ← parse_members fuel (depth + 1) r; Some (Object ms, r)
          | [] => None
          end
        else None
      else parse_scalar c (c :: r)
  | _, _ => None
  end
with parse_elems (fuel : nat) (depth : Z) (l : bytes) : option (list value * bytes) :=
  match fuel with
  | S fuel =>
      match parse_value fuel depth l with
      | Some (v, r) =>
          match skip r with
          | x :: r' =>
              if x =? 44 then '(vs, r) ← parse_elems fuel depth r'; Some (v :: vs, r)
              else if x =? 93 then Some ([v], r') else None
          | [] => None
          end
      | None => None
      end
  | O => None
  end
with parse_members (fuel : nat) (depth : Z) (l : bytes) : option (list (bytes * value) * bytes) :=
  match fuel, skip l with
  | S fuel, q :: r =>
      if q =? 34 then
        match parse_string r with
        | Some (k, r) =>
            match skip r with
            | c :: r =>
                if c =? 58 then
                  match parse_value fuel depth r with
                  | Some (v, r) =>
                      match skip r with
                      | x :: r' =>
                          if x =? 44 then '(ms, r) ← parse_members fuel depth r'; Some ((k, v) :: ms, r)
                          else if x =? 125 then Some ([(k, v)], r') else None
                      | [] => None
                      end
                  | None => None
                  end
                else None
            | [] => None
            end
        | None => None
        end
      else None
  | _, _ => None
  end.

(** Each value takes a byte, and two calls. *)
Definition parse_fuel (l : bytes) : nat := 2 * length l + 2.

(** The value of a text that is one value. *)
Definition Parse (data : bytes) : option value :=
  match parse_value (parse_fuel data) 0 data with
  | Some (v, r) => match skip r with [] => Some v | _ => None end
  | None => None
  end.

(** Texts for the examples, with apostrophes for the quotes. *)
Definition text (s : string) : bytes := (λ c, if c =? 39 then 34 else c) <$> bytes_of_string s.

Example parse_ex :
  Parse (text " {'a' : [1, -2.5e3, null], 'b':'x\u0041\n\ud83d\ude00\ud83dz'} ") =
  Some (Object [([97], Array [Number [49]; Number (bytes_of_string "-2.5e3"); Null]);
                ([98], Str [120; 65; 10; 240; 159; 152; 128; 239; 191; 189; 122])]).
Proof. vm_compute. reflexivity. Qed.

Example parse_rejects :
  Forall (λ s, Parse (text s) = None)
    ["[1,]"; "{'a'}"; "01"; "1."; "'a"; "nul"; "[1"; "1 2"; "'\x'"; ""; "{'a':1,}"; "-"; "1e"; "+1"].
Proof. repeat constructor. Qed.

Example marshal_ex :
  Marshal (Object [([97], Str (bytes_of_string "<a\>" ++ [255; 10; 226; 128; 168])); ([98], Int (-12))]) =
  text "{'a':'\u003ca\\\u003e\ufffd\n\u2028','b':-12}".
Proof. vm_compute. reflexivity. Qed.

(** ** Strings are read back *)

Lemma u4_escape r l : 0 ≤ r < 65536 → u4 (drop 2 (u_escape r) ++ l) = Some (r, l).
Proof.
  intros Hr. cbn [drop u_escape app]. unfold u4. rewrite !hex.undigit_digit by (Z.div_mod_to_equations; lia).
  repeat f_equal. Z.div_mod_to_equations; lia.
Qed.

(** A rune of a string, as [DecodeRune] reads it. *)
Definition chunk_ok (r : Z) (c : bytes) : Prop :=
  (0 ≤ r < 128 ∧ c = [r]) ∨ (r = utf8.RuneError ∧ length c = 1%nat) ∨
  (128 ≤ r ∧ utf8.ValidRune r = true ∧ c = utf8.EncodeRune r).

Lemma EncodeRune_ascii r : 0 ≤ r < 128 → utf8.EncodeRune r = [r].
Proof.
  intros Hr. unfold utf8.EncodeRune, utf8.ValidRune, utf8.in_range. ztest. cbn [andb orb]. by ztest.
Qed.

Lemma EncodeRune_head r : 128 ≤ r → utf8.ValidRune r = true →
  ∃ c l, utf8.EncodeRune r = c :: l ∧ 128 ≤ c ∧ l ≠ [].
Proof.
  intros Hr Hv. unfold utf8.EncodeRune. rewrite Hv. unfold utf8.ValidRune, utf8.in_range in Hv.
  repeat case_match; bool_to_prop; try lia; eexists _, _; (split; [reflexivity|]); (split; [|done]).
  all: rewrite orb_true_iff, !andb_true_iff, !Z.leb_le in Hv; Z.div_mod_to_equations; lia.
Qed.

Lemma read_escape fuel r tl :
  0 ≤ r < 65536 → ¬ 55296 ≤ r ≤ 57343 →
  string_body (S fuel) (u_escape r ++ tl) = prepend (utf8.EncodeRune r) (string_body fuel tl).
Proof.
  intros Hr Hs. change (u_escape r ++ tl) with (92 :: 117 :: drop 2 (u_escape r) ++ tl).
  cbn [string_body]. change (92 =? 34) with false. change (92 =? 92) with true. change (117 =? 117) with true.
  cbv iota. rewrite u4_escape by done. unfold join_surrogates, utf8.in_range.
  destruct ((55296 <=? r) && (r <=? 57343)) eqn:E; [bool_to_prop; lia|done].
Qed.

Lemma read_chunk fuel r c tl :
  chunk_ok r c →
  string_body (S fuel) (quote_chunk (r, c) ++ tl) = prepend (utf8.EncodeRune r) (string_body fuel tl).
Proof.
  intros [[Hr ->]|[[-> Hc]|(Hr & Hv & ->)]]; cbn [quote_chunk].
  - rewrite EncodeRune_ascii by done. replace (r <? 128) with true by (symmetry; apply Z.ltb_lt; lia).
    destruct (htmlSafe r) eqn:Es.
    { unfold htmlSafe in Es. bool_to_prop. cbn [app string_body].
      unfold utf8.DecodeRune. ztest. cbv beta iota. cbn [drop]. by rewrite EncodeRune_ascii. }
    destruct ((r =? 34) || (r =? 92)) eqn:E1.
    { apply orb_prop in E1 as [E1|E1]; bool_to_prop; by subst r. }
    repeat match goal with |- context [if r =? ?k then _ else _] =>
      let E := fresh in destruct (r =? k) eqn:E; [apply Z.eqb_eq in E; by subst r|] end.
    rewrite read_escape by lia. by rewrite EncodeRune_ascii.
  - change (utf8.RuneError <? 128) with false. rewrite Z.eqb_refl, Hc. cbv iota beta. cbn [andb Nat.eqb].
    apply read_escape; unfold utf8.RuneError; lia.
  - replace (r <? 128) with false by (symmetry; apply Z.ltb_ge; lia).
    destruct (EncodeRune_head r Hr Hv) as (c & l & E & Hc & Hl).
    replace ((r =? utf8.RuneError) && (length (utf8.EncodeRune r) =? 1)%nat) with false.
    2: { rewrite E. destruct l; [done|]. cbn. by rewrite andb_false_r. }
    destruct ((r =? 8232) || (r =? 8233)) eqn:E1.
    { apply read_escape; apply orb_prop in E1 as [E1|E1]; bool_to_prop; lia. }
    pose proof (utf8.DecodeRune_EncodeRune r tl Hv) as Hd. rewrite E in Hd |- *. cbn [app string_body] in Hd |- *.
    rewrite Hd. ztest. cbv beta iota. rewrite E. f_equal. f_equal.
    exact (drop_app_length (c :: l) tl).
Qed.

Lemma chunks_ok s : wf_bytes s → Forall (λ rc, chunk_ok rc.1 rc.2) (utf8.chunks s).
Proof.
  induction s as [|s Hs IH] using utf8.chunks_ind; intros Hwf; [constructor|].
  rewrite utf8.chunks_step by done. constructor.
  - pose proof (utf8.DecodeRune_cases s Hwf Hs) as H. pose proof (utf8.DecodeRune_size s Hs) as Hsz.
    destruct (utf8.DecodeRune s) as [r n]. cbn in *. unfold chunk_ok.
    destruct H as [(-> & Hr & ->)|[[-> ->]|(Hr & _ & Hv & ->)]]; [by left| |by right; right].
    right; left. split; [done|]. rewrite length_take. lia.
  - apply IH. by apply Forall_drop.
Qed.

Lemma read_chunks (cs : list (Z * bytes)) fuel rest :
  Forall (λ rc, chunk_ok rc.1 rc.2) cs → (length cs < fuel)%nat →
  string_body fuel (concat (quote_chunk <$> cs) ++ 34 :: rest) = Some (cs.*1 ≫= utf8.EncodeRune, rest).
Proof.
  intros Hcs. revert fuel. induction Hcs as [|[r c] cs Hc Hcs IH]; intros [|fuel] Hf; cbn in Hf; try lia; [done|].
  cbn [fmap list_fmap concat]. rewrite <- app_assoc, read_chunk by done. rewrite IH by lia. done.
Qed.

Lemma quote_chunk_nonempty r c : chunk_ok r c → (1 ≤ length (quote_chunk (r, c)))%nat.
Proof.
  intros H. cbn [quote_chunk].
  destruct H as [[Hr ->]|[[-> Hc]|(Hr & Hv & ->)]]; repeat case_match; cbn; try lia.
  by destruct (EncodeRune_head r Hr Hv) as (c & l & -> & _ & _); cbn; lia.
Qed.

Lemma quote_chunks_length cs :
  Forall (λ rc, chunk_ok rc.1 rc.2) cs → (length cs ≤ length (concat (quote_chunk <$> cs)))%nat.
Proof.
  induction 1 as [|[r c] cs Hc Hcs IH]; [done|]. cbn [fmap list_fmap concat length]. rewrite length_app.
  pose proof (quote_chunk_nonempty r c Hc). lia.
Qed.

(** A string is read back as its runes, invalid bytes replaced. *)
Definition valid_text (s : bytes) : bytes := utf8.of_runes (utf8.runes s).

Lemma parse_quote s rest : wf_bytes s → parse_string (tail (quote s) ++ rest) = Some (valid_text s, rest).
Proof.
  intros Hwf. unfold parse_string, quote. cbn [tail]. rewrite <- app_assoc. cbn [app].
  pose proof (chunks_ok s Hwf) as Hc. apply read_chunks; [done|].
  rewrite length_app. cbn [length]. pose proof (quote_chunks_length _ Hc). lia.
Qed.

(** ** Numbers are read back *)

(** What follows a value inside a text that [Marshal] wrote. *)
Definition ends (rest : bytes) : Prop :=
  match rest with [] => True | c :: _ => c = 44 ∨ c = 93 ∨ c = 125 end.

(** A scanner that looks no further than the end of a value. *)
Definition local_scan (scan : bytes → option (bytes * bytes)) : Prop :=
  ∀ l p r rest, ends rest → scan l = Some (p, r) → scan (l ++ rest) = Some (p, r ++ rest).

Lemma ends_not_digit rest : ends rest → digits rest = ([], rest).
Proof. destruct rest as [|c rest]; [done|]. by intros [ -> |[ -> | -> ] ]. Qed.

Lemma digits_app l rest : ends rest → digits (l ++ rest) = ((digits l).1, (digits l).2 ++ rest).
Proof.
  intros He. induction l as [|c l IH]; cbn [app digits]; [by rewrite ends_not_digit|].
  destruct (is_digit c); [|done]. rewrite IH. by destruct (digits l).
Qed.

Lemma local_digits1 : local_scan digits1.
Proof.
  intros l p r rest He. unfold digits1. rewrite digits_app by done.
  destruct (digits l) as [[|d ds] r']; [done|]. by intros [= <- <-].
Qed.

Lemma local_prepend q scan l p r rest :
  local_scan scan → ends rest → prepend q (scan l) = Some (p, r) → prepend q (scan (l ++ rest)) = Some (p, r ++ rest).
Proof.
  intros Hs He. destruct (scan l) as [[p' r']|] eqn:E; [|done]. intros [= <- <-].
  by rewrite (Hs _ _ _ _ He E).
Qed.

Lemma local_int : local_scan scan_int.
Proof.
  intros [|c l] p r rest He; [done|]. cbn [scan_int app]. destruct (c =? 48); [by intros [= <- <-]|].
  destruct (is_digit c); [|done]. rewrite digits_app by done. destruct (digits l). by intros [= <- <-].
Qed.

Lemma local_frac : local_scan scan_frac.
Proof.
  intros [|c l] p r rest He; cbn [scan_frac app].
  - intros [= <- <-]. destruct rest as [|c rest]; [done|]. by destruct He as [ -> |[ -> | -> ] ].
  - destruct (c =? 46); [|by intros [= <- <-]]. by apply local_prepend; [apply local_digits1|].
Qed.

Lemma local_exp : local_scan scan_exp.
Proof.
  intros [|c l] p r rest He; cbn [scan_exp app].
  - intros [= <- <-]. destruct rest as [|c rest]; [done|]. by destruct He as [ -> |[ -> | -> ] ].
  - destruct ((c =? 101) || (c =? 69)); [|by intros [= <- <-]].
    destruct l as [|x l]; [done|]. cbn [app].
    destruct ((x =? 43) || (x =? 45)); [by apply local_prepend; [apply local_digits1|]|].
    change (x :: l ++ rest) with ((x :: l) ++ rest). by apply local_prepend; [apply local_digits1|].
Qed.

Lemma local_then scan1 scan2 : local_scan scan1 → local_scan scan2 → local_scan (λ l, then_scan scan2 (scan1 l)).
Proof.
  intros H1 H2 l p r rest He. unfold then_scan. destruct (scan1 l) as [[q r1]|] eqn:E1; [|done]. cbn.
  rewrite (H1 _ _ _ _ He E1). cbn. by apply local_prepend.
Qed.

Lemma local_number : local_scan scan_number.
Proof.
  assert (Hu : local_scan scan_unsigned).
  { apply (local_then _ scan_exp); [apply (local_then _ scan_frac)|]; [apply local_int|apply local_frac|apply local_exp]. }
  intros [|c l] p r rest He; [done|]. cbn [scan_number app].
  destruct (c =? 45); [by apply local_prepend|]. by apply (Hu (c :: l)).
Qed.

Definition is_number (lit : bytes) : Prop := scan_number lit = Some (lit, []).

Lemma number_head lit : is_number lit → ∃ c l, lit = c :: l ∧ (c = 45 ∨ 48 ≤ c ≤ 57).
Proof.
  unfold is_number. destruct lit as [|c l]; [done|]. intros H. exists c, l. split; [done|].
  cbn [scan_number] in H. destruct (c =? 45) eqn:E; bool_to_prop; [by left|right].
  unfold scan_unsigned, scan_int in H. destruct (c =? 48) eqn:E0; bool_to_prop; [lia|].
  destruct (is_digit c) eqn:Ed; [|done]. unfold is_digit in Ed. bool_to_prop. lia.
Qed.

(** The integers [Marshal] writes are numbers. *)
Lemma digits_fmt fuel n acc :
  0 ≤ n → digits acc = (acc, []) → digits (strconv.fmt fuel 10 n acc) = (strconv.fmt fuel 10 n acc, []).
Proof.
  assert (Hd : ∀ d, 0 ≤ d < 10 → is_digit (hex.digit d) = true).
  { intros d Hd. unfold is_digit, hex.digit. ztest. by ztest. }
  revert n acc. induction fuel as [|fuel IH]; intros n acc Hn Ha; [done|]. cbn [strconv.fmt].
  destruct (n <? 10) eqn:E; bool_to_prop.
  - cbn [digits]. by rewrite Hd, Ha by lia.
  - apply IH; [by apply Z.div_pos|]. cbn [digits]. rewrite Hd, Ha; [done|]. by apply Z.mod_pos_bound.
Qed.

(** A number that is not zero begins with another digit. *)
Lemma fmt_lead fuel n acc :
  0 < n → n < 2 ^ Z.of_nat (S fuel) → ∃ d l, strconv.fmt (S fuel) 10 n acc = hex.digit d :: l ∧ 1 ≤ d < 10.
Proof.
  revert n acc. induction fuel as [|fuel IH]; intros n acc Hn Hf.
  - change (2 ^ Z.of_nat 1) with 2 in Hf. cbn [strconv.fmt]. replace (n <? 10) with true by (symmetry; apply Z.ltb_lt; lia).
    exists n, acc. split; [done|lia].
  - change (strconv.fmt (S (S fuel)) 10 n acc) with
      (if n <? 10 then hex.digit n :: acc else strconv.fmt (S fuel) 10 (n / 10) (hex.digit (n mod 10) :: acc)).
    destruct (n <? 10) eqn:E; bool_to_prop; [exists n, acc; split; [done|lia]|].
    apply IH; [apply Z.div_str_pos; lia|]. apply Z.div_lt_upper_bound; [lia|].
    rewrite (Nat2Z.inj_succ (S fuel)), Z.pow_succ_r in Hf by lia. lia.
Qed.

Lemma scan_digits d l : 1 ≤ d < 10 → digits l = (l, []) → scan_unsigned (hex.digit d :: l) = Some (hex.digit d :: l, []).
Proof.
  intros Hd Hl. unfold scan_unsigned, scan_int, is_digit. unfold hex.digit. ztest. cbn [andb].
  rewrite Hl. cbn. by rewrite !app_nil_r.
Qed.

Lemma is_number_Uint n : 0 ≤ n → scan_unsigned (strconv.fmt (strconv.fmt_fuel n) 10 n []) = Some (strconv.fmt (strconv.fmt_fuel n) 10 n [], []).
Proof.
  intros Hn. destruct (decide (n = 0)) as [->|Hz]; [done|].
  pose proof (strconv.fmt_fuel_enough n Hn) as Hf. unfold strconv.fmt_fuel in *.
  destruct (fmt_lead (Z.to_nat (Z.log2 n)) n [] ltac:(lia) Hf) as (d & l & E & Hd).
  pose proof (digits_fmt (S (Z.to_nat (Z.log2 n))) n [] Hn eq_refl) as Hdig. rewrite E in Hdig |- *.
  apply scan_digits; [done|]. cbn [digits] in Hdig.
  destruct (is_digit (hex.digit d)); [|done]. destruct (digits l) as [d' r]. by injection Hdig as -> ->.
Qed.

Lemma is_number_Int z : is_number (bytes_of_string (strconv.FormatInt z 10)).
Proof.
  assert (Hw : ∀ n, 0 ≤ n → bytes_of_string (strconv.FormatUint n 10) = strconv.fmt (strconv.fmt_fuel n) 10 n []).
  { intros n Hn. unfold strconv.FormatUint. apply bytes_of_string_of_bytes. apply strconv.fmt_wf; [lia|done|constructor]. }
  unfold is_number, strconv.FormatInt. destruct (z <? 0) eqn:E; bool_to_prop.
  - cbn [bytes_of_string scan_number]. change (byte_of_ascii "-") with 45. cbn [Z.eqb Pos.eqb].
    rewrite Hw by lia. by rewrite is_number_Uint by lia.
  - rewrite Hw by lia. pose proof (is_number_Uint z E) as H.
    destruct (strconv.fmt_cons (Z.to_nat (Z.log2 z)) 10 z [] ltac:(lia) ltac:(lia)) as (d & l & Hc & Hd).
    change (S (Z.to_nat (Z.log2 z))) with (strconv.fmt_fuel z) in Hc. rewrite Hc in H |- *. cbn [scan_number].
    unfold hex.digit at 1. replace (d <? 10) with true by (symmetry; apply Z.ltb_lt; lia).
    replace (48 + d =? 45) with false by (symmetry; apply Z.eqb_neq; lia). done.
Qed.

(** ** Values are read back *)

(** What [Marshal] can be given: byte strings and number literals. *)
Fixpoint wf (v : value) : Prop :=
  match v with
  | Null | Bool _ => True
  | Number lit => is_number lit
  | Str s => wf_bytes s
  | Array l => List.fold_right (λ v P, wf v ∧ P) True l
  | Object l => List.fold_right (λ kv P, (wf_bytes kv.1 ∧ wf kv.2) ∧ P) True l
  end.

(** How deep arrays and objects are nested. *)
Fixpoint height (v : value) : Z :=
  match v with
  | Null | Bool _ | Number _ | Str _ => 0
  | Array l => 1 + List.fold_right (λ v h, Z.max (height v) h) 0 l
  | Object l => 1 + List.fold_right (λ kv h, Z.max (height kv.2) h) 0 l
  end.

(** The value with the invalid bytes of its strings replaced. *)
Fixpoint clean (v : value) : value :=
  match v with
  | Null | Bool _ | Number _ => v
  | Str s => Str (valid_text s)
  | Array l => Array (List.map clean l)
  | Object l => Object (List.map (λ kv, (valid_text kv.1, clean kv.2)) l)
  end.

(** The first byte of a value. *)
Definition starts (c : Z) : Prop :=
  is_space c = false ∧ c ≠ 93 ∧ c ≠ 125 ∧ c ≠ 44 ∧ c ≠ 58.

Lemma Marshal_head v : wf v → ∃ c l, Marshal v = c :: l ∧ starts c.
Proof.
  destruct v as [|[]|lit|s|l|l]; cbn; intros Hwf; try by eexists _, _.
  destruct (number_head lit Hwf) as (c & l & -> & Hc). exists c, l. split; [done|].
  unfold starts, is_space. split; [|lia]. by ztest.
Qed.

Lemma skip_start c l : is_space c = false → skip (c :: l) = c :: l.
Proof. intros H. cbn. by rewrite H. Qed.

(** The scalars. *)
Lemma parse_number lit rest fuel depth :
  is_number lit → ends rest → parse_value (S fuel) depth (lit ++ rest) = Some (Number lit, rest).
Proof.
  intros Hn He. pose proof (local_number lit lit [] rest He Hn) as Hs.
  destruct (number_head lit Hn) as (c & l & -> & Hc). cbn [app] in *. cbn [parse_value].
  rewrite skip_start by (unfold is_space; by ztest).
  replace (c =? 91) with false by (symmetry; apply Z.eqb_neq; lia).
  replace (c =? 123) with false by (symmetry; apply Z.eqb_neq; lia).
  unfold parse_scalar. replace (c =? 34) with false by (symmetry; apply Z.eqb_neq; lia).
  unfold null_lit, true_lit, false_lit. cbn [bytes_prefix].
  replace (110 =? c) with false by (symmetry; apply Z.eqb_neq; lia).
  replace (116 =? c) with false by (symmetry; apply Z.eqb_neq; lia).
  replace (102 =? c) with false by (symmetry; apply Z.eqb_neq; lia). cbn [andb]. by rewrite Hs.
Qed.

(** What is to be shown of a value: with enough fuel, its text is read back
    up to what follows. *)
Definition reads (v : value) : Prop :=
  ∀ fuel depth rest, wf v → depth + height v ≤ maxNestingDepth → ends rest →
    (2 * length (Marshal v) ≤ fuel)%nat →
    parse_value fuel depth (Marshal v ++ rest) = Some (clean v, rest).

Lemma Marshal_nonempty v : wf v → (1 ≤ length (Marshal v))%nat.
Proof. intros H. destruct (Marshal_head v H) as (c & l & -> & _). cbn. lia. Qed.

Lemma max_height {A} (f : A → Z) x l : f x ≤ List.fold_right (λ v h, Z.max (f v) h) 0 (x :: l) ∧
  List.fold_right (λ v h, Z.max (f v) h) 0 l ≤ List.fold_right (λ v h, Z.max (f v) h) 0 (x :: l).
Proof. cbn. lia. Qed.

Lemma reads_elems l fuel depth rest :
  l ≠ [] → Forall reads l → wf (Array l) → depth + (height (Array l) - 1) ≤ maxNestingDepth →
  (2 * length (commas (List.map Marshal l)) + 1 ≤ fuel)%nat →
  parse_elems fuel depth (commas (List.map Marshal l) ++ 93 :: rest) = Some (List.map clean l, rest).
Proof.
  intros Hne Hall. revert fuel. induction Hall as [|v l Hv Hall IH]; intros fuel Hwf Hd Hf; [done|].
  destruct fuel as [|fuel]; [lia|]. destruct Hwf as [Hw Hwf]. change (List.fold_right _ True l) with (wf (Array l)) in Hwf.
  pose proof (max_height height v l) as [Hm1 Hm2]. cbn [height] in Hd.
  destruct l as [|v' l].
  - cbn [List.map commas app parse_elems] in *. rewrite Hv; [|done|lia|by right; left|lia]. done.
  - change (commas (List.map Marshal (v :: v' :: l)))
      with (Marshal v ++ 44 :: commas (List.map Marshal (v' :: l))) in *.
    rewrite length_app in Hf. cbn [length] in Hf. rewrite <- app_assoc. cbn [app parse_elems].
    rewrite Hv; [|done|lia|by left|lia]. cbn [skip]. change (is_space 44) with false. change (44 =? 44) with true. cbv iota.
    rewrite IH; [done|done|done| |lia]. cbn [height]. lia.
Qed.

Definition member (kv : bytes * value) : bytes := quote kv.1 ++ 58 :: Marshal kv.2.

Lemma reads_members l fuel depth rest :
  l ≠ [] → Forall (λ kv, reads kv.2) l → wf (Object l) → depth + (height (Object l) - 1) ≤ maxNestingDepth →
  (2 * length (commas (List.map member l)) + 1 ≤ fuel)%nat →
  parse_members fuel depth (commas (List.map member l) ++ 125 :: rest) =
    Some (List.map (λ kv, (valid_text kv.1, clean kv.2)) l, rest).
Proof.
  intros Hne Hall. revert fuel. induction Hall as [|[k v] l Hv Hall IH]; intros fuel Hwf Hd Hf; [done|].
  cbn [snd] in Hv. destruct fuel as [|fuel]; [lia|]. destruct Hwf as [[Hk Hw] Hwf]. cbn [fst snd] in Hk, Hw.
  change (List.fold_right _ True l) with (wf (Object l)) in Hwf.
  pose proof (max_height (λ kv : bytes * value, height kv.2) (k, v) l) as [Hm1 Hm2]. cbn [height] in Hd. cbn [snd] in Hm1.
  assert (Hq : ∀ tl, quote k ++ tl = 34 :: tail (quote k) ++ tl) by done.
  assert (Hlq : (1 ≤ length (quote k))%nat) by (unfold quote; cbn; lia).
  destruct l as [|kv' l].
  - cbn [List.map commas] in *. unfold member in *. cbn [fst snd] in *. rewrite length_app in Hf. cbn [length] in Hf.
    rewrite <- app_assoc. cbn [app]. rewrite Hq. cbn [parse_members]. rewrite skip_start by done.
    change (34 =? 34) with true. cbv iota. rewrite parse_quote by done. rewrite skip_start by done.
    change (58 =? 58) with true. cbv iota. rewrite Hv; [|done|lia|by right; right|lia]. done.
  - change (commas (List.map member ((k, v) :: kv' :: l)))
      with ((quote k ++ 58 :: Marshal v) ++ 44 :: commas (List.map member (kv' :: l))) in *.
    rewrite !length_app in Hf. cbn [length] in Hf. rewrite <- !app_assoc. cbn [app].
    rewrite Hq. cbn [parse_members]. rewrite skip_start by done.
    change (34 =? 34) with true. cbv iota. rewrite parse_quote by done. rewrite skip_start by done.
    change (58 =? 58) with true. cbv iota. rewrite Hv; [|done|lia|by left|lia].
    rewrite skip_start by done. change (44 =? 44) with true. cbv iota.
    rewrite IH; [done|done|done| |lia]. cbn [height]. lia.
Qed.

Lemma commas_cons a l : ∃ t, commas (a :: l) = a ++ t.
Proof. destruct l as [|b l]; [exists []; by rewrite app_nil_r|by eexists]. Qed.

Lemma reads_all v : reads v.
Proof.
  induction v as [|b|lit|s|l IH|l IH] using value_rect_nested; intros fuel depth rest Hwf Hd He Hf.
  1-4: destruct fuel as [|fuel]; [cbn in Hf; try (destruct b; cbn in Hf; lia); try lia|].
  - done.
  - by destruct b.
  - pose proof (Marshal_nonempty (Number lit) Hwf). cbn in *. lia.
  - by apply parse_number.
  - cbn [Marshal]. change (quote s ++ rest) with (34 :: tail (quote s) ++ rest). cbn [parse_value].
    rewrite skip_start by done. unfold parse_scalar. cbn [tl tail]. by rewrite parse_quote.
  - cbn [Marshal] in Hf |- *. cbn [length] in Hf. rewrite length_app in Hf. destruct fuel as [|fuel]; [lia|].
    cbn [app]. rewrite <- app_assoc. cbn [app parse_value]. rewrite skip_start by done.
    change (91 =? 91) with true. cbv iota. cbn [height] in Hd.
    assert (Hh : 0 ≤ List.fold_right (λ v h, Z.max (height v) h) 0 l) by (clear; induction l; cbn; lia).
    replace (depth <? maxNestingDepth) with true by (symmetry; apply Z.ltb_lt; lia).
    destruct l as [|v l]; [done|]. destruct Hwf as [Hw Hwf].
    destruct (Marshal_head v Hw) as (c & t & Ec & Hsp & Hc & _).
    destruct (commas_cons (Marshal v) (List.map Marshal l)) as [t' Ht].
    assert (Hskip : ∃ t'', commas (List.map Marshal (v :: l)) ++ 93 :: rest = c :: t'').
    { cbn [List.map]. rewrite Ht, Ec. by eexists. }
    destruct Hskip as [t'' Hskip]. rewrite Hskip, (skip_start c) by done.
    replace (c =? 93) with false by (symmetry; by apply Z.eqb_neq). rewrite <- Hskip.
    rewrite reads_elems; [done|done|done|by split|cbn [height]; lia|lia].
  - cbn [Marshal] in Hf |- *. cbn [length] in Hf. rewrite length_app in Hf. destruct fuel as [|fuel]; [lia|].
    change (List.map (λ kv, quote kv.1 ++ 58 :: Marshal kv.2) l) with (List.map member l) in *.
    cbn [app]. rewrite <- app_assoc. cbn [app parse_value]. rewrite skip_start by done.
    change (123 =? 91) with false. change (123 =? 123) with true. cbv iota. cbn [height] in Hd.
    assert (Hh : 0 ≤ List.fold_right (λ kv h, Z.max (height kv.2) h) 0 l) by (clear; induction l; cbn; lia).
    replace (depth <? maxNestingDepth) with true by (symmetry; apply Z.ltb_lt; lia).
    destruct l as [|kv l]; [done|].
    destruct (commas_cons (member kv) (List.map member l)) as [t' Ht].
    assert (Hskip : ∃ t'', commas (List.map member (kv :: l)) ++ 125 :: rest = 34 :: t'').
    { cbn [List.map]. rewrite Ht. by eexists. }
    destruct Hskip as [t'' Hskip]. rewrite Hskip, (skip_start 34) by done.
    change (34 =? 125) with false. cbv iota. rewrite <- Hskip.
    rewrite reads_members; [done|done|done|done|cbn [height]; lia|lia].
Qed.

(** The text [Marshal] writes is read back as the value, invalid UTF-8 in
    its strings replaced. *)
Lemma Parse_Marshal v : wf v → height v ≤ maxNestingDepth → Parse (Marshal v) = Some (clean v).
Proof.
  intros Hwf Hh. unfold Parse. rewrite <- (app_nil_r (Marshal v)) at 2.
  rewrite reads_all; [done|done|lia|done|]. unfold parse_fuel. lia.
Qed.

(** ** The fuel is enough

    Every part of the parser leaves less than it was given, so that more fuel
    than [parse_fuel] changes nothing. *)

Lemma skip_length l : (length (skip l) ≤ length l)%nat.
Proof. induction l as [|c l IH]; [done|]. cbn [skip]. destruct (is_space c); cbn [length]; lia. Qed.

Lemma prepend_Some p r q rest : prepend p r = Some (q, rest) → ∃ q', r = Some (q', rest).
Proof. destruct r as [[q' r']|]; [|done]. intros [= <- <-]. by exists q'. Qed.

Lemma u4_length l r rest : u4 l = Some (r, rest) → (length rest < length l)%nat.
Proof.
  destruct l as [|a [|b [|c [|d l]]]]; try done. cbn [u4].
  repeat case_match; try done. intros [= <- <-]. cbn. lia.
Qed.

Lemma join_surrogates_length r l : (length (join_surrogates r l).2 ≤ length l)%nat.
Proof.
  unfold join_surrogates. destruct (utf8.in_range _ _ _); [|done]. destruct l as [|b [|u l']]; [done..|].
  destruct ((b =? 92) && (u =? 117)); [|done]. destruct (u4 l') as [[r1 l2]|] eqn:E; [|done].
  apply u4_length in E. destruct (_ && _); cbn; lia.
Qed.

Lemma string_body_length fuel l s rest : string_body fuel l = Some (s, rest) → (length rest < length l)%nat.
Proof.
  revert l s rest. induction fuel as [|fuel IH]; intros [|c l] s rest; try done. cbn [string_body].
  destruct (c =? 34); [intros [= <- <-]; cbn; lia|]. destruct (c =? 92).
  - destruct l as [|e l]; [done|]. destruct (e =? 117).
    + destruct (u4 l) as [[r l3]|] eqn:E; [|done]. apply u4_length in E.
      pose proof (join_surrogates_length r l3). destruct (join_surrogates r l3) as [r' l4]. cbn in *.
      intros [q H']%prepend_Some. apply IH in H'. lia.
    + destruct (unescape e); [|done]. intros [q H']%prepend_Some. apply IH in H'. cbn. lia.
  - destruct (c <? 32); [done|]. pose proof (utf8.DecodeRune_size (c :: l) ltac:(done)) as Hsz.
    destruct (utf8.DecodeRune (c :: l)) as [r size]. cbn [snd] in Hsz.
    intros [q H']%prepend_Some. apply IH in H'. rewrite length_drop in H'. cbn in *. lia.
Qed.

Lemma digits_length l : (length (digits l).2 ≤ length l)%nat.
Proof.
  induction l as [|c l IH]; [done|]. cbn [digits]. destruct (is_digit c); [|done].
  destruct (digits l) as [d r]. cbn in *. lia.
Qed.

Lemma digits1_length l p r : digits1 l = Some (p, r) → (length r ≤ length l)%nat.
Proof.
  unfold digits1. pose proof (digits_length l). destruct (digits l) as [[|d ds] r']; [done|].
  by intros [= <- <-].
Qed.

Lemma scan_int_length l p r : scan_int l = Some (p, r) → (length r < length l)%nat.
Proof.
  destruct l as [|c l]; [done|]. cbn [scan_int]. pose proof (digits_length l) as Hl.
  destruct (c =? 48); [intros [= <- <-]; cbn; lia|]. destruct (is_digit c); [|done].
  destruct (digits l) as [d r']. intros [= <- <-]. cbn in *. lia.
Qed.

Lemma scan_frac_length l p r : scan_frac l = Some (p, r) → (length r ≤ length l)%nat.
Proof.
  destruct l as [|c l]; cbn [scan_frac]; [by intros [= <- <-]|].
  destruct (c =? 46); [|by intros [= <- <-]]. intros [q H']%prepend_Some. apply digits1_length in H'. cbn. lia.
Qed.

Lemma scan_exp_length l p r : scan_exp l = Some (p, r) → (length r ≤ length l)%nat.
Proof.
  destruct l as [|c l]; cbn [scan_exp]; [by intros [= <- <-]|].
  destruct (_ || _); [|by intros [= <- <-]]. destruct l as [|x l]; [done|].
  destruct (_ || _); intros [q H']%prepend_Some; apply digits1_length in H'; cbn in *; lia.
Qed.

Lemma then_scan_Some scan r p rest :
  then_scan scan r = Some (p, rest) → ∃ p' l q, r = Some (p', l) ∧ scan l = Some (q, rest).
Proof.
  unfold then_scan. destruct r as [[p' l]|]; [|done]. cbn. intros [q H]%prepend_Some. by exists p', l, q.
Qed.

Lemma scan_unsigned_length l p r : scan_unsigned l = Some (p, r) → (length r < length l)%nat.
Proof.
  intros (p1 & l1 & q1 & (p2 & l2 & q2 & H1 & H2)%then_scan_Some & H3)%then_scan_Some.
  apply scan_int_length in H1. apply scan_frac_length in H2. apply scan_exp_length in H3. lia.
Qed.

Lemma parse_scalar_length c l v r : parse_scalar c (c :: l) = Some (v, r) → (length r < length (c :: l))%nat.
Proof.
  assert (Hdrop : ∀ n, (length (drop (S n) (c :: l)) < length (c :: l))%nat) by (intros n; rewrite length_drop; cbn; lia).
  unfold parse_scalar. cbn [tail]. destruct (c =? 34).
  { destruct (parse_string l) as [[s r']|] eqn:E; [|done]. cbn. intros [= <- <-].
    apply string_body_length in E. lia. }
  destruct (bytes_prefix null_lit _); [intros [= <- <-]; exact (Hdrop 3%nat)|].
  destruct (bytes_prefix true_lit _); [intros [= <- <-]; exact (Hdrop 3%nat)|].
  destruct (bytes_prefix false_lit _); [intros [= <- <-]; exact (Hdrop 4%nat)|].
  destruct (scan_number (c :: l)) as [[lit r']|] eqn:E; [|done]. cbn [mbind option_bind]. intros [= <- <-].
  unfold scan_number in E. destruct (c =? 45); [|by eapply scan_unsigned_length].
  apply prepend_Some in E as [q E]. apply scan_unsigned_length in E. cbn. lia.
Qed.

Definition shrinks {A} (parse : bytes → option (A * bytes)) : Prop :=
  ∀ l v r, parse l = Some (v, r) → (length r < length l)%nat.

Lemma parse_shrinks fuel : ∀ depth,
  shrinks (parse_value fuel depth) ∧ shrinks (parse_elems fuel depth) ∧ shrinks (parse_members fuel depth).
Proof.
  induction fuel as [|fuel IH]; intros depth; [done|]. split; [|split]; intros l v r.
  - cbn [parse_value]. pose proof (skip_length l) as Hl. destruct (skip l) as [|c t]; [done|]. cbn [length] in Hl.
    destruct (IH (depth + 1)) as (_ & IHe & IHm). pose proof (skip_length t) as Ht.
    destruct (c =? 91); [|destruct (c =? 123)].
    + destruct (_ <? _); [|done]. destruct (skip t) as [|x t']; [done|]. cbn [length] in Ht.
      destruct (x =? 93); [intros [= <- <-]; lia|].
      destruct (parse_elems fuel _ t) as [[vs r']|] eqn:E; [|done]. cbn [mbind option_bind]. intros [= <- <-].
      apply IHe in E. lia.
    + destruct (_ <? _); [|done]. destruct (skip t) as [|x t']; [done|]. cbn [length] in Ht.
      destruct (x =? 125); [intros [= <- <-]; lia|].
      destruct (parse_members fuel _ t) as [[vs r']|] eqn:E; [|done]. cbn [mbind option_bind]. intros [= <- <-].
      apply IHm in E. lia.
    + intros E%parse_scalar_length. cbn in E. lia.
  - cbn [parse_elems]. destruct (IH depth) as (IHv & IHe & _).
    destruct (parse_value fuel depth l) as [[v' r']|] eqn:E; [|done]. apply IHv in E.
    pose proof (skip_length r') as Hr. destruct (skip r') as [|x t]; [done|]. cbn [length] in Hr.
    destruct (x =? 44); [|destruct (x =? 93); [intros [= <- <-]; lia|done]].
    destruct (parse_elems fuel depth t) as [[vs r'']|] eqn:E2; [|done]. cbn [mbind option_bind]. intros [= <- <-].
    apply IHe in E2. lia.
  - cbn [parse_members]. destruct (IH depth) as (IHv & _ & IHm).
    pose proof (skip_length l) as Hl. destruct (skip l) as [|q t]; [done|]. cbn [length] in Hl.
    destruct (q =? 34); [|done]. destruct (parse_string t) as [[k r1]|] eqn:Ek; [|done].
    apply string_body_length in Ek. pose proof (skip_length r1) as H1. destruct (skip r1) as [|c r2]; [done|].
    cbn [length] in H1. destruct (c =? 58); [|done].
    destruct (parse_value fuel depth r2) as [[v' r3]|] eqn:E; [|done]. apply IHv in E.
    pose proof (skip_length r3) as H3. destruct (skip r3) as [|x r4]; [done|]. cbn [length] in H3.
    destruct (x =? 44); [|destruct (x =? 125); [intros [= <- <-]; lia|done]].
    destruct (parse_members fuel depth r4) as [[ms r5]|] eqn:E2; [|done]. cbn [mbind option_bind]. intros [= <- <-].
    apply IHm in E2. lia.
Qed.

Lemma parse_fuel_irrelevant n m : ∀ depth l,
  ((2 * length l + 1 ≤ n)%nat → (2 * length l + 1 ≤ m)%nat → parse_value n depth l = parse_value m depth l) ∧
  ((2 * length l + 2 ≤ n)%nat → (2 * length l + 2 ≤ m)%nat → parse_elems n depth l = parse_elems m depth l) ∧
  ((2 * length l + 2 ≤ n)%nat → (2 * length l + 2 ≤ m)%nat → parse_members n depth l = parse_members m depth l).
Proof.
  revert m. induction n as [|n IH]; intros [|m] depth l; (split; [|split]); intros Hn Hm; try lia.
  - cbn [parse_value]. pose proof (skip_length l) as Hl. destruct (skip l) as [|c t]; [done|]. cbn [length] in Hl.
    destruct (IH m (depth + 1) t) as (_ & He & Hme). by rewrite He, Hme by lia.
  - cbn [parse_elems]. destruct (IH m depth l) as (Hv & _). rewrite Hv by lia.
    destruct (parse_value m depth l) as [[v r]|] eqn:E; [|done]. apply (parse_shrinks m depth) in E.
    pose proof (skip_length r) as Hr. destruct (skip r) as [|x t]; [done|]. cbn [length] in Hr.
    destruct (IH m depth t) as (_ & He & _). by rewrite He by lia.
  - cbn [parse_members]. pose proof (skip_length l) as Hl. destruct (skip l) as [|q t]; [done|]. cbn [length] in Hl.
    destruct (q =? 34); [|done]. destruct (parse_string t) as [[k r1]|] eqn:Ek; [|done].
    apply string_body_length in Ek. pose proof (skip_length r1) as H1. destruct (skip r1) as [|c r2]; [done|].
    cbn [length] in H1. destruct (c =? 58); [|done].
    destruct (IH m depth r2) as (Hv & _). rewrite Hv by lia.
    destruct (parse_value m depth r2) as [[v r3]|] eqn:E; [|done]. apply (parse_shrinks m depth) in E.
    pose proof (skip_length r3) as H3. destruct (skip r3) as [|x r4]; [done|]. cbn [length] in H3.
    destruct (IH m depth r4) as (_ & _ & Hme). by rewrite Hme by lia.
Qed.

(** [Parse] does not run out of fuel: any larger amount gives its answer. *)
Lemma Parse_total data n :
  (parse_fuel data ≤ n)%nat → parse_value n 0 data = parse_value (parse_fuel data) 0 data.
Proof. unfold parse_fuel. intros Hn. apply parse_fuel_irrelevant; lia. Qed.

(** ** Structures *)

(** The folding of names that differ in case: the smallest rune of the
    same letter.  Outside ASCII only the two letters that fold into it matter
    to the names of fields, which are ASCII. *)
Definition fold_rune (r : Z) : Z :=
  if utf8.in_range 97 122 r then r - 32 else if r =? 383 then 83 else if r =? 8490 then 75 else r.

Definition fold_name (s : bytes) : list Z := fold_rune <$> utf8.runes s.

(** A field of a structure: its name, and how a value is put into it, with
    whether the type of the value was wrong. *)
Record field (A : Type) := MkField { field_name : bytes; put : value → A → A * bool }.
Arguments MkField {A} _ _.
Arguments field_name {A} _.
Arguments put {A} _ _ _.

Inductive decodeError := SyntaxError | UnmarshalTypeError.

Definition find_field {A} (fields : list (field A)) (key : bytes) : option (field A) :=
  match List.find (λ f, bool_decide (field_name f = key)) fields with
  | Some f => Some f
  | None => List.find (λ f, bool_decide (fold_name (field_name f) = fold_name key)) fields
  end.

Definition put_member {A} (fields : list (field A)) (x : A * bool) (kv : bytes * value) : A * bool :=
  match find_field fields kv.1 with
  | Some f => let '(a, bad) := put f kv.2 x.1 in (a, x.2 || bad)
  | None => x
  end.

(** The members in order: a later one replaces an earlier one, a wrong type
    is remembered and the rest is still read. *)
Definition put_struct {A} (fields : list (field A)) (v : value) (a : A) : A * bool :=
  match v with
  | Object ms => fold_left (put_member fields) ms (a, false)
  | Null => (a, false)
  | _ => (a, true)
  end.

Definition put_string {A} (set : bytes → A → A) (v : value) (a : A) : A * bool :=
  match v with Str s => (set s a, false) | Null => (a, false) | _ => (a, true) end.

(** A 64-bit signed field. *)
Definition put_int {A} (set : Z → A → A) (v : value) (a : A) : A * bool :=
  match v with
  | Number lit =>
      match strconv.ParseInt (string_of_bytes lit) 10 64 with
      | (n, None) => (set n a, false)
      | (_, Some _) => (a, true)
      end
  | Null => (a, false)
  | _ => (a, true)
  end.

(** [json.Unmarshal] into a structure. *)
Definition Unmarshal {A} (fields : list (field A)) (data : bytes) (a : A) : A * option decodeError :=
  match Parse data with
  | None => (a, Some SyntaxError)
  | Some v => let '(a, bad) := put_struct fields v a in (a, if bad then Some UnmarshalTypeError else None)
  end.

Lemma put_Int {A} (set : Z → A → A) n a : in_int64 n → put_int set (Int n) a = (set n a, false).
Proof.
  intros Hn. unfold Int, put_int. rewrite string_of_bytes_of_string, strconv.ParseInt_FormatInt; [done|lia|..].
  all: unfold in_int64, MinInt64, MaxInt64 in *; lia.
Qed.

Lemma valid_text_id s : utf8.Valid s → valid_text s = s.
Proof. intros H. unfold valid_text. by apply utf8.Valid_runes. Qed.

Lemma Int_wf n : wf (Int n).
Proof. apply is_number_Int. Qed.

Lemma wf_Array l : Forall wf l → wf (Array l).
Proof. by induction 1. Qed.

Lemma wf_Object l : Forall (λ kv, wf_bytes kv.1 ∧ wf kv.2) l → wf (Object l).
Proof. by induction 1. Qed.

Lemma height_Array n l : 0 ≤ n → Forall (λ v, height v ≤ n) l → height (Array l) ≤ 1 + n.
Proof. intros Hn Hl. cbn [height]. induction Hl as [|v l Hv Hl IH]; cbn [List.fold_right]; lia. Qed.

Lemma height_Object n (l : list (bytes * value)) :
  0 ≤ n → Forall (λ kv, height kv.2 ≤ n) l → height (Object l) ≤ 1 + n.
Proof. intros Hn Hl. cbn [height]. induction Hl as [|v l Hv Hl IH]; cbn [List.fold_right]; lia. Qed.
End json.
