(* ===== verification/MemCache.v ===== *)
(** * cache/memcache: the map cache without expiration

    [Cache[K, V]] stores a pointer to a fresh copy of every value it is given
    ([c.items[key] = &value]) and hands that pointer out, so the model has a
    store of cells and the cache maps keys to locations.  The mutex makes each
    method atomic: a concurrent execution is a sequence of the operations
    below. *)

From S2P Require Import Prelude.

Module MemCache.
Section cache.
Context {K V : Type} `{Countable K}.

(** A pointer [*V]: the location of a heap cell. *)
Definition loc : Type := nat.

(** The cells of the Go heap that hold cached values; [brk] is the next
    location the allocator returns. *)
Record heap := Heap { cells : gmap loc V; brk : loc }.

Record Cache := MkCache { items : gmap K loc }.

Definition NewCache : Cache := MkCache ∅.

(** [&value] for the parameter [value]: a fresh cell. *)
Definition alloc (h : heap) (v : V) : loc * heap :=
  (brk h, Heap (<[brk h := v]> (cells h)) (S (brk h))).

(** [*p] and [*p = v] by a holder of the pointer. *)
Definition deref (h : heap) (p : loc) : option V := cells h !! p.
Definition assign (h : heap) (p : loc) (v : V) : heap :=
  Heap (<[p := v]> (cells h)) (brk h).

Definition Get (c : Cache) (key : K) : option loc * bool :=
  match items c !! key with
  | None => (None, false)
  | Some val => (Some val, true)
  end.

Definition Set_ (c : Cache) (h : heap) (key : K) (value : V) : Cache * heap :=
  let '(p, h') := alloc h value in
  (MkCache (<[key := p]> (items c)), h').

Definition Del (c : Cache) (key : K) : Cache := MkCache (delete key (items c)).

(** Every cached pointer, and every allocated cell, is below the break. *)
Definition wf (c : Cache) (h : heap) : Prop :=
  (∀ k p, items c !! k = Some p → is_Some (cells h !! p)) ∧
  (∀ p v, cells h !! p = Some v → (p < brk h)%nat).

(** What a reader sees: the key's current value. *)
Definition read (c : Cache) (h : heap) (key : K) : option V :=
  match (Get c key).1 with
  | Some p => deref h p
  | None => None
  end.

(** The steps of the program: the methods, and a client that writes through
    a pointer it holds. *)
Inductive op :=
| OSet (k : K) (v : V)
| ODel (k : K)
| OAssign (p : loc) (v : V).

Definition exec (st : Cache * heap) (o : op) : Cache * heap :=
  let '(c, h) := st in
  match o with
  | OSet k v => Set_ c h k v
  | ODel k => (Del c k, h)
  | OAssign p v =>
      match deref h p with
      | Some _ => (c, assign h p v)
      | None => st (* no such pointer was ever handed out *)
      end
  end.

Definition run (st : Cache * heap) (l : list op) : Cache * heap := fold_left exec l st.

(** The abstract specification: a plain finite map. *)
Definition abs (c : Cache) (h : heap) (m : gmap K V) : Prop :=
  ∀ k, read c h k = m !! k.

Lemma read_items c h k :
  read c h k = items c !! k ≫= λ p, cells h !! p.
Proof. unfold read, Get, deref. by destruct (items c !! k). Qed.

Lemma Set_wf c h k v : wf c h → let '(c', h') := Set_ c h k v in wf c' h'.
Proof.
  intros [Hi Hb]. unfold Set_, alloc; simpl. split; simpl.
  - intros k' p Hp. destruct (decide (brk h = p)) as [<-|?]; [by simplify_map_eq|].
    rewrite lookup_insert_ne by done.
    destruct (decide (k = k')) as [->|?]; simplify_map_eq; eauto.
  - intros p w Hp. destruct (decide (brk h = p)) as [<-|?]; simplify_map_eq; [lia|].
    apply Hb in Hp. lia.
Qed.

Lemma exec_wf st o : wf st.1 st.2 → wf (exec st o).1 (exec st o).2.
Proof.
  destruct st as [c h]; simpl; intros Hwf. destruct o as [k v|k|p v]; simpl.
  - by apply (Set_wf c h k v).
  - destruct Hwf as [Hi Hb]. split; simpl; [|done].
    intros k' p Hp. destruct (decide (k = k')); simplify_map_eq; eauto.
  - destruct (deref h p) eqn:E; [|done]. destruct Hwf as [Hi Hb].
    unfold deref in E. split; simpl.
    + intros k q Hq. destruct (decide (p = q)); simplify_map_eq; eauto.
    + intros q w Hq. destruct (decide (p = q)); simplify_map_eq; eauto.
Qed.

Lemma run_wf l st : wf st.1 st.2 → wf (run st l).1 (run st l).2.
Proof.
  revert st. induction l as [|o l IH]; intros st Hwf; [done|].
  apply IH, exec_wf, Hwf.
Qed.

Lemma fresh_cell c h k p : wf c h → items c !! k = Some p → p ≠ brk h.
Proof. intros [Hi Hb] Hp ->. destruct (Hi _ _ Hp) as [v Hv]. apply Hb in Hv. lia. Qed.

Lemma Set_read c h k v k' :
  wf c h →
  let '(c', h') := Set_ c h k v in
  read c' h' k' = if decide (k = k') then Some v else read c h k'.
Proof.
  intros Hwf. simpl. rewrite !read_items; simpl.
  destruct (decide (k = k')) as [->|Hk]; simplify_map_eq; [done|].
  destruct (items c !! k') as [p|] eqn:Hp; simpl; [|done].
  apply lookup_insert_ne. intros Heq. by eapply fresh_cell.
Qed.

(** The steps that do not write through a pointer. *)
Definition is_assign (o : op) : bool := match o with OAssign _ _ => true | _ => false end.

Lemma exec_cells st o p v :
  is_assign o = false → wf st.1 st.2 →
  cells st.2 !! p = Some v → cells (exec st o).2 !! p = Some v.
Proof.
  destruct st as [c h]; simpl; intros Ho Hwf Hp. destruct o as [k w|k|q w]; simpl; try done.
  rewrite lookup_insert_ne; [done|]. destruct Hwf as [_ Hb]. apply Hb in Hp. lia.
Qed.

(** Refinement of the plain map: reading a key after [Set] gives
    the value just set, after [Del] nothing, and no other key is touched;
    the abstraction is kept by both. *)
Theorem memcache_refines_map c h m k v :
  wf c h → abs c h m →
  (let '(c', h') := Set_ c h k v in wf c' h' ∧ abs c' h' (<[k := v]> m)) ∧
  wf (Del c k) h ∧ abs (Del c k) h (delete k m) ∧
  (Get c k).2 = bool_decide (is_Some (m !! k)).
Proof.
  intros Hwf Habs. split_and!.
  - split; [by apply (Set_wf c h k v)|]. intros k'.
    pose proof (Set_read c h k v k' Hwf) as Hr. simpl in *. rewrite Hr, Habs.
    by rewrite lookup_insert.
  - by apply (exec_wf (c, h) (ODel k)).
  - intros k'. rewrite read_items; simpl. rewrite !lookup_delete, <- Habs, read_items.
    by destruct (decide (k = k')).
  - rewrite <- Habs, read_items. unfold Get. destruct Hwf as [Hi _].
    destruct (items c !! k) as [p|] eqn:Hp; simpl.
    + symmetry. apply bool_decide_eq_true_2. by eapply Hi.
    + done.
Qed.

(** A pointer handed out by [Get] keeps its value through every
    later [Set] (also of the same key) and [Del]: a reader holds a snapshot,
    which only a write through the pointer itself can change. *)
Theorem memcache_pointer_stable c h key p v l :
  wf c h → Get c key = (Some p, true) → deref h p = Some v →
  Forall (λ o, is_assign o = false) l →
  deref (run (c, h) l).2 p = Some v.
Proof.
  intros Hwf _ Hp Hl. unfold deref in *. unfold run.
  change h with (c, h).2 in Hp. assert (Hw : wf (c, h).1 (c, h).2) by done.
  clear Hwf. revert Hw Hp. generalize (c, h). induction Hl as [|o l Ho Hl IH]; [done|].
  intros st Hw Hp. simpl. apply IH; [by apply exec_wf|by apply exec_cells].
Qed.

(** A write through a pointer is seen by the next [Get] of its key: the
    cache does not copy on the way out. *)
Lemma assign_visible c h key p v w :
  Get c key = (Some p, true) → deref h p = Some v →
  read c (exec (c, h) (OAssign p w)).2 key = Some w.
Proof.
  unfold Get, deref. intros Hg Hp. simpl. unfold deref. rewrite Hp.
  rewrite read_items. destruct (items c !! key); simplify_eq/=. by simplify_map_eq.
Qed.
End cache.
Arguments heap : clear implicits.
Arguments Cache K {_ _}.

(** Concrete run: the pointer got before an overwrite still reads 1. *)
Definition c0 : Cache string := MkCache {["a" := 0%nat]}.
Definition h0 : heap Z := Heap {[0%nat := 1]} 1%nat.

Lemma wf0 : wf c0 h0.
Proof.
  split.
  - intros k p Hk. unfold c0 in Hk. simpl in Hk.
    apply lookup_singleton_Some in Hk as [_ <-]. by exists 1.
  - intros p v Hp. unfold h0 in Hp. simpl in Hp.
    apply lookup_singleton_Some in Hp as [<- _]. simpl. lia.
Qed.

Lemma memcache_refines_map_witness :
  wf c0 h0 ∧ (Get c0 "a").2 = true ∧
  (let '(c', h') := Set_ c0 h0 "b" 7 in read c' h' "b" = Some 7 ∧ read c' h' "a" = Some 1).
Proof.
  assert (Habs : abs c0 h0 {["a" := 1]}).
  { intros k. rewrite read_items. unfold c0; simpl.
    destruct (decide (k = "a")) as [->|?]; [done|]. by rewrite !lookup_singleton_ne. }
  destruct (memcache_refines_map c0 h0 {["a" := 1]} "b" 7 wf0 Habs)
    as ([_ HS] & _ & _ & _).
  split_and!; [exact wf0|by vm_compute|].
  split; [by rewrite (HS "b")|by rewrite (HS "a")].
Defined.

Lemma memcache_pointer_stable_witness :
  Get c0 "a" = (Some 0%nat, true) ∧
  deref (run (c0, h0) [OSet "a" 2; ODel "a"; OSet "b" 3]).2 0%nat = Some 1.
Proof.
  split; [done|].
  apply (memcache_pointer_stable c0 h0 "a"); [exact wf0|done|done|].
  repeat constructor.
Defined.
End MemCache.
