(* ===== verification/GoHeap.v ===== *)
(** * container/heap

    Go's standard binary heap, translated from its [up], [down], [Push] and
    [Pop], on a list of elements ordered by an integer key ([Less(i, j)] is
    [key h[i] < key h[j]], which is what [expireHeap.Less] computes).
    The loops run on fuel; [Push] and [Pop] give them more than they use. *)

From S2P Require Import Prelude.

Module heap.
Section heap.
Context {A : Type} (key : A → Z).
Implicit Types h : list A.
Local Open Scope nat_scope.

Definition Less h (i j : nat) : bool :=
  match h !! i, h !! j with
  | Some x, Some y => (key x <? key y)%Z
  | _, _ => false
  end.

Definition Swap h (i j : nat) : list A :=
  match h !! i, h !! j with
  | Some x, Some y => <[j := x]> (<[i := y]> h)
  | _, _ => h
  end.

Fixpoint up (fuel : nat) h (j : nat) : list A :=
  match fuel with
  | O => h
  | S fuel =>
      let i := (j - 1) / 2 in
      if (i =? j) || negb (Less h j i) then h else up fuel (Swap h i j) i
  end.

(** The child that [down] compares with its parent [i]. *)
Definition min_child h (i n : nat) : nat :=
  let j1 := 2 * i + 1 in
  let j2 := j1 + 1 in
  if (j2 <? n) && Less h j2 j1 then j2 else j1.

Fixpoint down (fuel : nat) h (i n : nat) : list A :=
  match fuel with
  | O => h
  | S fuel =>
      if n <=? 2 * i + 1 then h
      else
        let j := min_child h i n in
        if negb (Less h j i) then h else down fuel (Swap h i j) j n
  end.

Definition Push h (x : A) : list A :=
  let h' := h ++ [x] in up (length h') h' (length h' - 1).

(** [heap.Pop]: [None] where Go would panic, on an empty heap. *)
Definition Pop h : option (A * list A) :=
  match length h with
  | O => None
  | S n =>
      let h' := down (S n) (Swap h 0 n) 0 n in
      match h' !! n with
      | Some x => Some (x, take n h')
      | None => None
      end
  end.

(** ** The heap order *)

Definition hk h (i : nat) : Z := match h !! i with Some x => key x | None => 0%Z end.

Definition heap_ok h : Prop :=
  ∀ i, 0 < i < length h → (hk h ((i - 1) / 2) ≤ hk h i)%Z.

(** Heap order among the first [n] elements, except that the element at
    [j] may be smaller than its parent ([up_ok_at]) or larger than its
    children ([down_ok_at]). *)
Definition up_ok_at h (j : nat) : Prop :=
  (∀ i, 0 < i < length h → i ≠ j → (hk h ((i - 1) / 2) ≤ hk h i)%Z) ∧
  (∀ i, 0 < i < length h → (i - 1) / 2 = j → 0 < j →
        (hk h ((j - 1) / 2) ≤ hk h i)%Z).

Definition down_ok_at h (n j : nat) : Prop :=
  (∀ i, 0 < i < n → (i - 1) / 2 ≠ j → (hk h ((i - 1) / 2) ≤ hk h i)%Z) ∧
  (∀ i, 0 < i < n → (i - 1) / 2 = j → 0 < j →
        (hk h ((j - 1) / 2) ≤ hk h i)%Z).

Lemma Swap_perm h i j : Swap h i j ≡ₚ h.
Proof.
  unfold Swap. destruct (h !! i) eqn:Hi, (h !! j) eqn:Hj; try done.
  by apply Permutation_insert_swap.
Qed.

Lemma Swap_length h i j : length (Swap h i j) = length h.
Proof. apply Permutation_length, Swap_perm. Qed.

Lemma Swap_lookup h i j k :
  i < length h → j < length h →
  Swap h i j !! k = if k =? i then h !! j else if k =? j then h !! i else h !! k.
Proof.
  intros Hi Hj. unfold Swap.
  destruct (lookup_lt_is_Some_2 h i Hi) as [x Hx].
  destruct (lookup_lt_is_Some_2 h j Hj) as [y Hy]. rewrite Hx, Hy.
  destruct (k =? j) eqn:Ekj; [apply Nat.eqb_eq in Ekj as ->|apply Nat.eqb_neq in Ekj].
  - rewrite list_lookup_insert_eq by (by rewrite length_insert).
    destruct (j =? i) eqn:Eji; [apply Nat.eqb_eq in Eji as ->; congruence|done].
  - rewrite list_lookup_insert_ne by done.
    destruct (k =? i) eqn:Eki; [apply Nat.eqb_eq in Eki as ->|apply Nat.eqb_neq in Eki].
    + by rewrite list_lookup_insert_eq.
    + by rewrite list_lookup_insert_ne.
Qed.

Lemma Swap_hk h i j k :
  i < length h → j < length h →
  hk (Swap h i j) k = if k =? i then hk h j else if k =? j then hk h i else hk h k.
Proof.
  intros Hi Hj. unfold hk. rewrite Swap_lookup by done.
  by destruct (k =? i), (k =? j).
Qed.

Lemma Less_hk h i j :
  i < length h → j < length h → Less h i j = (hk h i <? hk h j)%Z.
Proof.
  intros Hi Hj. unfold Less, hk.
  destruct (lookup_lt_is_Some_2 h i Hi) as [x ->].
  by destruct (lookup_lt_is_Some_2 h j Hj) as [y ->].
Qed.

(** Decide which of the three cases of [Swap_hk] applies. *)
Ltac swap_cases h :=
  repeat match goal with
  | |- context [?a =? ?b] =>
      let E := fresh "E" in
      destruct (Nat.eqb_spec a b) as [E|E]; [pose proof (f_equal (hk h) E)|]
  end.

Lemma parent_lt i : 0 < i → (i - 1) / 2 < i.
Proof. intros. apply Nat.Div0.div_lt_upper_bound; lia. Qed.

Lemma child_parent i j : 0 < i → (i - 1) / 2 = j → i = 2 * j + 1 ∨ i = 2 * j + 2.
Proof. intros. pose proof (Nat.div_mod_eq (i - 1) 2). pose proof (Nat.mod_upper_bound (i - 1) 2). lia. Qed.

Lemma parent_child1 j : (2 * j + 1 - 1) / 2 = j.
Proof. replace (2 * j + 1 - 1) with (j * 2) by lia. by apply Nat.div_mul. Qed.

Lemma parent_child2 j : (2 * j + 2 - 1) / 2 = j.
Proof. replace (2 * j + 2 - 1) with (1 + j * 2) by lia. by rewrite Nat.div_add. Qed.

(** One step of [up]. *)
Lemma up_step h j :
  0 < j < length h → (hk h j < hk h ((j - 1) / 2))%Z → up_ok_at h j →
  up_ok_at (Swap h ((j - 1) / 2) j) ((j - 1) / 2).
Proof.
  intros Hj Hlt [H1 H2]. pose proof (parent_lt j ltac:(lia)) as Hp.
  remember ((j - 1) / 2) as p eqn:Ep.
  assert (Hhk : ∀ k, hk (Swap h p j) k =
                  if k =? p then hk h j else if k =? j then hk h p else hk h k).
  { intros k. apply Swap_hk; lia. }
  split; rewrite Swap_length.
  - intros i Hi Hip. rewrite !Hhk. pose proof (parent_lt i ltac:(lia)).
    specialize (H1 i Hi). specialize (H2 i Hi).
    swap_cases h; first [lia|congruence].
  - intros i Hi Hip Hp0. rewrite !Hhk.
    pose proof (parent_lt i ltac:(lia)). pose proof (parent_lt p ltac:(lia)).
    pose proof (H1 p ltac:(lia) ltac:(lia)) as Hpp.
    specialize (H1 i Hi). rewrite Hip in H1. swap_cases h; lia.
Qed.

Lemma up_perm fuel h j : up fuel h j ≡ₚ h.
Proof.
  revert h j. induction fuel as [|fuel IH]; intros h j; simpl; [done|].
  destruct (_ || _); [done|]. rewrite IH. apply Swap_perm.
Qed.

Lemma up_correct fuel h j :
  j < fuel → j < length h → up_ok_at h j → heap_ok (up fuel h j).
Proof.
  revert h j. induction fuel as [|fuel IH]; intros h j Hf Hj Hok; [lia|]. cbn [up].
  destruct (Nat.eqb_spec ((j - 1) / 2) j) as [E|E]; cbn [orb].
  { assert (j = 0) as -> by (destruct (Nat.eq_dec j 0); [done|]; pose proof (parent_lt j); lia).
    intros i Hi. apply (proj1 Hok); lia. }
  assert (0 < j) as Hj0 by (destruct j; [by destruct E|lia]).
  pose proof (parent_lt j Hj0).
  rewrite Less_hk by lia. destruct (hk h j <? hk h ((j - 1) / 2))%Z eqn:El; cbn [negb].
  - apply IH; [lia|rewrite Swap_length; lia|]. apply up_step; [lia| |done].
    by apply Z.ltb_lt.
  - intros i Hi. destruct (Nat.eq_dec i j) as [->|Hne]; [|by apply (proj1 Hok)].
    by apply Z.ltb_ge in El.
Qed.

Lemma min_child_spec h i n :
  2 * i + 1 < n → n ≤ length h →
  let c := min_child h i n in
  (i < c < n) ∧ (c - 1) / 2 = i ∧
  ∀ k, 0 < k < n → (k - 1) / 2 = i → (hk h c ≤ hk h k)%Z.
Proof.
  intros Hc Hn. unfold min_child. cbv zeta.
  destruct (Nat.ltb_spec (2 * i + 1 + 1) n) as [H2|H2]; cbn [andb].
  - rewrite Less_hk by lia.
    destruct (hk h (2 * i + 1 + 1) <? hk h (2 * i + 1))%Z eqn:E; bool_to_prop.
    + split_and!; [lia..| |].
      { replace (2 * i + 1 + 1) with (2 * i + 2) by lia. apply parent_child2. }
      intros k Hk Hp. apply child_parent in Hp as [->| ->]; try lia.
      replace (2 * i + 2) with (2 * i + 1 + 1) by lia. lia.
    + split_and!; [lia..|apply parent_child1|].
      intros k Hk Hp. apply child_parent in Hp as [->| ->]; try lia.
      replace (2 * i + 2) with (2 * i + 1 + 1) by lia. lia.
  - split_and!; [lia..|apply parent_child1|].
    intros k Hk Hp. apply child_parent in Hp as [->| ->]; lia.
Qed.

(** One step of [down]. *)
Lemma down_step h i n c :
  n ≤ length h → i < c < n → (c - 1) / 2 = i →
  (∀ k, 0 < k < n → (k - 1) / 2 = i → (hk h c ≤ hk h k)%Z) →
  (hk h c < hk h i)%Z → down_ok_at h n i → down_ok_at (Swap h i c) n c.
Proof.
  intros Hn Hc Hpc Hmin Hlt [H1 H2].
  assert (Hhk : ∀ k, hk (Swap h i c) k =
                  if k =? i then hk h c else if k =? c then hk h i else hk h k).
  { intros k. apply Swap_hk; lia. }
  split.
  - intros k Hk Hpk. rewrite !Hhk. pose proof (parent_lt k ltac:(lia)).
    pose proof (H2 c ltac:(lia) Hpc) as H2c.
    specialize (H1 k Hk). specialize (H2 k Hk). specialize (Hmin k Hk).
    swap_cases h; first [lia | subst; lia].
  - intros k Hk Hpk Hc0. rewrite !Hhk, Hpc. pose proof (parent_lt k ltac:(lia)).
    specialize (H1 k Hk). rewrite Hpk in *. swap_cases h; lia.
Qed.

Lemma down_perm fuel h i n : down fuel h i n ≡ₚ h.
Proof.
  revert h i. induction fuel as [|fuel IH]; intros h i; simpl; [done|].
  destruct (_ <=? _); [done|]. destruct (negb _); [done|].
  rewrite IH. apply Swap_perm.
Qed.

Lemma down_length fuel h i n : length (down fuel h i n) = length h.
Proof. apply Permutation_length, down_perm. Qed.

Lemma down_beyond fuel h i n k :
  n ≤ length h → i < n → n ≤ k → down fuel h i n !! k = h !! k.
Proof.
  revert h i. induction fuel as [|fuel IH]; intros h i Hn Hi Hk; [done|]. cbn [down].
  destruct (Nat.leb_spec n (2 * i + 1)); [done|].
  destruct (min_child_spec h i n) as (Hc & _ & _); [lia|done|].
  destruct (negb _); [done|]. rewrite IH by (rewrite ?Swap_length; lia).
  rewrite Swap_lookup by lia.
  destruct (Nat.eqb_spec k i); [lia|]. destruct (Nat.eqb_spec k (min_child h i n)); [lia|done].
Qed.

Lemma down_correct fuel h i n :
  n - i < fuel → n ≤ length h → i < n ∨ n = 0 → down_ok_at h n i →
  ∀ k, 0 < k < n → (hk (down fuel h i n) ((k - 1) / 2) ≤ hk (down fuel h i n) k)%Z.
Proof.
  revert h i. induction fuel as [|fuel IH]; intros h i Hf Hn Hi Hok; [lia|]. cbn [down].
  destruct (Nat.leb_spec n (2 * i + 1)) as [Hle|Hle].
  { intros k Hk. apply (proj1 Hok); [done|]. intros E. apply child_parent in E; lia. }
  destruct (min_child_spec h i n) as (Hc & Hpc & Hmin); [lia|done|].
  set (c := min_child h i n) in *. rewrite Less_hk by lia.
  destruct (hk h c <? hk h i)%Z eqn:El; cbn [negb]; bool_to_prop.
  - apply IH; [lia|rewrite Swap_length; lia|lia|]. by eapply down_step.
  - intros k Hk. destruct (Nat.eq_dec ((k - 1) / 2) i) as [E|E]; [|by apply (proj1 Hok)].
    rewrite E. specialize (Hmin k Hk E). lia.
Qed.

(** ** [Push] and [Pop] *)

Lemma hk_app h x k : k < length h → hk (h ++ [x]) k = hk h k.
Proof. intros. unfold hk. by rewrite lookup_app_l. Qed.

Lemma Push_perm h x : Push h x ≡ₚ x :: h.
Proof. unfold Push. rewrite up_perm. symmetry. apply Permutation_cons_append. Qed.

Lemma Push_ok h x : heap_ok h → heap_ok (Push h x).
Proof.
  intros Hok. unfold Push. rewrite length_app; cbn [length].
  apply up_correct; rewrite ?length_app; cbn [length]; try lia.
  split; rewrite length_app; cbn [length].
  - intros i Hi Hne. pose proof (parent_lt i ltac:(lia)).
    rewrite !hk_app by lia. apply Hok. lia.
  - intros i Hi Hp Hl. pose proof (parent_lt i ltac:(lia)). lia.
Qed.

Lemma heap_ok_min h i : heap_ok h → i < length h → (hk h 0 ≤ hk h i)%Z.
Proof.
  intros Hok. induction (lt_wf i) as [i _ IH]. intros Hi.
  destruct i as [|i]; [lia|]. pose proof (parent_lt (S i) ltac:(lia)).
  etransitivity; [apply (IH ((S i - 1) / 2)); lia|]. apply Hok. lia.
Qed.

(** [Pop] removes the root, which is a minimum, and keeps the heap order. *)
Lemma Pop_spec h x0 :
  heap_ok h → h !! 0 = Some x0 →
  ∃ h', Pop h = Some (x0, h') ∧ h ≡ₚ x0 :: h' ∧ heap_ok h' ∧
        Forall (λ y, (key x0 ≤ key y)%Z) h.
Proof.
  intros Hok H0. pose proof (lookup_lt_Some _ _ _ H0) as Hlen.
  unfold Pop. destruct (length h) as [|n] eqn:En; [lia|].
  set (s := Swap h 0 n).
  assert (Hs : length s = S n) by (unfold s; by rewrite Swap_length).
  assert (Hsn : s !! n = Some x0).
  { unfold s. rewrite Swap_lookup by lia. destruct (Nat.eqb_spec n 0) as [->|]; [done|].
    by rewrite Nat.eqb_refl. }
  set (d := down (S n) s 0 n).
  assert (Hd : length d = S n) by (unfold d; by rewrite down_length).
  assert (Hdn : d !! n = Some x0).
  { unfold d. destruct (Nat.eq_dec n 0) as [->|].
    - simpl. by rewrite Hsn.
    - rewrite down_beyond by lia. done. }
  rewrite Hdn. exists (take n d). split; [done|]. split; [|split].
  - transitivity d; [symmetry; unfold d, s; by rewrite down_perm, Swap_perm|].
    rewrite <- (take_drop n d) at 1.
    rewrite (drop_S d x0 n Hdn), drop_ge by lia. symmetry. apply Permutation_cons_append.
  - intros i Hi. rewrite length_take in Hi. pose proof (parent_lt i ltac:(lia)).
    assert (∀ k, k < n → hk (take n d) k = hk d k) as Ht.
    { intros k Hk. unfold hk. by rewrite lookup_take_lt. }
    rewrite !Ht by lia. unfold d. apply down_correct; [lia|lia|lia| |lia].
    split; [|lia]. intros k Hk Hpk.
    assert (Hsk : ∀ k, 0 < k < n → hk s k = hk h k).
    { intros k' Hk'. unfold s. rewrite Swap_hk by lia.
      destruct (Nat.eqb_spec k' 0), (Nat.eqb_spec k' n); lia || done. }
    pose proof (parent_lt k ltac:(lia)).
    rewrite !Hsk by lia. apply Hok. lia.
  - apply Forall_lookup. intros i y Hy.
    pose proof (heap_ok_min h i Hok) as Hm. unfold hk in Hm. rewrite H0, Hy in Hm.
    apply Hm. by apply lookup_lt_Some in Hy.
Qed.

Lemma heap_ok_nil : heap_ok [].
Proof. intros i Hi. simpl in Hi. lia. Qed.
End heap.
End heap.
