(* ===== verification/MemCacheTTL.v ===== *)
(** * cache/memcachettl: the cache with expiration

    State, operations and concurrency of [memCacheTTL.go].  The items map is
    paired with a binary heap of expirations ([GoHeap]); overwritten and
    deleted keys leave stale heap entries behind, which [popExpiredLocked]
    must not confuse with live ones.  Each operation is the body of its
    critical section(s); [Get], which releases the read lock before it takes
    the write lock, is two operations. *)

From S2P Require Import Prelude GoHeap.

Module MemCacheTTL.

Definition reapInterval : Duration := 30 * Second.
Definition limitWarnInterval : Duration := 10 * Second.

Section cache.
(** Cached values are [interface{}]. *)
Context {V : Type}.

Record CacheItem := MkItem { Value : V; Expiration : Time; seq : Z }.

Record expireItem := MkExpire { key : string; expiry : Time; eseq : Z }.

Abbreviation expireHeap := (list expireItem).

Record Cache := MkCache {
  items : gmap string CacheItem;
  expiryHeap : expireHeap;
  nextSeq : Z;          (* uint64 *)
  maxEntries : Z;
  lastLog : Time
}.

Definition NewCache : Cache := MkCache ∅ [] 0 0 zeroTime.

Definition set_items (c : Cache) (m : gmap string CacheItem) : Cache :=
  MkCache m (expiryHeap c) (nextSeq c) (maxEntries c) (lastLog c).

(** One iteration of [popExpiredLocked]: an entry popped off the heap deletes
    its item only when key, sequence number and expiration all agree. *)
Definition drop_popped (m : gmap string CacheItem) (it : expireItem) : gmap string CacheItem :=
  match m !! key it with
  | Some item =>
      if (seq item =? eseq it) && time.Equal (Expiration item) (expiry it)
      then delete (key it) m
      else m
  | None => m
  end.

Fixpoint popExpired_loop (fuel : nat) (now : Time) (c : Cache) : Cache :=
  match fuel with
  | O => c
  | S fuel =>
      match expiryHeap c with
      | [] => c
      | top :: _ =>
          if negb (time.After (expiry top) now) then
            match heap.Pop expiry (expiryHeap c) with
            | Some (it, h') =>
                popExpired_loop fuel now
                  (MkCache (drop_popped (items c) it) h'
                           (nextSeq c) (maxEntries c) (lastLog c))
            | None => c
            end
          else c
      end
  end.

Definition popExpiredLocked (now : Time) (c : Cache) : Cache :=
  popExpired_loop (S (length (expiryHeap c))) now c.

Definition warnLimitLocked (now : Time) (c : Cache) : Cache :=
  if limitWarnInterval <=? time.Sub now (lastLog c)
  then MkCache (items c) (expiryHeap c) (nextSeq c) (maxEntries c) now
  else c.

(** The part of [Set] that writes: lines 128 to 131. *)
Definition store (c : Cache) (k : string) (value : V) (ttl : Duration) (now : Time) : Cache :=
  let exp := time.Add now ttl in
  let s := wrapU64 (nextSeq c + 1) in
  MkCache (<[k := MkItem value exp s]> (items c))
          (heap.Push expiry (expiryHeap c) (MkExpire k exp s))
          s (maxEntries c) (lastLog c).

(** [Set]; [nowEvict], [nowWarn] and [nowSet] are its clock readings (the
    first two in [popExpiredLocked(time.Now())] and [warnLimitLocked]). *)
Definition Set_ (c : Cache) (k : string) (value : V) (ttl : Duration)
    (nowEvict nowWarn nowSet : Time) : Cache :=
  if 0 <? maxEntries c then
    if negb (bool_decide (is_Some (items c !! k))) && (maxEntries c <=? len_map (items c))
    then
      let c1 := popExpiredLocked nowEvict c in
      if maxEntries c1 <=? len_map (items c1)
      then warnLimitLocked nowWarn c1
      else store c1 k value ttl nowSet
    else store c k value ttl nowSet
  else store c k value ttl nowSet.

Definition SetMaxEntries (c : Cache) (n : Z) : Cache :=
  MkCache (items c) (expiryHeap c) (nextSeq c) n (lastLog c).

Definition Delete (c : Cache) (k : string) : Cache := set_items c (delete k (items c)).

Definition CheckTTL (c : Cache) (now : Time) : Cache := popExpiredLocked now c.

Definition Size (c : Cache) : Z := len_map (items c).

(** The read-locked section of [Get]: [inl r] when [Get] returns [r] at once,
    [inr tt] when the item was found expired and [Get] goes on. *)
Definition Get_read (c : Cache) (k : string) (now : Time) : (option V * bool) + unit :=
  match items c !! k with
  | None => inl (None, false)
  | Some item =>
      if time.After now (Expiration item) then inr tt else inl (Some (Value item), true)
  end.

(** The write-locked section of [Get]. *)
Definition Get_recheck (c : Cache) (k : string) (now : Time) : (option V * bool) * Cache :=
  match items c !! k with
  | None => ((None, false), c)
  | Some item =>
      if time.After now (Expiration item)
      then ((None, false), Delete c k)
      else ((Some (Value item), true), c)
  end.

(** [Get] when no other method runs in between. *)
Definition Get (c : Cache) (k : string) (now1 now2 : Time) : (option V * bool) * Cache :=
  match Get_read c k now1 with
  | inl r => (r, c)
  | inr _ => Get_recheck c k now2
  end.

(** [GetAll]: the keys are snapshotted, then each is looked up again and
    passed to the callback, which runs unlocked and may use the cache.
    [times k] are the clock readings of the lookup of [k]. *)
Fixpoint getAll_loop (callback : string → CacheItem → Cache → Cache)
    (times : string → Time * Time) (keys : list string) (c : Cache) : Cache :=
  match keys with
  | [] => c
  | k :: keys =>
      let '(r, c1) := Get c k (times k).1 (times k).2 in
      let c2 := match r with
                | (Some value, true) => callback k (MkItem value zeroTime 0) c1
                | _ => c1
                end in
      getAll_loop callback times keys c2
  end.

Definition GetAll (c : Cache) (callback : string → CacheItem → Cache → Cache)
    (times : string → Time * Time) : Cache :=
  getAll_loop callback times (map_to_list (items c)).*1 c.

(** ** The invariant

    The heap is ordered and every item has its own entry in it. *)

Definition covered (m : gmap string CacheItem) (h : expireHeap) : Prop :=
  ∀ k item, m !! k = Some item → MkExpire k (Expiration item) (seq item) ∈ h.

Definition Inv (c : Cache) : Prop :=
  heap.heap_ok expiry (expiryHeap c) ∧ covered (items c) (expiryHeap c).

Definition live (now : Time) (kv : string * CacheItem) : Prop := now < Expiration kv.2.
#[global] Instance live_dec now kv : Decision (live now kv).
Proof. unfold live. apply _. Defined.

Lemma Inv_NewCache : Inv NewCache.
Proof. split; [apply heap.heap_ok_nil|]. intros k item; simpl. by rewrite lookup_empty. Qed.

Lemma drop_popped_filter m h it now :
  covered m (it :: h) → expiry it ≤ now →
  covered (drop_popped m it) h ∧
  filter (live now) (drop_popped m it) = filter (live now) m ∧ drop_popped m it ⊆ m.
Proof.
  intros Hcov Hexp. unfold drop_popped. destruct (m !! key it) as [item|] eqn:Hm.
  - destruct (_ && _) eqn:E; bool_to_prop.
    + unfold time.Equal in *. bool_to_prop. split_and!.
      * intros k item' [Hne Hk]%lookup_delete_Some.
        apply Hcov in Hk as [Heq|?]%elem_of_cons; [|done].
        destruct it; simplify_eq/=.
      * rewrite map_filter_delete. apply delete_id, map_lookup_filter_None_2.
        right. intros x Hx; simplify_eq. unfold live; simpl. lia.
      * apply delete_subseteq.
    + split_and!; [|done|done]. intros k item' Hk.
      pose proof (Hcov _ _ Hk) as [Heq|?]%elem_of_cons; [|done].
      exfalso. destruct it; simplify_eq/=. unfold time.Equal in E.
      by rewrite !Z.eqb_refl in E.
  - split_and!; [|done|done]. intros k item' Hk.
    pose proof (Hcov _ _ Hk) as [Heq|?]%elem_of_cons; [|done].
    destruct it; simplify_eq/=.
Qed.

Lemma covered_perm m h h' : h ≡ₚ h' → covered m h → covered m h'.
Proof. intros Hp Hc k item Hk. rewrite <- Hp. by apply Hc. Qed.

(** What the loop of [popExpiredLocked] computes, for enough fuel. *)
Lemma popExpired_loop_spec fuel now c :
  (length (expiryHeap c) < fuel)%nat → Inv c →
  let c' := popExpired_loop fuel now c in
  Inv c' ∧ filter (live now) (items c') = filter (live now) (items c) ∧
  items c' ⊆ items c ∧
  Forall (λ it, now < expiry it) (expiryHeap c') ∧
  (∃ popped, expiryHeap c ≡ₚ popped ++ expiryHeap c' ∧ Forall (λ it, expiry it ≤ now) popped) ∧
  nextSeq c' = nextSeq c ∧ maxEntries c' = maxEntries c ∧ lastLog c' = lastLog c.
Proof.
  revert c. induction fuel as [|fuel IH]; intros c Hf HI; [lia|]. cbn [popExpired_loop].
  assert (Hdone : ∃ popped, expiryHeap c ≡ₚ popped ++ expiryHeap c ∧
            Forall (λ it, expiry it ≤ now) popped) by (exists []; split; [done|constructor]).
  destruct (expiryHeap c) as [|top h] eqn:Hh.
  { split; [done|]. rewrite Hh in *. split_and!; done || constructor. }
  destruct HI as [Hok Hcov]; rewrite Hh in Hok, Hcov.
  destruct (heap.Pop_spec expiry (top :: h) top) as (h' & Hpop & Hperm & Hok' & Hmin); [done..|].
  rewrite Hpop. destruct (time.After (expiry top) now) eqn:Ha; cbn [negb]; bool_to_prop.
  { split; [by split; rewrite Hh|]. rewrite Hh in *. split_and!; try done.
    eapply Forall_impl; [exact Hmin|]. simpl. lia. }
  destruct (drop_popped_filter (items c) h' top now) as (Hcov' & Hfilt & Hsub); [|lia|].
  { by eapply covered_perm. }
  edestruct (IH (MkCache (drop_popped (items c) top) h' (nextSeq c) (maxEntries c) (lastLog c)))
    as (HI & Hfilt' & Hsub' & Hrest & (popped & Hpp & Hall) & Hsame); [|done|].
  { apply Permutation_length in Hperm. simpl in *. lia. }
  simpl in Hfilt', Hsub', Hpp, Hsame. split_and!; try done.
  - by rewrite Hfilt'.
  - by transitivity (drop_popped (items c) top).
  - exists (top :: popped). split; [|by constructor].
    etransitivity; [exact Hperm|]. simpl. by apply Permutation_skip.
  - apply Hsame.
  - apply Hsame.
  - apply Hsame.
Qed.

Lemma popExpiredLocked_items now c :
  Inv c → items (popExpiredLocked now c) = filter (live now) (items c).
Proof.
  intros HI. unfold popExpiredLocked.
  destruct (popExpired_loop_spec (S (length (expiryHeap c))) now c)
    as ([_ Hcov] & Hfilt & _ & Hall & _); [lia|done|].
  rewrite <- Hfilt. symmetry. apply map_filter_id.
  intros k item Hk. apply Hcov in Hk. rewrite Forall_forall in Hall. by apply Hall in Hk.
Qed.

Lemma popExpiredLocked_rest now c :
  Inv c →
  let c' := popExpiredLocked now c in
  Inv c' ∧ nextSeq c' = nextSeq c ∧ maxEntries c' = maxEntries c ∧ lastLog c' = lastLog c.
Proof.
  intros HI. destruct (popExpired_loop_spec (S (length (expiryHeap c))) now c)
    as (? & _ & _ & _ & _ & ?); [lia|done|]. done.
Qed.

(** [C1] [popExpiredLocked], and so [CheckTTL] and the reaper, removes
    exactly the items whose expiration is not after [now]: never a live
    value, also when its key has stale heap entries from earlier writes, and
    it leaves no heap entry due behind; the loop always terminates. *)
Theorem popExpired_exact c now :
  Inv c →
  let c' := popExpiredLocked now c in
  Inv c' ∧
  (∀ k item, items c' !! k = Some item ↔ items c !! k = Some item ∧ now < Expiration item) ∧
  Forall (λ it, now < expiry it) (expiryHeap c') ∧
  (∃ popped, expiryHeap c ≡ₚ popped ++ expiryHeap c' ∧ Forall (λ it, expiry it ≤ now) popped).
Proof.
  intros HI c'.
  destruct (popExpired_loop_spec (S (length (expiryHeap c))) now c)
    as (HI' & _ & _ & Hall & Hpop & _); [lia|done|].
  split_and!; try done. intros k item. unfold c'. rewrite popExpiredLocked_items by done.
  by rewrite map_lookup_filter_Some.
Qed.

Lemma store_Inv c k v ttl now : Inv c → Inv (store c k v ttl now).
Proof.
  intros [Hok Hcov]. split; simpl; [by apply heap.Push_ok|].
  intros k' item Hk. rewrite heap.Push_perm, elem_of_cons.
  destruct (decide (k = k')) as [->|?]; simplify_map_eq/=; [by left|right; by apply Hcov].
Qed.

Lemma covered_subseteq m m' h : m ⊆ m' → covered m' h → covered m h.
Proof. intros Hs Hc k item Hk. apply Hc. by eapply lookup_weaken. Qed.

Lemma set_items_Inv c m : m ⊆ items c → Inv c → Inv (set_items c m).
Proof. intros Hs [Hok Hcov]. split; [done|]. by eapply covered_subseteq. Qed.

Lemma warn_items now c :
  items (warnLimitLocked now c) = items c ∧ expiryHeap (warnLimitLocked now c) = expiryHeap c.
Proof. unfold warnLimitLocked. by destruct (_ <=? _). Qed.

Lemma warn_Inv now c : Inv c → Inv (warnLimitLocked now c).
Proof. unfold Inv. by destruct (warn_items now c) as [-> ->]. Qed.

Lemma Set_Inv c k v ttl t1 t2 t3 : Inv c → Inv (Set_ c k v ttl t1 t2 t3).
Proof.
  intros HI. pose proof (popExpiredLocked_rest t1 c HI) as (HI' & _).
  unfold Set_. repeat case_match; eauto using store_Inv, warn_Inv.
Qed.

Lemma Delete_Inv c k : Inv c → Inv (Delete c k).
Proof. apply set_items_Inv, delete_subseteq. Qed.

(** ** Concurrency

    The atomic sections that run under [c.mu], with whatever clock readings
    they make. *)
Inductive step : Cache → Cache → Prop :=
| StepSet c k v ttl t1 t2 t3 : step c (Set_ c k v ttl t1 t2 t3)
| StepMax c n : step c (SetMaxEntries c n)
| StepDelete c k : step c (Delete c k)
| StepTTL c now : step c (CheckTTL c now) (* CheckTTL, and a tick of reap *)
| StepRecheck c k now : step c (Get_recheck c k now).2.

Lemma step_Inv c c' : Inv c → step c c' → Inv c'.
Proof.
  intros HI Hs. destruct Hs; try done.
  - by apply Set_Inv.
  - by apply Delete_Inv.
  - by apply popExpiredLocked_rest.
  - unfold Get_recheck. repeat case_match; simpl; eauto using Delete_Inv.
Qed.

(** [C8] In every state the cache reaches from [NewCache] by any
    interleaving of its critical sections, the heap is ordered and every
    item has its heap entry: an item can never outlive the reaper. *)
Theorem cache_reachable_Inv c : star step NewCache c → Inv c.
Proof. apply (star_invariant step Inv step_Inv), Inv_NewCache. Qed.

(** [C9] [Get] with any operations of other goroutines between its two
    critical sections: it returns a value only if that value is stored and
    has not expired when it is read, reports a miss only if the key was
    absent or expired, and deletes nothing but an expired item of its key
    (a value stored between the sections survives). *)
Theorem get_interleaved c1 c2 k now1 now2 :
  star step c1 c2 →
  match Get_read c1 k now1 with
  | inl (Some v, b) =>
      b = true ∧ ∃ item, items c1 !! k = Some item ∧ v = Value item ∧ now1 ≤ Expiration item
  | inl (None, b) => b = false ∧ items c1 !! k = None
  | inr _ =>
      let '((r, b), c3) := Get_recheck c2 k now2 in
      (∃ item, items c1 !! k = Some item ∧ Expiration item < now1) ∧
      b = bool_decide (is_Some r) ∧
      (∀ v, r = Some v → c3 = c2 ∧
          ∃ item, items c2 !! k = Some item ∧ v = Value item ∧ now2 ≤ Expiration item) ∧
      (r = None → items c3 !! k = None ∧
          ∀ item, items c2 !! k = Some item → Expiration item < now2) ∧
      (∀ k', k' ≠ k → items c3 !! k' = items c2 !! k')
  end.
Proof.
  intros _. unfold Get_read, Get_recheck.
  destruct (items c1 !! k) as [item|] eqn:H1; [|done].
  destruct (time.After now1 (Expiration item)) eqn:Ha; bool_to_prop.
  2: { split; [done|]. exists item. split_and!; try done. }
  destruct (items c2 !! k) as [item2|] eqn:H2.
  - destruct (time.After now2 (Expiration item2)) eqn:Hb; bool_to_prop; simpl.
    + split_and!; try done; [by exists item|..].
      * intros _. rewrite lookup_delete_eq. split; [done|]. intros; simplify_eq. done.
      * intros k' Hk. by rewrite lookup_delete_ne.
    + split_and!; try done; [by exists item|].
      intros v Hv. split; [done|]. exists item2. by simplify_eq.
  - split_and!; try done. by exists item.
Qed.

(** ** The limit on the number of entries *)

Lemma len_map_insert (m : gmap string CacheItem) k x :
  len_map (<[k := x]> m) =
    if bool_decide (is_Some (m !! k)) then len_map m else len_map m + 1.
Proof.
  unfold len_map. case_bool_decide as Hk.
  - by rewrite map_size_insert_Some.
  - rewrite map_size_insert_None by (by apply eq_None_not_Some). lia.
Qed.

Lemma len_map_subseteq (m m' : gmap string CacheItem) : m ⊆ m' → len_map m ≤ len_map m'.
Proof. intros Hs. apply map_subseteq_size in Hs. unfold len_map. lia. Qed.

(** [C5] With a positive limit [Set] never takes the cache above it,
    keeps every unexpired entry, always stores when the key exists, there
    is room, or an expired entry can make room, and drops the new entry only
    when the cache is full of live ones. *)
Theorem set_respects_limit c k v ttl t1 t2 t3 :
  Inv c → 0 < maxEntries c → len_map (items c) ≤ maxEntries c →
  let c' := Set_ c k v ttl t1 t2 t3 in
  len_map (items c') ≤ maxEntries c ∧ maxEntries c' = maxEntries c ∧
  (∀ k' item, k' ≠ k → items c !! k' = Some item → t1 < Expiration item →
     items c' !! k' = Some item) ∧
  (items c' !! k = None ∧ items c !! k = None ∧
     items c' = filter (live t1) (items c) ∧ len_map (items c') = maxEntries c
   ∨ ∃ s, items c' !! k = Some (MkItem v (t3 + ttl) s)).
Proof.
  intros HI Hmax Hlen. pose proof (popExpiredLocked_items t1 c HI) as Hpop.
  pose proof (popExpiredLocked_rest t1 c HI) as (HI' & _ & Hm & _).
  assert (Hsub : len_map (filter (live t1) (items c)) ≤ len_map (items c)).
  { apply len_map_subseteq, map_filter_subseteq. }
  unfold Set_. replace (0 <? maxEntries c) with true by (symmetry; by apply Z.ltb_lt).
  destruct (bool_decide (is_Some (items c !! k))) eqn:Ek; cbn [negb andb].
  { simpl. rewrite len_map_insert, Ek. split_and!; try done.
    - intros. by rewrite lookup_insert_ne.
    - right. rewrite lookup_insert_eq. by eexists. }
  apply bool_decide_eq_false in Ek. apply eq_None_not_Some in Ek.
  destruct (maxEntries c <=? len_map (items c)) eqn:Efull; bool_to_prop.
  - rewrite Hm, Hpop. destruct (maxEntries c <=? len_map (filter _ _)) eqn:E2; bool_to_prop.
    + destruct (warn_items t2 (popExpiredLocked t1 c)) as [Hw _]. rewrite Hw, Hpop.
      split_and!; [lia|unfold warnLimitLocked; case_match; by simpl|..].
      * intros k' item _ Hk' Hl. by apply map_lookup_filter_Some_2.
      * left. split_and!; try done; [|lia]. apply map_lookup_filter_None_2. by left.
    + simpl. rewrite Hpop, len_map_insert.
      split_and!; [case_bool_decide; lia|done|..].
      * intros k' item Hne Hk' Hl. rewrite lookup_insert_ne by done.
        by apply map_lookup_filter_Some_2.
      * right. rewrite lookup_insert_eq. by eexists.
  - simpl. rewrite len_map_insert, bool_decide_eq_false_2 by (rewrite Ek; by intros [??]).
    split_and!; [lia|done|..].
    + intros. by rewrite lookup_insert_ne.
    + right. rewrite lookup_insert_eq. by eexists.
Qed.

(** A stored value is returned until it expires and then no more. *)
Lemma get_after_store c k v ttl now n1 n2 :
  n1 ≤ n2 →
  (Get (store c k v ttl now) k n1 n2).1 =
    if n1 <=? now + ttl then (Some v, true) else (None, false).
Proof.
  intros Hn. unfold Get, Get_read, Get_recheck.
  assert (Hk : items (store c k v ttl now) !! k =
            Some (MkItem v (now + ttl) (wrapU64 (nextSeq c + 1)))).
  { apply lookup_insert_eq. }
  rewrite Hk.
  cbn [Expiration Value]. unfold time.Add, time.After.
  destruct (n1 <=? now + ttl) eqn:E; bool_to_prop; ztest; [done|].
  cbn [Expiration Value]. by ztest.
Qed.

Lemma Get_Inv c k n1 n2 : Inv c → Inv (Get c k n1 n2).2.
Proof.
  intros HI. unfold Get. destruct (Get_read c k n1); [done|].
  eapply step_Inv; [done|]. apply (StepRecheck c k n2).
Qed.

Lemma GetAll_Inv c callback times :
  (∀ k item c, Inv c → Inv (callback k item c)) → Inv c → Inv (GetAll c callback times).
Proof.
  intros Hcb. unfold GetAll. generalize ((map_to_list (items c)).*1) as keys.
  intros keys. revert c. induction keys as [|k keys IH]; intros c HI; [done|]. simpl.
  pose proof (Get_Inv c k (times k).1 (times k).2 HI).
  destruct (Get c k (times k).1 (times k).2) as [[[v|] []] c1]; simpl in *; eauto.
Qed.
End cache.
Arguments Cache : clear implicits.
Arguments CacheItem : clear implicits.

(** ** The reaper goroutine

    [Start] and [Stop] run their bodies under [reaperMu]; [Stop] closes the
    channel and waits for the goroutine after it has released the mutex.
    Channels are numbered; a reaper is known by the channel it listens on. *)

Record reaperState := MkReaper {
  done_ : option nat;        (* c.done *)
  stopped : bool;
  chans : nat;               (* channels made so far *)
  to_close : gset nat;       (* taken by a Stop that has not closed them yet *)
  closed : gset nat;
  running : gset nat         (* live reapers: the wait group's count is its size *)
}.

(** [NewCache] before its call of [Start]. *)
Definition reaper0 : reaperState := MkReaper None false 0 ∅ ∅ ∅.

Definition Start (r : reaperState) : reaperState :=
  match done_ r with
  | Some _ => r
  | None =>
      MkReaper (Some (chans r)) false (S (chans r)) (to_close r) (closed r)
               ({[chans r]} ∪ running r)
  end.

(** The critical section of [Stop], and the channel it goes on to close. *)
Definition Stop_locked (r : reaperState) : reaperState * option nat :=
  if stopped r then (r, None)
  else
    (MkReaper None true (chans r)
       (match done_ r with Some d => {[d]} ∪ to_close r | None => to_close r end)
       (closed r) (running r),
     done_ r).

Definition close_chan (r : reaperState) (d : nat) : reaperState :=
  MkReaper (done_ r) (stopped r) (chans r) (to_close r ∖ {[d]}) ({[d]} ∪ closed r) (running r).

(** [reap] returns, and [wg.Done] runs, once its channel is closed. *)
Definition reap_return (r : reaperState) (d : nat) : reaperState :=
  MkReaper (done_ r) (stopped r) (chans r) (to_close r) (closed r) (running r ∖ {[d]}).

Inductive reaper_step : reaperState → reaperState → Prop :=
| RStart r : reaper_step r (Start r)
| RStop r : reaper_step r (Stop_locked r).1
| RClose r d : d ∈ to_close r → reaper_step r (close_chan r d)
| RReturn r d : d ∈ running r → d ∈ closed r → reaper_step r (reap_return r d).

Definition reaper_Inv (r : reaperState) : Prop :=
  (∀ d, done_ r = Some d →
        (d ∈ running r) ∧ (d ∉ to_close r) ∧ (d ∉ closed r) ∧ stopped r = false) ∧
  (∀ d, d ∈ running r → done_ r = Some d ∨ d ∈ to_close r ∨ d ∈ closed r) ∧
  (∀ d, d ∈ to_close r → d ∉ closed r) ∧
  (∀ d, d ∈ running r ∪ to_close r ∪ closed r → (d < chans r)%nat).

Lemma reaper_Inv_step r r' : reaper_Inv r → reaper_step r r' → reaper_Inv r'.
Proof.
  intros HI Hs. destruct Hs as [r|r|r d Hin|r d Hin Hcl].
  all: pose proof HI as (Hd & Hrun & Htc & Hlt).
  - unfold Start. destruct (done_ r) as [d|] eqn:E; [exact HI|].
    assert (Hf : chans r ∉ running r ∪ to_close r ∪ closed r) by (intros H%Hlt; lia).
    split_and!; simpl.
    + intros d [= <-]. set_solver.
    + intros d. rewrite elem_of_union, elem_of_singleton.
      intros [->|Hr]; [by left|]. right. by destruct (Hrun d Hr).
    + done.
    + intros d Hin. assert (d = chans r ∨ d ∈ running r ∪ to_close r ∪ closed r) as [->|H]
        by set_solver; [lia|]. apply Hlt in H. lia.
  - unfold Stop_locked. destruct (stopped r) eqn:E; [exact HI|].
    split_and!; simpl; [done|..].
    + intros d Hr. right. destruct (done_ r) as [d'|] eqn:Ed;
        destruct (Hrun d Hr) as [?|[?|?]]; simplify_eq; set_solver.
    + intros d. destruct (done_ r) as [d'|] eqn:Ed; [|apply Htc].
      rewrite elem_of_union, elem_of_singleton. intros [->|?]; [by apply Hd|by apply Htc].
    + intros d Hin. apply Hlt. destruct (done_ r) as [d'|] eqn:Ed; [|set_solver].
      destruct (Hd d' eq_refl). set_solver.
  - split_and!; simpl.
    + intros d' Hd'. destruct (Hd d' Hd') as (? & ? & ? & ?). set_solver.
    + intros d' Hr. destruct (decide (d' = d)) as [->|?]; [set_solver|].
      destruct (Hrun d' Hr) as [?|[?|?]]; set_solver.
    + intros d'. set_solver.
    + intros d' Hin'. apply Hlt. set_solver.
  - split_and!; simpl.
    + intros d' Hd'. destruct (Hd d' Hd') as (? & ? & ? & ?). set_solver.
    + intros d' Hr. apply Hrun. set_solver.
    + done.
    + intros d' Hin'. apply Hlt. set_solver.
Qed.

Lemma reaper_Inv0 : reaper_Inv reaper0.
Proof. unfold reaper0. split_and!; simpl; try done; set_solver. Qed.

(** However [Start], [Stop] and the reaper interleave, at most one
    reaper is not told to finish, every other one has its channel closed or
    about to be closed (no reaper leaks), and no channel is closed twice. *)
Theorem reaper_unique r :
  star reaper_step reaper0 r →
  (∀ d1 d2, d1 ∈ running r → d2 ∈ running r →
     d1 ∉ to_close r ∪ closed r → d2 ∉ to_close r ∪ closed r → d1 = d2) ∧
  (stopped r = true → running r ⊆ to_close r ∪ closed r) ∧
  (∀ d, d ∈ to_close r → d ∉ closed r).
Proof.
  intros Hs. apply (star_invariant _ _ reaper_Inv_step _ _ reaper_Inv0) in Hs
    as (Hd & Hrun & Htc & _). split_and!; [|..|done].
  - intros d1 d2 H1 H2 N1 N2.
    destruct (Hrun d1 H1) as [E1|?]; [|set_solver].
    destruct (Hrun d2 H2) as [E2|?]; [|set_solver]. congruence.
  - intros Hst d Hr. destruct (Hrun d Hr) as [E|?]; [|set_solver].
    destruct (Hd d E) as (_ & _ & _ & ?). congruence.
Qed.

(** ** Concrete runs *)

Definition ex1 : Cache Z := Set_ (Set_ NewCache "a" 1 10 0 0 100) "a" 2 50 0 0 105.
(** "a" was overwritten: its first heap entry, due at 110, is stale. *)
Definition ex2 : Cache Z := Set_ ex1 "b" 3 5 0 0 106.

Lemma ex2_reach : star step NewCache ex2.
Proof.
  eapply star_step; [apply (StepSet NewCache "a" 1 10 0 0 100)|].
  eapply star_step; [apply (StepSet _ "a" 2 50 0 0 105)|].
  apply star_one. apply (StepSet ex1 "b" 3 5 0 0 106).
Qed.

Lemma popExpired_exact_witness :
  Inv ex2 ∧ (items (popExpiredLocked 115 ex2) !! "a" = Some (MkItem 2 155 2)) ∧
  items (popExpiredLocked 115 ex2) !! "b" = None.
Proof.
  assert (HI : Inv ex2) by (by apply (star_invariant step Inv step_Inv _ _ Inv_NewCache), ex2_reach).
  destruct (popExpired_exact ex2 115 HI) as (_ & H & _).
  split; [done|]. split; [apply H; by vm_compute|].
  destruct (items (popExpiredLocked 115 ex2) !! "b") as [i|] eqn:E; [|done].
  apply H in E as [E ?]. vm_compute in E. injection E as <-. by vm_compute in H0.
Defined.

Lemma cache_reachable_Inv_witness : star step NewCache ex2 ∧ Inv ex2.
Proof. split; [exact ex2_reach|]. apply cache_reachable_Inv. exact ex2_reach. Defined.

Lemma get_interleaved_witness :
  Get_read ex2 "b" 120 = inr tt ∧ (Get_recheck ex2 "b" 121).1 = (None, false) ∧
  items (Get_recheck ex2 "b" 121).2 !! "a" = items ex2 !! "a".
Proof.
  pose proof (get_interleaved ex2 ex2 "b" 120 121 (star_refl _ _)) as H.
  split; [by vm_compute|]. split; [by vm_compute|].
  replace (Get_read ex2 "b" 120) with (@inr (option Z * bool) unit tt) in H by (by vm_compute).
  destruct (Get_recheck ex2 "b" 121) as [[r b] c3]. by apply H.
Defined.

Lemma set_respects_limit_witness :
  let c := SetMaxEntries ex2 2 in
  len_map (items (Set_ c "c" 9 10 109 109 109)) ≤ 2 ∧
  items (Set_ c "c" 9 10 109 109 109) !! "c" = None ∧
  is_Some (items (Set_ c "c" 9 10 120 120 120) !! "c").
Proof.
  assert (HI : Inv (SetMaxEntries ex2 2)).
  { apply (step_Inv ex2); [|apply StepMax].
    by apply (star_invariant step Inv step_Inv _ _ Inv_NewCache), ex2_reach. }
  destruct (set_respects_limit (SetMaxEntries ex2 2) "c" 9 10 109 109 109 HI
              ltac:(by vm_compute) ltac:(by vm_compute)) as (Hl & _).
  split; [exact Hl|]. split; [by vm_compute|]. eexists; by vm_compute.
Defined.

Lemma reaper_unique_witness :
  star reaper_step reaper0 (Start (close_chan (Stop_locked (Start reaper0)).1 0)) ∧
  running (Start (close_chan (Stop_locked (Start reaper0)).1 0)) = {[0%nat; 1%nat]} ∧
  (∀ d, d ∈ to_close (Start (close_chan (Stop_locked (Start reaper0)).1 0)) →
        d ∉ closed (Start (close_chan (Stop_locked (Start reaper0)).1 0))).
Proof.
  assert (Hs : star reaper_step reaper0 (Start (close_chan (Stop_locked (Start reaper0)).1 0))).
  { eapply star_step; [apply RStart|]. eapply star_step; [apply RStop|].
    eapply star_step; [apply (RClose _ 0%nat); by vm_compute|].
    eapply star_step; [apply RStart|apply star_refl]. }
  split; [exact Hs|]. split; [by vm_compute|]. apply (reaper_unique _ Hs).
Defined.
End MemCacheTTL.
