(* ===== verification/Fail2Ban.v ===== *)
(** * web/gin/middleware/fail2ban: banning clients that collect 404s

    [Suspected] counts the 404 answers of each address inside a watch window,
    [Suspended] holds the banned addresses with the end of their ban, and the
    middleware ties them together.  Both tables are swept of stale entries
    when they grow.  [now] and [since] are the clock readings of an operation:
    [now := time.Now()] and the one made by [time.Since(s.lastSweep)]. *)

From S2P Require Import Prelude.

Module Fail2Ban.

Definition suspectedEvictThreshold : Z := 1024.
Definition evictSweepInterval : Duration := 30 * Second.
Definition StatusNotFound : Z := 404.

Record ConfigFail2Ban := MkConfig {
  Disabled : bool;
  cfgLogBannedPath : bool;
  WatchPeriod : Duration;
  WatchCount : Z;
  BanPeriod : Duration
}.

Record SuspectedItem := MkSuspectedItem { Count : Z; WatchTime : Time }.

Definition TooLate (si : SuspectedItem) (now : Time) : bool := time.Before (WatchTime si) now.

Record Suspected := MkSuspected {
  sus_items : gmap string SuspectedItem;
  sus_lastSweep : Time;
  sus_watchPeriod : Duration
}.

Definition NewSuspected (watchPeriod : Duration) : Suspected :=
  MkSuspected ∅ zeroTime watchPeriod.

Record Suspended := MkSuspended {
  ban_items : gmap string Time;
  banPeriod : Duration;
  ban_lastSweep : Time
}.

Definition NewSuspended (period : Duration) : Suspended := MkSuspended ∅ period zeroTime.

(** Whether a table of [n] entries is due for a sweep. *)
Definition sweep_due (n : Z) (since lastSweep : Time) : bool :=
  (suspectedEvictThreshold <? n) && (evictSweepInterval <? time.Sub since lastSweep).

(** The sweep at the head of [Incr]. *)
Definition Incr_sweep (s : Suspected) (now since : Time) : Suspected :=
  if sweep_due (len_map (sus_items s)) since (sus_lastSweep s) then
    MkSuspected
      (range_delete (λ item, time.Before (WatchTime item) now)
                    (map_to_list (sus_items s)) (sus_items s))
      now (sus_watchPeriod s)
  else s.

Definition set_sus_items (s : Suspected) (m : gmap string SuspectedItem) : Suspected :=
  MkSuspected m (sus_lastSweep s) (sus_watchPeriod s).

Definition Incr (s : Suspected) (ip : string) (now since : Time) : Z * Suspected :=
  let s := Incr_sweep s now since in
  match sus_items s !! ip with
  | None =>
      let item := MkSuspectedItem 1 (time.Add now (sus_watchPeriod s)) in
      (Count item, set_sus_items s (<[ip := item]> (sus_items s)))
  | Some item =>
      if time.Before (WatchTime item) now then
        (0, set_sus_items s (delete ip (sus_items s)))
      else
        let item := MkSuspectedItem (wrap64 (Count item + 1)) (WatchTime item) in
        (Count item, set_sus_items s (<[ip := item]> (sus_items s)))
  end.

Definition Del (s : Suspected) (ip : string) : Suspected :=
  set_sus_items s (delete ip (sus_items s)).

Definition Add (s : Suspended) (ip : string) (now : Time) : Suspended :=
  MkSuspended (<[ip := time.Add now (banPeriod s)]> (ban_items s)) (banPeriod s) (ban_lastSweep s).

Definition Is_sweep (s : Suspended) (now since : Time) : Suspended :=
  if sweep_due (len_map (ban_items s)) since (ban_lastSweep s) then
    MkSuspended (range_delete (λ t, time.Before t now) (map_to_list (ban_items s)) (ban_items s))
                (banPeriod s) now
  else s.

Definition Is (s : Suspended) (ip : string) (now since : Time) : bool * Suspended :=
  let s := Is_sweep s now since in
  match ban_items s !! ip with
  | None => (false, s)
  | Some t =>
      if time.Before t now then
        (false, MkSuspended (delete ip (ban_items s)) (banPeriod s) (ban_lastSweep s))
      else (true, s)
  end.

Record Fail2Ban := MkFail2Ban {
  suspected : Suspected;
  suspended : Suspended;
  watchPeriod : Duration;
  watchCnt : Z;
  LogBannedPath : bool
}.

Definition newFail2Ban (config : ConfigFail2Ban) : Fail2Ban :=
  MkFail2Ban (NewSuspected (WatchPeriod config)) (NewSuspended (BanPeriod config))
             (WatchPeriod config) (wrap64 (WatchCount config - 1)) (cfgLogBannedPath config).

Definition set_suspected (fb : Fail2Ban) (s : Suspected) : Fail2Ban :=
  MkFail2Ban s (suspended fb) (watchPeriod fb) (watchCnt fb) (LogBannedPath fb).
Definition set_suspended (fb : Fail2Ban) (s : Suspended) : Fail2Ban :=
  MkFail2Ban (suspected fb) s (watchPeriod fb) (watchCnt fb) (LogBannedPath fb).

(** The three calls of [processStatusNotFound], each a critical section of
    its own: count the answer and decide, forget the count, ban. *)
Definition count_404 (fb : Fail2Ban) (ip : string) (now since : Time) : bool * Fail2Ban :=
  let '(count, s1) := Incr (suspected fb) ip now since in
  (watchCnt fb <? count, set_suspected fb s1).

Definition forget (fb : Fail2Ban) (ip : string) : Fail2Ban :=
  set_suspected fb (Del (suspected fb) ip).

Definition ban (fb : Fail2Ban) (ip : string) (addNow : Time) : Fail2Ban :=
  set_suspended fb (Add (suspended fb) ip addNow).

(** [addNow] is the reading made by [suspended.Add]. *)
Definition processStatusNotFound (fb : Fail2Ban) (ip : string) (now since addNow : Time) : Fail2Ban :=
  let '(over, fb1) := count_404 fb ip now since in
  if over then ban (forget fb1 ip) ip addNow else fb1.

(** The two parts of the handler, before and after [c.Next()]. *)
Definition handler_check (fb : Fail2Ban) (ip : string) (now since : Time) : bool * Fail2Ban :=
  let '(b, s) := Is (suspended fb) ip now since in (b, set_suspended fb s).

Definition handler_after (fb : Fail2Ban) (ip : string) (status : Z) (now since addNow : Time) : Fail2Ban :=
  if StatusNotFound =? status then processStatusNotFound fb ip now since addNow else fb.

(** The whole handler of one request: the status the client gets and whether
    the rest of the chain ran; [next] is the status the rest of the chain
    would write. *)
Definition GetFail2Ban_handler (fb : Fail2Ban) (ip : string) (next : Z)
    (n1 s1 n2 s2 n3 : Time) : (Z * bool) * Fail2Ban :=
  let '(banned, fb1) := handler_check fb ip n1 s1 in
  if banned then ((StatusNotFound, false), fb1)
  else ((next, true), handler_after fb1 ip next n2 s2 n3).

(** ** Sweeps touch stale entries only *)

Lemma Incr_sweep_lookup s now since ip :
  sus_items (Incr_sweep s now since) !! ip = sus_items s !! ip ∨
  (sus_items (Incr_sweep s now since) !! ip = None ∧
   ∃ item, sus_items s !! ip = Some item ∧ WatchTime item < now).
Proof.
  unfold Incr_sweep. destruct (sweep_due _ _ _); [|by left]. simpl.
  rewrite range_delete_filter by done.
  destruct (sus_items s !! ip) as [item|] eqn:E.
  - destruct (time.Before (WatchTime item) now) eqn:Eb.
    + right. bool_to_prop. split; [|by eexists].
      apply map_lookup_filter_None_2. right. intros x Hx ?. simplify_eq/=.
      bool_to_prop. lia.
    + left. by apply map_lookup_filter_Some_2.
  - left. apply map_lookup_filter_None_2. by left.
Qed.

Lemma Is_sweep_lookup s now since ip :
  ban_items (Is_sweep s now since) !! ip = ban_items s !! ip ∨
  (ban_items (Is_sweep s now since) !! ip = None ∧
   ∃ t, ban_items s !! ip = Some t ∧ t < now).
Proof.
  unfold Is_sweep. destruct (sweep_due _ _ _); [|by left]. simpl.
  rewrite range_delete_filter by done.
  destruct (ban_items s !! ip) as [t|] eqn:E.
  - destruct (time.Before t now) eqn:Eb.
    + right. bool_to_prop. split; [|by eexists].
      apply map_lookup_filter_None_2. right. intros x Hx ?. simplify_eq/=.
      bool_to_prop. lia.
    + left. by apply map_lookup_filter_Some_2.
  - left. apply map_lookup_filter_None_2. by left.
Qed.

Lemma Incr_sweep_period s now since :
  sus_watchPeriod (Incr_sweep s now since) = sus_watchPeriod s.
Proof. unfold Incr_sweep. by destruct (sweep_due _ _ _). Qed.

(** What [Incr] does, with the sweep out of the way. *)
Lemma Incr_spec s ip now since :
  let '(n, s') := Incr s ip now since in
  sus_watchPeriod s' = sus_watchPeriod s ∧
  (∀ ip' item, ip' ≠ ip → sus_items s !! ip' = Some item → now ≤ WatchTime item →
     sus_items s' !! ip' = Some item) ∧
  (∀ ip', ip' ≠ ip → sus_items s !! ip' = None → sus_items s' !! ip' = None) ∧
  match sus_items s !! ip with
  | None => n = 1 ∧ sus_items s' !! ip = Some (MkSuspectedItem 1 (now + sus_watchPeriod s))
  | Some item =>
      if WatchTime item <? now then
        n = 0 ∧ sus_items s' !! ip = None ∨
        n = 1 ∧ sus_items s' !! ip = Some (MkSuspectedItem 1 (now + sus_watchPeriod s))
      else
        n = wrap64 (Count item + 1) ∧
        sus_items s' !! ip = Some (MkSuspectedItem n (WatchTime item))
  end.
Proof.
  unfold Incr. pose proof (Incr_sweep_period s now since) as Hp.
  pose proof (Incr_sweep_lookup s now since) as Hl.
  set (s1 := Incr_sweep s now since) in *.
  assert (Hother : ∀ ip' item, sus_items s !! ip' = Some item → now ≤ WatchTime item →
            sus_items s1 !! ip' = Some item).
  { intros ip' item Hi Hle. destruct (Hl ip') as [->|[_ (i & ? & ?)]]; [done|].
    simplify_eq. lia. }
  assert (Hnone : ∀ ip', sus_items s !! ip' = None → sus_items s1 !! ip' = None).
  { intros ip' Hi. destruct (Hl ip') as [->|[? _]]; done. }
  destruct (Hl ip) as [E|[E (item & Ei & Hlt)]].
  - rewrite E. destruct (sus_items s !! ip) as [item|] eqn:Ei.
    + unfold time.Before. destruct (WatchTime item <? now) eqn:Eb; simpl; split_and!; try done.
      all: try (intros; rewrite lookup_delete_ne by done; by eauto).
      all: try (intros; rewrite lookup_insert_ne by done; by eauto).
      * left. by rewrite lookup_delete_eq.
      * by rewrite lookup_insert_eq.
    + simpl. split_and!; try done.
      all: try (intros; rewrite lookup_insert_ne by done; by eauto).
      by rewrite lookup_insert_eq, Hp.
  - rewrite E, Ei. replace (WatchTime item <? now) with true by (symmetry; by apply Z.ltb_lt).
    simpl. split_and!; try done.
    all: try (intros; rewrite lookup_insert_ne by done; by eauto).
    right. by rewrite lookup_insert_eq, Hp.
Qed.

Lemma Is_spec s ip now since :
  let '(b, s') := Is s ip now since in
  banPeriod s' = banPeriod s ∧
  b = (match ban_items s !! ip with Some t => now <=? t | None => false end) ∧
  (∀ ip' t, ban_items s !! ip' = Some t → now ≤ t → ban_items s' !! ip' = Some t) ∧
  (∀ ip', ban_items s !! ip' = None → ban_items s' !! ip' = None) ∧
  (b = false → ban_items s' !! ip = None).
Proof.
  unfold Is. pose proof (Is_sweep_lookup s now since) as Hl.
  assert (Hp : banPeriod (Is_sweep s now since) = banPeriod s).
  { unfold Is_sweep. by destruct (sweep_due _ _ _). }
  set (s1 := Is_sweep s now since) in *.
  assert (Hother : ∀ ip' t, ban_items s !! ip' = Some t → now ≤ t → ban_items s1 !! ip' = Some t).
  { intros ip' t Hi Hle. destruct (Hl ip') as [->|[_ (i & ? & ?)]]; [done|]. simplify_eq. lia. }
  assert (Hnone : ∀ ip', ban_items s !! ip' = None → ban_items s1 !! ip' = None).
  { intros ip' Hi. destruct (Hl ip') as [->|[? _]]; done. }
  assert (Hsome : ∀ t, ban_items s1 !! ip = Some t → ban_items s !! ip = Some t).
  { intros t Ht. destruct (Hl ip) as [E|[E _]]; congruence. }
  destruct (ban_items s1 !! ip) as [t|] eqn:E.
  - unfold time.Before. destruct (t <? now) eqn:Eb; simpl; bool_to_prop; split_and!; try done.
    + rewrite (Hsome _ eq_refl). by ztest.
    + intros ip' t' Hi Hle. destruct (decide (ip = ip')) as [<-|?].
      * rewrite (Hother _ _ Hi Hle) in E. simplify_eq. lia.
      * rewrite lookup_delete_ne by done. eauto.
    + intros ip' Hi. destruct (decide (ip = ip')) as [<-|?]; [by rewrite lookup_delete_eq|].
      rewrite lookup_delete_ne by done. eauto.
    + intros _. by rewrite lookup_delete_eq.
    + rewrite (Hsome _ eq_refl). by ztest.
  - split_and!; try done.
    destruct (ban_items s !! ip) as [t'|] eqn:Et; [|done].
    destruct (Hl ip) as [H|[_ (t & ? & ?)]]; simplify_eq; [congruence|by ztest].
Qed.

(** ** The events of the running middleware

    Requests run concurrently, so the critical sections of their handlers
    interleave: [suspended.Is], [suspected.Incr], [suspected.Del] and
    [suspended.Add] are one event each.  [to_del] and [to_add] hold the
    addresses of the goroutines that stand before their [Del] and their [Add];
    an event of a goroutine that does not exist does nothing. *)
Record sys := MkSys { fb : Fail2Ban; to_del : list string; to_add : list string }.

Definition idle (f : Fail2Ban) : sys := MkSys f [] [].

Inductive event :=
| ECheck (ip : string) (now since : Time)
| ECount (ip : string) (status : Z) (now since : Time)
| EForget (ip : string)
| EBan (ip : string) (addNow : Time).

Fixpoint remove_one (ip : string) (l : list string) : list string :=
  match l with
  | [] => []
  | x :: l => if decide (x = ip) then l else x :: remove_one ip l
  end.

Definition run_event (y : sys) (e : event) : sys :=
  match e with
  | ECheck ip now since => MkSys (handler_check (fb y) ip now since).2 (to_del y) (to_add y)
  | ECount ip status now since =>
      if StatusNotFound =? status then
        let '(over, f) := count_404 (fb y) ip now since in
        MkSys f (if over then ip :: to_del y else to_del y) (to_add y)
      else y
  | EForget ip =>
      if decide (ip ∈ to_del y)
      then MkSys (forget (fb y) ip) (remove_one ip (to_del y)) (ip :: to_add y) else y
  | EBan ip addNow =>
      if decide (ip ∈ to_add y)
      then MkSys (ban (fb y) ip addNow) (to_del y) (remove_one ip (to_add y)) else y
  end.

Definition run (y : sys) (l : list event) : sys := fold_left run_event l y.

(** The handler is its events in a row: the check, and when the request is
    let through the count and, over the limit, the two tables. *)
Lemma handler_is_its_events f ip next n1 s1 n2 s2 n3 :
  idle (GetFail2Ban_handler f ip next n1 s1 n2 s2 n3).2 =
    run (idle f) (if (handler_check f ip n1 s1).1 then [ECheck ip n1 s1]
                  else [ECheck ip n1 s1; ECount ip next n2 s2; EForget ip; EBan ip n3]).
Proof.
  unfold GetFail2Ban_handler, handler_after, processStatusNotFound.
  destruct (handler_check f ip n1 s1) as [b f1] eqn:Ec.
  destruct b; cbn [run fold_left run_event fb idle fst snd to_del to_add]; rewrite Ec; [done|].
  cbn [snd]. destruct (StatusNotFound =? next); cbn [fb to_del to_add]; [|done].
  destruct (count_404 f1 ip n2 s2) as [[] f2]; cbn [fb to_del to_add remove_one]; [|done].
  rewrite (decide_True (P := ip ∈ [ip])) by constructor. cbn [fb to_del to_add].
  rewrite (decide_True (P := ip ∈ [ip])) by constructor. cbn [fb to_del to_add].
  cbn [remove_one]. by rewrite !(decide_True (P := ip = ip)) by done.
Qed.

Definition reading_within (lo hi : Time) (e : event) : Prop :=
  match e with
  | ECheck _ now _ | ECount _ _ now _ => lo ≤ now ≤ hi
  | EForget _ => True
  | EBan _ addNow => lo ≤ addNow
  end.

Definition is_404_of (ip : string) (e : event) : bool :=
  match e with
  | ECount ip' status _ _ => bool_decide (ip' = ip) && (StatusNotFound =? status)
  | _ => false
  end.

(** The number of 404 answers [ip] got in a list of events. *)
Definition hits (ip : string) (l : list event) : Z :=
  Z.of_nat (length (List.filter (is_404_of ip) l)).

Lemma ban_kept_step y e ip t t0 lo :
  t ≤ t0 → ban_items (suspended (fb y)) !! ip = Some t0 → 0 ≤ banPeriod (suspended (fb y)) →
  t ≤ lo + banPeriod (suspended (fb y)) → reading_within lo t e →
  ∃ t', t ≤ t' ∧ ban_items (suspended (fb (run_event y e))) !! ip = Some t' ∧
        banPeriod (suspended (fb (run_event y e))) = banPeriod (suspended (fb y)).
Proof.
  intros Ht Hb Hp Hlo He.
  destruct e as [ip' now since|ip' status now since|ip'|ip' addNow];
    cbn [run_event reading_within] in *.
  - unfold handler_check. pose proof (Is_spec (suspended (fb y)) ip' now since) as H.
    destruct (Is (suspended (fb y)) ip' now since) as [b s']. simpl.
    destruct H as (? & _ & Hk & _). exists t0. split_and!; try done. apply Hk; [done|lia].
  - destruct (StatusNotFound =? status); [|by exists t0].
    unfold count_404. destruct (Incr (suspected (fb y)) ip' now since) as [n s1]. by exists t0.
  - case_decide; by exists t0.
  - case_decide; [|by exists t0]. simpl. destruct (decide (ip' = ip)) as [->|?].
    + exists (addNow + banPeriod (suspended (fb y))). rewrite lookup_insert_eq.
      split_and!; [lia|done|done].
    + exists t0. by rewrite lookup_insert_ne.
Qed.

Lemma ban_kept y l ip t t0 lo :
  t ≤ t0 → ban_items (suspended (fb y)) !! ip = Some t0 → 0 ≤ banPeriod (suspended (fb y)) →
  t ≤ lo + banPeriod (suspended (fb y)) → Forall (reading_within lo t) l →
  ∃ t', t ≤ t' ∧ ban_items (suspended (fb (run y l))) !! ip = Some t'.
Proof.
  intros Ht Hb Hp Hlo Hl. revert y t0 Ht Hb Hp Hlo.
  induction Hl as [|e l He Hl IH]; intros y t0 Ht Hb Hp Hlo; [by exists t0|]. simpl.
  destruct (ban_kept_step y e ip t t0 lo) as (t1 & H1 & H2 & H3); [done..|].
  apply (IH _ t1); by rewrite ?H3.
Qed.

(** The answer of the handler is decided by the ban table. *)
Lemma handler_answer f ip next n1 s1 n2 s2 n3 :
  (GetFail2Ban_handler f ip next n1 s1 n2 s2 n3).1 =
    match ban_items (suspended f) !! ip with
    | Some t => if n1 <=? t then (StatusNotFound, false) else (next, true)
    | None => (next, true)
    end.
Proof.
  unfold GetFail2Ban_handler, handler_check. pose proof (Is_spec (suspended f) ip n1 s1) as H.
  destruct (Is (suspended f) ip n1 s1) as [b s']. destruct H as (_ & -> & _).
  destruct (ban_items (suspended f) !! ip) as [t|]; [|done]. by destruct (n1 <=? t).
Qed.

(** [C26] Once banned, an address stays banned until its ban ends: through
    any interleaving of the critical sections of other requests (sweeps
    included, and those of requests of the address that were already past
    their check) with clock readings up to [t], every request of [ip] gets 404
    without running the rest of the chain; and right after [t] it is let
    through again. *)
Theorem ban_holds y ip t lo l :
  ban_items (suspended (fb y)) !! ip = Some t →
  0 ≤ banPeriod (suspended (fb y)) → t ≤ lo + banPeriod (suspended (fb y)) →
  Forall (reading_within lo t) l →
  (∀ next n1 s1 n2 s2 n3, n1 ≤ t →
     (GetFail2Ban_handler (fb (run y l)) ip next n1 s1 n2 s2 n3).1 = (StatusNotFound, false)) ∧
  (∀ next n1 s1 n2 s2 n3, t < n1 →
     (GetFail2Ban_handler (fb y) ip next n1 s1 n2 s2 n3).1 = (next, true)).
Proof.
  intros Hb Hp Hlo Hl. destruct (ban_kept y l ip t t lo) as (t' & Hle & Ht'); [done..|].
  split; intros; rewrite handler_answer.
  - rewrite Ht'. by ztest.
  - rewrite Hb. by ztest.
Qed.

(** ** Counting *)

(** The record of [ip] after [n] counted answers in a window that ends at [w]. *)
Definition record_at (n : Z) (w : Time) : option SuspectedItem :=
  if n =? 0 then None else Some (MkSuspectedItem n w).

(** State of [ip] after [n] of its 404s, none of which reached the limit: no
    ban, and no goroutine about to forget or to ban it. *)
Definition counting (y : sys) (ip : string) (w : Time) (n : Z) : Prop :=
  ban_items (suspended (fb y)) !! ip = None ∧ sus_items (suspected (fb y)) !! ip = record_at n w ∧
  ip ∉ to_del y ∧ ip ∉ to_add y.

Definition same_params (y y' : sys) : Prop :=
  watchCnt (fb y') = watchCnt (fb y) ∧
  sus_watchPeriod (suspected (fb y')) = sus_watchPeriod (suspected (fb y)) ∧
  banPeriod (suspended (fb y')) = banPeriod (suspended (fb y)).

Lemma same_params_trans y1 y2 y3 : same_params y1 y2 → same_params y2 y3 → same_params y1 y3.
Proof. intros (? & ? & ?) (? & ? & ?). split_and!; congruence. Qed.

Lemma run_event_params y e : same_params y (run_event y e).
Proof.
  destruct e as [ip now since|ip status now since|ip|ip addNow]; cbn [run_event].
  - unfold handler_check. pose proof (Is_spec (suspended (fb y)) ip now since) as H.
    destruct (Is (suspended (fb y)) ip now since) as [b s']. split_and!; try done. apply H.
  - destruct (StatusNotFound =? status); [|done].
    unfold count_404. pose proof (Incr_spec (suspected (fb y)) ip now since) as H.
    destruct (Incr (suspected (fb y)) ip now since) as [n s1]. split_and!; try done; apply H.
  - by case_decide.
  - by case_decide.
Qed.

Lemma run_params y l : same_params y (run y l).
Proof.
  revert y. induction l as [|e l IH]; intros y; [done|].
  eapply same_params_trans; [apply run_event_params|apply IH].
Qed.

Lemma elem_of_remove_one_ne ip ip' l : ip ≠ ip' → ip ∈ remove_one ip' l ↔ ip ∈ l.
Proof.
  intros Hne. induction l as [|x l IH]; [done|]. simpl. case_decide; subst.
  - rewrite elem_of_cons. naive_solver.
  - rewrite !elem_of_cons, IH. done.
Qed.

(** Critical sections of other addresses, checks, and answers other than 404
    leave the record of [ip] alone while its window is open. *)
Lemma counting_other y e ip w lo n :
  counting y ip w n → reading_within lo w e → is_404_of ip e = false →
  counting (run_event y e) ip w n.
Proof.
  intros (Hb & Hs & Hd & Ha) He Hn.
  destruct e as [ip' now since|ip' status now since|ip'|ip' addNow];
    cbn [run_event reading_within is_404_of] in *.
  - unfold handler_check. pose proof (Is_spec (suspended (fb y)) ip' now since) as H.
    destruct (Is (suspended (fb y)) ip' now since) as [b s']. destruct H as (_ & _ & _ & Hk & _).
    split_and!; [by apply Hk|done..].
  - destruct (StatusNotFound =? status) eqn:E404; [|done].
    rewrite andb_true_r in Hn. bool_to_prop. unfold count_404.
    pose proof (Incr_spec (suspected (fb y)) ip' now since) as H.
    destruct (Incr (suspected (fb y)) ip' now since) as [k s1]. destruct H as (_ & Hk & Hk' & _).
    assert (Hs1 : sus_items s1 !! ip = record_at n w).
    { unfold record_at in *. destruct (n =? 0).
      - by apply Hk'.
      - apply Hk; [done|done|simpl; lia]. }
    split_and!; try done. simpl. destruct (watchCnt (fb y) <? k); [|done].
    rewrite elem_of_cons. naive_solver.
  - case_decide as Hin; [|done]. assert (ip' ≠ ip) by congruence.
    split_and!; simpl; [done|by rewrite lookup_delete_ne|..].
    + by rewrite elem_of_remove_one_ne.
    + rewrite elem_of_cons. naive_solver.
  - case_decide as Hin; [|done]. assert (ip' ≠ ip) by congruence.
    split_and!; simpl; [by rewrite lookup_insert_ne|done|done|].
    by rewrite elem_of_remove_one_ne.
Qed.

(** One more 404 of [ip]. *)
Lemma counting_hit y ip w lo n now since :
  counting y ip w n → 0 ≤ n < MaxInt64 → lo ≤ now ≤ w →
  (n = 0 → w = now + sus_watchPeriod (suspected (fb y))) →
  let y' := run_event y (ECount ip StatusNotFound now since) in
  if watchCnt (fb y) <? n + 1 then ip ∈ to_del y' else counting y' ip w (n + 1).
Proof.
  intros (Hb & Hs & Hd & Ha) Hn Hw Hfirst. cbn [run_event]. rewrite Z.eqb_refl.
  unfold count_404. pose proof (Incr_spec (suspected (fb y)) ip now since) as H.
  destruct (Incr (suspected (fb y)) ip now since) as [k s1]. destruct H as (_ & _ & _ & Hk).
  rewrite Hs in Hk. unfold record_at in Hk.
  assert (k = n + 1 ∧ sus_items s1 !! ip = Some (MkSuspectedItem (n + 1) w)) as [-> Hs1].
  { destruct (n =? 0) eqn:E; bool_to_prop.
    - subst n. destruct Hk as [-> Hk]. rewrite Hk, (Hfirst eq_refl). done.
    - simpl in Hk. replace (w <? now) with false in Hk by (symmetry; apply Z.ltb_ge; lia).
      rewrite wrap64_id in Hk by (unfold in_int64, MinInt64, MaxInt64 in *; lia).
      destruct Hk as [-> Hk]. done. }
  destruct (watchCnt (fb y) <? n + 1); simpl; [constructor|].
  split_and!; simpl; [done| |done|done]. rewrite Hs1. unfold record_at. by ztest.
Qed.

Lemma hits_cons ip e l : hits ip (e :: l) = (if is_404_of ip e then 1 else 0) + hits ip l.
Proof. unfold hits. simpl. destruct (is_404_of ip e); simpl; lia. Qed.

Lemma counting_run y ip w lo n l :
  counting y ip w n → 0 < n → Forall (reading_within lo w) l →
  n + hits ip l ≤ watchCnt (fb y) → watchCnt (fb y) ≤ MaxInt64 →
  counting (run y l) ip w (n + hits ip l).
Proof.
  intros Hc Hn Hl Hw Hmax. revert y n Hc Hn Hw Hmax.
  induction Hl as [|e l He Hl IH]; intros y n Hc Hn Hw Hmax.
  { unfold hits; simpl. by rewrite Z.add_0_r. }
  rewrite hits_cons in Hw |- *. pose proof (run_event_params y e) as (P1 & P2 & P3).
  assert (Hh : 0 ≤ hits ip l) by (unfold hits; lia). simpl.
  destruct (is_404_of ip e) eqn:E.
  - destruct e as [|ip' status now since| |]; [done| |done..]. cbn [is_404_of] in E.
    bool_to_prop. subst ip' status.
    pose proof (counting_hit y ip w lo n now since Hc ltac:(lia) He ltac:(lia)) as Hstep.
    cbn zeta in Hstep. replace (watchCnt (fb y) <? n + 1) with false in Hstep
      by (symmetry; apply Z.ltb_ge; lia).
    rewrite Z.add_assoc. apply IH; rewrite ?P1; [done|lia|lia|done].
  - rewrite Z.add_0_l. apply IH; rewrite ?P1; [by eapply counting_other|done|lia|done].
Qed.

(** ** From the decision to the ban *)

(** The events by which the goroutine that holds the decision goes on. *)
Definition forgets (ip : string) (e : event) : bool :=
  match e with EForget ip' => bool_decide (ip' = ip) | _ => false end.
Definition bans (ip : string) (e : event) : bool :=
  match e with EBan ip' _ => bool_decide (ip' = ip) | _ => false end.

Lemma to_del_kept y ip l :
  ip ∈ to_del y → Forall (λ e, forgets ip e = false) l → ip ∈ to_del (run y l).
Proof.
  intros Hin Hl. revert y Hin. induction Hl as [|e l He Hl IH]; intros y Hin; [done|].
  apply IH. destruct e as [| ip' status now since|ip'|ip' addNow]; cbn [run_event forgets] in *; try done.
  - destruct (StatusNotFound =? status); [|done].
    destruct (count_404 (fb y) ip' now since) as [[] f]; simpl; [by right|done].
  - bool_to_prop. case_decide; [|done]. simpl. apply elem_of_remove_one_ne; naive_solver.
  - by case_decide.
Qed.

Lemma to_add_kept y ip l :
  ip ∈ to_add y → Forall (λ e, bans ip e = false) l → ip ∈ to_add (run y l).
Proof.
  intros Hin Hl. revert y Hin. induction Hl as [|e l He Hl IH]; intros y Hin; [done|].
  apply IH. destruct e as [| ip' status now since|ip'|ip' addNow]; cbn [run_event bans] in *; try done.
  - destruct (StatusNotFound =? status); [|done].
    by destruct (count_404 (fb y) ip' now since) as [[] f].
  - case_decide; [|done]. simpl. by right.
  - bool_to_prop. case_decide; [|done]. simpl. apply elem_of_remove_one_ne; naive_solver.
Qed.

Lemma run_app y l l' : run y (l ++ l') = run (run y l) l'.
Proof. apply fold_left_app. Qed.

(** Once the limit is passed the ban is a matter of the goroutine's own two
    sections, whatever the others do in between. *)
Lemma decided_ban y ip l1 l2 addNow :
  ip ∈ to_del y → Forall (λ e, forgets ip e = false) l1 → Forall (λ e, bans ip e = false) l2 →
  sus_items (suspected (fb (run y (l1 ++ [EForget ip])))) !! ip = None ∧
  ban_items (suspended (fb (run y (l1 ++ EForget ip :: l2 ++ [EBan ip addNow])))) !! ip =
    Some (addNow + banPeriod (suspended (fb y))).
Proof.
  intros Hin H1 H2. pose proof (to_del_kept y ip l1 Hin H1) as Hd.
  rewrite run_app. change (EForget ip :: l2 ++ [EBan ip addNow]) with ([EForget ip] ++ (l2 ++ [EBan ip addNow])).
  rewrite !run_app. set (y1 := run y l1) in *.
  assert (run y1 [EForget ip] = MkSys (forget (fb y1) ip) (remove_one ip (to_del y1)) (ip :: to_add y1))
    as E by (simpl; by rewrite decide_True).
  split.
  - rewrite E. simpl. apply lookup_delete_eq.
  - assert (Ha : ip ∈ to_add (run (run y1 [EForget ip]) l2)).
    { apply to_add_kept; [|done]. rewrite E. simpl. constructor. }
    pose proof (run_params (run y1 [EForget ip]) l2) as (_ & _ & P).
    pose proof (run_params y (l1 ++ [EForget ip])) as (_ & _ & P0). rewrite run_app in P0.
    fold y1 in P0.
    remember (run (run y1 [EForget ip]) l2) as y2 eqn:Ey2. clear Ey2 E.
    cbn [run fold_left run_event]. rewrite decide_True by done. simpl.
    rewrite lookup_insert_eq, P, P0. done.
Qed.


(** ** Concrete runs *)

Definition cfg : ConfigFail2Ban := MkConfig false false Minute 3 (15 * Minute).
Definition other_events : list event :=
  [ECheck "b" 1 1; ECount "b" 404 2 2; ECount "a" 200 3 3; ECount "a" 404 4 4].


Lemma ban_holds_witness :
  let y := idle (MkFail2Ban (NewSuspected Minute) (MkSuspended {["a" := 900]} 900 0) Minute 2 false) in
  (GetFail2Ban_handler (fb (run y other_events)) "a" 200 900 900 901 901 901).1 = (404, false) ∧
  (GetFail2Ban_handler (fb y) "a" 200 901 901 901 901 901).1 = (200, true).
Proof.
  cbv zeta.
  destruct (ban_holds (idle (MkFail2Ban (NewSuspected Minute) (MkSuspended {["a" := 900]} 900 0) Minute 2 false))
              "a" 900 0 other_events) as [H1 H2]; [by vm_compute|by vm_compute|by vm_compute| |].
  - unfold other_events. repeat constructor; by vm_compute.
  - split; [apply H1; by vm_compute|apply H2; by vm_compute].
Defined.
End Fail2Ban.
