(* ===== verification/RateLimiter.v ===== *)
(** * web/gin/middleware/rateLimiter: one token bucket per address

    The table maps an address to a pointer to its [ipLimiter]; the pointer is
    used after the mutex is released, so limiters live in a store of their
    own.  The token bucket is [golang.org/x/time/rate], which is not in this
    repository: its state, constructor and [Allow] are parameters. *)

From S2P Require Import Prelude.

Module RateLimiter.

Definition limiterEvictThreshold : Z := 1024.
Definition limiterEvictInterval : Duration := 30 * Second.
Definition limiterIdleTimeout : Duration := 5 * Minute.
Definition StatusTooManyRequests : Z := 429.

Record ConfigRateLimiter := MkConfig { Limit : Z; Seconds : Z }.

Section limiter.
(** [rate.Limiter]: [NewLimiter r b] and [Allow] at a clock reading. *)
Context {Lim : Type} (NewLimiter : Z → Z → Lim) (Allow : Lim → Time → bool * Lim).

Record ipLimiter := MkIpLimiter { limiter : Lim; lastSeen : Time }.

Record state := MkState {
  store : gmap nat ipLimiter;   (* the [ipLimiter] values, by address *)
  brk : nat;
  limits : gmap string nat;
  lastSweep : Time
}.

Definition init : state := MkState ∅ 0 ∅ zeroTime.

(** Lines 33 to 38: the limiter of [ip], made on its first request, is marked
    as seen. *)
Definition acquire (cfg : ConfigRateLimiter) (st : state) (ip : string) (now : Time) : nat * state :=
  match limits st !! ip with
  | Some p =>
      (p, MkState (alter (λ l, MkIpLimiter (limiter l) now) p (store st)) (brk st) (limits st)
                  (lastSweep st))
  | None =>
      (brk st, MkState (<[brk st := MkIpLimiter (NewLimiter (Seconds cfg) (Limit cfg)) now]> (store st))
                       (S (brk st)) (<[ip := brk st]> (limits st)) (lastSweep st))
  end.

Definition idle (sto : gmap nat ipLimiter) (now : Time) (p : nat) : bool :=
  match sto !! p with
  | Some entry => limiterIdleTimeout <? time.Sub now (lastSeen entry)
  | None => false
  end.

(** Lines 39 to 47. *)
Definition sweep (st : state) (since now : Time) : state :=
  if (limiterEvictThreshold <? len_map (limits st)) &&
     (limiterEvictInterval <? time.Sub since (lastSweep st))
  then MkState (store st) (brk st)
               (range_delete (idle (store st) now) (map_to_list (limits st)) (limits st)) now
  else st.

(** The critical section of the handler. *)
Definition locked (cfg : ConfigRateLimiter) (st : state) (ip : string) (now since now2 : Time) : nat * state :=
  let '(p, st1) := acquire cfg st ip now in (p, sweep st1 since now2).

(** [lim.limiter.Allow()], after the mutex is released. *)
Definition allow (st : state) (p : nat) (now : Time) : bool * state :=
  match store st !! p with
  | Some l =>
      let '(b, l') := Allow (limiter l) now in
      (b, MkState (<[p := MkIpLimiter l' (lastSeen l)]> (store st)) (brk st) (limits st) (lastSweep st))
  | None => (false, st)
  end.

(** A request: [None] lets it through to the next handler, [Some 429] aborts. *)
Definition RateLimiter_handler (cfg : ConfigRateLimiter) (st : state) (ip : string)
    (now since now2 now3 : Time) : option Z * state :=
  let '(p, st1) := locked cfg st ip now since now2 in
  let '(b, st2) := allow st1 p now3 in
  (if b then None else Some StatusTooManyRequests, st2).

(** Requests in the order their sections run, each with its clock readings. *)
Definition request : Type := string * Time * Time * Time * Time.

Fixpoint run (cfg : ConfigRateLimiter) (st : state) (l : list request) : list (string * bool) * state :=
  match l with
  | [] => ([], st)
  | (ip, n1, s, n2, n3) :: l =>
      let '(r, st1) := RateLimiter_handler cfg st ip n1 s n2 n3 in
      let '(out, st2) := run cfg st1 l in
      ((ip, bool_decide (r = None)) :: out, st2)
  end.

(** ** The specification: one limiter per address, fed with its own requests *)
Fixpoint bucket (l : Lim) (ts : list Time) : list bool :=
  match ts with
  | [] => []
  | t :: ts => let '(b, l') := Allow l t in b :: bucket l' ts
  end.

Definition times_of (ip : string) (l : list request) : list Time :=
  omap (λ '(ip', n1, s, n2, n3), if decide (ip' = ip) then Some n3 else None) l.

Definition answers_of (ip : string) (l : list (string * bool)) : list bool :=
  omap (λ '(ip', b), if decide (ip' = ip) then Some b else None) l.

(** Distinct addresses have distinct, allocated limiters. *)
Definition wf (st : state) : Prop :=
  (∀ ip p, limits st !! ip = Some p → is_Some (store st !! p) ∧ (p < brk st)%nat) ∧
  (∀ ip ip' p, limits st !! ip = Some p → limits st !! ip' = Some p → ip = ip').

(** The limiter that serves [ip] next. *)
Definition current (cfg : ConfigRateLimiter) (st : state) (ip : string) : Lim :=
  match limits st !! ip ≫= λ p, store st !! p with
  | Some l => limiter l
  | None => NewLimiter (Seconds cfg) (Limit cfg)
  end.

Lemma wf_init : wf init.
Proof. split; intros *; simpl; by rewrite lookup_empty. Qed.

Lemma sweep_small st since now :
  len_map (limits st) ≤ limiterEvictThreshold → sweep st since now = st.
Proof. intros Hs. unfold sweep. by ztest. Qed.

Lemma acquire_spec cfg st ip now :
  wf st →
  let '(p, st1) := acquire cfg st ip now in
  wf st1 ∧ limits st1 !! ip = Some p ∧
  (limits st1 = limits st ∨ limits st !! ip = None ∧ limits st1 = <[ip := p]> (limits st)) ∧
  ∀ ip', current cfg st1 ip' = current cfg st ip'.
Proof.
  intros [Hs Hinj]. unfold acquire, current. destruct (limits st !! ip) as [p|] eqn:Hp; simpl.
  - split_and!; [|done|by left|].
    + split; simpl; [|done]. intros ip' q Hq. destruct (Hs _ _ Hq) as [Hq' ?].
      split; [|done]. rewrite lookup_alter_is_Some. done.
    + intros ip'. destruct (limits st !! ip') as [q|] eqn:Hq; simpl; [|done].
      rewrite lookup_alter. case_decide as Hpq; [|done].
      subst. by destruct (store st !! q).
  - assert (Hfresh : ∀ ip' q, limits st !! ip' = Some q → q ≠ brk st).
    { intros ip' q Hq. destruct (Hs _ _ Hq). lia. }
    split_and!.
    + split; simpl.
      * intros ip' q. rewrite lookup_insert_Some. intros [[<- <-]|[Hne Hq]].
        { rewrite lookup_insert_eq. split; [done|lia]. }
        destruct (Hs _ _ Hq). rewrite lookup_insert_ne by (by apply not_eq_sym, (Hfresh ip')).
        split; [done|lia].
      * intros i1 i2 q. rewrite !lookup_insert_Some.
        intros [[<- <-]|[? H1]] [[<- ?]|[? H2]]; eauto.
        { by destruct (Hfresh _ _ H2). } { by destruct (Hfresh _ _ H1). }
    + by rewrite lookup_insert_eq.
    + by right.
    + intros ip'. destruct (decide (ip = ip')) as [<-|?].
      * rewrite lookup_insert_eq, Hp; simpl. by rewrite lookup_insert_eq.
      * rewrite lookup_insert_ne by done.
        destruct (limits st !! ip') as [q|] eqn:Hq; simpl; [|done].
        by rewrite lookup_insert_ne by (by apply not_eq_sym, (Hfresh ip')).
Qed.

Lemma allow_spec cfg st ip p now :
  wf st → limits st !! ip = Some p →
  let '(b, st1) := allow st p now in
  wf st1 ∧ limits st1 = limits st ∧
  (b, current cfg st1 ip) = Allow (current cfg st ip) now ∧
  ∀ ip', ip' ≠ ip → current cfg st1 ip' = current cfg st ip'.
Proof.
  intros [Hs Hinj] Hp. unfold allow, current. destruct (Hs _ _ Hp) as [[l Hl] Hlt].
  rewrite Hl, Hp; simpl. rewrite Hl. destruct (Allow (limiter l) now) as [b l'] eqn:Ha.
  simpl. rewrite Hp; simpl. rewrite lookup_insert_eq; simpl. split_and!; try done.
  - split; simpl; [|done]. intros ip' q Hq. destruct (Hs _ _ Hq). split; [|done].
    rewrite lookup_insert_is_Some'. by right.
  - intros ip' Hne. destruct (limits st !! ip') as [q|] eqn:Hq; simpl; [|done].
    rewrite lookup_insert_ne; [done|]. intros <-. by destruct Hne; eapply Hinj.
Qed.

Definition req_ip (r : request) : string := let '(ip, _, _, _, _) := r in ip.

(** A sweep drops only addresses that were idle for longer than the timeout,
    and keeps the limiter of every other one. *)
Lemma sweep_keeps cfg st since now ip p l :
  limits st !! ip = Some p → store st !! p = Some l →
  time.Sub now (lastSeen l) ≤ limiterIdleTimeout →
  limits (sweep st since now) !! ip = Some p ∧
  current cfg (sweep st since now) ip = current cfg st ip.
Proof.
  intros Hp Hl Hidle. unfold sweep. destruct (_ && _); [|done].
  assert (Hk : range_delete (idle (store st) now) (map_to_list (limits st)) (limits st) !! ip
               = Some p).
  { rewrite range_delete_filter by done. apply map_lookup_filter_Some_2; [done|].
    simpl. unfold idle. rewrite Hl. by apply Z.ltb_ge. }
  unfold current; simpl. by rewrite Hk, Hp.
Qed.

Lemma handler_spec cfg st ip n1 s n2 n3 (ips : gset string) :
  wf st → dom (limits st) ⊆ ips → ip ∈ ips → Z.of_nat (size ips) ≤ limiterEvictThreshold →
  let '(r, st') := RateLimiter_handler cfg st ip n1 s n2 n3 in
  wf st' ∧ dom (limits st') ⊆ ips ∧
  (bool_decide (r = None), current cfg st' ip) = Allow (current cfg st ip) n3 ∧
  ∀ ip', ip' ≠ ip → current cfg st' ip' = current cfg st ip'.
Proof.
  intros Hwf Hdom Hip Hsize. unfold RateLimiter_handler, locked.
  pose proof (acquire_spec cfg st ip n1 Hwf) as H1.
  destruct (acquire cfg st ip n1) as [p st1]. destruct H1 as (Hwf1 & Hp & Hlim & Hcur).
  assert (Hdom1 : dom (limits st1) ⊆ ips).
  { destruct Hlim as [->|[_ ->]]; [done|]. rewrite dom_insert_L. set_solver. }
  rewrite sweep_small.
  2: { unfold len_map. rewrite <- size_dom. apply subseteq_size in Hdom1. lia. }
  pose proof (allow_spec cfg st1 ip p n3 Hwf1 Hp) as H2.
  destruct (allow st1 p n3) as [b st2]. destruct H2 as (Hwf2 & Hlim2 & Hall & Hoth).
  split_and!; [done|by rewrite Hlim2| |].
  - rewrite <- Hcur, <- Hall. f_equal. by destruct b.
  - intros ip' Hne. by rewrite Hoth, Hcur.
Qed.

(** The middleware is one independent limiter per address: as long as
    no sweep is due (at most 1024 addresses), the answers an address gets are
    those of a single limiter, created with its configuration and fed with its
    own requests, whatever the requests of other addresses in between. *)
Theorem limiter_isolated cfg l ip (ips : gset string) :
  Forall (λ r, req_ip r ∈ ips) l → Z.of_nat (size ips) ≤ limiterEvictThreshold →
  answers_of ip (run cfg init l).1 = bucket (NewLimiter (Seconds cfg) (Limit cfg)) (times_of ip l).
Proof.
  intros Hl Hsize.
  assert (Hgen : ∀ st, wf st → dom (limits st) ⊆ ips →
            answers_of ip (run cfg st l).1 = bucket (current cfg st ip) (times_of ip l)).
  { induction Hl as [|[[[[ip0 n1] s] n2] n3] l Hr Hl IH]; intros st Hwf Hdom; [done|].
    simpl. pose proof (handler_spec cfg st ip0 n1 s n2 n3 ips Hwf Hdom Hr Hsize) as H.
    destruct (RateLimiter_handler cfg st ip0 n1 s n2 n3) as [r st1].
    destruct H as (Hwf1 & Hdom1 & Hall & Hoth). specialize (IH st1 Hwf1 Hdom1).
    destruct (run cfg st1 l) as [out st2]. simpl in *.
    unfold answers_of, times_of in *. simpl. destruct (decide (ip0 = ip)) as [->|Hne].
    - simpl. rewrite <- Hall. by f_equal.
    - rewrite IH, Hoth by done. done. }
  rewrite Hgen; [done|apply wf_init|]. unfold init; simpl. rewrite dom_empty_L. set_solver.
Qed.
End limiter.

(** A token bucket without refill, to evaluate the middleware. *)
Definition counter_new (r b : Z) : Z := b.
Definition counter_allow (n : Z) (now : Time) : bool * Z := if 0 <? n then (true, n - 1) else (false, n).

Definition reqs : list request :=
  [("a", 1, 1, 1, 1); ("b", 2, 2, 2, 2); ("a", 3, 3, 3, 3); ("a", 4, 4, 4, 4)].

Lemma limiter_isolated_witness :
  answers_of "a" (run counter_new counter_allow (MkConfig 2 1) init reqs).1 = [true; true; false].
Proof.
  rewrite (limiter_isolated counter_new counter_allow (MkConfig 2 1) reqs "a" {["a"; "b"]}).
  - by vm_compute.
  - unfold reqs. repeat constructor; by vm_compute.
  - by vm_compute.
Defined.
End RateLimiter.
