(* ===== verification/Middleware.v ===== *)
(** * gin middlewares: basic authentication, CORS, request log, health
    (web/gin/middleware/...)

    A handler is modelled by the calls it makes on its [*gin.Context], in
    order.  [passes] tells from that trace whether gin runs the rest of the
    handler chain: a handler that returns, or calls [Next], without having
    called [Abort] before lets the request through. *)

From S2P Require Import Prelude GoBytes GoBase64.

Inductive CtxAction :=
| SetHeader (key value : string)       (* c.Writer.Header().Set, c.Header *)
| AbortWithStatus (code : Z)
| JSON (code : Z) (message : string)
| Abort
| SetKey (key value : string)          (* c.Set *)
| SetBody (body : bytes)               (* c.Request.Body = ... *)
| Next.

#[global] Instance CtxAction_eq_dec : EqDecision CtxAction.
Proof. solve_decision. Defined.

(** Does the request reach the handlers after this one? *)
Fixpoint passes (trace : list CtxAction) : bool :=
  match trace with
  | [] => true
  | Next :: _ => true
  | (Abort | AbortWithStatus _) :: _ => false
  | _ :: trace => passes trace
  end.

Definition Unauthorized : Z := 401.
Definition StatusOK : Z := 200.

(** A text between double quotes. *)
Definition quoted (s : string) : string :=
  String (ascii_of_byte 34) (s +:+ String (ascii_of_byte 34) EmptyString).

Module BasicAuth.
Section basic_auth.
Context (authFunc : string → string → bool).

Definition respondWithUnauthorized : list CtxAction :=
  [SetHeader "WWW-Authenticate" ("Basic realm=" +:+ quoted "Authorization Required");
   JSON Unauthorized "Unauthorized"; Abort].

(** The decoding error is dropped: [payload] is what was decoded before it. *)
Definition BasicAuthFunc (authorization : string) : list CtxAction :=
  match strings.SplitN2 authorization " " with
  | [scheme; enc] =>
      if negb (scheme =? "Basic")%string then respondWithUnauthorized
      else
        let '(payload, _) := base64.DecodeString enc in
        match strings.SplitN2 (string_of_bytes payload) ":" with
        | [user; pass] => if negb (authFunc user pass) then respondWithUnauthorized else [Next]
        | _ => respondWithUnauthorized
        end
  | _ => respondWithUnauthorized
  end.

(** ** Lemmas and properties *)

Lemma respondWithUnauthorized_blocks : passes respondWithUnauthorized = false.
Proof. done. Qed.

(** A request is let through exactly when its header is the Basic
    scheme, the bytes decoded from it contain a colon, and the user function
    accepts the text before the first colon with the text after it; every
    other request is answered 401 and goes no further. *)
Theorem BasicAuthFunc_spec authorization :
  (passes (BasicAuthFunc authorization) = true ↔
   ∃ enc user pass, authorization = "Basic" +:+ String " " enc ∧
     string_of_bytes (base64.DecodeString enc).1 = user +:+ String ":" pass ∧
     Forall (λ a, a ≠ ":"%char) (String.list_ascii_of_string user) ∧
     authFunc user pass = true) ∧
  (passes (BasicAuthFunc authorization) = false → BasicAuthFunc authorization = respondWithUnauthorized).
Proof.
  split; [split|].
  - unfold BasicAuthFunc. destruct (strings.SplitN2 authorization " ") as [|scheme [|enc [|]]] eqn:E; try done.
    apply strings.SplitN2_two in E as [-> _]. destruct (scheme =? "Basic")%string eqn:Es; [|done].
    apply String.eqb_eq in Es as ->. cbn [negb]. destruct (base64.DecodeString enc) as [payload ok] eqn:Ed.
    destruct (strings.SplitN2 (string_of_bytes payload) ":") as [|user [|pass [|]]] eqn:E2; try done.
    apply strings.SplitN2_two in E2 as [Hp Hu]. destruct (authFunc user pass) eqn:Ea; [|done].
    intros _. exists enc, user, pass. rewrite Ed. done.
  - intros (enc & user & pass & -> & Hd & Hu & Ha). unfold BasicAuthFunc.
    rewrite strings.SplitN2_app by by repeat constructor.
    change (("Basic" =? "Basic")%string) with true. cbn [negb].
    destruct (base64.DecodeString enc) as [payload ok]. simpl in Hd. rewrite Hd.
    rewrite strings.SplitN2_app by done. by rewrite Ha.
  - unfold BasicAuthFunc. repeat case_match; try done.
Qed.

(** The credentials a client encodes are the ones that are checked:
    a header built from a user name without colon and any password passes
    exactly when the user function accepts them. *)
Lemma BasicAuthFunc_encoded user pass :
  Forall (λ a, a ≠ ":"%char) (String.list_ascii_of_string user) →
  passes (BasicAuthFunc ("Basic" +:+ String " "
    (base64.EncodeToString (bytes_of_string (user +:+ String ":" pass))))) = authFunc user pass.
Proof.
  intros Hu. unfold BasicAuthFunc. rewrite strings.SplitN2_app by by repeat constructor.
  change (("Basic" =? "Basic")%string) with true. cbn [negb].
  rewrite base64.DecodeString_EncodeToString by apply bytes_of_string_wf.
  rewrite string_of_bytes_of_string, strings.SplitN2_app by done.
  by destruct (authFunc user pass).
Qed.
End basic_auth.

Definition only_admin (u p : string) : bool := ((u =? "admin") && (p =? "x:y"))%string.

Lemma BasicAuthFunc_spec_witness :
  passes (BasicAuthFunc only_admin "Bearer x") = false ∧
  BasicAuthFunc only_admin "Bearer x" = respondWithUnauthorized.
Proof.
  split; [by vm_compute|]. destruct (BasicAuthFunc_spec only_admin "Bearer x") as [_ H]. apply H. by vm_compute.
Defined.

(** The payload before a decoding error is accepted as the credentials. *)
Lemma partial_payload_accepted :
  passes (BasicAuthFunc only_admin "Basic YWRtaW46eDp5!garbage") = true.
Proof. by vm_compute. Qed.

(** auth/authBasicCustom.go is the same handler as a method of an empty
    component. *)
Definition BasicAuthCustom_BasicAuthFunc (authFunc : string → string → bool)
    (authorization : string) : list CtxAction :=
  match strings.SplitN2 authorization " " with
  | [scheme; enc] =>
      if negb (scheme =? "Basic")%string then respondWithUnauthorized
      else
        let payload := (base64.DecodeString enc).1 in
        match strings.SplitN2 (string_of_bytes payload) ":" with
        | [user; pass] => if negb (authFunc user pass) then respondWithUnauthorized else [Next]
        | _ => respondWithUnauthorized
        end
  | _ => respondWithUnauthorized
  end.

Lemma BasicAuthCustom_same authFunc h :
  BasicAuthCustom_BasicAuthFunc authFunc h = BasicAuthFunc authFunc h.
Proof.
  unfold BasicAuthCustom_BasicAuthFunc, BasicAuthFunc. repeat case_match; simplify_eq/=; try done; congruence.
Qed.
End BasicAuth.

Module CORS.

Definition allowHeaders : string :=
  "X-Requested-With, Content-Type, Content-Length, Accept-Encoding, X-CSRF-Token, Authorization, token, Accept, Origin, Cache-Control, X-Requested-With, Set-Cookie".

Definition CORSMiddleware (port origin method : string) : list CtxAction :=
  let allowedOrigin := "http://localhost:" +:+ port in
  if (origin =? allowedOrigin)%string then
    [SetHeader "Access-Control-Allow-Origin" allowedOrigin;
     SetHeader "Access-Control-Max-Age" "86400";
     SetHeader "Access-Control-Allow-Credentials" "true";
     SetHeader "Access-Control-Allow-Headers" allowHeaders;
     SetHeader "Access-Control-Allow-Methods" "POST, GET, PUT, DELETE"]
    ++ (if (method =? "OPTIONS")%string then [AbortWithStatus StatusOK] else [Next])
  else [Next].

(** Credentials are allowed to the one local origin only, and only its
    preflight requests stop here. *)
Lemma CORS_spec port origin method :
  (SetHeader "Access-Control-Allow-Credentials" "true" ∈ CORSMiddleware port origin method ↔
     origin = "http://localhost:" +:+ port) ∧
  (passes (CORSMiddleware port origin method) = false ↔
     origin = "http://localhost:" +:+ port ∧ method = "OPTIONS").
Proof.
  unfold CORSMiddleware. destruct (String.eqb_spec origin ("http://localhost:" +:+ port)) as [->|Hne].
  - destruct (String.eqb_spec method "OPTIONS") as [->|Hm]; simpl; set_solver.
  - simpl. set_solver.
Qed.
End CORS.

Module RequestLog.

Definition maxLoggedBody : nat := 65536.   (* 64<<10 *)

(** [debug]: is the debug level enabled?  [body]: the request body, if any;
    [Err] when reading it fails. *)
Definition GetRequestLog (debug : bool) (body : option (result bytes)) : list CtxAction :=
  (if debug then
     match body with
     | Some (Ok b) => [SetBody (take maxLoggedBody b)]
     | Some (Err _) | None => []
     end
   else [])
  ++ [Next].

(** The body the next handlers read. *)
Definition body_after (trace : list CtxAction) (body : bytes) : bytes :=
  fold_left (λ b a, match a with SetBody b' => b' | _ => b end) trace body.

(** The middleware is transparent without debug logging and for bodies
    up to 64 KiB; with debug logging a longer body reaches the next handlers
    cut off at 64 KiB. *)
Theorem GetRequestLog_body debug body :
  body_after (GetRequestLog debug (Some (Ok body))) body =
    (if debug && (maxLoggedBody <? length body)%nat then take maxLoggedBody body else body).
Proof.
  destruct debug; [|done]. unfold GetRequestLog. cbn [app andb body_after fold_left].
  destruct (maxLoggedBody <? length body)%nat eqn:E; [done|].
  apply Nat.ltb_ge in E. by apply take_ge.
Qed.
End RequestLog.

(** middleware/health.go *)
Definition HealthPoint : list CtxAction := [Next].
