(* ===== verification/HttpClient.v ===== *)
(** * HTTP client over net/http
    (web/std/client/HTTPClient.go, web/ClientDTS.go)

    The cached [http.Client], the request it builds and what it does with the
    answer.  The network, the JSON encoder and the gzip reader are arguments;
    the calls that release something are written down. *)

From S2P Require Import Prelude GoBytes GoBase64 GoUtf8 GoJson Middleware.

Module HttpClient.

(** ** http.Header *)

Module http.
(** The bytes of a header field name. *)
Definition validHeaderFieldByte (a : ascii) : bool :=
  let c := byte_of_ascii a in
  (48 <=? c) && (c <=? 57) || (65 <=? c) && (c <=? 90) || (97 <=? c) && (c <=? 122) ||
  bool_decide (c ∈ [33; 35; 36; 37; 38; 39; 42; 43; 45; 46; 94; 95; 96; 124; 126]).

Fixpoint canonical (up : bool) (s : string) : string :=
  match s with
  | EmptyString => EmptyString
  | String a s =>
      let a := if up then strings.upper_ascii a else strings.lower_ascii a in
      String a (canonical (byte_of_ascii a =? 45) s)
  end.

Fixpoint all_valid (s : string) : bool :=
  match s with EmptyString => true | String a s => validHeaderFieldByte a && all_valid s end.

Definition CanonicalHeaderKey (s : string) : string := if all_valid s then canonical true s else s.

Abbreviation Header := (gmap string (list string)).

(** [Header.Add] *)
Definition Add (h : Header) (k v : string) : Header :=
  let k := CanonicalHeaderKey k in <[k := default [] (h !! k) ++ [v]]> h.

Definition Get (h : Header) (k : string) : string :=
  match h !! CanonicalHeaderKey k with Some (v :: _) => v | _ => ""%string end.
End http.

(** ** The cached client *)

Record ConfigHTTPClient := MkConfig {
  MaxIdleConns : Z; MaxIdleConnsPerHost : Z; IdleConnTimeout : Duration; RequestTimeout : Duration;
  DisableCompression : bool; MaxResponseBodySize : Z; InsecureSkipVerify : bool
}.

Record TLSConfig := MkTLS { skipVerify : bool; minVersion : Z; serverName : string; cipherSuites : list Z }.
Record Transport := MkTransport { t_config : ConfigHTTPClient; t_tls : TLSConfig }.
(** An [http.Client]: a transport of its own, or the caller's. *)
Record Client := MkClient { clientTimeout : Duration; transport : Transport + option nat }.

Record HTTPClient := MkHTTPClient {
  hClient : option Client;
  header : gmap string string;
  clientRoundTripper : option nat;
  clientRoundTripperAdded : bool;
  fixedCipherRule : string
}.

Definition NewHTTPClient : HTTPClient := MkHTTPClient None ∅ None false "".

Definition GetURL (host url : string) : string :=
  if (host =? "")%string then url else (strings.TrimSuffix host "/" ++ "/" ++ url)%string.

Definition basicAuth (username password : string) : string :=
  base64.EncodeToString (bytes_of_string (username ++ ":" ++ password)%string).

Definition TLS12 : Z := 771.
Definition fixed_ciphers : list Z := [49199; 49200; 49195; 49196; 156; 157].

(** The idle connections that were closed, by the client they belong to. *)
Abbreviation log := (list Client).

Section client.
(** [url.Parse] with [Hostname]. *)
Context (hostname : string → option string) (config : ConfigHTTPClient).

Definition buildClient (h : HTTPClient) : Client :=
  let tls :=
    if negb (fixedCipherRule h =? "")%string then
      MkTLS true TLS12 (match hostname (fixedCipherRule h) with Some n => n | None => ""%string end) fixed_ciphers
    else MkTLS (InsecureSkipVerify config) 0 "" [] in
  MkClient (RequestTimeout config)
    (if clientRoundTripperAdded h then inr (clientRoundTripper h) else inl (MkTransport config tls)).

Definition drop_client (h : HTTPClient) (l : log) : log :=
  match hClient h with Some c => l ++ [c] | None => l end.

Definition SetTransport (h : HTTPClient) (l : log) (tr : option nat) : HTTPClient * log :=
  (MkHTTPClient None (header h) tr true (fixedCipherRule h), drop_client h l).

Definition SetFixedCipherRuleWithURL (h : HTTPClient) (l : log) (sUrl : string) : HTTPClient * log :=
  if negb (fixedCipherRule h =? sUrl)%string then
    (MkHTTPClient None (header h) (clientRoundTripper h) (clientRoundTripperAdded h) sUrl, drop_client h l)
  else (h, l).

(** [GetClient]: the first look under the read lock, then the second one
    under the write lock, see the same state unless it was filled between. *)
Definition GetClient (h : HTTPClient) : Client * HTTPClient :=
  match hClient h with
  | Some c => (c, h)
  | None =>
      let c := buildClient h in
      (c, MkHTTPClient (Some c) (header h) (clientRoundTripper h) (clientRoundTripperAdded h) (fixedCipherRule h))
  end.

Definition Close (h : HTTPClient) (l : log) : HTTPClient * log :=
  match hClient h with
  | Some _ =>
      (MkHTTPClient None (header h) (clientRoundTripper h) (clientRoundTripperAdded h) (fixedCipherRule h), drop_client h l)
  | None => (h, l)
  end.

Definition set_header (h : HTTPClient) (k v : string) : HTTPClient :=
  MkHTTPClient (hClient h) (<[k := v]> (header h)) (clientRoundTripper h) (clientRoundTripperAdded h) (fixedCipherRule h).

Definition AddHeader := set_header.
Definition AddBasicAuth (h : HTTPClient) (u p : string) : HTTPClient :=
  set_header h "Authorization" ("Basic " ++ basicAuth u p)%string.

(** ** Requests *)

Record AuthData := MkAuth { AuthType : string; User : string; Pass : string }.
Definition IsBasic (ad : AuthData) : bool := (AuthType ad =? "basic")%string && negb (User ad =? "")%string.

(** The body of a request: a string, or a value for the JSON encoder. *)
Inductive Body {V : Type} := BString (s : string) | BOther (v : V).

Record RequestDTS {V : Type} := MkRequestDTS {
  RequestUrl : string; RequestType : string; ReqBody : Body (V:=V); Auth : AuthData;
  Headers : list (string * string)          (* in the order of the iteration *)
}.

Record Request := MkRequest { Method : string; URL : string; ReqBytes : bytes; ReqHeader : http.Header }.

Context {V : Type} (Marshal : V → result bytes) (newRequestErr : string → string → option string).

(** [getReqBodyReader]: a body that does not encode is sent empty. *)
Definition getReqBodyReader (request : RequestDTS (V:=V)) : bytes :=
  match ReqBody request with
  | BString s => bytes_of_string s
  | BOther v => match Marshal v with Ok b => b | Err _ => [] end
  end.

Definition add_all (hd : http.Header) (l : list (string * string)) : http.Header :=
  fold_left (λ hd kv, http.Add hd kv.1 kv.2) l hd.

(** [own] is the order in which the client's headers are visited. *)
Definition newHTTPRequest (own : list (string * string)) (reqData : RequestDTS (V:=V)) : result Request :=
  let requestType := if (RequestType reqData =? "")%string then "GET"%string else RequestType reqData in
  match newRequestErr requestType (RequestUrl reqData) with
  | Some e => Err e
  | None =>
      let hd := add_all (add_all ∅ (Headers reqData)) own in
      let hd := if IsBasic (Auth reqData) then
                  http.Add hd "Authorization" ("Basic " ++ basicAuth (User (Auth reqData)) (Pass (Auth reqData)))%string
                else hd in
      Ok (MkRequest requestType (RequestUrl reqData) (getReqBodyReader reqData) hd)
  end.

(** ** Answers *)

(** A stream: the bytes it gives before it ends, and the error it ends with. *)
Record stream := MkStream { content : bytes; ends : option string }.

(** [io.ReadAll], over [io.LimitReader] when there is a limit: a limit that
    is reached looks like the end. *)
Definition readResponseBody (s : stream) : result bytes :=
  let max := MaxResponseBodySize config in
  if (0 <? max) && (max <=? Z.of_nat (length (content s))) then Ok (take (Z.to_nat max) (content s))
  else match ends s with None => Ok (content s) | Some e => Err e end.

Record Response := MkResponse {
  StatusCode : Z; Status : string; RespHeader : http.Header;
  RespBody : option stream                        (* nil when there is none *)
}.

(** What is released at the end of the request. *)
Inductive release := CloseBody | CloseGzip.

(** [newResponseBodyReader]: the stream to read, and what [Close] releases.
    [gunzip] is [gzip.NewReader], whose [Close] leaves the body open. *)
Definition newResponseBodyReader (gunzip : stream → result stream) (resp : Response) (body : stream) :
    result (stream * release) :=
  if (http.Get (RespHeader resp) "Content-Encoding" =? "gzip")%string then
    let? gz := gunzip body in Ok (gz, CloseGzip)
  else Ok (body, CloseBody).

Record ResponseBytesDTS := MkResponseBytes {
  bStatusCode : Z; bStatus : string; bBody : bytes; bHeader : option http.Header
}.
Definition emptyResponse : ResponseBytesDTS := MkResponseBytes 0 "" [] None.

Definition copyResponseHeaders (hd : http.Header) : option http.Header :=
  if bool_decide (hd = ∅) then None else Some hd.

Definition DORequestBytes (gunzip : stream → result stream) (do_ : Request → result Response)
    (own : list (string * string)) (reqData : RequestDTS (V:=V)) : ResponseBytesDTS * option string * list release :=
  match newHTTPRequest own reqData with
  | Err e => (emptyResponse, Some e, [])
  | Ok req =>
      match do_ req with
      | Err e => (emptyResponse, Some e, [])
      | Ok resp =>
          let r0 := MkResponseBytes (StatusCode resp) (Status resp) [] None in
          let done b rel := (MkResponseBytes (StatusCode resp) (Status resp) b (copyResponseHeaders (RespHeader resp)), None, rel) in
          match RespBody resp with
          | None => done [] []
          | Some body =>
              match newResponseBodyReader gunzip resp body with
              | Err e => (r0, Some e, [CloseBody])
              | Ok (reader, rel) =>
                  match readResponseBody reader with
                  | Err e => (r0, Some e, [rel])
                  | Ok b => done b [rel]
                  end
              end
          end
      end
  end.

Record ResponseDTS := MkResponseDTS {
  sStatusCode : Z; sStatus : string; sBody : string; sHeader : option http.Header
}.
Definition emptyResponseDTS : ResponseDTS := MkResponseDTS 0 "" "" None.

(** [DORequest] is the same code with a string for a body. *)
Definition DORequest (gunzip : stream → result stream) (do_ : Request → result Response)
    (own : list (string * string)) (reqData : RequestDTS (V:=V)) :
    ResponseDTS * option string * list release :=
  let '(r, e, rel) := DORequestBytes gunzip do_ own reqData in
  (MkResponseDTS (bStatusCode r) (bStatus r) (string_of_bytes (bBody r)) (bHeader r), e, rel).

(** ** The cache *)

Inductive call := CSetTransport (tr : option nat) | CSetRule (s : string) | CGet | CClose | CAddHeader (k v : string).

Definition run_call (x : HTTPClient * log * list Client) (c : call) : HTTPClient * log * list Client :=
  let '(h, l, made) := x in
  match c with
  | CSetTransport tr => (SetTransport h l tr, made)
  | CSetRule s => (SetFixedCipherRuleWithURL h l s, made)
  | CGet =>
      let '(c, h') := GetClient h in
      (h', l, match hClient h with Some _ => made | None => made ++ [c] end)
  | CClose => (Close h l, made)
  | CAddHeader k v => (AddHeader h k v, l, made)
  end.

(** [made] are the clients built so far. *)
Definition run_calls (cs : list call) : HTTPClient * log * list Client :=
  fold_left run_call cs (NewHTTPClient, [], []).

Definition coherent (x : HTTPClient * log * list Client) : Prop :=
  let '(h, l, made) := x in
  (∀ c, hClient h = Some c → c = buildClient h) ∧
  made = l ++ match hClient h with Some c => [c] | None => [] end.

Lemma run_call_coherent x c : coherent x → coherent (run_call x c).
Proof.
  destruct x as [[h l] made]. intros [H1 ->].
  assert (Hdrop : l ++ match hClient h with Some c => [c] | None => [] end = drop_client h l ++ []).
  { unfold drop_client. destruct (hClient h); by rewrite ?app_nil_r. }
  destruct c as [tr|s| | |k v]; cbn [run_call].
  - split; [done|exact Hdrop].
  - unfold SetFixedCipherRuleWithURL. destruct (negb _); split; try done.
  - unfold GetClient. destruct (hClient h) as [c|] eqn:E; cbn; rewrite ?E, ?app_nil_r; split; try done;
      by intros c' [= <-].
  - unfold Close. destruct (hClient h) as [c|] eqn:E; [split; [done|exact Hdrop]|]. cbn. by rewrite E.
  - split; [|done]. intros c Hc. by rewrite (H1 c Hc).
Qed.

(** The shared client is rebuilt when it has to be and only then: after
    any calls the client handed out is the one the present settings build,
    and every client built before it had its idle connections closed once. *)
Theorem client_current cs :
  let '(h, l, made) := run_calls cs in
  (GetClient h).1 = buildClient h ∧
  (GetClient (GetClient h).2).1 = (GetClient h).1 ∧
  made = l ++ match hClient h with Some c => [c] | None => [] end.
Proof.
  assert (H : coherent (run_calls cs)).
  { unfold run_calls. assert (H0 : coherent (NewHTTPClient, [], [])) by done. revert H0.
    generalize (NewHTTPClient, @nil Client, @nil Client). induction cs as [|c cs IH]; intros x Hx; [done|].
    apply IH, run_call_coherent, Hx. }
  destruct (run_calls cs) as [[h l] made]. destruct H as [H1 H2].
  assert (Hg : (GetClient h).1 = buildClient h) by (unfold GetClient; destruct (hClient h) as [c|] eqn:E; [by apply H1|done]).
  split; [done|]. split; [|done]. unfold GetClient. destruct (hClient h) as [c|] eqn:E; cbn; by rewrite ?E.
Qed.

(** ** What a request returns and releases *)

(** A successful request returns the status of the answer and its body,
    decompressed when the server says gzip, cut at the configured size; and
    the body of the answer is closed unless it was compressed. *)
Theorem DORequestBytes_ok gunzip do_ own reqData r rel :
  DORequestBytes gunzip do_ own reqData = (r, None, rel) →
  ∃ req resp, newHTTPRequest own reqData = Ok req ∧ do_ req = Ok resp ∧
    bStatusCode r = StatusCode resp ∧ bStatus r = Status resp ∧
    match RespBody resp with
    | None => bBody r = [] ∧ rel = []
    | Some body =>
        ∃ s, (if (http.Get (RespHeader resp) "Content-Encoding" =? "gzip")%string
              then gunzip body = Ok s ∧ rel = [CloseGzip] else s = body ∧ rel = [CloseBody]) ∧
          bBody r = (if 0 <? MaxResponseBodySize config
                     then take (Z.to_nat (MaxResponseBodySize config)) (content s) else content s) ∧
          (0 < MaxResponseBodySize config ≤ Z.of_nat (length (content s)) ∨ ends s = None)
    end.
Proof.
  unfold DORequestBytes. destruct (newHTTPRequest own reqData) as [req|e]; [|done].
  destruct (do_ req) as [resp|e] eqn:Edo; [|done].
  destruct (RespBody resp) as [body|] eqn:Eb.
  2: { intros [= <- <-]. exists req, resp. by rewrite Eb. }
  unfold newResponseBodyReader.
  assert (Hread : ∀ s b, readResponseBody s = Ok b →
    b = (if 0 <? MaxResponseBodySize config then take (Z.to_nat (MaxResponseBodySize config)) (content s) else content s) ∧
    (0 < MaxResponseBodySize config ≤ Z.of_nat (length (content s)) ∨ ends s = None)).
  { intros s b. unfold readResponseBody. destruct (0 <? MaxResponseBodySize config) eqn:E1; cbn [andb]; bool_to_prop.
    - destruct (_ <=? _) eqn:E2; bool_to_prop; [intros [= <-]; split; [done|left; lia]|].
      destruct (ends s); [done|]. intros [= <-]. split; [|by right]. rewrite take_ge; [done|lia].
    - destruct (ends s); [done|]. intros [= <-]. by split; [|right]. }
  destruct (_ =? "gzip")%string eqn:Egz; cbn [result_bind].
  - destruct (gunzip body) as [gz|e] eqn:Eg; cbn [result_bind]; [|done].
    destruct (readResponseBody gz) as [b|e] eqn:Er; [|done]. intros [= <- <-].
    exists req, resp. rewrite Eb, Egz. do 4 (split; [done|]). exists gz. split; [done|]. by apply Hread.
  - destruct (readResponseBody body) as [b|e] eqn:Er; [|done]. intros [= <- <-].
    exists req, resp. rewrite Eb, Egz. do 4 (split; [done|]). exists body. split; [done|]. by apply Hread.
Qed.

(** A client header and the credentials of a request are both sent. *)
Lemma two_authorizations reqData u p :
  RequestType reqData = "GET"%string → (∀ m r, newRequestErr m r = None) → Headers reqData = [] →
  IsBasic (Auth reqData) = true →
  ∃ req, newHTTPRequest [("Authorization", "Basic " ++ basicAuth u p)]%string reqData = Ok req ∧
    ReqHeader req !! "Authorization"%string =
      Some ["Basic " ++ basicAuth u p; "Basic " ++ basicAuth (User (Auth reqData)) (Pass (Auth reqData))]%string.
Proof.
  intros Ht He Hh Hb. unfold newHTTPRequest. rewrite Ht, He, Hh, Hb. eexists. split; [done|].
  cbn [ReqHeader]. reflexivity.
Qed.

End client.

(** ** Concrete runs *)

Definition config0 : ConfigHTTPClient := MkConfig 10 10 (30 * Second) Minute false 4 false.
Definition request0 : RequestDTS (V:=unit) :=
  MkRequestDTS unit "http://host/x" "" (BString "") (MkAuth "basic" "admin" "x:y") [("accept", "text/plain")]%string.

Lemma cache_example :
  (run_calls (λ _, Some "host"%string) config0 [CGet; CSetRule "https://host"; CGet; CClose; CGet]).1.2 =
    [buildClient (λ _, Some "host"%string) config0 NewHTTPClient;
     buildClient (λ _, Some "host"%string) config0 (MkHTTPClient None ∅ None false "https://host")].
Proof. vm_compute. reflexivity. Qed.


Definition gzipped : Response :=
  MkResponse 200 "200 OK" (http.Add ∅ "content-encoding" "gzip") (Some (MkStream [1; 2; 3; 4; 5] None)).
Definition answer0 : ResponseBytesDTS * option string * list release :=
  DORequestBytes config0 (λ _, Ok []) (λ _ _, None) (λ s, Ok s) (λ _, Ok gzipped) [] request0.

(** A body longer than the limit is cut without an error, and the body of a
    compressed answer stays open. *)
Lemma DORequestBytes_ok_witness : answer0 = (answer0.1.1, None, [CloseGzip]) ∧ bBody answer0.1.1 = [1; 2; 3; 4].
Proof.
  assert (E : answer0 = (answer0.1.1, None, [CloseGzip])) by (vm_compute; reflexivity). split; [exact E|].
  destruct (DORequestBytes_ok config0 (λ _, Ok []) (λ _ _, None) (λ s, Ok s) (λ _, Ok gzipped) [] request0 _ _ E)
    as (req & resp & _ & [= <-] & _ & _ & H).
  cbn [RespBody gzipped] in H. destruct H as (s & Hs & Hb & _). rewrite Hb.
  change (http.Get (RespHeader gzipped) "Content-Encoding" =? "gzip")%string with true in Hs.
  destruct Hs as [[= <-] _]. reflexivity.
Defined.

(** ** web/ClientDTS.go: the text of an answer *)

(** A map is written in the order of its keys. *)
Definition key_le (a b : string * list string) : Prop := String.leb a.1 b.1 = true.
#[global] Instance key_le_dec : RelDecision key_le.
Proof. intros a b. unfold key_le. apply _. Defined.

Definition header_value (h : option http.Header) : json.value :=
  match h with
  | None => json.Null
  | Some m =>
      json.Object ((λ kv : string * list string,
                      (bytes_of_string kv.1, json.Array ((λ s, json.Str (bytes_of_string s)) <$> kv.2)))
                   <$> merge_sort key_le (map_to_list m))
  end.

Definition response_value (resp : ResponseDTS) : json.value :=
  json.Object
    [(bytes_of_string "StatusCode", json.Int (sStatusCode resp));
     (bytes_of_string "Status", json.Str (bytes_of_string (sStatus resp)));
     (bytes_of_string "Body", json.Str (bytes_of_string (sBody resp)));
     (bytes_of_string "Header", header_value (sHeader resp))].

Definition String_ (resp : ResponseDTS) : bytes := json.Marshal (response_value resp).

Lemma header_value_ok h : json.wf (header_value h) ∧ json.height (header_value h) ≤ 2.
Proof.
  destruct h as [m|]; [|done]. unfold header_value. generalize (merge_sort key_le (map_to_list m)).
  intros l. split.
  - apply json.wf_Object, Forall_fmap, Forall_true. intros [k vs]. split; [apply bytes_of_string_wf|].
    apply json.wf_Array, Forall_fmap, Forall_true. intros s. apply bytes_of_string_wf.
  - apply (json.height_Object 1); [done|]. apply Forall_fmap, Forall_true. intros [k vs].
    apply (json.height_Array 0); [done|]. by apply Forall_fmap, Forall_true.
Qed.

(** The text of an answer is JSON that says what the answer says, whatever
    bytes its body and its headers hold: only bytes that are not UTF-8 are
    replaced. *)
Theorem response_text_reads resp : json.Parse (String_ resp) = Some (json.clean (response_value resp)).
Proof.
  destruct (header_value_ok (sHeader resp)) as [Hw Hh]. apply json.Parse_Marshal.
  - unfold response_value. cbn [json.wf List.fold_right fst snd]. split_and!; try done; try apply json.Int_wf; apply bytes_of_string_wf.
  - etrans; [apply (json.height_Object 2); [done|]|done]. by repeat constructor.
Qed.

Example text_ex :
  String_ (MkResponseDTS 200 "200 OK" "<b>" (Some (<["B" := ["2"]]> {["A" := ["1"; "3"]]}))) =
  json.text "{'StatusCode':200,'Status':'200 OK','Body':'\u003cb\u003e','Header':{'A':['1','3'],'B':['2']}}".
Proof. vm_compute. reflexivity. Qed.
End HttpClient.
