(* ===== verification/WebClients.v ===== *)
(** * The fasthttp client and the logging transport
    (web/fasthttp/client, web/std/client/middleware/log)

    [FastHttp]: the request built from a [RequestDTS] and the answer read,
    compared with those of HttpClient.v.  [LogTransport]: what the transport
    that wraps another one logs of a request and its answer. *)

From S2P Require Import Prelude GoBytes GoStrconv HttpClient.

Module FastHttp.
Import HttpClient.

(** The settings of the client below; the connections it may dial at once
    are fixed. *)
Record ConfigFastHttpClient := MkConfigFast {
  fRequestTimeout : Duration; fReadTimeout : Duration; fWriteTimeout : Duration; fIdleConnTimeout : Duration;
  fDNSTimeout : Duration; fMaxResponseBodySize : Z
}.
Record fasthttp_Client := MkFastClient {
  ReadTimeout : Duration; WriteTimeout : Duration; MaxIdleConnDuration : Duration; MaxResponseBodySize : Z;
  NoDefaultUserAgentHeader : bool; DisableHeaderNamesNormalizing : bool; DisablePathNormalizing : bool;
  Concurrency : Z; DNSCacheDuration : Duration
}.
Definition NewFastHttpClient (config : ConfigFastHttpClient) : ConfigFastHttpClient * fasthttp_Client :=
  (config, MkFastClient (fReadTimeout config) (fWriteTimeout config) (fIdleConnTimeout config) (fMaxResponseBodySize config)
             true true true 4096 (fDNSTimeout config)).

(** The body of a request, which may be nil here: [BOther] with [None]. *)
Section client.
Context {V : Type} (Marshal : option V → result bytes).

Definition getReqBodyReader (request : RequestDTS (V:=option V)) : result bytes :=
  match ReqBody request with
  | BOther None => Ok []
  | BString s => Ok (bytes_of_string s)
  | BOther v => Marshal v
  end.

Record FastRequest := MkFastRequest { fMethod : string; fURI : string; fContentType : option string; fBody : bytes }.

Definition newRequest (reqData : RequestDTS (V:=option V)) : result FastRequest :=
  let? b := getReqBodyReader reqData in
  let requestType := if (RequestType reqData =? "")%string then "GET"%string else RequestType reqData in
  Ok (MkFastRequest requestType (RequestUrl reqData)
        (if (0 <? Z.of_nat (length b)) then Some "application/json"%string else None) b).

(** An answer of fasthttp: status, message, body and headers in order. *)
Record FastResponse := MkFastResponse { fStatusCode : Z; fStatusMessage : string; fRespBody : bytes; fHeaders : list (string * string) }.

(** [headers[string(key)] = append(headers[string(key)], string(value))] *)
Definition copyResponseHeaders (h : list (string * string)) : option (gmap string (list string)) :=
  match h with
  | [] => None
  | _ => Some (fold_left (λ m kv, <[kv.1 := default [] (m !! kv.1) ++ [kv.2]]> m) h ∅)
  end.

Definition DORequest (do_ : FastRequest → result FastResponse) (reqData : RequestDTS (V:=option V)) : ResponseDTS * option string :=
  match newRequest reqData with
  | Err e => (emptyResponseDTS, Some e)
  | Ok req =>
      match do_ req with
      | Err e => (emptyResponseDTS, Some e)
      | Ok resp =>
          (MkResponseDTS (fStatusCode resp) (strconv.Itoa (fStatusCode resp) ++ " " ++ fStatusMessage resp)%string
             (string_of_bytes (fRespBody resp)) (copyResponseHeaders (fHeaders resp)), None)
      end
  end.

(** The two clients of the library send the same request, method,
    address and body, when the body is text or a value that encodes; they
    differ on a nil body, which net/http's sends as the text the encoder
    makes of it, and on a value that does not encode, which it sends empty;
    and this one sends neither the headers nor the credentials it is given. *)
Theorem clients_agree newRequestErr own (reqData : RequestDTS (V:=option V)) req freq :
  newHTTPRequest Marshal newRequestErr own reqData = Ok req → newRequest reqData = Ok freq →
  fMethod freq = Method req ∧ fURI freq = URL req ∧
  (ReqBody reqData ≠ BOther None → fBody freq = ReqBytes req) ∧
  (ReqBody reqData = BOther None → fBody freq = [] ∧ ∀ b, Marshal None = Ok b → ReqBytes req = b) ∧
  (∀ headers auth, newRequest (MkRequestDTS _ (RequestUrl reqData) (RequestType reqData) (ReqBody reqData) auth headers) = Ok freq).
Proof.
  unfold newHTTPRequest, newRequest, getReqBodyReader, HttpClient.getReqBodyReader.
  destruct (newRequestErr _ _); [done|]. intros [= <-]. destruct (ReqBody reqData) as [s|[v|]] eqn:E; cbn [result_bind].
  - intros [= <-]. cbn. split_and!; try done. 
  - destruct (Marshal (Some v)) as [b|e] eqn:Em; cbn; [|done]. intros [= <-]. cbn. rewrite ?Em. by split_and!.
  - intros [= <-]. cbn. split_and!; try done. intros _. split; [done|]. intros b Hb. by rewrite Hb.
Qed.
End client.

Lemma clients_agree_witness :
  let marshal (v : option unit) := Ok (bytes_of_string "null") in
  let r := MkRequestDTS (option unit) "http://host/x" "" (BOther None) (MkAuth "basic" "u" "p") [] in
  ∃ req freq, newHTTPRequest marshal (λ _ _, None) [] r = Ok req ∧ newRequest marshal r = Ok freq ∧
    fBody freq = [] ∧ ReqBytes req = bytes_of_string "null" ∧ fMethod freq = Method req.
Proof.
  cbv zeta. eexists. eexists. split; [reflexivity|]. split; [reflexivity|].
  destruct (clients_agree (λ _ : option unit, Ok (bytes_of_string "null")) (λ _ _, None) []
    (MkRequestDTS (option unit) "http://host/x" "" (BOther None) (MkAuth "basic" "u" "p") []) _ _ eq_refl eq_refl) as (H1 & _ & _ & H2 & _).
  destruct (H2 eq_refl) as [H3 H4]. split; [exact H3|]. split; [exact (H4 _ eq_refl)|exact H1].
Defined.
End FastHttp.

(** ** The logging transport *)

Module LogTransport.

(** [strings.EqualFold] of a key and an ASCII name: outside ASCII only the
    long s (U+017F) and the Kelvin sign (U+212A) fold to ASCII letters. *)
Fixpoint fold (s : string) : string :=
  match s with
  | EmptyString => EmptyString
  | String a (String b (String c s3 as s2) as s1) =>
      if (byte_of_ascii a =? 0xC5) && (byte_of_ascii b =? 0xBF) then String "s" (fold s2)
      else if (byte_of_ascii a =? 0xE2) && (byte_of_ascii b =? 0x84) && (byte_of_ascii c =? 0xAA) then String "k" (fold s3)
      else String (strings.lower_ascii a) (fold s1)
  | String a (String b s2 as s1) =>
      if (byte_of_ascii a =? 0xC5) && (byte_of_ascii b =? 0xBF) then String "s" (fold s2)
      else String (strings.lower_ascii a) (fold s1)
  | String a s1 => String (strings.lower_ascii a) (fold s1)
  end.

Definition EqualFold (k name : string) : bool := (fold k =? fold name)%string.

Definition sensitive (k : string) : bool :=
  EqualFold k "Authorization" || EqualFold k "Proxy-Authorization" || EqualFold k "Set-Cookie".

Definition maskSensitiveHeaders (h : gmap string (list string)) : gmap string (list string) :=
  map_imap (λ k v, Some (if sensitive k then ["***"%string] else v)) h.

Record Request := MkRequest { Method : string; URL : string; Header : gmap string (list string); ContentLength : option Z }.
Record Response := MkResponse { StatusCode : Z; Status : string; RespHeader : gmap string (list string) }.

Inductive entry :=
| LRequest (method url : string) | LHeader (h : gmap string (list string)) | LBody (size : Z)
| LError (e : string) | LResponse (code : Z) (status : string) (d : Duration) | LRespHeader (h : gmap string (list string)).

(** [RoundTrip]: the answer of the next transport, and what is logged when
    the debug level is on. *)
Definition RoundTrip (debug : bool) (rt : Request → result Response) (req : Request) (duration : Duration) :
    result Response * list entry :=
  if negb debug then (rt req, [])
  else
    let before := [LRequest (Method req) (URL req); LHeader (maskSensitiveHeaders (Header req))] ++
                  match ContentLength req with Some n => [LBody n] | None => [] end in
    match rt req with
    | Err e => (Err e, before ++ [LError e])
    | Ok resp =>
        (Ok resp, before ++ [LResponse (StatusCode resp) (Status resp) duration; LRespHeader (maskSensitiveHeaders (RespHeader resp))])
    end.

(** Two sets of headers that differ in the values of sensitive ones only. *)
Definition same_but_secrets (h1 h2 : gmap string (list string)) : Prop :=
  ∀ k, if sensitive k then is_Some (h1 !! k) ↔ is_Some (h2 !! k) else h1 !! k = h2 !! k.

Lemma mask_same h1 h2 : same_but_secrets h1 h2 → maskSensitiveHeaders h1 = maskSensitiveHeaders h2.
Proof.
  intros Hs. apply map_eq. intros k. unfold maskSensitiveHeaders. rewrite !map_lookup_imap. specialize (Hs k).
  destruct (sensitive k) eqn:E; [|by rewrite Hs].
  destruct (h1 !! k), (h2 !! k); cbn; rewrite ?E; try done; exfalso.
  - by destruct (proj1 Hs (mk_is_Some _ _ eq_refl)).
  - by destruct (proj2 Hs (mk_is_Some _ _ eq_refl)).
Qed.

(** The logging transport changes nothing to the request or to the
    answer, and what it logs does not depend on the values of the
    Authorization, Proxy-Authorization and Set-Cookie headers. *)
Theorem secrets_not_logged debug rt rt' m u h1 h2 n d resp resp' :
  same_but_secrets h1 h2 →
  rt (MkRequest m u h1 n) = Ok resp → rt' (MkRequest m u h2 n) = Ok resp' →
  StatusCode resp = StatusCode resp' → Status resp = Status resp' → same_but_secrets (RespHeader resp) (RespHeader resp') →
  (RoundTrip debug rt (MkRequest m u h1 n) d).1 = rt (MkRequest m u h1 n) ∧
  (RoundTrip debug rt (MkRequest m u h1 n) d).2 = (RoundTrip debug rt' (MkRequest m u h2 n) d).2.
Proof.
  intros Hh Hr Hr' Hc Hst Hrh. unfold RoundTrip. destruct debug; cbn [negb]; [|done]. rewrite Hr, Hr'.
  split; [done|]. cbn. by rewrite (mask_same _ _ Hh), Hc, Hst, (mask_same _ _ Hrh).
Qed.

Lemma secrets_not_logged_witness :
  let r (tok : string) := MkRequest "GET" "http://host/" (<["authorization"%string := [tok]]> ∅) None in
  let a (_ : Request) := Ok (MkResponse 200 "200 OK" ∅) in
  (RoundTrip true a (r "Bearer 1") 5).2 = (RoundTrip true a (r "Bearer 2") 5).2.
Proof.
  cbv zeta. refine (proj2 (secrets_not_logged true _ _ _ _ _ _ _ _ (MkResponse 200 "200 OK" ∅) (MkResponse 200 "200 OK" ∅) _ eq_refl eq_refl eq_refl eq_refl _)).
  - intros k. destruct (decide (k = "authorization"%string)) as [->|Hne].
    + change (sensitive "authorization") with true. cbv beta iota. rewrite !lookup_insert_eq. split; intros _; eexists; reflexivity.
    + rewrite !lookup_insert_ne by (intros Hk; apply Hne; symmetry; exact Hk). destruct (sensitive k); [split; intros H; exact H|reflexivity].
  - intros k. destruct (sensitive k); [split; intros H; exact H|reflexivity].
Defined.

(** The cookies of the request are logged as they are. *)
Lemma cookies_logged : sensitive "Cookie" = false.
Proof. reflexivity. Qed.
End LogTransport.
