(* ===== verification/GinWeb.v ===== *)
(** * The gin web server (web/gin/ginWeb.go)

    [NewGinWeb] chooses the mode and the middlewares; [Start] runs, once,
    the goroutine that listens and the one that waits for the end of the
    context; [Stop] shuts the server down.  [net/http]'s server is modelled
    as far as these three see it: the flag [inShutdown], the listeners it
    tracks, and the sections of [Serve] and [Shutdown] between two points
    where other goroutines can run. *)

From S2P Require Import Prelude GoBytes.

Module GinWeb.

Record ConfigGinWeb := MkConfig {
  Port : Z; StartMode : string; UseLogger : bool; Static : string;
  Fail2BanDisabled : bool; RequestLog : bool
}.

Definition DebugMode : string := "debug".
Definition TestMode : string := "test".
Definition ReleaseMode : string := "release".

(** The mode given to [gin.SetMode]. *)
Definition start_mode (config : ConfigGinWeb) : string :=
  let startModeName := strings.ToLower (StartMode config) in
  if negb (startModeName =? DebugMode)%string && negb (startModeName =? TestMode)%string && negb (startModeName =? ReleaseMode)%string
  then DebugMode else startModeName.

Inductive middleware := MRecovery | MLogger | MRequestLog | MFail2Ban.

(** The middlewares in the order of their [Use], and the folder served. *)
Definition middlewares (config : ConfigGinWeb) : list middleware :=
  [MRecovery] ++ (if UseLogger config then [MLogger] else []) ++
  (if RequestLog config then [MRequestLog] else []) ++ (if Fail2BanDisabled config then [] else [MFail2Ban]).
Definition static_dir (config : ConfigGinWeb) : option string :=
  if negb (Static config =? "")%string then Some (Static config) else None.

(** [NewGinWeb]: what the engine is given. *)
Record engine := MkEngine { mode : string; uses : list middleware; static : option string }.
Definition NewGinWeb (config : ConfigGinWeb) : engine :=
  MkEngine (start_mode config) (middlewares config) (static_dir config).

(** The log of the server's errors: what one write makes of them, and the
    answer to the writer. *)
Definition serverErrorLogWriter_Write (p : bytes) : (string * bytes) * (Z * option string) :=
  (("Gin: "%string, p), (Z.of_nat (length p), None)).

(** ** The server *)

(** Where the goroutine that serves is: [ListenAndServe] tests the flag,
    listens, tracks the listener, accepts, untracks and closes it.  The
    boolean tells whether the error is logged. *)
Inductive spc :=
| SNone | SBegin | SListen | STrack (fd : nat) | SAccept (fd : nat)
| SUntrack (fd : nat) (log : bool) | SClose (fd : nat) (log : bool) | SEnd (log : bool).

#[global] Instance spc_eq_dec : EqDecision spc.
Proof. solve_decision. Defined.

(** Where a call of [Shutdown] is: it sets the flag, closes the tracked
    listeners, waits until none is tracked, then for the connections. *)
Inductive hpc := HSet | HClose | HGroup | HIdle | HRet.

Record web := MkWeb {
  srv : bool;                    (* gw.srv is set, startOnce is done *)
  waiting : bool;                (* the goroutine that waits for ctx *)
  inShutdown : bool;
  listeners : gset nat;          (* tracked by the server *)
  open : gset nat;               (* listening sockets that are open *)
  next : nat;
  accepted : nat;                (* connections accepted so far *)
  serve : spc;
  shut : list hpc                (* the calls of Shutdown *)
}.

Definition set_serve (s : web) l o n a p := MkWeb (srv s) (waiting s) (inShutdown s) l o n a p (shut s).
Definition at_pc (s : web) p := set_serve s (listeners s) (open s) (next s) (accepted s) p.
Definition set_shut (s : web) w i o h := MkWeb (srv s) w i (listeners s) o (next s) (accepted s) (serve s) h.

(** [Start]; it returns nil whatever happens. *)
Definition Start (s : web) : web :=
  if srv s then s
  else MkWeb true true (inShutdown s) (listeners s) (open s) (next s) (accepted s) SBegin (shut s).

(** [Stop]: a call of [Shutdown] begins, unless nothing was started. *)
Definition Stop (s : web) : web :=
  if srv s then set_shut s (waiting s) (inShutdown s) (open s) (shut s ++ [HSet]) else s.

(** The context ends: the waiting goroutine calls [Shutdown]. *)
Definition Cancel (s : web) : web :=
  if waiting s then set_shut s false (inShutdown s) (open s) (shut s ++ [HSet]) else s.

(** One step of the goroutine that serves; [good]: the system call succeeds. *)
Definition serve_step (good : bool) (s : web) : web :=
  match serve s with
  | SBegin => at_pc s (if inShutdown s then SEnd false else SListen)
  | SListen =>
      if good then set_serve s (listeners s) ({[next s]} ∪ open s) (S (next s)) (accepted s) (STrack (next s))
      else at_pc s (SEnd true)
  | STrack fd =>
      if inShutdown s then at_pc s (SClose fd false)
      else set_serve s ({[fd]} ∪ listeners s) (open s) (next s) (accepted s) (SAccept fd)
  | SAccept fd =>
      if bool_decide (fd ∈ open s) then
        if good then set_serve s (listeners s) (open s) (next s) (S (accepted s)) (SAccept fd)
        else at_pc s (SUntrack fd (negb (inShutdown s)))
      else at_pc s (SUntrack fd (negb (inShutdown s)))
  | SUntrack fd log => set_serve s (listeners s ∖ {[fd]}) (open s) (next s) (accepted s) (SClose fd log)
  | SClose fd log => set_serve s (listeners s) (open s ∖ {[fd]}) (next s) (accepted s) (SEnd log)
  | SNone | SEnd _ => s
  end.

Definition shut_step (i : nat) (s : web) : web :=
  match shut s !! i with
  | Some HSet => set_shut s (waiting s) true (open s) (<[i:=HClose]> (shut s))
  | Some HClose => set_shut s (waiting s) (inShutdown s) (open s ∖ listeners s) (<[i:=HGroup]> (shut s))
  | Some HGroup =>
      if bool_decide (listeners s = ∅) then set_shut s (waiting s) (inShutdown s) (open s) (<[i:=HIdle]> (shut s)) else s
  | Some HIdle => set_shut s (waiting s) (inShutdown s) (open s) (<[i:=HRet]> (shut s))
  | Some HRet | None => s
  end.

Inductive action := AStart | AStop | ACancel | AServe (good : bool) | AShut (i : nat).

Definition exec (s : web) (a : action) : web :=
  match a with
  | AStart => Start s
  | AStop => Stop s
  | ACancel => Cancel s
  | AServe good => serve_step good s
  | AShut i => shut_step i s
  end.

Definition web0 : web := MkWeb false false false ∅ ∅ 0 0 SNone [].
Definition run (l : list action) (s : web) : web := fold_left exec l s.

(** ** What every run keeps *)

(** A call of [Shutdown] is past the closing of the listeners. *)
Definition past_close (p : hpc) : bool := match p with HGroup | HIdle | HRet => true | _ => false end.
Definition closing (s : web) : Prop := ∃ p, p ∈ shut s ∧ past_close p = true.

(** The socket the serving goroutine holds, and the listener it has tracked. *)
Definition socket (p : spc) : gset nat :=
  match p with STrack fd | SAccept fd | SUntrack fd _ | SClose fd _ => {[fd]} | _ => ∅ end.
Definition tracked (p : spc) : gset nat :=
  match p with SAccept fd | SUntrack fd _ => {[fd]} | _ => ∅ end.

Record Inv (s : web) : Prop := MkInv {
  i_open : open s ⊆ socket (serve s);
  i_tracked : listeners s = tracked (serve s);
  i_srv : srv s = true ↔ serve s ≠ SNone;
  i_idle : srv s = false → waiting s = false ∧ shut s = [];
  i_flag : ∀ p, p ∈ shut s → p ≠ HSet → inShutdown s = true;
  i_closing : closing s → listeners s ## open s
}.

Lemma web0_Inv : Inv web0.
Proof. split; cbn; try set_solver; done. Qed.

Lemma closing_flag s : Inv s → closing s → inShutdown s = true.
Proof. intros HI (p & Hp & Hc). apply (i_flag _ HI p Hp). by intros ->. Qed.

Lemma closing_srv s : Inv s → closing s → srv s = true.
Proof.
  intros HI (p & Hp & _). destruct (srv s) eqn:E; [done|]. destruct (i_idle _ HI E) as [_ Hn].
  rewrite Hn in Hp. by apply not_elem_of_nil in Hp.
Qed.

Lemma call_Inv s w : Inv s → srv s = true → Inv (set_shut s w (inShutdown s) (open s) (shut s ++ [HSet])).
Proof.
  intros [Ho Ht Hs Hi Hf Hc] Hsrv. split; cbn; try done.
  - congruence.
  - intros p [Hp| ->%list_elem_of_singleton]%elem_of_app; [by apply Hf|done].
  - intros (p & [Hp| ->%list_elem_of_singleton]%elem_of_app & Hpc); [|done]. apply Hc. by exists p.
Qed.

Lemma web_Start_Inv s : Inv s → Inv (Start s).
Proof.
  intros HI. unfold Start. destruct (srv s) eqn:E; [done|]. destruct HI as [Ho Ht Hs Hi Hf Hc].
  assert (serve s = SNone) as Hn by (destruct (decide (serve s = SNone)) as [|Hne]; [done|]; apply Hs in Hne; congruence).
  rewrite Hn in *. destruct (Hi E) as [_ Hsh]. split; cbn; try done.
Qed.

(** The part of the invariant a step of the serving goroutine touches. *)
Lemma serve_Inv s l o n a p : Inv s → serve s ≠ SNone → p ≠ SNone → o ⊆ socket p → l = tracked p →
  (closing s → l ## o) → Inv (set_serve s l o n a p).
Proof. intros [Ho Ht Hs Hi Hf Hc] Hn Hp Ho' Hl Hc'. split; cbn; try done. rewrite Hs. split; done. Qed.

Lemma serve_step_Inv good s : Inv s → Inv (serve_step good s).
Proof.
  intros HI. pose proof (i_open _ HI) as Ho. pose proof (i_tracked _ HI) as Ht. pose proof (i_closing _ HI) as Hc.
  pose proof (closing_flag _ HI) as Hf.
  unfold serve_step, at_pc. destruct (serve s) as [| |fd|fd|fd|fd log|fd log|] eqn:Ep; cbn in Ho, Ht; try done.
  all: repeat case_match; apply serve_Inv; try done; try congruence; cbn; try set_solver.
Qed.

Lemma shut_step_Inv i s : Inv s → Inv (shut_step i s).
Proof.
  intros HI. destruct HI as [Ho Ht Hs Hi Hf Hc]. unfold shut_step.
  destruct (shut s !! i) as [p|] eqn:Ei; [|done].
  assert (p ∈ shut s) as Hp by by eapply list_elem_of_lookup_2.
  assert (Hns : shut s ≠ []) by (intros E; by rewrite E in Ei).
  assert (Hup : ∀ p', srv s = false → shut (set_shut s (waiting s) (inShutdown s) (open s) (<[i:=p']> (shut s))) = []).
  { intros p' Hsrv. by destruct (Hi Hsrv). }
  assert (Hin : ∀ q p', q ∈ <[i:=p']> (shut s) → q = p' ∨ q ∈ shut s).
  { intros q p' [j Hj]%list_elem_of_lookup. apply list_lookup_insert_Some in Hj as [(_ & <- & _)|[_ Hj]]; [by left|].
    right. by eapply list_elem_of_lookup_2. }
  destruct p; cbn; try done.
  - split; cbn; try done; [intros Hsrv; by destruct (Hi Hsrv)|].
    intros (q & Hq & Hcl). destruct (Hin _ _ Hq) as [->|Hq']; [done|]. apply Hc. by exists q.
  - assert (inShutdown s = true) by by apply (Hf HClose).
    split; cbn; try done; [set_solver|intros Hsrv; by destruct (Hi Hsrv)|set_solver].
  - assert (inShutdown s = true) by by apply (Hf HGroup). case_bool_decide; [|done].
    split; cbn; try done; [intros Hsrv; by destruct (Hi Hsrv)|set_solver].
  - assert (inShutdown s = true) by by apply (Hf HIdle).
    split; cbn; try done; [intros Hsrv; by destruct (Hi Hsrv)|]. intros _. apply Hc. by exists HIdle.
Qed.

Lemma exec_Inv a s : Inv s → Inv (exec s a).
Proof.
  intros HI. destruct a; cbn.
  - by apply web_Start_Inv.
  - unfold Stop. destruct (srv s) eqn:E; [by apply call_Inv|done].
  - unfold Cancel. destruct (waiting s) eqn:E; [|done]. apply call_Inv; [done|].
    destruct (srv s) eqn:Es; [done|]. destruct (i_idle _ HI Es). congruence.
  - by apply serve_step_Inv.
  - by apply shut_step_Inv.
Qed.

Lemma web_run_Inv l s : Inv s → Inv (run l s).
Proof. revert s. induction l as [|a l IH]; intros s HI; [done|]. apply IH, exec_Inv, HI. Qed.

(** ** After a shutdown *)

(** Steps the serving goroutine has left at most once the listeners were
    closed. *)
Definition left_ (p : spc) : nat :=
  match p with SListen | SAccept _ => 3 | STrack _ | SUntrack _ _ => 2 | SBegin | SClose _ _ => 1 | SNone | SEnd _ => 0 end.
Definition is_serve (a : action) : bool := match a with AServe _ => true | _ => false end.
Definition serve_steps (l : list action) : nat := length (filter (λ a, is_serve a = true) l).

Lemma closing_exec s a : Inv s → closing s → closing (exec s a).
Proof.
  intros HI Hc. pose proof (closing_srv _ HI Hc) as Hsrv. destruct Hc as (p & Hp & Hpc). destruct a; cbn.
  - unfold Start. rewrite Hsrv. by exists p.
  - unfold Stop. rewrite Hsrv. exists p. cbn. split; [|done]. apply elem_of_app. by left.
  - unfold Cancel. destruct (waiting s); [|by exists p]. exists p. cbn. split; [|done]. apply elem_of_app. by left.
  - exists p. split; [|done]. unfold serve_step, at_pc, set_serve. repeat case_match; done.
  - apply list_elem_of_lookup in Hp as [j Hj]. unfold shut_step. destruct (shut s !! i) as [q|] eqn:Ei; [|exists p; split; [by eapply list_elem_of_lookup_2|done]].
    destruct (decide (i = j)) as [->|Hne].
    + assert (q = p) as -> by congruence. pose proof (lookup_lt_Some _ _ _ Hj).
      assert (∀ q', past_close q' = true → ∃ r, r ∈ <[j:=q']> (shut s) ∧ past_close r = true) as Hw.
      { intros q' Hq'. exists q'. split; [|done]. apply (list_elem_of_lookup_2 _ j). by apply list_lookup_insert_eq. }
      destruct p; try done; [case_bool_decide|..]; try (by apply Hw); exists HGroup + exists HRet; (split; [by eapply list_elem_of_lookup_2|done]).
    + assert (∀ q', ∃ r, r ∈ <[i:=q']> (shut s) ∧ past_close r = true) as Hw.
      { intros q'. exists p. split; [|done]. apply (list_elem_of_lookup_2 _ j). by rewrite list_lookup_insert_ne. }
      destruct q; try apply Hw; [case_bool_decide; [apply Hw|]|]; exists p; (split; [by eapply list_elem_of_lookup_2|done]).
Qed.

(** One step of anything after the listeners were closed. *)
Lemma closing_step s a : Inv s → closing s →
  accepted (exec s a) = accepted s ∧
  (left_ (serve (exec s a)) ≤ left_ (serve s) - if is_serve a then 1 else 0)%nat.
Proof.
  intros HI Hc. pose proof (closing_srv _ HI Hc) as Hsrv. destruct a; cbn.
  - unfold Start. rewrite Hsrv. split; [done|lia].
  - unfold Stop. rewrite Hsrv. cbn. split; [done|lia].
  - unfold Cancel. destruct (waiting s); cbn; split; done || lia.
  - pose proof (i_closing _ HI Hc) as Hd. rewrite (i_tracked _ HI) in Hd. pose proof (closing_flag _ HI Hc) as Hf.
    unfold serve_step, at_pc. destruct (serve s) eqn:Ep; cbn in *; rewrite ?Hf; cbn; rewrite ?Ep; cbn; try (split; [done|lia]).
    + destruct good; cbn; split; done || lia.
    + rewrite bool_decide_false by set_solver. cbn. split; [done|lia].
  - unfold shut_step. repeat case_match; cbn; split; done || lia.
Qed.
Lemma closing_run l s : Inv s → closing s →
  accepted (run l s) = accepted s ∧ (left_ (serve (run l s)) ≤ left_ (serve s) - serve_steps l)%nat ∧ closing (run l s).
Proof.
  revert s. induction l as [|a l IH]; intros s HI Hc; [cbn; split_and!; [done|unfold serve_steps; cbn; lia|done]|].
  destruct (closing_step s a HI Hc) as [H1 H2].
  destruct (IH (exec s a) (exec_Inv _ _ HI) (closing_exec _ _ HI Hc)) as (H3 & H4 & H5).
  change (run (a :: l) s) with (run l (exec s a)). split_and!; [congruence| |done].
  unfold serve_steps in *. rewrite filter_cons. destruct (is_serve a); [rewrite decide_True by done|rewrite decide_False by done]; cbn [length]; lia.
Qed.

(** A shutdown that waits for the listeners returns once none is tracked. *)
Lemma waiter_returns s i : listeners s = ∅ → shut s !! i = Some HGroup →
  shut (run [AShut i; AShut i] s) !! i = Some HRet.
Proof.
  intros Hl Hi. pose proof (lookup_lt_Some _ _ _ Hi).
  assert (shut_step i s = set_shut s (waiting s) (inShutdown s) (open s) (<[i:=HIdle]> (shut s))) as E.
  { unfold shut_step. by rewrite Hi, bool_decide_true. }
  unfold run. cbn [fold_left exec]. rewrite E. unfold shut_step. cbn [shut set_shut].
  rewrite list_lookup_insert_eq by done. cbn [shut set_shut]. apply list_lookup_insert_eq. by rewrite length_insert.
Qed.

(** [C15] Once a shutdown has closed the listeners, by [Stop] or by the end of
    the context and under every interleaving, no connection is accepted any
    more, whatever is called afterwards, [Start] included; the goroutine that
    serves ends within three of its steps and leaves no socket open, and the
    shutdowns that wait for it return. *)
Theorem stop_final l l' i :
  let s := run l web0 in let s' := run l' s in
  closing s →
  accepted s' = accepted s ∧
  ((3 ≤ serve_steps l')%nat →
   (∃ log, serve s' = SEnd log) ∧ open s' = ∅ ∧ listeners s' = ∅ ∧
   (shut s' !! i = Some HGroup → shut (run [AShut i; AShut i] s') !! i = Some HRet)).
Proof.
  intros s s' Hc. assert (Inv s) as HI by apply web_run_Inv, web0_Inv.
  destruct (closing_run l' s HI Hc) as (Ha & Hl & Hc'). split; [done|]. intros Hn.
  assert (Inv s') as HI' by by apply web_run_Inv.
  assert (Hend : ∃ log, serve s' = SEnd log).
  { assert (left_ (serve s) ≤ 3)%nat by (destruct (serve s); cbn; lia). assert (left_ (serve s') = 0)%nat as H0 by (subst s'; lia).
    pose proof (proj1 (i_srv _ HI') (closing_srv _ HI' Hc')).
    destruct (serve s'); cbn in H0; try lia; [done|by eexists]. }
  split; [done|]. destruct Hend as [log Hend]. pose proof (i_tracked _ HI') as Ht. pose proof (i_open _ HI') as Ho.
  rewrite Hend in Ht, Ho. cbn in Ht, Ho. split_and!; [set_solver|done|]. intros Hi.
  by apply waiter_returns.
Qed.

Lemma stop_final_witness :
  let s := run [AStart; AServe true; AServe true; AServe true; AServe true; AStop; AShut 0; AShut 0] web0 in
  let s' := run [AStart; AServe true; AServe true; AServe true] s in
  accepted s = 1%nat ∧ accepted s' = 1%nat ∧ open s' = ∅.
Proof.
  cbv zeta. split; [reflexivity|].
  destruct (stop_final [AStart; AServe true; AServe true; AServe true; AServe true; AStop; AShut 0; AShut 0]
    [AStart; AServe true; AServe true; AServe true] 0) as [H1 H2].
  - exists HGroup. split; [apply list_elem_of_here|reflexivity].
  - split; [exact H1|]. refine (proj1 (proj2 (H2 _))). vm_compute. reflexivity.
Defined.

(** A port in use: [Start] has returned nil, the error is logged, and no
    later call serves. *)
Lemma ended_stays a s : (∃ log, serve s = SEnd log) → srv s = true →
  serve (exec s a) = serve s ∧ srv (exec s a) = true ∧ accepted (exec s a) = accepted s.
Proof.
  intros [log Hl] Hs. destruct a; cbn.
  - unfold Start. by rewrite Hs.
  - unfold Stop. by rewrite Hs.
  - unfold Cancel. by destruct (waiting s).
  - unfold serve_step. rewrite Hl. done.
  - unfold shut_step. repeat case_match; done.
Qed.

Lemma ended_run l s : (∃ log, serve s = SEnd log) → srv s = true →
  serve (run l s) = serve s ∧ accepted (run l s) = accepted s.
Proof.
  revert s. induction l as [|a l IH]; intros s He Hs; [done|]. destruct (ended_stays a s He Hs) as (H1 & H2 & H3).
  change (run (a :: l) s) with (run l (exec s a)). rewrite <- H1, <- H3. apply IH; [by rewrite H1|done].
Qed.

(** When the port cannot be listened to, the only trace is a log line:
    [Start] has already returned nil, and starting again, after a stop or
    not, never serves anything. *)
Theorem listen_failure_final l :
  let s := run l (run [AStart; AServe true; AServe false] web0) in
  serve s = SEnd true ∧ accepted s = 0%nat.
Proof.
  cbv zeta. destruct (ended_run l (run [AStart; AServe true; AServe false] web0)) as [-> ->]; [by eexists|done|done].
Qed.

(** The middlewares are those of the configuration, recovery first and the
    ban last, so that a banned request is logged. *)
Lemma middlewares_order config :
  head (middlewares config) = Some MRecovery ∧
  (MFail2Ban ∈ middlewares config → last (middlewares config) = Some MFail2Ban).
Proof.
  unfold middlewares. split; [done|]. destruct (UseLogger config), (RequestLog config), (Fail2BanDisabled config);
    cbn; try done; set_solver.
Qed.

Lemma start_mode_valid config : start_mode config ∈ [DebugMode; TestMode; ReleaseMode].
Proof.
  unfold start_mode. destruct (String.eqb_spec (strings.ToLower (StartMode config)) DebugMode) as [->|]; [set_solver|].
  destruct (String.eqb_spec (strings.ToLower (StartMode config)) TestMode) as [->|]; [set_solver|].
  destruct (String.eqb_spec (strings.ToLower (StartMode config)) ReleaseMode) as [->|]; set_solver.
Qed.
End GinWeb.
