(* ===== verification/Ntlm.v ===== *)
(** * NTLM middlewares (web/gin/middleware/ntlm/ntlm.go and
    ntlm-ext/ntlm-ext.go)

    Both handlers as traces of context calls ([Middleware]).  The user
    verifier and the cookie manager are supplied by the caller of the code and
    are arguments here. *)

From S2P Require Import Prelude GoBytes GoBase64 GoUtf8 Middleware.

Module Ntlm.

Definition NTLM : string := "NTLM".

Definition negotiateUnicode : Z := 1.
Definition negotiateNTLM : Z := 512.
Definition negotiateAlwaysSign : Z := 32768.
Definition negotiateExtendedSessionSecurity : Z := 524288.
Definition negotiateFlags : Z :=
  Z.lor (Z.lor (Z.lor (Z.lor negotiateAlwaysSign negotiateExtendedSessionSecurity) negotiateNTLM)
    negotiateUnicode) 0.

Definition write_at (dst : bytes) (off : nat) (src : bytes) : bytes :=
  take off dst ++ src ++ drop (off + length src) dst.

Definition ntlmAuthChallenge : bytes :=
  let retMsg := replicate 40 0 in
  let retMsg := write_at retMsg 0 (bytes_of_string "NTLMSSP" ++ [0]) in
  let retMsg := write_at retMsg 8 (binary.put32 2) in
  let retMsg := write_at retMsg 12 (binary.put32 0) in
  let retMsg := write_at retMsg 16 (binary.put32 40) in
  let retMsg := write_at retMsg 20 (binary.put32 negotiateFlags) in
  let retMsg := write_at retMsg 24 (binary.put32 33554944) in
  let retMsg := write_at retMsg 28 (binary.put32 0) in
  let retMsg := write_at retMsg 32 (binary.put32 0) in
  write_at retMsg 36 (binary.put16 0).

Definition pathMatches (reqPath path : string) : bool :=
  (reqPath =? path)%string || strings.HasPrefix reqPath (path +:+ "/").

(** [strings.Map] that drops NUL and every rune above 7F (an invalid byte
    decodes to such a rune). *)
Definition removeZeros (value : bytes) : bytes :=
  concat (filter (λ rc : Z * bytes, (rc.1 =? 0) || (127 <? rc.1) = false) (utf8.chunks value)).*2.

Definition getNTLMField (data : bytes) (fieldBase : nat) : option string :=
  if (length data <? fieldBase + 8)%nat then None
  else
    let len := binary.le16 data fieldBase in
    let strStart := binary.le16 data (fieldBase + 4) in
    if (Z.of_nat (length data) <? strStart) || (Z.of_nat (length data) - strStart <? len) then None
    else
      Some (string_of_bytes
        (removeZeros (take (Z.to_nat len) (drop (Z.to_nat strStart) data)))).

(** The verifier returns [Some e] for a non-nil error. *)
Definition UserVerifier : Type := string → string → option string.

(** The options a handler is made with; ntlm-ext.go has its own copy. *)
Record middlewareOptions := MkOptions { verifier : option UserVerifier }.
Definition Option_ : Type := middlewareOptions → middlewareOptions.
Definition WithUserVerifier (v : UserVerifier) : Option_ := λ _, MkOptions (Some v).
Definition apply_options (opts : list Option_) : middlewareOptions := fold_left (λ o opt, opt o) opts (MkOptions None).

Definition sendUnauthorized (value : string) : list CtxAction :=
  [SetHeader "WWW-Authenticate" value; SetHeader "Connection" "keep-alive"; AbortWithStatus Unauthorized].

Definition corsHeaders : list CtxAction :=
  [SetHeader "Access-Control-Allow-Headers" "Authorization,Content-Type, Content-Range, Content-Disposition, Content-Description,Origin, X-Requested-With, sessionId";
   SetHeader "Access-Control-Allow-Origin" "*"].

(** What a protected request gets: the calls, and whether the handler
    returned before its final [c.Next()].  [authorized] are the calls made for
    a verified user and [challenge] is the answer to a type 1 message. *)
Definition negotiate (verify : option UserVerifier) (challenge : string)
    (authorized : string → string → list CtxAction) (authHeader : string) : list CtxAction * bool :=
  if (authHeader =? "")%string then (sendUnauthorized NTLM, false)
  else
    match strings.Split authHeader " " with
    | [scheme; enc] =>
        if negb (scheme =? NTLM)%string then (sendUnauthorized NTLM, true)
        else
          let '(byteData, ok) := base64.DecodeString enc in
          if negb ok then (sendUnauthorized NTLM, true)
          else if (8 <? length byteData)%nat && (nth 8 byteData 0 =? 1)
          then (sendUnauthorized challenge, false)
          else if (8 <? length byteData)%nat && (nth 8 byteData 0 =? 3)
          then
            match getNTLMField byteData 38, getNTLMField byteData 30 with
            | Some username, Some domain =>
                match verify with
                | None => (sendUnauthorized NTLM, true)
                | Some v =>
                    match v username domain with
                    | Some _ => (sendUnauthorized NTLM, true)
                    | None => (authorized username domain, false)
                    end
                end
            | _, _ => (sendUnauthorized NTLM, true)
            end
          else (sendUnauthorized NTLM, true)
    | _ => (sendUnauthorized NTLM, true)
    end.

(** ntlm.go: [NTLMMiddleware]. *)
Definition NTLMMiddleware (path : string) (opts : list Option_)
    (reqPath authHeader : string) : list CtxAction :=
  if pathMatches reqPath path then
    let '(calls, returned) :=
      negotiate (verifier (apply_options opts)) (NTLM +:+ " " +:+ base64.EncodeToString ntlmAuthChallenge)
        (λ username domain, [SetKey "username" username; SetKey "domain" domain]) authHeader in
    corsHeaders ++ calls ++ (if returned then [] else [Next])
  else [Next].

(** ntlm-ext.go has its own copies of the helpers, with the same text. *)
Definition removeZeros_ext : bytes → bytes := removeZeros.
Definition getNTLMField_ext : bytes → nat → option string := getNTLMField.
Definition sendUnauthorized_ext : string → list CtxAction := sendUnauthorized.

(** ntlm-ext.go: [NTLMMiddleware]; [isAuthorized] is [cm.IsAuthorized(c)] and
    [setAuthorized] stands for the calls of [cm.SetAuthorized]. *)
Definition Step2NTLM : string := "NTLM TlRMTVNTUAACAAAAAAAAACgAAAABgggAAAIAAgAAAAAAAAAAAAAAAA==".

Definition NTLMMiddleware_ext (path : string) (opts : list Option_)
    (setAuthorized : string → string → list CtxAction) (isAuthorized : bool)
    (reqPath authHeader : string) : list CtxAction :=
  if (reqPath =? path)%string || strings.HasPrefix reqPath (path +:+ "/") then
    if isAuthorized then [Next]
    else
      let '(calls, returned) := negotiate (verifier (apply_options opts)) Step2NTLM setAuthorized authHeader in
      corsHeaders ++ calls ++ (if returned then [] else [Next])
  else [].

(** ** Lemmas *)

Lemma passes_app_cors l : passes (corsHeaders ++ l) = passes l.
Proof. done. Qed.

Lemma passes_sendUnauthorized v l : passes (sendUnauthorized v ++ l) = false.
Proof. done. Qed.

(** A type 3 message that carries these two fields. *)
Definition type3 (byteData : bytes) (username domain : string) : Prop :=
  (8 < length byteData)%nat ∧ nth 8 byteData 0 = 3 ∧
  getNTLMField byteData 38 = Some username ∧ getNTLMField byteData 30 = Some domain.

Lemma negotiate_passes verify challenge authorized authHeader (rest : list CtxAction) :
  (∀ u d, passes (authorized u d ++ rest) = true) →
  passes ((negotiate verify challenge authorized authHeader).1 ++ rest) = true →
  ∃ enc byteData username domain v,
    authHeader = NTLM +:+ String " " enc ∧ base64.DecodeString enc = (byteData, true) ∧
    type3 byteData username domain ∧ verify = Some v ∧ v username domain = None ∧
    negotiate verify challenge authorized authHeader = (authorized username domain, false).
Proof.
  intros Hauth. unfold negotiate. destruct (authHeader =? "")%string; [done|].
  destruct (strings.Split authHeader " ") as [|scheme [|enc [|]]] eqn:E; try done.
  destruct (scheme =? NTLM)%string eqn:Es; [|done]. apply String.eqb_eq in Es as ->. cbn [negb].
  destruct (base64.DecodeString enc) as [byteData [|]] eqn:Ed; [|done]. cbn [negb].
  destruct (_ && (nth 8 byteData 0 =? 1)); [done|].
  destruct ((8 <? length byteData)%nat && (nth 8 byteData 0 =? 3)) eqn:E3; [|done].
  apply andb_prop in E3 as [El E3]. apply Nat.ltb_lt in El. apply Z.eqb_eq in E3.
  destruct (getNTLMField byteData 38) as [username|] eqn:Eu; [|done].
  destruct (getNTLMField byteData 30) as [domain|] eqn:Edm; [|done].
  destruct verify as [v|]; [|done]. destruct (v username domain) eqn:Ev; [done|].
  intros _. exists enc, byteData, username, domain, v. split_and!; try done.
  by apply strings.Split_two in E.
Qed.

(** The last verifier given is the one that is asked. *)
Lemma apply_options_last vs : verifier (apply_options (WithUserVerifier <$> vs)) = last vs.
Proof.
  induction vs as [|v vs IH] using rev_ind; [done|]. rewrite fmap_app, last_snoc. unfold apply_options. by rewrite fold_left_app.
Qed.

Lemma pathMatches_spec reqPath path :
  pathMatches reqPath path = true ↔ reqPath = path ∨ ∃ t, reqPath = path +:+ "/" +:+ t.
Proof.
  unfold pathMatches. rewrite orb_true_iff, String.eqb_eq, strings.HasPrefix_spec.
  assert (Ha : ∀ t, (path +:+ "/") +:+ t = path +:+ "/" +:+ t).
  { intros t. induction path as [|a p IH]; [done|]. rewrite !string_app_cons. by rewrite IH. }
  split; (intros [?|[t Ht]]; [by left|right; exists t]); by rewrite Ht, Ha.
Qed.

(** ** Properties *)

(** What a protected request that gets through carries, and
    all that is done for it. *)
Lemma passing_calls path opts reqPath authHeader :
  reqPath = path ∨ (∃ t, reqPath = path +:+ "/" +:+ t) →
  passes (NTLMMiddleware path opts reqPath authHeader) = true →
  ∃ enc byteData username domain v,
    authHeader = NTLM +:+ String " " enc ∧ base64.DecodeString enc = (byteData, true) ∧
    type3 byteData username domain ∧ verifier (apply_options opts) = Some v ∧ v username domain = None ∧
    NTLMMiddleware path opts reqPath authHeader =
      corsHeaders ++ [SetKey "username" username; SetKey "domain" domain; Next].
Proof.
  intros Hpath%pathMatches_spec. unfold NTLMMiddleware. rewrite Hpath.
  set (n := negotiate _ _ _ _). destruct n as [calls returned] eqn:En. subst n.
  rewrite passes_app_cors. intros Hp.
  match type of En with negotiate ?v ?c ?a ?h = _ =>
    destruct (negotiate_passes v c a h (if returned then [] else [Next]))
      as (enc & byteData & u & d & v' & H1 & H2 & H3 & H4 & H5 & H6) end.
  - by destruct returned.
  - by rewrite En.
  - exists enc, byteData, u, d, v'. rewrite En in H6. by simplify_eq.
Qed.

(** Fail-closed: a request for the protected path or below it reaches
    the next handlers only with a type 3 message whose user and domain the
    configured verifier accepts, and these are then the values stored in the
    context; without a verifier no request gets through. *)
Theorem NTLMMiddleware_fail_closed path opts reqPath authHeader :
  reqPath = path ∨ (∃ t, reqPath = path +:+ "/" +:+ t) →
  passes (NTLMMiddleware path opts reqPath authHeader) = true →
  ∃ enc byteData username domain v,
    authHeader = NTLM +:+ String " " enc ∧ base64.DecodeString enc = (byteData, true) ∧
    type3 byteData username domain ∧ verifier (apply_options opts) = Some v ∧ v username domain = None ∧
    SetKey "username" username ∈ NTLMMiddleware path opts reqPath authHeader ∧
    SetKey "domain" domain ∈ NTLMMiddleware path opts reqPath authHeader.
Proof.
  intros Hpath Hp. destruct (passing_calls path opts reqPath authHeader Hpath Hp) as (enc & data & u & d & v & H1 & H2 & H3 & H4 & H5 & ->).
  exists enc, data, u, d, v. split_and!; try done; set_solver.
Qed.

(** The same for the cookie variant: only an authorized cookie or a
    verified type 3 message gets a protected request through, and only the
    latter authorizes the user. *)
Theorem NTLMMiddleware_ext_fail_closed path opts setAuthorized isAuthorized reqPath authHeader :
  (∀ u d l, passes (setAuthorized u d ++ l) = passes l) →
  reqPath = path ∨ (∃ t, reqPath = path +:+ "/" +:+ t) →
  passes (NTLMMiddleware_ext path opts setAuthorized isAuthorized reqPath authHeader) = true →
  isAuthorized = true ∨
  ∃ enc byteData username domain v,
    authHeader = NTLM +:+ String " " enc ∧ base64.DecodeString enc = (byteData, true) ∧
    type3 byteData username domain ∧ verifier (apply_options opts) = Some v ∧ v username domain = None ∧
    NTLMMiddleware_ext path opts setAuthorized isAuthorized reqPath authHeader =
      corsHeaders ++ setAuthorized username domain ++ [Next].
Proof.
  intros Hcm Hpath%pathMatches_spec. unfold NTLMMiddleware_ext. unfold pathMatches in Hpath. rewrite Hpath.
  destruct isAuthorized; [by left|]. destruct (negotiate _ _ _ _) as [calls returned] eqn:En.
  rewrite passes_app_cors. intros Hp. right.
  destruct (negotiate_passes (verifier (apply_options opts)) Step2NTLM setAuthorized authHeader (if returned then [] else [Next]))
    as (enc & byteData & u & d & v' & H1 & H2 & H3 & H4 & H5 & H6).
  - intros u d. rewrite Hcm. by destruct returned.
  - by rewrite En.
  - exists enc, byteData, u, d, v'. rewrite En in H6. by simplify_eq.
Qed.

(** What the reader takes of a descriptor that has its two lengths at [length
    pre] and its offset four bytes further. *)
Lemma read_from_head pre len maxLen off rest :
  0 ≤ maxLen < 65536 → 0 ≤ off < 65536 → (2 ≤ length rest)%nat →
  let data := pre ++ binary.put16 len ++ binary.put16 maxLen ++ binary.put32 off ++ rest in
  maxLen ≤ Z.of_nat (length data) →
  getNTLMField data (length pre + 2) =
    Some (string_of_bytes (removeZeros (take (Z.to_nat maxLen) data))).
Proof.
  intros Hm Ho Hr data Hlen.
  assert (H1 : binary.le16 data (length pre + 2) = maxLen).
  { unfold data. rewrite app_assoc. replace (length pre + 2)%nat with (length (pre ++ binary.put16 len))
      by (rewrite length_app; done). by apply binary.le16_put16. }
  assert (H2 : binary.le16 data (length pre + 2 + 4) = 0).
  { unfold data. rewrite binary.put32_halves, <- !app_assoc, (app_assoc (binary.put16 maxLen)), !app_assoc.
    rewrite <- (app_assoc _ (binary.put16 (Z.shiftr off 16))).
    replace (length pre + 2 + 4)%nat with
      (length (((pre ++ binary.put16 len) ++ binary.put16 maxLen) ++ binary.put16 off))
      by (rewrite !length_app; simpl; lia).
    rewrite <- !app_assoc. rewrite Z.shiftr_div_pow2 by lia. change (2 ^ 16) with 65536.
    rewrite Z.div_small by lia. rewrite !app_assoc, <- (app_assoc _ _ rest). by apply binary.le16_put16. }
  unfold getNTLMField. rewrite H1, H2.
  replace (_ <? _)%nat with false.
  2: { symmetry. apply Nat.ltb_ge. unfold data. rewrite !length_app. simpl. lia. }
  by ztest.
Qed.

(** The field reader is shifted by two bytes with respect to the
    layout of the message (length, maximal length, 32-bit offset, at 28 for
    the domain and 36 for the user): it takes the maximal length and the high
    half of the offset.  On every message whose offsets fit in 16 bits both
    names are therefore read from the start of the message. *)
Theorem getNTLMField_reads_header pre len maxLen off rest :
  0 ≤ maxLen < 65536 → 0 ≤ off < 65536 → (2 ≤ length rest)%nat →
  let data := pre ++ binary.put16 len ++ binary.put16 maxLen ++ binary.put32 off ++ rest in
  maxLen ≤ Z.of_nat (length data) →
  getNTLMField data (length pre + 2) =
    Some (string_of_bytes (removeZeros (take (Z.to_nat maxLen) data))).
Proof. apply read_from_head. Qed.

(** The two copies of the challenge agree. *)
Lemma Step2NTLM_challenge : Step2NTLM = NTLM +:+ " " +:+ base64.EncodeToString ntlmAuthChallenge.
Proof. by vm_compute. Qed.

(** ** Concrete messages *)

(** A type 3 message with the user [bob] (OEM) at offset 52. *)
Definition bob_message : bytes :=
  write_at (write_at (write_at (write_at (write_at (replicate 60 0)
    0 (bytes_of_string "NTLMSSP" ++ [0; 3]))
    28 [2; 0; 2; 0; 55; 0; 0; 0]) 36 [3; 0; 3; 0; 52; 0; 0; 0])
    52 (bytes_of_string "bob")) 55 (bytes_of_string "d1").

Definition accept_all : UserVerifier := λ _ _, None.

Lemma getNTLMField_reads_header_witness : getNTLMField bob_message 38 = Some "NTL"%string.
Proof.
  assert (H := getNTLMField_reads_header (take 36 bob_message) 3 3 52 (drop 44 bob_message)).
  apply H; [lia|lia|by apply Nat.leb_le; vm_compute|by vm_compute].
Defined.

Definition bob_header : string := "NTLM " +:+ base64.EncodeToString bob_message.

Lemma NTLMMiddleware_fail_closed_witness :
  passes (NTLMMiddleware "/a" [WithUserVerifier accept_all] "/a/b" bob_header) = true ∧
  SetKey "username" "NTL" ∈ NTLMMiddleware "/a" [WithUserVerifier accept_all] "/a/b" bob_header.
Proof.
  destruct (NTLMMiddleware_fail_closed "/a" [WithUserVerifier accept_all] "/a/b" bob_header)
    as (enc & byteData & u & d & v & _); [right; by exists "b"|by vm_compute|].
  split; [by vm_compute|]. apply (bool_decide_unpack _). by vm_compute.
Defined.

Lemma NTLMMiddleware_ext_fail_closed_witness :
  passes (NTLMMiddleware_ext "/a" [WithUserVerifier accept_all] (λ u d, [SetKey u d]) false "/a" bob_header) = true.
Proof.
  destruct (NTLMMiddleware_ext_fail_closed "/a" [WithUserVerifier accept_all] (λ u d, [SetKey u d]) false "/a" bob_header)
    as [?|_]; [done|by left|by vm_compute|done|by vm_compute].
Defined.
End Ntlm.
