(* ===== verification/Websspi.v ===== *)
(** * websspi middleware: the service and its authenticator
    (web/gin/middleware/websspi/sspi.go)

    An authenticator of the websspi library holds credentials of the system
    until it is freed; the ones that hold them are part of the state. *)

From S2P Require Import Prelude.

Module Websspi.

(** [None] is the nil authenticator. *)
Record SSPI := MkSSPI { auth : option nat }.
Record world := MkWorld { held : gset nat; fresh_id : nat }.

Definition NewSSPI : SSPI := MkSSPI None.

(** [created] is the error of [websspi.New], which then returns nil. *)
Definition Start (ss : SSPI) (w : world) (created : option string) : option string * SSPI * world :=
  match created with
  | Some e => (Some e, MkSSPI None, w)
  | None => (None, MkSSPI (Some (fresh_id w)), MkWorld ({[fresh_id w]} ∪ held w) (S (fresh_id w)))
  end.

(** [freed] is the error of [Free]. *)
Definition Stop (ss : SSPI) (w : world) (freed : option string) : option string * world :=
  match auth ss with
  | None => (None, w)
  | Some a => (freed, MkWorld (held w ∖ {[a]}) (fresh_id w))
  end.

(** The authenticator of the handler that [WithAuth] returns. *)
Definition WithAuth (ss : SSPI) : option nat := auth ss.

(** What is held is the current authenticator. *)
Definition owned (ss : SSPI) (w : world) : Prop :=
  held w ⊆ match auth ss with Some a => {[a]} | None => ∅ end.

Lemma sspi_Start_owned ss w created :
  held w = ∅ → let '(e, ss', w') := Start ss w created in owned ss' w' ∧ (e ≠ None → held w' = ∅).
Proof. intros H. unfold Start. destruct created as [e|]; unfold owned; cbn; set_solver. Qed.

Lemma sspi_Stop_owned ss w freed : owned ss w → owned ss (Stop ss w freed).2 ∧ held (Stop ss w freed).2 = ∅.
Proof. unfold owned, Stop. destruct (auth ss) as [a|] eqn:E; cbn; rewrite ?E; set_solver. Qed.

(** A second start loses the first authenticator, and a start that fails
    loses it too: no stop frees it. *)
Lemma sspi_restart_leaks ss w a created freed :
  auth ss = Some a → a ∈ held w → (a < fresh_id w)%nat →
  let '(_, ss', w') := Start ss w created in a ∈ held (Stop ss' w' freed).2.
Proof.
  intros Ha Hin Hlt. unfold Start. destruct created as [e|]; unfold Stop; cbn; [done|].
  apply elem_of_difference. split; [set_solver|]. rewrite elem_of_singleton. lia.
Qed.

(** After [Stop] new handlers are given the authenticator that was freed. *)
Lemma sspi_stopped_authenticator ss w a freed :
  auth ss = Some a → WithAuth ss = Some a ∧ a ∉ held (Stop ss w freed).2.
Proof. intros Ha. unfold WithAuth, Stop. rewrite Ha. split; [done|]. cbn. set_solver. Qed.

End Websspi.
