(* ===== verification/Utils.v ===== *)
(** * utils: strings, numbers, slices (utils/utilsString.go,
    utils/utilsNumbers.go, utils/utilsArray.go)

    Slicing a string out of range panics in Go; here it is [Err]. *)

From S2P Require Import Prelude GoBytes GoStrconv GoIeee GoUtf8.
From Stdlib Require Import Znumtheory.

Module Utils.

Definition panic : string := "slice bounds out of range".

(** [content[lo:hi]]. *)
Definition slice (content : bytes) (lo hi : Z) : result bytes :=
  if (0 <=? lo) && (lo <=? hi) && (hi <=? Z.of_nat (length content))
  then Ok (drop (Z.to_nat lo) (take (Z.to_nat hi) content))
  else Err panic.

(** ** Conversions between strings and integers *)

Definition StrToInt (str : string) : Z := (strconv.Atoi str).1.

Definition StrToInt32Default (str : string) (defaultValue : Z) : Z :=
  match strconv.ParseInt str 10 32 with
  | (val, None) => wrapS 32 val
  | (_, Some _) => defaultValue
  end.

Definition StrToInt64Default (str : string) (defaultValue : Z) : Z :=
  match strconv.Atoi str with
  | (val, None) => val
  | (_, Some _) => defaultValue
  end.

Definition StrToUInt64Default (str : string) (defaultValue : Z) : Z :=
  match strconv.ParseUint str 10 64 with
  | (val, None) => val
  | (_, Some _) => defaultValue
  end.

Definition HexToInt64Default (ident : string) (i : Z) : Z :=
  match strconv.ParseInt ident 16 64 with
  | (value, None) => value
  | (_, Some _) => i
  end.

Definition Int64ToStr (i : Z) : string := strconv.FormatInt i 10.
Definition UInt64ToStr (i : Z) : string := strconv.FormatUint i 10.
Definition UInt32ToStr (i : Z) : string := strconv.FormatUint i 10.
Definition UInt16ToStr (i : Z) : string := strconv.Itoa i.
Definition Int16ToStr (i : Z) : string := strconv.Itoa i.
Definition Int32ToStr (i : Z) : string := strconv.FormatInt i 10.
Definition IntToStr (i : Z) : string := strconv.Itoa i.
Definition Int8ToStr (i : Z) : string := IntToStr i.

(** ** Floats *)

(** [strings.ReplaceAll(str, ",", ".")]. *)
Definition commas_to_points (str : bytes) : bytes := (λ c, if c =? 44 then 46 else c) <$> str.

(** [strconv.ParseFloat(s, 32)] returns the float32 in a float64. *)
Definition StrToFloat32Default (str : bytes) (defaultValue : float.float) : float.float :=
  match float.ParseFloat (commas_to_points str) float.binary32 with
  | (value, None) => float.convert float.binary32 (float.convert float.binary64 value)
  | (_, Some _) => defaultValue
  end.

Definition Flat64ToStr (value : float.float) : bytes := float.FormatFloat float.binary64 value.

(** [strconv.FormatFloat(float64(value), 'f', -1, 32)] goes back to a float32. *)
Definition Flat32ToStr (value : float.float) : bytes :=
  float.FormatFloat float.binary32 (float.convert float.binary32 (float.convert float.binary64 value)).

(** A NaN has no bits here: the model does not tell NaNs apart. *)
Definition Float64ToByte (f : float.float) : option bytes := binary.be64 <$> float.bits float.binary64 f.

(** The float64 of an integer, as the integer it holds. *)
Definition float64_int (n : Z) : Z := float.int_part (float.of_int float.binary64 n).

(** The power is computed and dropped when the precision is negative. *)
Definition TruncateFloat (f : float.float) (precision : Z) : float.float :=
  let multiplier :=
    if precision <? 0 then float.of_int float.binary64 1
    else float.Pow float.binary64 (float.of_int float.binary64 10) (float64_int precision) in
  float.div float.binary64 (float.Trunc float.binary64 (float.mul float.binary64 f multiplier)) multiplier.

(** ** Substrings *)

Definition GetSubStr (content startsWith endsWith : bytes) : result bytes :=
  match bytes_index content startsWith with
  | Some startPos =>
      let startPos := startPos + Z.of_nat (length startsWith) in
      let endPos :=
        if bool_decide (endsWith = []) then Some (Z.of_nat (length content) - startPos)
        else bytes_index (drop (Z.to_nat startPos) content) endsWith in
      match endPos with
      | Some endPos => slice content startPos (startPos + endPos)
      | None => Ok []
      end
  | None => Ok []
  end.

(** The loop of [SubStr]: [rest] is [content[i:]]; the result is [total],
    [startByte] and [endByte]. *)
Fixpoint SubStr_loop (fuel : nat) (rest : bytes) (i start stop total startByte endByte : Z) : Z * Z * Z :=
  match fuel, rest with
  | S fuel, _ :: _ =>
      let startByte := if total =? start then i else startByte in
      let endByte := if total =? stop then i else endByte in
      let size := (utf8.DecodeRune rest).2 in
      SubStr_loop fuel (drop size rest) (i + Z.of_nat size) start stop (total + 1) startByte endByte
  | _, _ => (total, startByte, endByte)
  end.

Definition SubStr (content : bytes) (start len : Z) : result bytes :=
  let stop := wrap64 (start + len) in
  let '(total, startByte, endByte) := SubStr_loop (length content) content 0 start stop 0 0 0 in
  if total <? start then Ok []
  else if (start <? 0) || (len <? 0) then slice content 0 (-1)
  else if start =? total then Ok []
  else slice content startByte (if total <=? stop then Z.of_nat (length content) else endByte).

(** ** Rune filters and reversal *)

(** [re.ReplaceAllString(s, "")] for a negated class of ASCII characters:
    every rune outside the class goes, invalid bytes included. *)
Definition keep_runes (keep : Z → bool) (s : bytes) : bytes :=
  concat (filter (λ rc : Z * bytes, keep rc.1 = true) (utf8.chunks s)).*2.

Definition is_digit (r : Z) : bool := (48 <=? r) && (r <=? 57).

Definition NumbersAndComma (inStr : bytes) : bytes := keep_runes (λ r, (r =? 44) || is_digit r) inStr.

Definition NumOnly (str : bytes) : bytes := keep_runes is_digit str.

Definition stripAllowed (r : Z) : bool :=
  (97 <=? r) && (r <=? 122) || (65 <=? r) && (r <=? 90) || is_digit r
  || bool_decide (r ∈ bytes_of_string "~@#$^*()_+={}|\,.?: -").

Definition StripRegex (str : bytes) : bytes := keep_runes stripAllowed str.

(** [unicode.IsSpace]. *)
Definition IsSpace (r : Z) : bool :=
  bool_decide (r ∈ [9; 10; 11; 12; 13; 32; 133; 160; 5760; 8232; 8233; 8239; 8287; 12288])
  || (8192 <=? r) && (r <=? 8202).

(** [strings.Fields]: [cur] is the field being read. *)
Fixpoint Fields_loop (l : list (Z * bytes)) (cur : bytes) : list bytes :=
  match l with
  | [] => if bool_decide (cur = []) then [] else [cur]
  | (r, c) :: l =>
      if IsSpace r then
        if bool_decide (cur = []) then Fields_loop l [] else cur :: Fields_loop l []
      else Fields_loop l (cur ++ c)
  end.

Definition Fields (s : bytes) : list bytes := Fields_loop (utf8.chunks s) [].

Definition Trim (str : bytes) : bytes := concat (Fields str).

(** [RemoveUnreadable] asks [unicode.IsGraphic]: up to U+00FF a property of
    the character (all but the controls and the soft hyphen), above it the
    Unicode tables of letters, marks, numbers, punctuation, symbols and
    spaces, which are [graphic]. *)
Section readable.
Context (graphic : Z → bool).

Definition IsGraphic (r : Z) : bool :=
  if (0 <=? r) && (r <=? 255) then (32 <=? r) && (r <=? 126) || (160 <=? r) && negb (r =? 173) else graphic r.

Definition RemoveUnreadable (s : bytes) : bytes := utf8.Map (λ r, if IsGraphic r then r else -1) s.
End readable.

(** The exchange loop of [Reverse]. *)
Fixpoint Reverse_loop (fuel : nat) (runes : list Z) (i j : nat) : list Z :=
  match fuel with
  | O => runes
  | S fuel =>
      if (i <? j)%nat then
        let ri := nth i runes 0 in
        let rj := nth j runes 0 in
        Reverse_loop fuel (<[j := ri]> (<[i := rj]> runes)) (S i) (pred j)
      else runes
  end.

Definition Reverse (s : bytes) : bytes :=
  let runes := utf8.runes s in
  utf8.of_runes (Reverse_loop (length runes) runes 0 (pred (length runes))).

(** ** Slices *)

Fixpoint StringInSlice (a : string) (l : list string) : bool :=
  match l with
  | [] => false
  | b :: l => if (b =? a)%string then true else StringInSlice a l
  end.

(** ** Sieve *)

Fixpoint sieve_mark (fuel : nat) (composite : list bool) (i j N : Z) : list bool :=
  match fuel with
  | O => composite
  | S fuel =>
      if j <? N
      then sieve_mark fuel (<[Z.to_nat j := true]> composite) i (wrap64 (j + i)) N
      else composite
  end.

Fixpoint sieve_outer (fuel : nat) (composite : list bool) (i N : Z) : list bool :=
  match fuel with
  | O => composite
  | S fuel =>
      if wrap64 (i * i) <? N then
        let composite :=
          if nth (Z.to_nat i) composite false then composite
          else sieve_mark (Z.to_nat N) composite i (wrap64 (i * i)) N in
        sieve_outer fuel composite (wrap64 (i + 1)) N
      else composite
  end.

Fixpoint sieve_collect (fuel : nat) (composite : list bool) (j N : Z) : list Z :=
  match fuel with
  | O => []
  | S fuel =>
      if j <? N then
        let l := sieve_collect fuel composite (wrap64 (j + 1)) N in
        if nth (Z.to_nat j) composite false then l else j :: l
      else []
  end.

Definition SieveOfEratosthenes (M N : Z) : list Z :=
  if N <? 3 then []
  else
    let composite := sieve_outer (Z.to_nat N) (replicate (Z.to_nat N) false) 2 N in
    let M := if M <? 2 then 2 else M in
    sieve_collect (Z.to_nat N) composite M N.

(** ** Facts about the loops *)

Lemma Fields_loop_concat cs cur :
  concat (Fields_loop cs cur) =
  cur ++ concat (filter (λ rc : Z * bytes, IsSpace rc.1 = false) cs).*2.
Proof.
  revert cur. induction cs as [|[r c] cs IH]; intros cur; cbn [Fields_loop].
  - destruct cur; simpl; by rewrite ?app_nil_r.
  - destruct (IsSpace r) eqn:E.
    + rewrite filter_cons_False by (simpl; congruence).
      destruct cur; [by rewrite bool_decide_eq_true_2, IH by done|].
      rewrite bool_decide_eq_false_2 by done. cbn [concat]. by rewrite IH.
    + rewrite filter_cons_True by done. rewrite IH. cbn [fmap list_fmap concat snd].
      by rewrite app_assoc.
Qed.

(** The byte position recorded for rune number [target]. *)
Definition pos_of (target total i : Z) (cs : list bytes) (old : Z) : Z :=
  if (total <=? target) && (target <? total + Z.of_nat (length cs))
  then i + Z.of_nat (length (concat (take (Z.to_nat (target - total)) cs))) else old.

Lemma pos_of_step target total i c cs old :
  pos_of target (total + 1) (i + Z.of_nat (length c)) cs (if total =? target then i else old) =
  pos_of target total i (c :: cs) old.
Proof.
  unfold pos_of. cbn [length]. destruct (Z.lt_total target total) as [?|[->|?]].
  - by ztest.
  - ztest. cbn [andb]. rewrite Z.sub_diag. change (Z.to_nat 0) with 0%nat. simpl. lia.
  - assert (Hn : Z.to_nat (target - total) = S (Z.to_nat (target - (total + 1)))) by lia.
    rewrite Hn. cbn [take concat]. rewrite length_app.
    destruct (target <? total + 1 + Z.of_nat (length cs)) eqn:E; bool_to_prop;
      ztest; cbn [andb]; lia.
Qed.

Lemma SubStr_loop_spec fuel rest i start stop total sb eb :
  (length rest ≤ fuel)%nat →
  let cs := (utf8.chunks rest).*2 in
  SubStr_loop fuel rest i start stop total sb eb =
    (total + Z.of_nat (length cs), pos_of start total i cs sb, pos_of stop total i cs eb).
Proof.
  cbn zeta. revert fuel i total sb eb.
  induction rest as [|rest Hne IH] using utf8.chunks_ind; intros fuel i total sb eb Hf.
  - rewrite utf8.chunks_nil. unfold pos_of.
    destruct fuel; cbn [SubStr_loop fmap list_fmap length]; rewrite Z.add_0_r;
      destruct (total <=? start) eqn:E1; destruct (total <=? stop) eqn:E2; bool_to_prop; by ztest.
  - pose proof (utf8.DecodeRune_size rest Hne) as Hs. destruct rest as [|b rest]; [done|].
    destruct fuel as [|fuel]; [simpl in Hf; lia|].
    rewrite (utf8.chunks_step (b :: rest)) by done. cbn [SubStr_loop fmap list_fmap snd].
    set (size := (utf8.DecodeRune (b :: rest)).2) in *.
    rewrite IH by (rewrite length_drop; simpl in *; lia).
    assert (Hsz : Z.of_nat size = Z.of_nat (length (take size (b :: rest)))) by (rewrite length_take; lia).
    rewrite Hsz, !pos_of_step. cbn [length]. f_equal. f_equal. lia.
Qed.

Lemma concat_take_prefix (cs : list bytes) n :
  concat cs = concat (take n cs) ++ concat (drop n cs).
Proof. by rewrite <- concat_app, take_drop. Qed.

(** [SubStr] cuts whole runes out of any string. *)
Lemma SubStr_chunks content start len :
  0 ≤ start → 0 ≤ len → start + len ≤ MaxInt64 →
  SubStr content start len =
    Ok (concat (take (Z.to_nat len) (drop (Z.to_nat start) (utf8.chunks content).*2))).
Proof.
  intros Hs Hl Hov. unfold SubStr.
  rewrite wrap64_id by (unfold in_int64, MinInt64 in *; lia).
  rewrite SubStr_loop_spec by done. cbn zeta.
  pose proof (utf8.chunks_concat content) as Hc. set (cs := (utf8.chunks content).*2) in *.
  rewrite Z.add_0_l. destruct (Z.of_nat (length cs) <? start) eqn:E1; bool_to_prop.
  { rewrite drop_ge by lia. by rewrite take_nil. }
  ztest. cbn [orb]. destruct (start =? Z.of_nat (length cs)) eqn:E2; bool_to_prop.
  { rewrite drop_ge by lia. by rewrite take_nil. }
  assert (Hsb : pos_of start 0 0 cs 0 = Z.of_nat (length (concat (take (Z.to_nat start) cs)))).
  { unfold pos_of. ztest. cbn [andb]. by rewrite Z.sub_0_r. }
  assert (Heb : (if Z.of_nat (length cs) <=? start + len then Z.of_nat (length content)
                 else pos_of (start + len) 0 0 cs 0) =
                Z.of_nat (length (concat (take (Z.to_nat start + Z.to_nat len) cs)))).
  { destruct (_ <=? _) eqn:E; bool_to_prop.
    - rewrite take_ge by lia. by rewrite Hc.
    - unfold pos_of. ztest. cbn [andb]. rewrite Z.sub_0_r, Z2Nat.inj_add by lia. done. }
  rewrite Hsb, Heb. unfold slice. rewrite !Nat2Z.id.
  rewrite <- Hc at 2. rewrite (concat_take_prefix cs (Z.to_nat start + Z.to_nat len)).
  rewrite take_app_length.
  rewrite <- (take_drop (Z.to_nat start) (take (Z.to_nat start + Z.to_nat len) cs)).
  rewrite take_take, Nat.min_l by lia. rewrite concat_app, drop_app_length, skipn_firstn_comm.
  replace (Z.to_nat start + Z.to_nat len - Z.to_nat start)%nat with (Z.to_nat len) by lia.
  assert (Hle : (length (concat (take (Z.to_nat start) cs)) + 
     length (concat (take (Z.to_nat len) (drop (Z.to_nat start) cs))) <= length content)%nat).
  { rewrite <- Hc. rewrite (concat_take_prefix cs (Z.to_nat start)), length_app.
    rewrite (concat_take_prefix (drop (Z.to_nat start) cs) (Z.to_nat len)), length_app. lia. }
  rewrite length_app. ztest. done.
Qed.
Lemma insert_middle {A} (pre suf : list A) x y :
  <[length pre := y]> (pre ++ x :: suf) = pre ++ y :: suf.
Proof. induction pre as [|c pre IH]; [done|]. cbn. by f_equal. Qed.

(** The exchange loop between [i] and [j] reverses the segment between them. *)
Lemma Reverse_loop_spec n pre mid suf fuel :
  length mid = n → (n ≤ fuel)%nat →
  Reverse_loop fuel (pre ++ mid ++ suf) (length pre) (pred (length pre + n)) = pre ++ reverse mid ++ suf.
Proof.
  revert pre mid suf fuel. induction (lt_wf n) as [n _ IH]. intros pre mid suf fuel Hn Hf.
  destruct mid as [|a mid].
  { simpl in Hn. subst n. destruct fuel; cbn [Reverse_loop]; [done|].
    replace (_ <? _)%nat with false; [done|]. symmetry. apply Nat.ltb_ge. lia. }
  destruct mid as [|b mid' _] using rev_ind.
  { simpl in Hn. subst n. destruct fuel; cbn [Reverse_loop]; [done|].
    replace (_ <? _)%nat with false; [done|]. symmetry. apply Nat.ltb_ge. lia. }
  cbn [length] in Hn. rewrite length_app in Hn. cbn [length] in Hn.
  destruct fuel as [|fuel]; [lia|]. cbn [Reverse_loop].
  replace (_ <? _)%nat with true by (symmetry; apply Nat.ltb_lt; lia).
  replace (pred (length pre + n)) with (length (pre ++ a :: mid')) by (rewrite length_app; simpl; lia).
  assert (Hl : pre ++ (a :: mid' ++ [b]) ++ suf = (pre ++ a :: mid') ++ b :: suf)
    by (rewrite <- !app_assoc; cbn; by rewrite <- app_assoc).
  assert (Ha : nth (length pre) (pre ++ (a :: mid' ++ [b]) ++ suf) 0 = a)
    by (rewrite app_nth2, Nat.sub_diag by lia; done).
  assert (Hb : nth (length (pre ++ a :: mid')) (pre ++ (a :: mid' ++ [b]) ++ suf) 0 = b)
    by (rewrite Hl, app_nth2, Nat.sub_diag by lia; done).
  rewrite Ha, Hb.
  assert (Hins : <[length (pre ++ a :: mid') := a]> (<[length pre := b]> (pre ++ (a :: mid' ++ [b]) ++ suf))
            = (pre ++ [b]) ++ mid' ++ (a :: suf)).
  { cbn [app]. rewrite insert_middle. rewrite <- app_assoc.
    change (pre ++ b :: mid' ++ [b] ++ suf) with (pre ++ (b :: mid') ++ b :: suf).
    rewrite app_assoc. replace (length (pre ++ a :: mid')) with (length (pre ++ b :: mid'))
      by (rewrite !length_app; done).
    rewrite insert_middle, <- !app_assoc. done. }
  rewrite Hins.
  replace (S (length pre)) with (length (pre ++ [b])) by (rewrite length_app; simpl; lia).
  replace (pred (length (pre ++ a :: mid'))) with (pred (length (pre ++ [b]) + length mid'))
    by (rewrite !length_app; simpl; lia).
  rewrite (IH (length mid')) by lia.
  rewrite reverse_cons, reverse_app. cbn. by rewrite <- !app_assoc.
Qed.

Lemma Reverse_runes s : Reverse s = utf8.of_runes (reverse (utf8.runes s)).
Proof.
  unfold Reverse. f_equal. set (rs := utf8.runes s).
  pose proof (Reverse_loop_spec (length rs) [] rs [] (length rs) eq_refl ltac:(lia)) as H.
  cbn [app length Nat.add] in H. by rewrite !app_nil_r in H.
Qed.
Lemma nth_insert_true (l : list bool) (k j : nat) :
  (j < length l)%nat → nth k (<[j := true]> l) false = true ↔ k = j ∨ nth k l false = true.
Proof.
  revert k j. induction l as [|b l IH]; intros k j Hj; cbn [length] in Hj; [lia|].
  destruct j as [|j], k as [|k]; cbn; [naive_solver..|naive_solver|].
  rewrite IH by lia. split; (intros [?|?]; [left; lia|by right]).
Qed.

Lemma sieve_mark_spec fuel composite i j N :
  length composite = Z.to_nat N → 1 ≤ i → i < N → 0 ≤ j → j ≤ N + i → N ≤ 2 ^ 62 →
  N ≤ j + Z.of_nat fuel →
  length (sieve_mark fuel composite i j N) = Z.to_nat N ∧
  ∀ k, 0 ≤ k < N → nth (Z.to_nat k) (sieve_mark fuel composite i j N) false = true ↔
    nth (Z.to_nat k) composite false = true ∨ (j ≤ k ∧ (i | k - j)).
Proof.
  revert composite j. induction fuel as [|fuel IH]; intros composite j Hlen Hi HiN Hj HjN HN Hf.
  - cbn [sieve_mark]. split; [done|]. intros k Hk. split; [by left|]. intros [?|[? _]]; [done|lia].
  - cbn [sieve_mark]. destruct (j <? N) eqn:E; bool_to_prop.
    2: { split; [done|]. intros k Hk. split; [by left|]. intros [?|[? _]]; [done|lia]. }
    rewrite wrap64_id by (unfold in_int64, MinInt64, MaxInt64; lia).
    destruct (IH (<[Z.to_nat j := true]> composite) (j + i)) as [H1 H2];
      [by rewrite length_insert|lia..|].
    split; [done|]. intros k Hk. rewrite H2 by done. rewrite nth_insert_true by lia.
    assert (Hd : (j ≤ k ∧ (i | k - j)) ↔ k = j ∨ (j + i ≤ k ∧ (i | k - (j + i)))).
    { split.
      - intros [Hle [q Hq]]. destruct (decide (k = j)); [by left|]. right.
        assert (0 < q) by nia. split; [nia|]. exists (q - 1). lia.
      - intros [->|[Hle [q Hq]]]; [split; [lia|exists 0; lia]|]. split; [lia|]. exists (q + 1). lia. }
    rewrite Hd. assert (Z.to_nat k = Z.to_nat j ↔ k = j) by lia. tauto.
Qed.

(** What the outer loop has marked when it is about to try [i]. *)
Definition sieved (N i : Z) (composite : list bool) : Prop :=
  length composite = Z.to_nat N ∧
  ∀ k, 2 ≤ k < N → nth (Z.to_nat k) composite false = true ↔ ∃ p, 2 ≤ p < i ∧ p * p ≤ k ∧ (p | k).

Lemma sieved_step N i composite :
  2 ≤ i → i * i < N → N ≤ 2 ^ 62 → sieved N i composite →
  sieved N (i + 1) (if nth (Z.to_nat i) composite false then composite
                    else sieve_mark (Z.to_nat N) composite i (i * i) N).
Proof.
  intros Hi HiN HN [Hlen Hs]. destruct (nth (Z.to_nat i) composite false) eqn:E.
  - split; [done|]. intros k Hk. rewrite Hs by done. split; [intros (p & Hp & H); exists p; split; [lia|done]|].
    intros (p & Hp & Hpp & Hd). destruct (decide (p = i)) as [->|]; [|exists p; split; [lia|done]].
    apply Hs in E as (q & Hq & Hqq & Hqd); [|nia].
    exists q. split; [lia|]. split; [nia|]. by etrans.
  - destruct (sieve_mark_spec (Z.to_nat N) composite i (i * i) N) as [H1 H2]; [done|nia..|].
    split; [done|]. intros k Hk. rewrite H2, Hs by lia. split.
    + intros [(p & Hp & H)|[Hle Hd]]; [exists p; split; [lia|done]|].
      exists i. split; [lia|]. split; [done|].
      replace k with (k - i * i + i * i) by lia. apply Z.divide_add_r; [done|]. by exists i.
    + intros (p & Hp & Hpp & Hd). destruct (decide (p = i)) as [->|]; [right|left; exists p; split; [lia|done]].
      split; [done|]. apply Z.divide_sub_r; [done|]. by exists i.
Qed.

Lemma sieve_outer_spec fuel composite i N :
  2 ≤ i → (i - 1) * (i - 1) < N → N ≤ 2 ^ 62 → N ≤ i + Z.of_nat fuel → sieved N i composite →
  ∃ i', 2 ≤ i' ∧ N ≤ i' * i' ∧ sieved N i' (sieve_outer fuel composite i N).
Proof.
  revert composite i. induction fuel as [|fuel IH]; intros composite i Hi Hsq HN Hf Hs.
  - exists i. split_and!; [done|nia|done].
  - cbn [sieve_outer]. assert (i ≤ 2 ^ 31 + 1) by nia.
    rewrite !wrap64_id by (unfold in_int64, MinInt64, MaxInt64; nia).
    destruct (i * i <? N) eqn:E; bool_to_prop; [|by exists i].
    apply IH; [lia|nia|done|lia|]. by apply sieved_step.
Qed.

Lemma sieve_collect_spec fuel composite j N :
  0 ≤ j → N ≤ 2 ^ 62 → N ≤ j + Z.of_nat fuel →
  sieve_collect fuel composite j N =
    filter (λ k, nth (Z.to_nat k) composite false = false) (seqZ j (N - j)).
Proof.
  revert j. induction fuel as [|fuel IH]; intros j Hj HN Hf; cbn [sieve_collect].
  - by rewrite seqZ_nil by lia.
  - destruct (j <? N) eqn:E; bool_to_prop; [|by rewrite seqZ_nil by lia].
    rewrite wrap64_id by (unfold in_int64, MinInt64, MaxInt64; lia).
    rewrite IH by lia. rewrite (seqZ_cons j) by lia.
    replace (N - (j + 1)) with (Z.pred (N - j)) by lia.
    destruct (nth (Z.to_nat j) composite false) eqn:En.
    + by rewrite filter_cons_False by congruence.
    + by rewrite filter_cons_True.
Qed.

Lemma StronglySorted_filtered {A} (R : A → A → Prop) (P : A → Prop) `{∀ x, Decision (P x)} l :
  StronglySorted R l → StronglySorted R (filter P l).
Proof.
  induction 1 as [|x l Hl IH Hx]; [constructor|]. destruct (decide (P x)).
  - rewrite filter_cons_True by done. constructor; [done|].
    apply Forall_forall. intros y [_ Hy]%list_elem_of_filter. by eapply Forall_forall.
  - by rewrite filter_cons_False.
Qed.

Lemma composite_prime k :
  2 ≤ k → ¬ (∃ p, 2 ≤ p ∧ p * p ≤ k ∧ (p | k)) ↔ Z.prime k.
Proof.
  intros Hk. unfold Z.prime. split.
  - intros Hn. split; [lia|]. intros n Hn' [q Hq].
    destruct (decide (n * n ≤ k)); [apply Hn; exists n; split_and!; [lia|done|by exists q]|].
    assert (0 < q) by nia. assert (q < n) by nia. assert (1 < q) by nia.
    apply Hn. exists q. split_and!; [nia|nia|]. exists n. lia.
  - intros [_ Hn] (p & Hp & Hpp & Hd). apply (Hn p); [nia|done].
Qed.

(** ** Properties *)

(** [C38] [SubStr], which scans the string once without building a rune
    slice, returns on valid UTF-8 what the rune slice expression
    [string([]rune(content)[start:start+length])], cut off at the end of the
    string, returns. *)
Theorem SubStr_runes content start len :
  utf8.Valid content → 0 ≤ start → 0 ≤ len → start + len ≤ MaxInt64 →
  SubStr content start len =
    Ok (utf8.of_runes (take (Z.to_nat len) (drop (Z.to_nat start) (utf8.runes content)))).
Proof.
  intros Hv Hs Hl Hov. rewrite SubStr_chunks by done. f_equal.
  rewrite utf8.Valid_chunks by done. rewrite <- fmap_drop, <- fmap_take.
  unfold utf8.of_runes. generalize (take (Z.to_nat len) (drop (Z.to_nat start) (utf8.runes content))).
  intros l. induction l as [|r l IH]; [done|]. cbn. by rewrite IH.
Qed.

(** The sum [start+length] is a machine integer: a length that makes it
    overflow panics where a cut-off is meant. *)
Lemma SubStr_overflow_panics :
  SubStr (bytes_of_string "abc") 1 MaxInt64 = Err panic ∧
  SubStr (bytes_of_string "abc") 1 (MaxInt64 - 1) = Ok (bytes_of_string "bc").
Proof. split; by vm_compute. Qed.

Lemma filter_readable (P : Z → bool) rs : Forall (λ r, 0 ≤ r) rs →
  filter (λ r, 0 ≤ r) ((λ r, if P r then r else -1) <$> rs) = filter (λ r, P r = true) rs.
Proof.
  induction 1 as [|r rs Hr _ IH]; [done|]. cbn [fmap list_fmap]. rewrite !filter_cons, IH.
  destruct (P r); [by rewrite !decide_True by done|by rewrite !decide_False by (done || lia)].
Qed.

(** [RemoveUnreadable] keeps the graphic characters, in order: these are
    the runes of the result, which is valid UTF-8 whatever it was given, and
    which the function leaves as it is. *)
Theorem RemoveUnreadable_runes graphic s :
  wf_bytes s →
  let t := RemoveUnreadable graphic s in
  utf8.runes t = filter (λ r, IsGraphic graphic r = true) (utf8.runes s) ∧ utf8.Valid t ∧
  RemoveUnreadable graphic t = t.
Proof.
  intros Hwf t. pose proof (utf8.runes_valid s Hwf) as Hv.
  assert (Hnn : ∀ r, utf8.ValidRune r = true → 0 ≤ r).
  { unfold utf8.ValidRune, utf8.in_range. intros r Hr. apply orb_prop in Hr as [Hr|Hr]; bool_to_prop; lia. }
  assert (Ht : ∀ rs, Forall (λ r, utf8.ValidRune r = true) rs →
    filter (λ r, 0 ≤ r) ((λ r, if IsGraphic graphic r then r else -1) <$> rs) = filter (λ r, IsGraphic graphic r = true) rs).
  { intros rs Hrs. apply filter_readable. eapply Forall_impl; [exact Hrs|exact Hnn]. }
  unfold t, RemoveUnreadable, utf8.Map. rewrite (Ht _ Hv). set (rs := filter _ (utf8.runes s)).
  assert (Hrs : Forall (λ r, utf8.ValidRune r = true) rs).
  { apply Forall_forall. intros r [_ Hin]%list_elem_of_filter. rewrite Forall_forall in Hv. by apply Hv. }
  rewrite utf8.runes_of_runes by done. split; [done|]. split; [by exists rs|].
  rewrite (Ht _ Hrs). f_equal. unfold rs. rewrite list_filter_filter. apply list_filter_iff. naive_solver.
Qed.

(** An invalid byte is not taken away: it becomes U+FFFD, a symbol of the
    tables. *)
Lemma invalid_bytes_stay graphic :
  graphic utf8.RuneError = true → RemoveUnreadable graphic [65; 255; 10] = [65; 0xEF; 0xBF; 0xBD].
Proof. intros H. unfold RemoveUnreadable, utf8.Map. cbn. by rewrite H. Qed.

(** [Reverse] is an involution on valid UTF-8, and keeps it valid. *)
Theorem Reverse_involutive s :
  utf8.Valid s → utf8.Valid (Reverse s) ∧ Reverse (Reverse s) = s ∧
  utf8.runes (Reverse s) = reverse (utf8.runes s).
Proof.
  intros Hv. pose proof (utf8.Valid_runes s Hv) as [Hs Hr].
  assert (Hrev : Forall (λ r, utf8.ValidRune r = true) (reverse (utf8.runes s)))
    by by apply Forall_reverse.
  rewrite !Reverse_runes. rewrite utf8.runes_of_runes by done. split_and!.
  - by eexists.
  - by rewrite reverse_involutive.
  - done.
Qed.

(** The sieve returns exactly the primes of [M, N), in increasing
    order; no index or product overflows up to [2^62]. *)
Theorem SieveOfEratosthenes_primes M N :
  N ≤ 2 ^ 62 →
  (∀ p, p ∈ SieveOfEratosthenes M N ↔ Z.prime p ∧ M ≤ p < N) ∧
  StronglySorted Z.lt (SieveOfEratosthenes M N).
Proof.
  intros HN. unfold SieveOfEratosthenes. destruct (N <? 3) eqn:E3; bool_to_prop.
  { split; [|constructor]. intros p. split; [intros H; by apply not_elem_of_nil in H|].
    intros [Hp ?]. pose proof (Z.prime_ge_2 p Hp). lia. }
  destruct (sieve_outer_spec (Z.to_nat N) (replicate (Z.to_nat N) false) 2 N) as (i & Hi2 & Hi & Hlen & Hs);
    [lia..| |].
  { split; [apply length_replicate|]. intros k Hk. split; [|intros (p & ? & _); lia].
    intros Hn. assert (Hin : In true (replicate (Z.to_nat N) false)).
    { rewrite <- Hn. apply nth_In. rewrite length_replicate. lia. }
    apply list_elem_of_In, elem_of_replicate in Hin as [? _]. done. }
  set (M' := if M <? 2 then 2 else M).
  assert (HM' : 2 ≤ M' ∧ M ≤ M' ∧ (2 ≤ M → M' = M) ∧ (M < 2 → M' = 2))
    by (subst M'; destruct (M <? 2) eqn:?; bool_to_prop; lia).
  rewrite sieve_collect_spec by lia. split.
  - intros p. rewrite list_elem_of_filter, elem_of_seqZ. split.
    + intros [Hn Hp]. split; [|lia]. apply composite_prime; [lia|].
      intros (q & Hq & Hqq & Hd). apply not_true_iff_false in Hn. apply Hn.
      apply Hs; [lia|]. exists q. split; [nia|done].
    + intros [Hp Hr]. pose proof (Z.prime_ge_2 p Hp). split; [|lia].
      apply not_true_iff_false. intros Hn. apply Hs in Hn as (q & Hq & Hqq & Hd); [|lia].
      apply composite_prime in Hp; [|lia]. apply Hp. exists q. split; [lia|done].
  - apply StronglySorted_filtered. assert (Hss : ∀ n a, StronglySorted Z.lt (seqZ a (Z.of_nat n))).
    { intros n. induction n as [|n IHn]; intros a; [rewrite seqZ_nil by lia; constructor|].
      rewrite seqZ_cons by lia. constructor.
      - replace (Z.pred (Z.of_nat (S n))) with (Z.of_nat n) by lia. apply IHn.
      - apply Forall_forall. intros x Hx%elem_of_seqZ. lia. }
    destruct (decide (0 ≤ N - M')); [|by rewrite seqZ_nil by lia; constructor].
    rewrite <- (Z2Nat.id (N - M')) by done. apply Hss.
Qed.

(** [Trim] removes every white space rune and keeps the bytes of all
    the others, in order. *)
Theorem Trim_spec str :
  Trim str = concat (filter (λ rc : Z * bytes, IsSpace rc.1 = false) (utf8.chunks str)).*2.
Proof. unfold Trim, Fields. by rewrite Fields_loop_concat. Qed.

(** [GetSubStr] returns what lies between the first occurrence of the
    start mark and the next occurrence of the end mark, and the empty string
    when either is missing; its slice expression never panics. *)
Theorem GetSubStr_between content startsWith endsWith :
  endsWith ≠ [] →
  (∃ pre mid post, content = pre ++ startsWith ++ mid ++ endsWith ++ post ∧
     GetSubStr content startsWith endsWith = Ok mid ∧
     (∀ pre' post', content = pre' ++ startsWith ++ post' → (length pre ≤ length pre')%nat) ∧
     (∀ mid' post', mid ++ endsWith ++ post = mid' ++ endsWith ++ post' → (length mid ≤ length mid')%nat))
  ∨ (GetSubStr content startsWith endsWith = Ok [] ∧
     ((∀ pre post, content ≠ pre ++ startsWith ++ post) ∨
      ∃ pre rest, content = pre ++ startsWith ++ rest ∧ ∀ mid post, rest ≠ mid ++ endsWith ++ post)).
Proof.
  intros Hne. unfold GetSubStr. destruct (bytes_index content startsWith) as [i|] eqn:Hi.
  2: { right. split; [done|]. left. by apply bytes_index_None. }
  apply bytes_index_Some in Hi as (pre & rest & -> & <- & Hmin). rewrite bool_decide_eq_false_2 by done.
  replace (Z.to_nat (Z.of_nat (length pre) + Z.of_nat (length startsWith)))
    with (length (pre ++ startsWith)) by (rewrite length_app; lia).
  rewrite app_assoc, drop_app_length.
  destruct (bytes_index rest endsWith) as [j|] eqn:Hj.
  2: { right. split; [done|]. right. exists pre, rest. rewrite <- app_assoc. split; [done|].
       by apply bytes_index_None. }
  apply bytes_index_Some in Hj as (mid & post & -> & <- & Hmin2).
  left. exists pre, mid, post. split; [by rewrite <- app_assoc|]. split.
  - unfold slice. rewrite !length_app. ztest. cbn [andb]. f_equal.
    replace (Z.to_nat _) with (length (pre ++ startsWith)) by (rewrite length_app; lia).
    replace (Z.to_nat _) with (length ((pre ++ startsWith) ++ mid)) by (rewrite !length_app; lia).
    rewrite (app_assoc _ mid), take_app_length. apply drop_app_length.
  - split; [|done]. intros pre' post' Heq. apply (Hmin pre' post'). by rewrite <- Heq, <- app_assoc.
Qed.

(** Printing an integer and reading it back returns it, for every
    pair of conversions and every value of the type. *)
Theorem int_roundtrip :
  (∀ z d, in_int64 z → StrToInt64Default (Int64ToStr z) d = z ∧ StrToInt (IntToStr z) = z) ∧
  (∀ z d, in_uint64 z → StrToUInt64Default (UInt64ToStr z) d = z) ∧
  (∀ z d, - 2 ^ 31 ≤ z < 2 ^ 31 → StrToInt32Default (Int32ToStr z) d = z).
Proof.
  split_and!.
  - intros z d Hz. pose proof (strconv.Atoi_Itoa z Hz) as H.
    unfold StrToInt64Default, StrToInt, Int64ToStr, IntToStr. fold (strconv.Itoa z). by rewrite H.
  - intros z d Hz. unfold in_uint64, MaxUint64 in Hz. unfold StrToUInt64Default, UInt64ToStr.
    by rewrite strconv.ParseUint_FormatUint by lia.
  - intros z d Hz. unfold StrToInt32Default, Int32ToStr.
    rewrite strconv.ParseInt_FormatInt by (change (32 - 1) with 31; lia).
    unfold wrapS. change (32 - 1) with 31. rewrite Z.mod_small by lia. lia.
Qed.

Lemma commas_to_points_id s : Forall (λ c, c ≠ 44) s → commas_to_points s = s.
Proof.
  induction 1 as [|c s Hc _ IH]; [done|]. unfold commas_to_points in *. cbn. rewrite IH.
  by apply Z.eqb_neq in Hc; rewrite Hc.
Qed.

(** A float32 that is printed and read back is the same float32, infinities
    and NaN included, and so is it when its point has become a comma; a text
    that is no number gives the default. *)
Theorem float32_roundtrip x d s :
  float.wf float.binary32 x → commas_to_points s = commas_to_points (Flat32ToStr x) →
  StrToFloat32Default s d = x.
Proof.
  intros Hx Hs. unfold StrToFloat32Default, Flat32ToStr in *. rewrite float.convert_widen in Hs by done.
  rewrite Hs, commas_to_points_id by (by apply float.FormatFloat_no_comma; [apply float.wf_binary32|]).
  rewrite (float.ParseFloat_FormatFloat _ x float.wf_binary32 Hx). by apply float.convert_widen.
Qed.

(** Without digits to keep, [TruncateFloat] is the integer part. *)
Theorem TruncateFloat_whole f precision :
  float.wf float.binary64 f → precision ≤ 0 → TruncateFloat f precision = float.Trunc float.binary64 f.
Proof.
  intros Hf Hp. unfold TruncateFloat.
  assert (Hm : (if precision <? 0 then float.of_int float.binary64 1
    else float.Pow float.binary64 (float.of_int float.binary64 10) (float64_int precision)) = float.of_int float.binary64 1).
  { destruct (precision <? 0) eqn:E; [done|]. bool_to_prop. assert (precision = 0) as -> by lia. by vm_compute. }
  rewrite Hm, (float.mul_1 f Hf). by apply float.div_1, float.Trunc_wf; [apply float.wf_binary64|].
Qed.

(** What truncation does otherwise goes through the rounded product: 0.29 cut
    after two digits is 0.28, a large number overflows, and beyond 308 digits
    there is nothing left. *)
Lemma TruncateFloat_rounds :
  let parse s := (float.ParseFloat (bytes_of_string s) float.binary64).1 in
  TruncateFloat (parse "1.2345"%string) 2 = parse "1.23"%string ∧
  TruncateFloat (parse "0.29"%string) 2 = parse "0.28"%string ∧
  TruncateFloat (parse "1e300"%string) 10 = float.Inf false ∧
  TruncateFloat (parse "1.5"%string) 309 = float.NaN.
Proof. split_and!; by vm_compute. Qed.

(** Every float64 but a NaN has eight bytes, and they determine it, the two
    zeros apart. *)
Theorem Float64ToByte_injective x y l :
  float.wf float.binary64 x → float.wf float.binary64 y →
  Float64ToByte x = Some l → Float64ToByte y = Some l → length l = 8%nat ∧ x = y.
Proof.
  intros Hx Hy. unfold Float64ToByte. destruct (float.bits _ x) as [z|] eqn:Ex; [|done]. intros [= <-].
  destruct (float.bits _ y) as [z'|] eqn:Ey; [|done]. intros Hl%(inj Some). split; [done|].
  assert (z' = z) as ->; [|by apply (float.bits_inj x y z)].
  rewrite <- (binary.be64_value z' (float.bits_range y z' Hy Ey)), Hl.
  apply binary.be64_value, (float.bits_range x z Hx Ex).
Qed.

(** Out of range, [StrToInt] returns the bound that was crossed. *)
Lemma StrToInt_out_of_range : StrToInt "9223372036854775808" = MaxInt64.
Proof. by vm_compute. Qed.

Definition sample : bytes := bytes_of_string "añb".

Lemma sample_valid : utf8.Valid sample.
Proof.
  exists [97; 241; 98]. split; [repeat constructor|by vm_compute].
Qed.

Lemma SubStr_runes_witness : SubStr sample 1 1 = Ok (bytes_of_string "ñ").
Proof. rewrite (SubStr_runes sample 1 1); [by vm_compute|apply sample_valid|done..]. Defined.

Lemma RemoveUnreadable_runes_witness :
  utf8.runes (RemoveUnreadable (λ r, 913 <=? r) [9; 65; 0xCE; 0x91; 0x7F; 255]) = [65; 913; 65533] ∧
  utf8.Valid (RemoveUnreadable (λ r, 913 <=? r) [9; 65; 0xCE; 0x91; 0x7F; 255]).
Proof.
  destruct (RemoveUnreadable_runes (λ r, 913 <=? r) [9; 65; 0xCE; 0x91; 0x7F; 255]) as (H1 & H2 & _).
  - repeat constructor; lia.
  - split; [rewrite H1; vm_compute; reflexivity|exact H2].
Defined.

Lemma Reverse_involutive_witness : Reverse (Reverse sample) = sample.
Proof. destruct (Reverse_involutive sample) as (_ & H & _); [apply sample_valid|exact H]. Defined.

Lemma SieveOfEratosthenes_primes_witness : 19 ∈ SieveOfEratosthenes 0 20 ∧ Z.prime 19.
Proof.
  destruct (SieveOfEratosthenes_primes 0 20) as [H _]; [lia|].
  assert (19 ∈ SieveOfEratosthenes 0 20) by (apply (bool_decide_unpack _); by vm_compute).
  split; [done|]. by apply H.
Defined.

Lemma float32_roundtrip_witness :
  let x := float.Fin false 13421773 (-27) in
  Flat32ToStr x = bytes_of_string "0.1" ∧ StrToFloat32Default (bytes_of_string "0,1") (float.zero float.binary32 false) = x.
Proof.
  split; [by vm_compute|]. apply float32_roundtrip; [by repeat split; cbn; lia|by vm_compute].
Defined.

Lemma Float64ToByte_injective_witness :
  let x := float.Fin true (2 ^ 52) (-52) in
  Float64ToByte x = Some [191; 240; 0; 0; 0; 0; 0; 0] ∧ x = float.of_int float.binary64 (-1).
Proof.
  split; [reflexivity|].
  apply (Float64ToByte_injective (float.Fin true (2 ^ 52) (-52)) (float.of_int float.binary64 (-1))
    [191; 240; 0; 0; 0; 0; 0; 0]); [by repeat split; cbn; lia| |by vm_compute..].
  vm_compute. repeat split; discriminate || (left; discriminate).
Defined.

Lemma TruncateFloat_whole_witness :
  TruncateFloat (float.Fin true 5 (-1074)) (-3) = float.Trunc float.binary64 (float.Fin true 5 (-1074)).
Proof. apply TruncateFloat_whole; [by repeat split; cbn; lia|lia]. Defined.

Lemma int_roundtrip_witness : StrToInt64Default (Int64ToStr (-42)) 0 = -42 ∧ StrToInt (IntToStr 7) = 7.
Proof.
  split.
  - apply int_roundtrip. by unfold in_int64, MinInt64, MaxInt64.
  - destruct int_roundtrip as [H _]. apply (H 7 0). by unfold in_int64, MinInt64, MaxInt64.
Defined.

Lemma GetSubStr_between_witness :
  GetSubStr (bytes_of_string "k=<v>;") (bytes_of_string "<") (bytes_of_string ">") = Ok (bytes_of_string "v").
Proof.
  destruct (GetSubStr_between (bytes_of_string "k=<v>;") (bytes_of_string "<") (bytes_of_string ">"))
    as [_|_]; [done|by vm_compute..].
Defined.
End Utils.
