(* ===== verification/UtilsIO.v ===== *)
(** * Utilities with effects: copying files, random sleeps, text of a page
    (utils/utilsFile.go, utilsTime.go, html/utilsHTML.go), readers and JSON
    (utilsStream.go, utilsJson.go), goroutines that recover (gos/gos.go) *)

From S2P Require Import Prelude GoBytes.

(** ** [CopyFile]

    A file system of names, each the name of an inode; the directory part
    of a name and the symbolic links are not modelled.  Every call of the
    operating system may fail. *)

Module Files.

Record file := MkFile { content : bytes; mode : Z }.
Record fs := MkFs { names : gmap string nat; inodes : gmap nat file; next_ino : nat }.

(** What is read through a name. *)
Definition read (s : fs) (n : string) : option file := i ← names s !! n; inodes s !! i.

Definition FileExists (s : fs) (fileName : string) : bool := bool_decide (is_Some (names s !! fileName)).

(** Which calls fail; a copy that fails has written [copy_fails] bytes. *)
Record faults := MkFaults {
  open_fails : bool; stat_fails : bool; create_fails : bool; copy_fails : option nat;
  close_fails : bool; chmod_fails : bool; rename_fails : bool; remove_fails : bool
}.
Definition no_faults : faults := MkFaults false false false None false false false false.

(** [os.Create]: an existing file is truncated and keeps its mode. *)
Definition create (umask_mode : Z) (s : fs) (n : string) : fs * nat :=
  match names s !! n with
  | Some j => (MkFs (names s) (alter (λ f, MkFile [] (mode f)) j (inodes s)) (next_ino s), j)
  | None => (MkFs (<[n := next_ino s]> (names s)) (<[next_ino s := MkFile [] umask_mode]> (inodes s)) (S (next_ino s)), next_ino s)
  end.

Definition write (s : fs) (j : nat) (b : bytes) : fs :=
  MkFs (names s) (alter (λ f, MkFile b (mode f)) j (inodes s)) (next_ino s).
Definition chmod (s : fs) (j : nat) (m : Z) : fs :=
  MkFs (names s) (alter (λ f, MkFile (content f) m) j (inodes s)) (next_ino s).
(** [os.Rename]: nothing when both names are the same file. *)
Definition rename (s : fs) (a b : string) : fs :=
  match names s !! a with
  | Some j => if bool_decide (names s !! b = Some j) then s else MkFs (<[b := j]> (delete a (names s))) (inodes s) (next_ino s)
  | None => s
  end.
Definition remove (s : fs) (n : string) : fs := MkFs (delete n (names s)) (inodes s) (next_ino s).

Definition tmp_of (toFileName : string) : string := toFileName ++ ".tmp".

(** [CopyFile]: the states the file system passes through, the last one
    first, and the error. *)
Definition CopyFile (flt : faults) (umask_mode : Z) (fromFileName toFileName : string) (s : fs) : list fs * option string :=
  match names s !! fromFileName with
  | None => ([s], Some "open"%string)
  | Some i =>
      if open_fails flt then ([s], Some "open"%string)
      else match inodes s !! i with
      | None => ([s], Some "stat"%string)
      | Some fi =>
          if stat_fails flt then ([s], Some "stat"%string)
          else
            let tmpFileName := tmp_of toFileName in
            if create_fails flt then ([s], Some "create"%string)
            else
              let '(s1, w) := create umask_mode s tmpFileName in
              let data := match inodes s1 !! i with Some f => content f | None => [] end in
              let copied := match copy_fails flt with Some n => n | None => length data end in
              let writes := map (λ n, write s1 w (take n data)) (reverse (seq 0 (S copied))) in
              let s2 := write s1 w (take copied data) in
              let copyErr := match copy_fails flt with
                             | Some _ => Some "copy"%string
                             | None => if close_fails flt then Some "close"%string else None
                             end in
              let '(s3, copyErr) :=
                match copyErr with
                | None => if chmod_fails flt then (s2, Some "chmod"%string) else (chmod s2 w (Z.land (mode fi) 0x1FF), None)
                | e => (s2, e)
                end in
              match copyErr with
              | None => if rename_fails flt then ([s3] ++ writes ++ [s1; s], Some "rename"%string)
                        else ([rename s3 tmpFileName toFileName; s3] ++ writes ++ [s1; s], None)
              | Some e => ([(if remove_fails flt then s3 else remove s3 tmpFileName); s3] ++ writes ++ [s1; s], Some e)
              end
      end
  end.

(** ** Properties *)

(** Every name names an inode that exists, and new inodes are fresh. *)
Definition wf (s : fs) : Prop :=
  ∀ n i, names s !! n = Some i → (i < next_ino s)%nat ∧ is_Some (inodes s !! i).

(** The only name of its inode, if it names one. *)
Definition unshared (s : fs) (t : string) : Prop :=
  ∀ n j, names s !! t = Some j → names s !! n = Some j → n = t.

(** [s'] reads like [s] but at [t], where inode [w] is. *)
Record like (s s' : fs) (t : string) (w : nat) : Prop := MkLike {
  like_t : names s' !! t = Some w;
  like_names : ∀ n, n ≠ t → names s' !! n = names s !! n ∧ names s !! n ≠ Some w;
  like_inodes : ∀ i, i ≠ w → (∃ n, names s !! n = Some i) → inodes s' !! i = inodes s !! i
}.

Lemma like_read s s' t w n : like s s' t w → n ≠ t → read s' n = read s n.
Proof.
  intros [Ht Hn Hi] Hne. destruct (Hn n Hne) as [E Hw]. unfold read. rewrite E.
  destruct (names s !! n) as [i|] eqn:En; [|done]. cbn. apply Hi; [congruence|by exists n].
Qed.

Lemma create_like u s t s1 w : wf s → unshared s t → create u s t = (s1, w) →
  like s s1 t w ∧ ∃ m, inodes s1 !! w = Some (MkFile [] m).
Proof.
  intros Hwf Hun. unfold create. destruct (names s !! t) as [j|] eqn:E; intros [= <- <-]; (split; [split; cbn|]).
  - done.
  - intros n Hne. split; [done|]. intros Hn. by apply Hne, (Hun n j).
  - intros i Hi _. by rewrite lookup_alter_ne.
  - destruct (Hwf _ _ E) as [_ [f Hf]]. exists (mode f). cbn. by rewrite lookup_alter_eq, Hf.
  - by rewrite lookup_insert_eq.
  - intros n Hne. rewrite lookup_insert_ne by done. split; [done|]. intros Hn. destruct (Hwf _ _ Hn). lia.
  - intros i Hi [n Hn]. by rewrite lookup_insert_ne.
  - exists u. cbn. by rewrite lookup_insert_eq.
Qed.

Lemma alter_like s s1 t w g : like s s1 t w → like s (MkFs (names s1) (alter g w (inodes s1)) (next_ino s1)) t w.
Proof. intros [Ht Hn Hi]. split; cbn; try done. intros i Hne Hex. rewrite lookup_alter_ne by done. by apply Hi. Qed.

(** What the other names read through a state the copy passes through. *)
Definition untouched (s s' : fs) (t : string) : Prop := ∀ n, n ≠ t → read s' n = read s n.

Lemma like_untouched s s' t w : like s s' t w → untouched s s' t.
Proof. intros H n. by eapply like_read. Qed.

(** The rename puts the copy under its name and leaves the others alone. *)
Lemma rename_read s s3 t w to : like s s3 t w → to ≠ t →
  read (rename s3 t to) to = inodes s3 !! w ∧ read (rename s3 t to) t = None ∧
  ∀ n, n ≠ to → n ≠ t → read (rename s3 t to) n = read s n.
Proof.
  intros Hl Hto. destruct (Hl) as [Ht Hn Hi]. unfold rename. rewrite Ht.
  destruct (Hn to Hto) as [E Hw]. rewrite bool_decide_false by (rewrite E; done). split_and!.
  - unfold read. cbn. by rewrite lookup_insert_eq.
  - unfold read. cbn. by rewrite lookup_insert_ne, lookup_delete_eq.
  - intros n H1 H2. rewrite <- (like_read _ _ _ _ n Hl H2). unfold read. cbn.
    by rewrite lookup_insert_ne, lookup_delete_ne.
Qed.

Lemma remove_untouched s s3 t w : like s s3 t w → untouched s (remove s3 t) t.
Proof.
  intros Hl n Hn. rewrite <- (like_read _ _ _ _ n Hl Hn). unfold read, remove. cbn. by rewrite lookup_delete_ne.
Qed.

Lemma tmp_of_ne to : to ≠ tmp_of to.
Proof.
  intros E. apply (f_equal String.length) in E. unfold tmp_of in E. rewrite strings.length_app in E. cbn in E. lia.
Qed.

(** The destination has the content and the permissions of [f], the
    temporary name is gone, and the other names are untouched. *)
Definition installed (s s' : fs) (to : string) (f : file) : Prop :=
  read s' to = Some (MkFile (content f) (Z.land (mode f) 0x1FF)) ∧ read s' (tmp_of to) = None ∧
  ∀ n, n ≠ to → n ≠ tmp_of to → read s' n = read s n.



(** A source named like the temporary file of the destination is truncated
    before it is read: the copy succeeds and both files are lost. *)
Lemma copy_of_tmp_loses :
  let s := MkFs {[ "b.tmp"%string := 0%nat ]} {[ 0%nat := MkFile [1; 2; 3] 0x1FF ]} 1 in
  ∃ s' before, CopyFile no_faults 0x1A4 "b.tmp" "b" s = (s' :: before, None) ∧
    read s' "b" = Some (MkFile [] 0x1FF) ∧ read s' "b.tmp" = None.
Proof. cbv zeta. eexists _, _. split; [reflexivity|]. split; reflexivity. Qed.

(** A rename that fails leaves the temporary file. *)
Lemma rename_fails_leaves_tmp :
  let s := MkFs {[ "a"%string := 0%nat ]} {[ 0%nat := MkFile [1; 2; 3] 0x1FF ]} 1 in
  ∃ s' before, CopyFile (MkFaults false false false None false false true false) 0x1A4 "a" "b" s = (s' :: before, Some "rename"%string) ∧
    read s' "b.tmp" = Some (MkFile [1; 2; 3] 0x1FF).
Proof. cbv zeta. eexists _, _. split; reflexivity. Qed.
End Files.

(** ** Random sleeps *)

Module Sleeps.

(** [time.Duration(n) * unit] on 64 bits. *)
Definition duration (n unit : Z) : Duration := wrap64 (n * unit).

(** The time to sleep; [None] is the panic of [rand.Intn] on a limit that
    is not positive, [r n] is the number it gives for the limit [n]. *)
Definition Intn (r : Z → Z) (n : Z) : option Z := if n <=? 0 then None else Some (r n).

Definition SleepSec (seconds : Z) : Duration := duration seconds Second.

Definition SleepRNDMin (r : Z → Z) (minSec limitSec : Z) : option Duration :=
  if limitSec <=? 0 then Some 0
  else
    let limitSec := if limitSec <=? minSec then wrap64 (minSec + 1) else limitSec in
    n ← Intn r (wrap64 (limitSec - minSec)); Some (duration (wrap64 (minSec + n)) Second).

Definition SleepRND (r : Z → Z) (limitSec : Z) : option Duration := SleepRNDMin r 0 limitSec.

Definition SleepRNDMilliSec (r : Z → Z) (minMilliSec limitMilliSec : Z) : option Duration :=
  if limitMilliSec <=? 0 then Some 0
  else n ← Intn r limitMilliSec; Some (duration (wrap64 (n + minMilliSec)) Millisecond).

Definition rand_ok (r : Z → Z) : Prop := ∀ n, 0 < n → 0 ≤ r n < n.

(** For bounds up to the longest duration, [SleepRNDMin] sleeps a whole
    number of seconds from the minimum to below the limit, or the minimum
    when the limit is not above it; [SleepRNDMilliSec] sleeps from the
    minimum to below the sum of its two arguments; neither panics. *)
Theorem sleeps_in_bounds r lo hi :
  rand_ok r → 0 ≤ lo ≤ 2 ^ 32 → 0 < hi ≤ 2 ^ 32 →
  (∃ n, SleepRNDMin r lo hi = Some (n * Second) ∧ lo ≤ n < Z.max hi (lo + 1)) ∧
  (∃ n, SleepRNDMilliSec r lo hi = Some (n * Millisecond) ∧ lo ≤ n < lo + hi).
Proof.
  intros Hr Hlo Hhi. assert (∀ z, - 2 ^ 63 ≤ z < 2 ^ 63 → wrap64 z = z) as Hw.
  { intros z Hz. apply wrap64_id. unfold in_int64, MinInt64, MaxInt64. lia. }
  unfold SleepRNDMin, SleepRNDMilliSec, Intn, duration, Second, Millisecond.
  rewrite (proj2 (Z.leb_gt hi 0)) by lia. split.
  - set (l := if hi <=? lo then wrap64 (lo + 1) else hi).
    assert (l = Z.max hi (lo + 1)) as -> by (subst l; destruct (Z.leb_spec hi lo); rewrite ?Hw; lia).
    rewrite (Hw (_ - _)) by lia. rewrite (proj2 (Z.leb_gt _ 0)) by lia. cbn [mbind option_bind].
    specialize (Hr (Z.max hi (lo + 1) - lo) ltac:(lia)). exists (lo + r (Z.max hi (lo + 1) - lo)).
    rewrite (Hw (lo + _)) by lia. rewrite Hw by lia. split; [done|lia].
  - cbn [mbind option_bind]. specialize (Hr hi ltac:(lia)). exists (r hi + lo). rewrite (Hw (r hi + lo)) by lia. rewrite Hw by lia.
    split; [done|lia].
Qed.

Lemma sleeps_in_bounds_witness :
  (∃ n, SleepRNDMin (λ _, 0) 2 5 = Some (n * Second) ∧ 2 ≤ n < 5) ∧
  (∃ n, SleepRNDMilliSec (λ n, n - 1) 2 5 = Some (n * Millisecond) ∧ 2 ≤ n < 7).
Proof.
  split.
  - refine (proj1 (sleeps_in_bounds (λ _, 0) 2 5 _ _ _)); [intros n Hn|..]; lia.
  - refine (proj2 (sleeps_in_bounds (λ n, n - 1) 2 5 _ _ _)); [intros n Hn|..]; lia.
Defined.

(** The second argument of the milliseconds is a width, not a limit. *)
Lemma milliseconds_width : SleepRNDMilliSec (λ n, n - 1) 2 5 = Some (6 * Millisecond).
Proof. reflexivity. Qed.
End Sleeps.

(** ** The text of a page *)

Module Html.

(** The UTF-8 encodings of the spaces [strings.TrimSpace] takes away. *)
Definition spaces : list bytes :=
  [[9]; [10]; [11]; [12]; [13]; [32]; [0xC2; 0x85]; [0xC2; 0xA0]; [0xE1; 0x9A; 0x80]] ++
  map (λ b, [0xE2; 0x80; b]) [0x80; 0x81; 0x82; 0x83; 0x84; 0x85; 0x86; 0x87; 0x88; 0x89; 0x8A; 0xA8; 0xA9; 0xAF] ++
  [[0xE2; 0x81; 0x9F]; [0xE3; 0x80; 0x80]].

Definition strip_one (encs : list bytes) (l : bytes) : option bytes :=
  match list_find (λ e, bytes_prefix e l = true) encs with
  | Some (_, e) => Some (drop (length e) l)
  | None => None
  end.

Fixpoint strip (fuel : nat) (encs : list bytes) (l : bytes) : bytes :=
  match fuel with
  | O => l
  | S fuel => match strip_one encs l with Some l' => strip fuel encs l' | None => l end
  end.

Definition TrimSpace (l : bytes) : bytes :=
  let l := strip (length l) spaces l in
  rev (strip (length l) (map (@rev Z) spaces) (rev l)).

Inductive token := StartTag (data : string) | EndTag (data : string) | Text (t : bytes) | OtherToken.

Section html.
Context (UnescapeString : bytes → bytes).

(** The loop, from the tokens before the error that ends them; [Text] has
    what [Tokenizer.Text] returns. *)
Fixpoint loop (ts : list token) (inTag : string) (entered : bool) (b : bytes) : bytes :=
  match ts with
  | [] => b
  | StartTag data :: ts =>
      loop ts (if (data =? "script")%string || (data =? "style")%string then data else inTag) entered b
  | EndTag data :: ts =>
      let inTag := if (data =? inTag)%string then "" else inTag in
      if (inTag =? "")%string && negb entered then loop ts inTag true (b ++ [10]) else loop ts inTag entered b
  | Text t :: ts =>
      if negb (inTag =? "")%string then loop ts inTag entered b
      else
        let TxtContent := TrimSpace (UnescapeString t) in
        if (0 <? Z.of_nat (length TxtContent)) then loop ts inTag false (b ++ TxtContent) else loop ts inTag entered b
  | OtherToken :: ts => loop ts inTag entered b
  end.

Definition HtmlToText (ts : list token) : bytes := loop ts "" false [].

(** The texts of a script or a style sheet leave no trace. *)
Lemma script_text_dropped d texts ts b entered :
  d = "script"%string ∨ d = "style"%string →
  loop (StartTag d :: map Text texts ++ EndTag d :: ts) "" entered b = loop (StartTag d :: EndTag d :: ts) "" entered b.
Proof.
  intros Hd. assert (loop (map Text texts ++ EndTag d :: ts) d entered b = loop (EndTag d :: ts) d entered b) as H.
  { induction texts as [|t texts IH]; [done|]. cbn. destruct Hd as [-> | ->]; cbn; exact IH. }
  cbn. destruct Hd as [-> | ->]; cbn; exact H.
Qed.
End html.

Example html_ex :
  HtmlToText id [StartTag "p"; Text [32; 97; 0xC2; 0xA0]; EndTag "p"; EndTag "div"; StartTag "p"; Text [98]; EndTag "p"] =
  [97; 10; 98; 10].
Proof. reflexivity. Qed.
End Html.

(** ** Readers and JSON *)

Module Streams.

(** A reader: the pieces its reads return, the error it ends with ([None] is
    [io.EOF]) and whether it has been closed. *)
Record Reader := MkReader { pieces : list bytes; fails : option string; closed : bool }.

(** [io.ReadAll]: what was read, with the error. *)
Definition ReadAll (r : Reader) : bytes * option string * Reader :=
  (concat (pieces r), fails r, MkReader [] (fails r) (closed r)).

Definition StreamToByte (r : Reader) : bytes * Reader :=
  let '(decompressed, _, r) := ReadAll r in (decompressed, r).

(** [io.Copy] to a builder, which does not fail. *)
Definition StreamToString (r : Reader) : bytes * Reader :=
  let '(buf, _, r) := ReadAll r in (buf, r).

Definition ReadCloserToString (r : Reader) : bytes * Reader :=
  let '(readed, _, r) := ReadAll r in (readed, MkReader (pieces r) (fails r) true).

(** Over a reader that fails the three return what came before the failure,
    and the last one has closed it. *)
Lemma partial_reads r :
  (StreamToByte r).1 = concat (pieces r) ∧ (StreamToString r).1 = concat (pieces r) ∧
  (ReadCloserToString r).1 = concat (pieces r) ∧ closed (ReadCloserToString r).2 = true.
Proof. done. Qed.

Section json.
(** [json.Marshal] and [json.MarshalIndent] on the values of the program. *)
Context {A : Type} (Marshal MarshalIndent : A → result bytes).

Definition ToJsonB (a : A) : option bytes :=
  match Marshal a with Ok b => Some b | Err _ => None end.
Definition ToJson (a : A) : bytes :=
  match Marshal a with Ok b => b | Err e => bytes_of_string e end.
Definition ToJsonPretty (a : A) : bytes :=
  match MarshalIndent a with Ok b => b | Err e => bytes_of_string e end.
End json.
End Streams.

(** ** Goroutines that recover *)

Module Gos.

(** How a function ends on the state it shares. *)
Inductive outcome (S : Type) := Returned (s : S) | Panicked (r : string) (s : S).
Arguments Returned {S} _.
Arguments Panicked {S} _ _.

(** The goroutine of [SafeGo]: the state it leaves and what it logs; without
    the deferred [recover] a panic ends the program. *)
Definition SafeGo {S : Type} (fn : S → outcome S) (s : S) : S * list string :=
  match fn s with
  | Returned s => (s, [])
  | Panicked r s => (s, [r])
  end.
Definition SafeGoCtx {S Ctx : Type} (ctx : Ctx) (fn : Ctx → S → outcome S) : S → S * list string :=
  SafeGo (fn ctx).
End Gos.
