(* ===== verification/Uuid.v ===== *)
(** * uuid: version 7 identifiers (utils/uuid/uuid.go)

    The clock reading and the random bytes are arguments of the operations;
    a failing random source panics in the code and is [Err] here. *)

From S2P Require Import Prelude GoBytes GoBase64.

Module Uuid.

Definition bytesLen : nat := 16.
Definition nanoPerMilli : Z := Millisecond.

Record UUID7 := MkUUID7 { uuid : bytes }.

(** [copy(dst[off:], src)]. *)
Definition copy_at (dst : bytes) (off : nat) (src : bytes) : bytes :=
  take off dst ++ take (length dst - off) src ++ drop (off + length src) dst.

(** [NewUUID7], on the receiver [u]; [nano] is [time.Now().UnixNano()]. *)
Definition UUID7_NewUUID7 (u : UUID7) (nano : Z) (rnd : result bytes) : result UUID7 :=
  let timestamp := wrapU64 (Z.quot nano nanoPerMilli) in
  let tsBuf := binary.be64 timestamp in
  let u0 := copy_at (uuid u) 0 (take 6 tsBuf) in
  let? randomBytes := rnd in
  let u1 := copy_at u0 6 randomBytes in
  let u2 := <[6%nat := Z.lor (Z.land (nth 6 u1 0) 15) (Z.shiftl 7 4)]> u1 in
  let u3 := <[8%nat := Z.lor (Z.land (nth 8 u2 0) 63) 128]> u2 in
  Ok (MkUUID7 u3).

Definition NewUUID7 (nano : Z) (rnd : result bytes) : result UUID7 :=
  UUID7_NewUUID7 (MkUUID7 (replicate bytesLen 0)) nano rnd.

Definition Base64 (u : UUID7) : string := base64.EncodeToString (uuid u).

Definition Bytes (u : UUID7) : bytes := uuid u.

Definition String_bytes (u : UUID7) : bytes :=
  let seg lo hi := hex.Encode (drop lo (take hi (uuid u))) in
  let dst := replicate 36 0 in
  let dst := copy_at dst 0 (seg 0%nat 4%nat) in
  let dst := <[8%nat := 45]> dst in
  let dst := copy_at dst 9 (seg 4%nat 6%nat) in
  let dst := <[13%nat := 45]> dst in
  let dst := copy_at dst 14 (seg 6%nat 8%nat) in
  let dst := <[18%nat := 45]> dst in
  let dst := copy_at dst 19 (seg 8%nat 10%nat) in
  let dst := <[23%nat := 45]> dst in
  copy_at dst 24 (seg 10%nat 16%nat).

Definition String_ (u : UUID7) : string := string_of_bytes (String_bytes u).

Definition xorIt (inp key : bytes) : bytes :=
  (λ i, Z.lxor (nth i inp 0) (nth (i mod bytesLen) key 0)) <$> seq 0 bytesLen.

Definition XorEncrypt (u : UUID7) (rnd : result bytes) : result string :=
  let? key := rnd in
  let ct := xorIt (uuid u) key in
  let out := replicate (bytesLen * 2) 0 in
  let out := copy_at out 0 ct in
  let out := copy_at out bytesLen key in
  Ok (base64.EncodeToString out).

Definition XorDecrypt (data : string) : result string :=
  let '(raw, ok) := base64.DecodeString data in
  if negb ok then Err "illegal base64 data"
  else if negb (length raw =? bytesLen * 2)%nat then Err "invalid xored uuid length"
  else
    let inp := copy_at (replicate bytesLen 0) 0 (take bytesLen raw) in
    let key := drop bytesLen raw in
    let dec := xorIt inp key in
    Ok (String_ (MkUUID7 dec)).

(** ** Facts *)

Lemma length_cons_inv {A} (x : A) l n : length (x :: l) = S n → length l = n.
Proof. cbn. lia. Qed.

(** A list of known length, element by element. *)
Ltac explode l H :=
  repeat match type of H with
  | length _ = S _ => destruct l as [|? l]; [discriminate H|]; apply length_cons_inv in H
  | length _ = O => apply nil_length_inv in H; subst l
  end.

Lemma String_bytes_layout a0 a1 a2 a3 a4 a5 a6 a7 a8 a9 b0 b1 b2 b3 b4 b5 :
  String_bytes (MkUUID7 [a0; a1; a2; a3; a4; a5; a6; a7; a8; a9; b0; b1; b2; b3; b4; b5]) =
  hex.Encode [a0; a1; a2; a3] ++ [45] ++ hex.Encode [a4; a5] ++ [45] ++ hex.Encode [a6; a7] ++ [45]
  ++ hex.Encode [a8; a9] ++ [45] ++ hex.Encode [b0; b1; b2; b3; b4; b5].
Proof. reflexivity. Qed.

Lemma lxor_byte a b : is_byte a → is_byte b → is_byte (Z.lxor a b).
Proof.
  unfold is_byte. intros Ha Hb. change 256 with (2 ^ 8) in *.
  assert (0 ≤ Z.lxor a b) by (apply Z.lxor_nonneg; lia).
  split; [done|]. destruct (Z.eq_dec (Z.lxor a b) 0) as [->|Hne]; [lia|].
  apply Z.log2_lt_pow2; [lia|]. eapply Z.le_lt_trans; [apply Z.log2_lxor; lia|].
  apply Z.max_lub_lt.
  - destruct (Z.eq_dec a 0) as [->|?]; [done|]. apply Z.log2_lt_pow2; lia.
  - destruct (Z.eq_dec b 0) as [->|?]; [done|]. apply Z.log2_lt_pow2; lia.
Qed.

Lemma xorIt_length inp key : length (xorIt inp key) = 16%nat.
Proof. done. Qed.

Lemma nth_wf l i : wf_bytes l → is_byte (nth i l 0).
Proof. revert i. induction l as [|b l IH]; intros [|i] [? ?]%Forall_cons || intros [|i] _; try done; simpl; auto. Qed.

Lemma xorIt_wf inp key : wf_bytes inp → wf_bytes key → wf_bytes (xorIt inp key).
Proof.
  intros Hi Hk. unfold xorIt. apply Forall_fmap, Forall_forall. intros i _. simpl.
  apply lxor_byte; by apply nth_wf.
Qed.

Lemma nth_xorIt inp key i :
  (i < 16)%nat → nth i (xorIt inp key) 0 = Z.lxor (nth i inp 0) (nth i key 0).
Proof.
  intros Hi. unfold xorIt. erewrite nth_indep by (rewrite length_fmap, length_seq; exact Hi).
  change (list_fmap _ _ ?f ?l) with (map f l).
  rewrite (map_nth (λ i, Z.lxor (nth i inp 0) (nth (i mod bytesLen) key 0)) (seq 0 bytesLen) 0%nat).
  rewrite seq_nth by exact Hi. cbn [Nat.add]. rewrite Nat.mod_small by exact Hi. done.
Qed.

Lemma xorIt_involutive inp key :
  length inp = 16%nat → length key = 16%nat → xorIt (xorIt inp key) key = inp.
Proof.
  intros Hi Hk. apply (nth_ext _ _ 0 0); [by rewrite xorIt_length|].
  intros n Hn. rewrite xorIt_length in Hn. rewrite !nth_xorIt by done.
  by rewrite Z.lxor_assoc, Z.lxor_nilpotent, Z.lxor_0_r.
Qed.

Lemma copy_at_start dst src :
  copy_at dst 0 src = take (length dst) src ++ drop (length src) dst.
Proof. unfold copy_at. by rewrite take_0, Nat.sub_0_r. Qed.

(** ** Properties *)

(** [XorDecrypt] undoes [XorEncrypt]: the text it returns is the one
    [String] prints for the identifier. *)
Theorem Xor_roundtrip u key :
  length (uuid u) = 16%nat → length key = 16%nat → wf_bytes (uuid u) → wf_bytes key →
  ∃ data, XorEncrypt u (Ok key) = Ok data ∧ XorDecrypt data = Ok (String_ u).
Proof.
  intros Hu Hk Hwu Hwk. unfold XorEncrypt. cbn [result_bind]. eexists. split; [done|].
  set (ct := xorIt (uuid u) key).
  assert (Hct : length ct = 16%nat) by apply xorIt_length.
  assert (Hout : copy_at (copy_at (replicate (bytesLen * 2) 0) 0 ct) bytesLen key = ct ++ key).
  { rewrite copy_at_start, length_replicate, Hct, take_ge by (rewrite Hct; cbv; lia).
    unfold copy_at. rewrite length_app, Hct. unfold bytesLen at 1 3. rewrite take_app_length' by done.
    rewrite length_drop, length_replicate. cbn [bytesLen Nat.mul Nat.add Nat.sub].
    rewrite take_ge by lia. rewrite drop_app, drop_ge by lia. rewrite Hct, Hk. cbn.
    by rewrite app_nil_r. }
  rewrite Hout. unfold XorDecrypt.
  rewrite base64.DecodeString_EncodeToString by (apply wf_bytes_app; split; [by apply xorIt_wf|done]).
  cbn [negb]. rewrite length_app, Hct, Hk. cbn [Nat.add Nat.mul bytesLen Nat.eqb negb].
  rewrite copy_at_start, length_replicate. unfold bytesLen.
  rewrite take_take, Nat.min_id, take_app_length', drop_app_length' by done.
  rewrite Hct, drop_ge by (rewrite length_replicate; lia).
  rewrite app_nil_r. unfold ct. rewrite xorIt_involutive by done. by destruct u.
Qed.
(** Facts on single bytes, by enumeration. *)
Lemma byte_enum (P : Z → bool) : forallb P (seqZ 0 256) = true → ∀ b, is_byte b → P b = true.
Proof.
  intros H b Hb. rewrite forallb_forall in H. apply H, list_elem_of_In, elem_of_seqZ.
  unfold is_byte in Hb. lia.
Qed.

Lemma version_bits b :
  is_byte b → let v := Z.lor (Z.land b 15) (Z.shiftl 7 4) in
  (Z.shiftr v 4 =? 7) && (Z.land v 15 =? Z.land b 15) && (0 <=? v) && (v <? 256) = true.
Proof. apply (byte_enum (λ b, let v := Z.lor (Z.land b 15) (Z.shiftl 7 4) in
  (Z.shiftr v 4 =? 7) && (Z.land v 15 =? Z.land b 15) && (0 <=? v) && (v <? 256))). by vm_compute. Qed.

Lemma variant_bits b :
  is_byte b → let v := Z.lor (Z.land b 63) 128 in
  (Z.shiftr v 6 =? 2) && (Z.land v 63 =? Z.land b 63) && (0 <=? v) && (v <? 256) = true.
Proof. apply (byte_enum (λ b, let v := Z.lor (Z.land b 63) 128 in
  (Z.shiftr v 6 =? 2) && (Z.land v 63 =? Z.land b 63) && (0 <=? v) && (v <? 256))). by vm_compute. Qed.

Lemma NewUUID7_bytes nano r0 r1 r2 r3 r4 r5 r6 r7 r8 r9 :
  0 ≤ nano ≤ MaxInt64 →
  NewUUID7 nano (Ok [r0; r1; r2; r3; r4; r5; r6; r7; r8; r9]) =
  Ok (MkUUID7 (take 6 (binary.be64 (nano / Millisecond)) ++
    [Z.lor (Z.land r0 15) (Z.shiftl 7 4); r1; Z.lor (Z.land r2 63) 128; r3; r4; r5; r6; r7; r8; r9])).
Proof.
  intros Hn. unfold NewUUID7, UUID7_NewUUID7, nanoPerMilli.
  rewrite Z.quot_div_nonneg by (unfold Millisecond; lia).
  rewrite wrapU64_id; [reflexivity|].
  unfold in_uint64, MaxUint64, MaxInt64, Millisecond in *. Z.div_mod_to_equations. lia.
Qed.

(** A new identifier has sixteen bytes, version 7 and variant 10, its
    other 74 bits after the time are those of the random source, and its first
    six bytes are the first six of the big-endian millisecond count. *)
Theorem NewUUID7_layout nano rnd :
  0 ≤ nano ≤ MaxInt64 → length rnd = 10%nat → wf_bytes rnd →
  ∃ u, NewUUID7 nano (Ok rnd) = Ok u ∧ length (uuid u) = 16%nat ∧ wf_bytes (uuid u) ∧
    take 6 (uuid u) = take 6 (binary.be64 (nano / Millisecond)) ∧
    Z.shiftr (nth 6 (uuid u) 0) 4 = 7 ∧ Z.shiftr (nth 8 (uuid u) 0) 6 = 2 ∧
    Z.land (nth 6 (uuid u) 0) 15 = Z.land (nth 0 rnd 0) 15 ∧
    Z.land (nth 8 (uuid u) 0) 63 = Z.land (nth 2 rnd 0) 63 ∧
    nth 7 (uuid u) 0 = nth 1 rnd 0 ∧ drop 9 (uuid u) = drop 3 rnd.
Proof.
  intros Hn Hr Hwf. explode rnd Hr.
  rewrite NewUUID7_bytes by done. eexists. split; [reflexivity|]. cbn [uuid].
  unfold wf_bytes in Hwf. rewrite !Forall_cons in Hwf. destruct_and!.
  pose proof (version_bits z ltac:(done)) as Hv. pose proof (variant_bits z1 ltac:(done)) as Hw.
  cbn zeta in Hv, Hw. bool_to_prop.
  split; [reflexivity|]. split.
  { apply wf_bytes_app. split; [apply Forall_take, binary.be64_wf|].
    unfold wf_bytes. rewrite !Forall_cons. unfold is_byte at 1 3. split_and!; try done; lia. }
  split; [reflexivity|]. cbn [app take binary.be64 seq fmap list_fmap nth drop].
  split_and!; done.
Qed.

Lemma NewUUID7_prefix nano rnd u :
  0 ≤ nano ≤ MaxInt64 → length rnd = 10%nat → NewUUID7 nano (Ok rnd) = Ok u →
  take 6 (uuid u) = take 6 (binary.be64 (nano / Millisecond)).
Proof.
  intros Hn Hr. explode rnd Hr. rewrite NewUUID7_bytes by done. intros [= <-]. reflexivity.
Qed.

(** The six bytes copied are the high ones: every identifier made
    within the same 65536 ms window starts with the same six bytes, so the
    identifiers are not ordered by their millisecond. *)
Theorem NewUUID7_time_window nano1 nano2 rnd1 rnd2 u1 u2 :
  0 ≤ nano1 ≤ MaxInt64 → 0 ≤ nano2 ≤ MaxInt64 →
  nano1 / Millisecond / 65536 = nano2 / Millisecond / 65536 →
  length rnd1 = 10%nat → length rnd2 = 10%nat →
  NewUUID7 nano1 (Ok rnd1) = Ok u1 → NewUUID7 nano2 (Ok rnd2) = Ok u2 →
  take 6 (uuid u1) = take 6 (uuid u2).
Proof.
  intros H1 H2 Hw Hr1 Hr2 Hu1 Hu2.
  rewrite (NewUUID7_prefix nano1 rnd1 u1), (NewUUID7_prefix nano2 rnd2 u2) by done.
  assert (Hb : ∀ t, take 6 (binary.be64 t) =
    (λ i, Z.land (Z.shiftr (t / 65536) (8 * (5 - Z.of_nat i))) 255) <$> seq 0 6).
  { intros t. cbn [binary.be64 seq fmap list_fmap take]. 
    change (t / 65536) with (t / 2 ^ 16). rewrite <- Z.shiftr_div_pow2 by lia.
    by rewrite !Z.shiftr_shiftr by lia. }
  by rewrite !Hb, Hw.
Qed.

Definition rnd0 : bytes := [255; 1; 255; 3; 4; 5; 6; 7; 8; 9].

Lemma Xor_roundtrip_witness :
  ∃ data, XorEncrypt (MkUUID7 (seqZ 0 16)) (Ok (seqZ 100 16)) = Ok data ∧
    XorDecrypt data = Ok "00010203-0405-0607-0809-0a0b0c0d0e0f"%string.
Proof.
  apply (Xor_roundtrip (MkUUID7 (seqZ 0 16)) (seqZ 100 16)); [done|done|by repeat constructor..].
Defined.

Lemma NewUUID7_layout_witness :
  ∃ u, NewUUID7 1700000000000000000 (Ok rnd0) = Ok u ∧ nth 6 (uuid u) 0 = 127.
Proof.
  destruct (NewUUID7_layout 1700000000000000000 rnd0) as (u & Hu & _);
    [unfold MaxInt64; lia|done|by repeat constructor|].
  exists u. split; [exact Hu|]. assert (Hc : NewUUID7 1700000000000000000 (Ok rnd0) = Ok u) by exact Hu.
  vm_compute in Hc. by injection Hc as <-.
Defined.

(** Two identifiers made 60 seconds apart, the later one sorting first. *)
Lemma NewUUID7_time_window_witness :
  ∃ u1 u2, NewUUID7 1700000000000000000 (Ok (replicate 10 255)) = Ok u1 ∧
    NewUUID7 1700000010000000000 (Ok (replicate 10 0)) = Ok u2 ∧
    take 6 (uuid u1) = take 6 (uuid u2) ∧ nth 7 (uuid u2) 0 < nth 7 (uuid u1) 0.
Proof.
  eexists _, _. split; [vm_compute; reflexivity|]. split; [vm_compute; reflexivity|]. split; [|by vm_compute].
  apply (NewUUID7_time_window 1700000000000000000 1700000010000000000 (replicate 10 255) (replicate 10 0));
    [unfold MaxInt64; lia|unfold MaxInt64; lia|by vm_compute..].
Defined.
End Uuid.
