(* ===== verification/LdapUtils.v ===== *)
(** * ldap attribute conversions (ldap/utils.go)

    Go strings that hold raw bytes are [bytes]; the functions that print are
    on [string].  The time zone of the process and the answer of the zone
    database for Asia/Novosibirsk come from the environment, so they are
    arguments of the date conversions. *)

From S2P Require Import Prelude GoBytes GoStrconv GoUtf8 GoTime Utils.

Module LdapUtils.

(** ** GUIDs *)

Definition is_alnum (r : Z) : bool :=
  (97 <=? r) && (r <=? 122) || (65 <=? r) && (r <=? 90) || (48 <=? r) && (r <=? 57).

Definition IsGUIDValidSize (guid : bytes) : bool :=
  (length (Utils.keep_runes is_alnum guid) =? 32)%nat.

(** [guidStripReplacer]: braces and dashes go. *)
Definition guidStrip (guid : bytes) : bytes :=
  filter (λ c, negb ((c =? 123) || (c =? 125) || (c =? 45)) = true) guid.

Definition guidIdxs : list nat := [3; 2; 1; 0; 5; 4; 7; 6; 8; 9; 10; 11; 12; 13; 14; 15]%nat.

Definition GuidToOctetString (guid : bytes) : bytes :=
  let strip := guidStrip guid in
  if negb (length strip =? 32)%nat then []
  else guidIdxs ≫= (λ idx, 92 :: take 2 (drop (idx * 2) strip)).

(** [%02X] of a byte. *)
Definition digitX (d : Z) : Z := if d <? 10 then 48 + d else 55 + d.
Definition fmtX (b : Z) : bytes := [digitX (b / 16); digitX (b mod 16)].

Definition ConvertToDashedString (guid : bytes) : bytes :=
  if (16 <=? length guid)%nat then
    let at_ i := fmtX (Z.land (nth i guid 0) 255) in
    at_ 3%nat ++ at_ 2%nat ++ at_ 1%nat ++ at_ 0%nat ++ [45] ++ at_ 5%nat ++ at_ 4%nat ++ [45]
    ++ at_ 7%nat ++ at_ 6%nat ++ [45] ++ at_ 8%nat ++ at_ 9%nat ++ [45]
    ++ at_ 10%nat ++ at_ 11%nat ++ at_ 12%nat ++ at_ 13%nat ++ at_ 14%nat ++ at_ 15%nat
  else [].

(** ** Security identifiers *)

(** One sub-authority: four bytes from [offset], little endian. *)
Definition subAuthority (b : bytes) (offset : nat) : Z :=
  fold_left (λ acc k, Z.lor acc (Z.shiftl (Z.land (nth (offset + k) b 0) 255) (8 * Z.of_nat k)))
    (seq 0 4) 0.

Fixpoint decodeSID_loop (count : nat) (b : bytes) (offset : nat) (sb : string) : string :=
  match count with
  | O => sb
  | S count =>
      if (length b <? offset + 4)%nat then ""
      else decodeSID_loop count b (offset + 4) (sb +:+ "-" +:+ strconv.Itoa (subAuthority b offset))
  end.

Definition authority (b : bytes) : Z :=
  fold_left (λ acc i, Z.lor acc (Z.shiftl (nth i b 0) (8 * (5 - (Z.of_nat i - 2)))))
    (seq 2 6) 0.

Definition decodeSID (b : bytes) : string :=
  if (8 <=? length b)%nat then
    let sb := "S-" +:+ strconv.Itoa (nth 0 b 0) in
    let sb := sb +:+ "-" +:+ strings.ToUpper (strconv.FormatInt (authority b) 16) in
    decodeSID_loop (Z.to_nat (Z.land (nth 1 b 0) 255)) b 8 sb
  else "".

(** ** Enumerations *)

Definition getUserAccountControl (str : string) : string :=
  match str with
  | "512" => "Enabled Account"
  | "514" => "Disabled Account"
  | "544" => "Enabled, Password Not Required"
  | "546" => "Disabled, Password Not Required"
  | "66048" => "Enabled, Password Doesn't Expire"
  | "66050" => "Disabled, Password Doesn't Expire"
  | "66080" => "Enabled, Password Doesn't Expire & Not Required"
  | "66082" => "Disabled, Password Doesn't Expire & Not Required"
  | "262656" => "Enabled, Smartcard Required"
  | "262658" => "Disabled, Smartcard Required"
  | "262688" => "Enabled, Smartcard Required, Password Not Required"
  | "262690" => "Disabled, Smartcard Required, Password Not Required"
  | "328192" => "Enabled, Smartcard Required, Password Doesn't Expire"
  | "328194" => "Disabled, Smartcard Required, Password Doesn't Expire"
  | "328224" => "Enabled, Smartcard Required, Password Doesn't Expire & Not Required"
  | "328226" => "Disabled, Smartcard Required, Password Doesn't Expire & Not Required"
  | _ => str
  end%string.

Definition getGroupType (s : string) : string :=
  match s with
  | "2" => "Global group"
  | "4" => "Domain local group"
  | "8" => "Universal group"
  | "-2147483648" => "Security group"
  | "-2147483646" => "Global Security Group"
  | "-2147483644" => "Local Security Group"
  | "-2147483643" => "BuiltIn Group"
  | "-2147483640" => "Universal Security Group"
  | _ => s
  end%string.

(** ** Attributes *)

Record EntryAttribute := MkEntryAttribute {
  Name : string;
  Values : list string;
  ByteValues : list bytes
}.

(** ** Dates *)

Definition CpgDateTime : string := "2006-01-02 15:04:05".
Definition CpgDateTimeT : string := "2006-01-02T15:04:05.000Z".

(** [time.LoadLocation] answered [loaded]; without the zone database the
    zone of the process is used. *)
Definition loadNovosibirskLoc (loaded : result zone.Location) (Local : zone.Location) : zone.Location :=
  match loaded with
  | Ok loc => loc
  | Err _ => Local
  end.

Definition getDateFromString (novosibirskLoc : zone.Location) (s : string) : string :=
  match layout.ParseInLocation "20060102150405Z" s novosibirskLoc with
  | Some t => layout.Format CpgDateTime novosibirskLoc t
  | None => s
  end.

Definition getDateFromStringT (s : string) : string :=
  match layout.Parse "20060102150405Z" s with
  | Some t => layout.Format CpgDateTimeT zone.UTC t
  | None => s
  end.

Definition accountExpiresNever : Z := 9223372036854775807.

(** The value counts 100-nanosecond intervals since 1601; Go's division
    truncates. *)
Definition getTSFromLong (Local : zone.Location) (s : string) : string :=
  if negb (s =? "")%string && negb (s =? "0")%string
     && negb (s =? strconv.FormatInt accountExpiresNever 10)%string then
    match strconv.ParseInt s 10 64 with
    | (val, None) =>
        let dt := (Z.quot val 10000 - 11644473600000) * Millisecond in
        layout.Format CpgDateTime Local dt
    | (_, Some _) => s
    end
  else s.

Section convert.
Context (loaded : result zone.Location) (Local : zone.Location).

(** [attribute.Values[0]] panics when there is no value. *)
Definition first_value (attribute : EntryAttribute) : result string :=
  match Values attribute with
  | v :: _ => Ok v
  | [] => Err "index out of range"
  end.

Definition ConvertAttributeToStringArray (attribute : EntryAttribute) (withT : bool) : result (list string) :=
  let name := strings.ToLower (Name attribute) in
  if (name =? "thumbnailphoto")%string then Ok [""%string]
  else if (name =? "objectguid")%string then
    match ByteValues attribute with
    | [] => Ok [""%string]
    | b :: _ => Ok [string_of_bytes (ConvertToDashedString b)]
    end
  else if (name =? "objectsid")%string then
    match ByteValues attribute with
    | [] => Ok [""%string]
    | b :: _ => Ok [decodeSID b]
    end
  else if (name =? "useraccountcontrol")%string then
    let? v := first_value attribute in Ok [getUserAccountControl v]
  else if bool_decide (name ∈ ["whencreated"; "whenchanged"]%string) then
    let? v := first_value attribute in 
      Ok [if withT then getDateFromStringT v else getDateFromString (loadNovosibirskLoc loaded Local) v]
  else if bool_decide (name ∈ ["pwdlastset"; "lastlogon"; "lastlogontimestamp"; "accountexpires"]%string) then
    let? v := first_value attribute in Ok [getTSFromLong Local v]
  else if (name =? "grouptype")%string then
    let? v := first_value attribute in Ok [getGroupType v]
  else Ok (Values attribute).

(** Only an attribute without values can make the conversion panic, and only
    under one of eight names. *)
Lemma ConvertAttributeToStringArray_total attribute withT :
  Values attribute ≠ [] → is_ok (ConvertAttributeToStringArray attribute withT) = true.
Proof.
  intros Hv. unfold ConvertAttributeToStringArray, first_value.
  destruct (Values attribute) as [|v vs]; [done|]. repeat case_match; done.
Qed.
End convert.

(** ** Lemmas *)

Lemma nth_byte b i : wf_bytes b → 0 ≤ nth i b 0 < 256.
Proof.
  revert i. induction b as [|x b IH]; intros [|i] Hwf; try (simpl; lia); inversion_clear Hwf.
  - done.
  - by apply IH.
Qed.

Lemma land255 x : 0 ≤ x < 256 → Z.land x 255 = x.
Proof. intros Hx. change 255 with (Z.ones 8). rewrite Z.land_ones by lia. by apply Z.mod_small. Qed.

Lemma authority_value r c a2 a3 a4 a5 a6 a7 l :
  is_byte a2 → is_byte a3 → is_byte a4 → is_byte a5 → is_byte a6 → is_byte a7 →
  authority (r :: c :: a2 :: a3 :: a4 :: a5 :: a6 :: a7 :: l) =
    a2 * 2 ^ 40 + a3 * 2 ^ 32 + a4 * 2 ^ 24 + a5 * 2 ^ 16 + a6 * 2 ^ 8 + a7.
Proof.
  unfold is_byte. intros. unfold authority. cbn [seq fold_left nth].
  rewrite Z.lor_0_l, !Z.shiftl_mul_pow2 by lia.
  rewrite (lor_add 40 (a2 * _)); [|lia| |by exists a2]; [|simpl; lia].
  rewrite (lor_add 32 (_ + _)); [|lia|simpl; lia|exists (a2 * 2 ^ 8 + a3); simpl; lia].
  rewrite (lor_add 24 (_ + _)); [|lia|simpl; lia|exists (a2 * 2 ^ 16 + a3 * 2 ^ 8 + a4); simpl; lia].
  rewrite (lor_add 16 (_ + _));
    [|lia|simpl; lia|exists (a2 * 2 ^ 24 + a3 * 2 ^ 16 + a4 * 2 ^ 8 + a5); simpl; lia].
  rewrite (lor_add 8 (_ + _));
    [|lia|simpl; lia|exists (a2 * 2 ^ 32 + a3 * 2 ^ 24 + a4 * 2 ^ 16 + a5 * 2 ^ 8 + a6); simpl; lia].
  simpl. lia.
Qed.

Lemma subAuthority_put32 pre v rest :
  0 ≤ v < 2 ^ 32 → subAuthority (pre ++ binary.put32 v ++ rest) (length pre) = v.
Proof.
  intros Hv. unfold subAuthority. cbn [seq fold_left].
  rewrite !app_nth2_plus. cbn [nth binary.put32 app].
  change 255 with (Z.ones 8). rewrite !Z.land_ones, !Z.mod_mod by lia.
  rewrite Z.lor_0_l, !Z.shiftr_div_pow2, (Z.shiftl_0_r) by lia.
  change (2 ^ 8) with 256. change (2 ^ 16) with 65536. change (2 ^ 24) with 16777216.
  assert (0 ≤ v mod 256 < 256) by (Z.div_mod_to_equations; lia).
  assert (0 ≤ (v / 256) mod 256 < 256) by (Z.div_mod_to_equations; lia).
  assert (0 ≤ (v / 65536) mod 256 < 256) by (Z.div_mod_to_equations; lia).
  change (8 * Z.of_nat 1) with 8. change (8 * Z.of_nat 2) with 16. change (8 * Z.of_nat 3) with 24.
  rewrite (lor_shiftl_add 8) by (simpl; lia). rewrite (lor_shiftl_add 16) by (simpl; lia).
  rewrite (lor_shiftl_add 24) by (simpl; lia).
  change (2 ^ 8) with 256. change (2 ^ 16) with 65536. change (2 ^ 24) with 16777216.
  clear -Hv. Z.div_mod_to_equations. lia.
Qed.

(** The printed tail of a list of sub-authorities. *)
Definition dashed (subs : list Z) : string :=
  foldr (λ v acc, "-" +:+ strconv.Itoa v +:+ acc) "" subs.

Lemma string_app_assoc (s t u : string) : (s +:+ t) +:+ u = s +:+ (t +:+ u).
Proof. induction s as [|a s IH]; [done|]. rewrite !string_app_cons. by rewrite IH. Qed.

Lemma decodeSID_loop_spec subs pre rest sb :
  Forall (λ v, 0 ≤ v < 2 ^ 32) subs →
  decodeSID_loop (length subs) (pre ++ (subs ≫= binary.put32) ++ rest) (length pre) sb = sb +:+ dashed subs.
Proof.
  intros Hs. revert pre sb. induction Hs as [|v subs Hv Hs IH]; intros pre sb.
  - simpl. by rewrite strings.app_empty_r.
  - cbn [length decodeSID_loop mbind list_bind]. rewrite <- app_assoc.
    replace (_ <? _)%nat with false.
    2: { symmetry. apply Nat.ltb_ge. rewrite !length_app. simpl. lia. }
    rewrite subAuthority_put32 by done.
    rewrite (app_assoc pre). replace (length pre + 4)%nat with (length (pre ++ binary.put32 v))
      by (rewrite length_app; done).
    rewrite IH. cbn [dashed foldr]. by rewrite !string_app_assoc.
Qed.
Lemma decodeSID_loop_short count b offset sb :
  (length b < offset + 4 * count)%nat → (0 < count)%nat → decodeSID_loop count b offset sb = "".
Proof.
  revert offset sb. induction count as [|count IH]; intros offset sb Hl Hc; [lia|].
  cbn [decodeSID_loop]. destruct (_ <? _)%nat eqn:E; [done|]. apply Nat.ltb_ge in E.
  apply IH; lia.
Qed.

Lemma upper_digit d :
  0 ≤ d < 16 → is_byte (digitX d) ∧ negb ((digitX d =? 123) || (digitX d =? 125) || (digitX d =? 45)) = true.
Proof.
  intros Hd. unfold digitX, is_byte. destruct (d <? 10) eqn:E; bool_to_prop; split; try lia; by ztest.
Qed.

Lemma guidStrip_fmtX b l : is_byte b → guidStrip (fmtX b ++ l) = fmtX b ++ guidStrip l.
Proof.
  unfold is_byte. intros Hb. unfold guidStrip, fmtX. cbn [app].
  rewrite filter_cons_True by (apply upper_digit; Z.div_mod_to_equations; lia).
  rewrite filter_cons_True by (apply upper_digit; Z.div_mod_to_equations; lia). done.
Qed.

Lemma guidStrip_last b : is_byte b → guidStrip (fmtX b) = fmtX b.
Proof. intros Hb. rewrite <- (app_nil_r (fmtX b)) at 1. rewrite guidStrip_fmtX by done. by rewrite app_nil_r. Qed.

Lemma guidStrip_dash l : guidStrip ([45] ++ l) = guidStrip l.
Proof. done. Qed.

(** ** Dates *)

(** The text a directory server writes for a time: digits and a Z. *)
Definition generalizedTime (f : layout.fields) : string :=
  string_of_bytes (layout.format_fields (layout.chunks "20060102150405Z") 0 f).

Definition printed (l : string) (f : layout.fields) : string :=
  string_of_bytes (layout.format_fields (layout.chunks l) 0 f).

Lemma generalizedTime_parse f loc :
  layout.fields_ok f →
  layout.ParseInLocation "20060102150405Z" (generalizedTime f) loc =
    Some (zone.date_unix loc (layout.wall_of f) * Second).
Proof.
  intros Hok. unfold layout.ParseInLocation, generalizedTime.
  rewrite bytes_of_string_of_bytes by (by apply layout.format_stamp_wf).
  rewrite (layout.parse_in_ok _ _ _ f None); [done| |done]. by apply layout.parse_format_stamp.
Qed.

(** An instant whose clock shows [f] is printed as [f]. *)
Lemma Format_wall l loc t f :
  layout.zoneless (layout.chunks l) = true →
  layout.fields_ok f → zone.offset loc t + t = layout.wall_of f →
  layout.Format l loc (t * Second) = printed l f.
Proof.
  intros Hz (_ & Hv & Hh & Hm & Hs & Hn) Hw. unfold layout.Format, printed.
  rewrite layout.format_zoneless by done. f_equal. f_equal.
  apply layout.clock_wall; [done..| |]; rewrite ?Z.div_mul, ?Z.mod_mul by done; [lia|done].
Qed.

(** ** Properties *)

(** [getDateFromStringT] writes every time of the years 0 to 9999 in
    ISO 8601, unchanged; a text that is not such a time comes back as it
    is. *)
Theorem getDateFromStringT_spec f s :
  layout.fields_ok f →
  getDateFromStringT (generalizedTime f) = printed CpgDateTimeT f ∧
  (layout.Parse "20060102150405Z" s = None → getDateFromStringT s = s).
Proof.
  intros Hok. split.
  - unfold getDateFromStringT, layout.Parse. rewrite generalizedTime_parse by done.
    rewrite zone.date_unix_UTC. by apply (Format_wall CpgDateTimeT).
  - unfold getDateFromStringT. by intros ->.
Qed.

(** [getDateFromString] reads a time as the local time of a zone and prints
    it in the same zone: whatever the zone, a time that its clocks showed
    is printed with the digits it had, so the server's UTC time is not
    converted. *)
Theorem getDateFromString_unconverted loc f :
  zone.spaced loc → layout.fields_ok f →
  (∃ u, zone.in_range u ∧ u + zone.offset loc u = layout.wall_of f) →
  getDateFromString loc (generalizedTime f) = printed CpgDateTime f.
Proof.
  intros Hsp Hok Hex. unfold getDateFromString. rewrite generalizedTime_parse by done.
  apply (Format_wall CpgDateTime); [done|done|].
  rewrite Z.add_comm. apply zone.date_unix_exact; [done| |done].
  pose proof (layout.wall_of_range f Hok). unfold MinInt64, MaxInt64. lia.
Qed.

(** [getTSFromLong] prints a file time with the clock of the process to the
    second, whatever the fraction. *)
Theorem getTSFromLong_filetime Local f t r :
  layout.fields_ok f → t + zone.offset Local t = layout.wall_of f → 0 ≤ r < 10000000 →
  let val := (t + 11644473600) * 10000000 + r in
  0 < val < accountExpiresNever →
  getTSFromLong Local (strconv.FormatInt val 10) = printed CpgDateTime f.
Proof.
  intros Hok Hw Hr val Hval. unfold accountExpiresNever in Hval. unfold getTSFromLong.
  assert (Hp : strconv.ParseInt (strconv.FormatInt val 10) 10 64 = (val, None)).
  { apply strconv.ParseInt_FormatInt; lia. }
  assert (Hne : ∀ v, in_int64 v → v ≠ val → (strconv.FormatInt val 10 =? strconv.FormatInt v 10)%string = false).
  { intros v Hv Hd. apply String.eqb_neq. intros E. apply Hd.
    assert (Hpv : strconv.ParseInt (strconv.FormatInt v 10) 10 64 = (v, None)).
    { unfold in_int64, MinInt64, MaxInt64 in Hv. apply strconv.ParseInt_FormatInt; lia. }
    rewrite <- E, Hp in Hpv. by injection Hpv. }
  change "0"%string with (strconv.FormatInt 0 10).
  rewrite (Hne 0), (Hne accountExpiresNever) by (unfold in_int64, MinInt64, MaxInt64, accountExpiresNever; lia).
  replace (strconv.FormatInt val 10 =? "")%string with false.
  2: { symmetry. apply String.eqb_neq. intros E. by rewrite E in Hp. }
  cbn [negb andb]. rewrite Hp, Z.quot_div_nonneg by lia.
  set (ms := val / 10000 - 11644473600000).
  assert (Hms : ms * Millisecond / Second = t).
  { subst ms val. unfold Millisecond, Second. Z.div_mod_to_equations. lia. }
  set (g := layout.MkFields (layout.year f) (layout.month f) (layout.day f) (layout.hour f)
    (layout.min f) (layout.sec f) (ms * Millisecond mod Second)).
  unfold layout.Format, printed. f_equal.
  rewrite (layout.clock_wall _ _ g); [done|apply Hok..| |done]. by rewrite Hms.
Qed.


(** [decodeSID] prints every well-formed identifier: revision, 48-bit
    big-endian authority in upper-case hexadecimal and each 32-bit
    little-endian sub-authority in decimal, whatever bytes follow; and it
    prints nothing when the announced sub-authorities are not all there. *)
Theorem decodeSID_layout r count a2 a3 a4 a5 a6 a7 subs rest :
  wf_bytes [r; count; a2; a3; a4; a5; a6; a7] →
  Forall (λ v, 0 ≤ v < 2 ^ 32) subs →
  let b := [r; count; a2; a3; a4; a5; a6; a7] ++ (subs ≫= binary.put32) ++ rest in
  let auth := a2 * 2 ^ 40 + a3 * 2 ^ 32 + a4 * 2 ^ 24 + a5 * 2 ^ 16 + a6 * 2 ^ 8 + a7 in
  (count = Z.of_nat (length subs) →
   decodeSID b = "S-" +:+ strconv.Itoa r +:+ "-" +:+ strings.ToUpper (strconv.FormatInt auth 16)
                 +:+ dashed subs) ∧
  (Z.of_nat (length b) < 8 + 4 * count → decodeSID b = "").
Proof.
  intros Hwf Hsubs b auth. unfold wf_bytes in Hwf. rewrite !Forall_cons in Hwf.
  destruct Hwf as (Hr & Hc & H2 & H3 & H4 & H5 & H6 & H7 & _). unfold is_byte in Hc.
  assert (Hdec : decodeSID b = decodeSID_loop (Z.to_nat count) b 8
    (("S-" +:+ strconv.Itoa r) +:+ "-" +:+ strings.ToUpper (strconv.FormatInt auth 16))).
  { unfold decodeSID, b, auth. cbn [app]. rewrite authority_value by done.
    change (8 <=? length (r :: count :: a2 :: a3 :: a4 :: a5 :: a6 :: a7 :: (subs ≫= binary.put32) ++ rest))%nat
      with true. cbn [nth]. by rewrite land255. }
  rewrite Hdec. split.
  - intros ->. rewrite Nat2Z.id. unfold b.
    change 8%nat with (length [r; Z.of_nat (length subs); a2; a3; a4; a5; a6; a7]).
    rewrite decodeSID_loop_spec by done. by rewrite !string_app_assoc.
  - intros Hl. apply decodeSID_loop_short; [lia|]. unfold b in Hl. rewrite length_app in Hl. simpl in Hl. lia.
Qed.

(** The dashed text of an objectGUID, given back to
    [GuidToOctetString], is the escaped form of the same sixteen bytes in the
    same order: the two permutations undo each other. *)
Theorem guid_roundtrip guid :
  length guid = 16%nat → wf_bytes guid →
  GuidToOctetString (ConvertToDashedString guid) = guid ≫= (λ b, 92 :: fmtX b) ∧
  length (ConvertToDashedString guid) = 36%nat.
Proof.
  intros Hl Hwf. do 16 (destruct guid as [|? guid]; [discriminate Hl|]). destruct guid; [|discriminate Hl].
  unfold wf_bytes in Hwf. rewrite !Forall_cons in Hwf. destruct_and!.
  unfold ConvertToDashedString.
  match goal with |- context [(16 <=? length ?l)%nat] => change (16 <=? length l)%nat with true end.
  cbn [nth]. rewrite !land255 by done. split; [|done].
  unfold GuidToOctetString.
  repeat first [rewrite guidStrip_fmtX by done | rewrite guidStrip_dash
               | rewrite guidStrip_last by done].
  reflexivity.
Qed.

(** ** Witnesses *)

(** March 4 of 2024, 12:18:04, and a zone that moved from +6 to +7 hours in
    July of 2016. *)
Definition sample : layout.fields := layout.MkFields 2024 3 4 12 18 4 0.
Definition novosibirsk : zone.Location := zone.MkLocation 21600 [(1469304000, 25200)].

Lemma sample_ok : layout.fields_ok sample.
Proof. repeat split; by vm_compute. Qed.

Lemma novosibirsk_spaced : zone.spaced novosibirsk.
Proof. unfold zone.spaced. cbn. unfold MinInt64. lia. Qed.

Lemma getDateFromStringT_spec_witness :
  getDateFromStringT "20240304121804Z" = "2024-03-04T12:18:04.000Z"%string ∧
  getDateFromStringT "20240230121804Z" = "20240230121804Z"%string.
Proof.
  split.
  - exact (proj1 (getDateFromStringT_spec sample "" sample_ok)).
  - apply (proj2 (getDateFromStringT_spec sample "20240230121804Z" sample_ok)). by vm_compute.
Defined.

Lemma getDateFromString_unconverted_witness :
  getDateFromString novosibirsk "20240304121804Z" = "2024-03-04 12:18:04"%string.
Proof.
  apply (getDateFromString_unconverted novosibirsk sample); [apply novosibirsk_spaced|apply sample_ok|].
  exists 1709529484. split; [unfold zone.in_range, MinInt64, MaxInt64; lia|by vm_compute].
Defined.

Lemma getTSFromLong_filetime_witness :
  getTSFromLong novosibirsk "133540030841234567" = "2024-03-04 12:18:04"%string.
Proof.
  apply (getTSFromLong_filetime novosibirsk sample 1709529484 1234567);
    [apply sample_ok|by vm_compute|lia|unfold accountExpiresNever; lia].
Defined.

(** BUILTIN\Administrators. *)
Definition admins : bytes := [1; 2; 0; 0; 0; 0; 0; 5; 32; 0; 0; 0; 32; 2; 0; 0].

Lemma decodeSID_layout_witness : decodeSID admins = "S-1-5-32-544"%string ∧ decodeSID (take 15 admins) = ""%string.
Proof.
  split.
  - destruct (decodeSID_layout 1 2 0 0 0 0 0 5 [32; 544] []) as [H _];
      [by repeat constructor|by repeat constructor|]. exact (H eq_refl).
  - destruct (decodeSID_layout 1 2 0 0 0 0 0 5 [32] [32; 2; 0]) as [_ H];
      [by repeat constructor|by repeat constructor|]. exact (H eq_refl).
Defined.

Lemma guid_roundtrip_witness :
  string_of_bytes (ConvertToDashedString (seqZ 160 16)) = "A3A2A1A0-A5A4-A7A6-A8A9-AAABACADAEAF"%string ∧
  length (ConvertToDashedString (seqZ 160 16)) = 36%nat.
Proof.
  split; [by vm_compute|]. apply (guid_roundtrip (seqZ 160 16)); [done|by repeat constructor].
Defined.

End LdapUtils.
