(* ===== verification/LdapClient.v ===== *)
(** * LDAP client: account checks and the shared connection (ldap/client.go)

    [search_request] is what [VerifyUser] asks the server, [check_entry] the
    decision it takes on the entry it found.
    The rest is the protocol of the shared connection: the mutex is released
    while dialling and searching, so concurrent calls interleave; every step
    between two releases is one step of the system, which begins with a client
    that [NewClient] returned. *)

From S2P Require Import Prelude GoBytes GoStrconv GoTime.

Module LdapClient.

Definition ufAccountDisable : Z := 2.
Definition accountExpiresNever : Z := 9223372036854775807.
Definition fileTimeEpochOffsetUnix : Z := 11644473600000.

Record ConfigLDAPClient := MkConfig {
  Url : string; User : string; Pass : string; Base : string; Insecure : bool; SearchTimeout : string
}.

(** The search timeout of [NewClient]. *)
Definition NewClient_timeout (SearchTimeout : string) : Duration :=
  duration.positiveOr (10 * Second) SearchTimeout.

(** ** The request *)

(** The [SearchRequest] fields the client sets; the scope by its number in
    the protocol (RFC 4511, 4.5.1). *)
Definition ScopeWholeSubtree : Z := 2.
Record SearchRequest := MkRequest {
  BaseDN : string; Scope : Z; Attributes : list string; Filter : string; SizeLimit : Z
}.

Section request.
(** [goLdap.EscapeFilter]. *)
Context (EscapeFilter : string → string).

Definition search_request (config : ConfigLDAPClient) (username : string) : SearchRequest :=
  MkRequest (Base config) ScopeWholeSubtree ["userAccountControl"; "accountExpires"]%string
    ("(sAMAccountName=" ++ EscapeFilter username ++ ")")%string 5.

(** When the escaping leaves no byte that closes or opens a filter, or
    stands for any value, the filter is one equality: its parentheses are its
    first and last byte, and it has no [*]. *)
Lemma search_request_filter config username v :
  v = bytes_of_string (EscapeFilter username) → 40 ∉ v → 41 ∉ v → 42 ∉ v →
  ∃ f, bytes_of_string (Filter (search_request config username)) = [40] ++ f ++ [41] ∧ 40 ∉ f ∧ 41 ∉ f ∧ 42 ∉ f.
Proof.
  intros -> H1 H2 H3. exists (bytes_of_string "sAMAccountName=" ++ bytes_of_string (EscapeFilter username)).
  split; [cbn [Filter search_request]; by autorewrite with arcella; rewrite <- app_assoc|].
  rewrite !not_elem_of_app. by split_and!; try done; apply (bool_decide_unpack _).
Qed.

(** Two users share a request only when they share an escaping. *)
Lemma search_request_inj config u1 u2 :
  search_request config u1 = search_request config u2 → EscapeFilter u1 = EscapeFilter u2.
Proof.
  intros [= H]. apply (f_equal bytes_of_string) in H. rewrite !bytes_of_string_app in H. cbn [bytes_of_string app] in H.
  by apply app_inv_tail in H as H%bytes_of_string_inj.
Qed.
End request.

(** ** The decision *)

(** [time.UnixMilli]. *)
Definition UnixMilli (ms : Z) : Time := ms * Millisecond.

Definition parse (s : string) : option Z :=
  match strconv.ParseInt s 10 64 with (v, None) => Some v | _ => None end.

Definition uac_disabled (s : string) : bool :=
  match parse s with Some uac => negb (Z.land uac ufAccountDisable =? 0) | None => false end.

Definition expired (exp : string) (now : Time) : bool :=
  if (exp =? "")%string then false
  else match parse exp with
       | Some v =>
           if negb (v =? 0) && negb (v =? accountExpiresNever) then
             time.Before (UnixMilli (wrap64 (Z.quot v 10000 - fileTimeEpochOffsetUnix))) now
           else false
       | None => false
       end.

(** [entry] is [GetAttributeValue]: the empty string when it is absent. *)
Definition check_entry (entry : string → string) (now : Time) : result unit :=
  if uac_disabled (entry "userAccountControl"%string) then Err "user is disabled"
  else if expired (entry "accountExpires"%string) now then Err "user account is expired"
  else Ok tt.

(** [VerifyUser]: [search] stands for the connecting and the searching
    ([tstep] below), with the errors of both. *)
Definition VerifyUser (EscapeFilter : string → string) (config : ConfigLDAPClient)
    (search : SearchRequest → result (list (string → string))) (username : string) (now : Time) : result unit :=
  if (username =? "")%string then Err "empty username"
  else
    let? entries := search (search_request EscapeFilter config username) in
    match entries with
    | [] => Err "user not found"
    | entry :: _ => check_entry entry now
    end.

Lemma Z_land_2 v : Z.land v 2 = 0 ↔ Z.testbit v 1 = false.
Proof.
  split.
  - intros H. assert (Hb : Z.testbit (Z.land v 2) 1 = false) by by rewrite H.
    rewrite Z.land_spec in Hb. change (Z.testbit 2 1) with true in Hb. by rewrite andb_true_r in Hb.
  - intros H. apply Z.bits_inj'. intros n Hn. rewrite Z.land_spec, Z.bits_0.
    destruct (decide (n = 1)) as [->|Hne]; [by rewrite H|].
    change 2 with (2 ^ 1). rewrite Z.pow2_bits_false by done. apply andb_false_r.
Qed.

Lemma parse_range s v : parse s = Some v → in_int64 v.
Proof.
  unfold parse. destruct (strconv.ParseInt s 10 64) as [z [e|]] eqn:E; [done|]. intros [= <-].
  by apply strconv.ParseInt64_range in E.
Qed.

Lemma uac_disabled_spec s : uac_disabled s = false ↔ ∀ uac, parse s = Some uac → Z.testbit uac 1 = false.
Proof.
  unfold uac_disabled. destruct (parse s) as [uac|]; [|split; [by intros _ ? [=]|done]].
  rewrite negb_false_iff, Z.eqb_eq. unfold ufAccountDisable. rewrite Z_land_2. split; [by intros ? ? [= <-]|auto].
Qed.

Lemma filetime_range v : in_int64 v →
  wrap64 (Z.quot v 10000 - fileTimeEpochOffsetUnix) = Z.quot v 10000 - fileTimeEpochOffsetUnix.
Proof.
  intros Hv. apply wrap64_id. unfold in_int64, MinInt64, MaxInt64, fileTimeEpochOffsetUnix in *.
  pose proof (Z.quot_rem v 10000 ltac:(done)). pose proof (Z.rem_bound_abs v 10000 ltac:(done)). lia.
Qed.

Lemma expired_spec s now :
  expired s now = false ↔
  ∀ v, parse s = Some v → v ≠ 0 → v ≠ accountExpiresNever →
    now ≤ (Z.quot v 10000 - fileTimeEpochOffsetUnix) * Millisecond.
Proof.
  assert (Hn : ∀ (P : Z → Prop), false = false ↔ ∀ v, None = Some v → P v) by (split; [by intros _ ? [=]|done]).
  unfold expired. destruct (s =? "")%string eqn:Ee.
  { apply String.eqb_eq in Ee as ->. change (parse "") with (@None Z). apply Hn. }
  destruct (parse s) as [v|] eqn:Ep; [|apply Hn].
  destruct (negb (v =? 0) && negb (v =? accountExpiresNever)) eqn:En.
  - bool_to_prop. apply parse_range in Ep. unfold UnixMilli. rewrite filetime_range, Before_false by done.
    split; [by intros ? ? [= <-]|naive_solver].
  - split; [|done]. intros _ v' [= <-] H0 H1. apply andb_false_iff in En as [En|En]; bool_to_prop; done.
Qed.

(** A user is accepted exactly when the search for it found an entry whose
    readable flags do not have the disabled bit and whose readable expiry
    date, counted from 1601 in ticks of 100 nanoseconds, is not in the past. *)
Theorem VerifyUser_accepts EscapeFilter config search username now :
  VerifyUser EscapeFilter config search username now = Ok tt ↔
  username ≠ ""%string ∧ ∃ entry rest, search (search_request EscapeFilter config username) = Ok (entry :: rest) ∧
    (∀ uac, parse (entry "userAccountControl"%string) = Some uac → Z.testbit uac 1 = false) ∧
    (∀ v, parse (entry "accountExpires"%string) = Some v → v ≠ 0 → v ≠ accountExpiresNever →
       now ≤ (Z.quot v 10000 - fileTimeEpochOffsetUnix) * Millisecond).
Proof.
  unfold VerifyUser. destruct (username =? "")%string eqn:Eu.
  { apply String.eqb_eq in Eu. split; [done|]. by intros [? _]. }
  apply String.eqb_neq in Eu. destruct (search _) as [[|entry rest]|e]; cbn [result_bind].
  { split; [done|]. intros (_ & entry & rest & ? & _). done. }
  2: { split; [done|]. intros (_ & entry & rest & ? & _). done. }
  unfold check_entry. destruct (uac_disabled _) eqn:E1.
  { split; [done|]. intros (_ & entry' & rest' & [= <- <-] & Hu & _). apply uac_disabled_spec in Hu. congruence. }
  destruct (expired _ now) eqn:E2.
  { split; [done|]. intros (_ & entry' & rest' & [= <- <-] & _ & He). apply expired_spec in He. congruence. }
  split; [|done]. intros _. split; [done|]. exists entry, rest. split; [done|]. by rewrite <- uac_disabled_spec, <- expired_spec.
Qed.

(** A converter for concrete dates: an account that expires at [ms]
    milliseconds of the Unix epoch is accepted up to that instant. *)
Definition filetime (ms : Z) : Z := (ms + fileTimeEpochOffsetUnix) * 10000.

(** ** The connection *)

(** What the library answers to a dial or a search. *)
Inductive answer := Good | Fail | TimedOut.

(** The client, with the connections that are open at the library. *)
Record Client := MkClient { conn : option nat; open : gset nat; fresh_id : nat }.

Definition set_conn (c : Client) (k : option nat) : Client := MkClient k (open c) (fresh_id c).
Definition close (c : Client) (k : nat) : Client := MkClient (conn c) (open c ∖ {[k]}) (fresh_id c).
(** [if c.conn == k { c.conn = nil }] *)
Definition forget (c : Client) (k : nat) : Client :=
  if decide (conn c = Some k) then set_conn c None else c.

(** Where a call of [VerifyUser] stands.  [second] tells the [connectLocked]
    of the reconnection from that of the entry. *)
Inductive pc :=
| Entering (second : bool)            (* connectLocked: is there a connection? *)
| Dialing (second : bool)             (* the mutex is released *)
| Dialed (second : bool) (k : nat)    (* before taking the mutex back *)
| Reading (second : bool)             (* conn := c.conn *)
| Searching (second : bool) (k : option nat)
| Failing (k : nat)                   (* before conn.Close() *)
| Clearing (k : nat)                  (* before taking the mutex *)
| Dropping (k : nat)                  (* after the second failure *)
| Finished (found : bool)
| Crashed.                            (* a search on a nil connection *)

(** The first and the second locked section of [connectLocked]. *)
Definition connectLocked_look (c : Client) (second : bool) : Client * pc :=
  (c, match conn c with Some _ => Reading second | None => Dialing second end).

Definition connectLocked_store (c : Client) (second : bool) (k : nat) : Client * pc :=
  match conn c with
  | Some _ => (close c k, Reading second)
  | None => (set_conn c (Some k), Reading second)
  end.

(** What [dial] calls, given the scheme and the host of the configured
    address: a plain or a TLS connection. *)
Definition dial_plan (u : result (string * string)) : result bool :=
  let? parsed := u in
  if (parsed.2 =? "")%string then Err "empty ldap url host"
  else if (strings.ToLower parsed.1 =? "ldaps")%string then Ok true
  else if (strings.ToLower parsed.1 =? "ldap")%string then Ok false
  else Err ("unsupported ldap scheme: " ++ parsed.1)%string.

(** [dial] with the answer of the library: a connection whose bind failed is
    closed before [dial] returns. *)
Definition dial (a : answer) (c : Client) (second : bool) : Client * pc :=
  match a with
  | Good =>
      let k := fresh_id c in
      (MkClient (conn c) ({[k]} ∪ open c) (S k), Dialed second k)
  | _ => (c, Finished false)
  end.

(** [conn := c.conn]: the nil test is made the first time only. *)
Definition read_conn (c : Client) (second : bool) : Client * pc :=
  match conn c with
  | None => if second then (c, Searching true None) else (c, Finished false)
  | Some k => (c, Searching second (Some k))
  end.

(** [searchOnce]: a search that times out closes the connection it used. *)
Definition searchOnce (a : answer) (c : Client) (second : bool) (k : option nat) : Client * pc :=
  match k with
  | None => (c, Crashed)
  | Some k =>
      let c := match a with TimedOut => close c k | _ => c end in
      (c, match a with Good => Finished true | _ => if second then Dropping k else Failing k end)
  end.

(** The part of a call between two points where others can run. *)
Definition tstep (a : answer) (c : Client) (p : pc) : Client * pc :=
  match p with
  | Entering second => connectLocked_look c second
  | Dialing second => dial a c second
  | Dialed second k => connectLocked_store c second k
  | Reading second => read_conn c second
  | Searching second k => searchOnce a c second k
  | Failing k => (close c k, Clearing k)
  | Clearing k => (forget c k, Entering true)
  | Dropping k => (forget c k, Finished false)
  | Finished found => (c, Finished found)
  | Crashed => (c, Crashed)
  end.

Definition Close (c : Client) : Client :=
  match conn c with Some k => set_conn (close c k) None | None => c end.

(** [connect] when no other call runs. *)
Definition connect (a : answer) (c : Client) : Client * bool :=
  match connectLocked_look c false with
  | (c, Dialing second) =>
      match dial a c second with
      | (c, Dialed second k) => ((connectLocked_store c second k).1, true)
      | (c, _) => (c, false)
      end
  | (c, _) => (c, true)
  end.

(** [NewClient]: there is no client without a first connection; what is
    open at the library stays in the state. *)
Definition NewClient (a : answer) : Client * bool := connect a (MkClient None ∅ 0).

Record sys := MkSys { client : Client; calls : list pc }.

(** A client that [NewClient] returned. *)
Definition sys0 : sys := MkSys (NewClient Good).1 [].

Lemma NewClient_open a : (NewClient a).2 = true ↔ open (NewClient a).1 ≠ ∅.
Proof. destruct a; cbn; [split; [set_solver|done]|done..]. Qed.

(** One step: a call makes a step, [Close] runs, or a new call begins.  With
    [strict] a second search that fails does so by a timeout. *)
Inductive step (strict : bool) : sys → sys → Prop :=
| step_call x i p a :
    calls x !! i = Some p →
    (strict = true → ∀ k, p = Searching true k → a ≠ Fail) →
    step strict x (let '(c, p) := tstep a (client x) p in MkSys c (<[i := p]> (calls x)))
| step_close x :
    step strict x (MkSys (Close (client x)) (calls x))
| step_new x :
    step strict x (MkSys (client x) (calls x ++ [Entering false])).

Definition reachable (strict : bool) (x : sys) : Prop := star (step strict) sys0 x.

(** ** The invariant *)

(** The calls that still have a connection to close or to hand over. *)
Definition owes (p : pc) : option nat :=
  match p with Dialed _ k => Some k | Failing k => Some k | _ => None end.

(** The calls whose connection is closed already. *)
Definition closed (p : pc) : option nat :=
  match p with Clearing k => Some k | Dropping k => Some k | _ => None end.

Record Inv (c : Client) (ps : list pc) : Prop := {
  i_open : ∀ k, k ∈ open c → conn c = Some k ∨ ∃ p, p ∈ ps ∧ owes p = Some k;
  i_closed : ∀ p k, p ∈ ps → closed p = Some k → k ∉ open c ∧ (k < fresh_id c)%nat;
  i_fresh : (∀ k, k ∈ open c → (k < fresh_id c)%nat) ∧ (∀ k, conn c = Some k → (k < fresh_id c)%nat);
  i_known : ∀ p k, p ∈ ps → (owes p = Some k ∨ ∃ b, p = Searching b (Some k)) → (k < fresh_id c)%nat
}.

(** Replacing one call by another. *)
Lemma elem_of_insert_inv (ps : list pc) i p q r :
  ps !! i = Some p → q ∈ <[i := r]> ps → q = r ∨ q ∈ ps.
Proof.
  intros Hi Hq. apply list_elem_of_lookup_1 in Hq as [j Hj]. destruct (decide (i = j)) as [<-|Hne].
  - rewrite list_lookup_insert_eq in Hj by (by eapply lookup_lt_Some). left. congruence.
  - rewrite list_lookup_insert_ne in Hj by done. right. by eapply list_elem_of_lookup_2.
Qed.

Lemma elem_of_insert_other (ps : list pc) i p q r :
  ps !! i = Some p → q ∈ ps → q = p ∨ q ∈ <[i := r]> ps.
Proof.
  intros Hi Hq. apply list_elem_of_lookup_1 in Hq as [j Hj]. destruct (decide (i = j)) as [<-|Hne]; [left; congruence|].
  right. apply (list_elem_of_lookup_2 _ j). by rewrite list_lookup_insert_ne.
Qed.

Lemma elem_of_insert_new (ps : list pc) i p r : ps !! i = Some p → r ∈ <[i := r]> ps.
Proof. intros Hi. apply list_elem_of_insert. by eapply lookup_lt_Some. Qed.

(** The changes a step is made of. *)
Lemma Inv_close c ps k : Inv c ps → Inv (close c k) ps.
Proof.
  intros [I1 I2 [I3 I4] I5]. split; cbn; [| |split|done].
  - intros j [Hj _]%elem_of_difference. by apply I1.
  - intros p j Hp Hc. destruct (I2 p j Hp Hc). split; [|done]. intros [? _]%elem_of_difference. done.
  - intros j [Hj _]%elem_of_difference. by apply I3.
  - done.
Qed.

Lemma Inv_unset c ps k : Inv c ps → k ∉ open c → Inv (forget c k) ps.
Proof.
  intros [I1 I2 [I3 I4] I5] Hk. unfold forget. destruct (decide _) as [E|E]; [|by split].
  split; cbn; try done. intros j Hj. destruct (I1 j Hj) as [Hc|Hp]; [|by right]. congruence.
Qed.

Lemma Inv_set c ps k : Inv c ps → conn c = None → (k < fresh_id c)%nat → Inv (set_conn c (Some k)) ps.
Proof.
  intros [I1 I2 [I3 I4] I5] Hn Hk. split; cbn; try done.
  - intros j Hj. destruct (I1 j Hj) as [Hc|Hp]; [congruence|by right].
  - split; [done|]. by intros j [= <-].
Qed.

Lemma Inv_replace c ps i p p' :
  Inv c ps → ps !! i = Some p →
  (∀ k, owes p = Some k → k ∈ open c → conn c = Some k ∨ owes p' = Some k) →
  (∀ k, closed p' = Some k → k ∉ open c ∧ (k < fresh_id c)%nat) →
  (∀ k, owes p' = Some k ∨ (∃ b, p' = Searching b (Some k)) → (k < fresh_id c)%nat) →
  Inv c (<[i := p']> ps).
Proof.
  intros [I1 I2 I3 I5] Hi Ho Hcl Hkn. split; [| |done|].
  - intros k Hk. destruct (I1 k Hk) as [Hc|(q & Hq & Hqk)]; [by left|].
    destruct (elem_of_insert_other ps i p q p' Hi Hq) as [->|Hq']; [|right; by exists q].
    destruct (Ho k Hqk Hk) as [?|?]; [by left|right]. exists p'. split; [by eapply elem_of_insert_new|done].
  - intros q k Hq Hc. destruct (elem_of_insert_inv ps i p q p' Hi Hq) as [->|Hq']; [by apply Hcl|by apply (I2 q)].
  - intros q k Hq Hc. destruct (elem_of_insert_inv ps i p q p' Hi Hq) as [->|Hq']; [by apply Hkn|by apply (I5 q)].
Qed.

(** A dial that succeeds. *)
Lemma Inv_dialed c ps i second :
  Inv c ps → ps !! i = Some (Dialing second) →
  Inv (MkClient (conn c) ({[fresh_id c]} ∪ open c) (S (fresh_id c))) (<[i := Dialed second (fresh_id c)]> ps).
Proof.
  intros HI Hi. set (k := fresh_id c).
  pose proof (Inv_replace c ps i _ (Finished false) HI Hi ltac:(done) ltac:(done) ltac:(by intros k' [?|[? ?]])) as H0.
  pose proof HI as [I1 I2 [I3 I4] I5]. split; cbn.
  - intros j [->%elem_of_singleton|Hj]%elem_of_union.
    { right. exists (Dialed second k). split; [by eapply elem_of_insert_new|done]. }
    destruct (I1 j Hj) as [?|(q & Hq & Hqk)]; [by left|]. right. exists q. split; [|done].
    destruct (elem_of_insert_other ps i _ q (Dialed second k) Hi Hq) as [->|?]; [done|done].
  - intros q j Hq Hc. destruct (elem_of_insert_inv ps i _ q _ Hi Hq) as [->|Hq']; [done|].
    destruct (I2 q j Hq' Hc) as [H1 H2]. split; [|lia]. intros [->%elem_of_singleton|Hj]%elem_of_union; [lia|done].
  - split.
    + intros j [->%elem_of_singleton|Hj]%elem_of_union; [lia|]. specialize (I3 j Hj). lia.
    + intros j Hj. specialize (I4 j Hj). lia.
  - intros q j Hq Hc. destruct (elem_of_insert_inv ps i _ q _ Hi Hq) as [->|Hq'].
    + destruct Hc as [[= <-]|[? [=]]]. lia.
    + specialize (I5 q j Hq' Hc). lia.
Qed.

(** A call that owes and has closed nothing, and knows only what it must. *)
Lemma Inv_quiet c ps i p p' :
  Inv c ps → ps !! i = Some p → owes p = None → owes p' = None → closed p' = None →
  (∀ b k, p' = Searching b (Some k) → (k < fresh_id c)%nat) → Inv c (<[i := p']> ps).
Proof.
  intros HI Hi Ho Ho' Hc Hk. apply (Inv_replace c ps i p p' HI Hi).
  - by rewrite Ho.
  - by rewrite Hc.
  - intros k [Hx|[b Hx]]; [congruence|by apply (Hk b)].
Qed.

Lemma tstep_Inv c ps i p a :
  Inv c ps → ps !! i = Some p → (∀ k, p = Searching true k → a ≠ Fail) →
  Inv (tstep a c p).1 (<[i := (tstep a c p).2]> ps).
Proof.
  intros HI Hi Hstrict. pose proof HI as [I1 I2 [I3 I4] I5].
  assert (Hin : p ∈ ps) by (by eapply list_elem_of_lookup_2).
  assert (Hclosed : ∀ k, k ∉ open (close c k)) by (intros k; cbn; set_solver).
  destruct p as [second|second|second k|second|second [k|]|k|k|k|found|]; 
    unfold tstep, connectLocked_look, connectLocked_store, dial, read_conn, searchOnce; cbn [fst snd];
    try (by apply (Inv_quiet c ps i _ _ HI Hi)).
  - apply (Inv_quiet c ps i _ _ HI Hi); destruct (conn c); done.
  - destruct a; cbn [fst snd]; [by apply Inv_dialed|by apply (Inv_quiet c ps i _ _ HI Hi)..].
  - pose proof (I5 _ k Hin (or_introl eq_refl)) as Hk. destruct (conn c) as [j|] eqn:Ec; cbn [fst snd].
    + apply (Inv_replace _ _ _ _ _ (Inv_close c ps k HI) Hi); try done.
      * intros m [= <-] Hm. by destruct (Hclosed k).
      * by intros m [?|[? ?]].
    + apply (Inv_replace _ _ _ _ _ (Inv_set c ps k HI Ec Hk) Hi); try done.
      * intros m [= <-] _. by left.
      * by intros m [?|[? ?]].
  - destruct (conn c) as [k|] eqn:Ec, second; cbn [fst snd]; apply (Inv_quiet c ps i _ _ HI Hi); try done;
      intros b k' [= _ <-]; by apply I4.
  - pose proof (I5 _ k Hin (or_intror (ex_intro _ second eq_refl))) as Hk. destruct a; cbn [fst snd].
    + by apply (Inv_quiet c ps i _ _ HI Hi).
    + destruct second; [by destruct (Hstrict (Some k))|].
      apply (Inv_replace _ _ _ _ _ HI Hi); try done. intros m [[= <-]|[? ?]]; done.
    + destruct second; apply (Inv_replace _ _ _ _ _ (Inv_close c ps k HI) Hi); try done.
      * intros m [= <-]. split; [apply Hclosed|done].
      * by intros m [?|[? ?]].
      * intros m [[= <-]|[? ?]]; done.
  - pose proof (I5 _ k Hin (or_introl eq_refl)) as Hk.
    apply (Inv_replace _ _ _ _ _ (Inv_close c ps k HI) Hi); try done.
    + intros m [= <-] Hm. by destruct (Hclosed k).
    + intros m [= <-]. split; [apply Hclosed|done].
    + by intros m [?|[? ?]].
  - destruct (I2 _ k Hin eq_refl) as [Hk _].
    by apply (Inv_quiet _ ps i _ _ (Inv_unset c ps k HI Hk) Hi).
  - destruct (I2 _ k Hin eq_refl) as [Hk _].
    by apply (Inv_quiet _ ps i _ _ (Inv_unset c ps k HI Hk) Hi).
Qed.

Lemma Close_Inv c ps : Inv c ps → Inv (Close c) ps.
Proof.
  intros HI. unfold Close. destruct (conn c) as [k|] eqn:E; [|done].
  assert (Hk : k ∉ open (close c k)) by (cbn; set_solver).
  pose proof (Inv_unset _ _ k (Inv_close c ps k HI) Hk) as H. unfold forget in H.
  destruct (decide _) as [|Hn]; [exact H|]. by destruct Hn.
Qed.

Lemma ldap_step_Inv x y : Inv (client x) (calls x) → step true x y → Inv (client y) (calls y).
Proof.
  intros HI Hstep. destruct Hstep as [x i p a Hi Hs|x|x]; cbn.
  - pose proof (tstep_Inv _ _ i p a HI Hi (Hs eq_refl)) as H. by destruct (tstep a (client x) p).
  - by apply Close_Inv.
  - destruct HI as [I1 I2 I3 I5]. split; [| |done|].
    + intros k Hk. destruct (I1 k Hk) as [?|(p & Hp & Ho)]; [by left|]. right. exists p. split; [|done].
      apply elem_of_app. by left.
    + intros p k [Hp|Hp%list_elem_of_singleton]%elem_of_app Hc; [by apply (I2 p)|by subst p].
    + intros p k [Hp|Hp%list_elem_of_singleton]%elem_of_app Hc; [by apply (I5 p)|].
      subst p. by destruct Hc as [?|[? ?]].
Qed.


(** A whole run from a list of steps: call number, answer. *)
Inductive move := Call (i : nat) (a : answer) | DoClose | New.

Definition do_move (x : sys) (m : move) : sys :=
  match m with
  | Call i a =>
      match calls x !! i with
      | Some p => let '(c, p) := tstep a (client x) p in MkSys c (<[i := p]> (calls x))
      | None => x
      end
  | DoClose => MkSys (Close (client x)) (calls x)
  | New => MkSys (client x) (calls x ++ [Entering false])
  end.

Definition run (l : list move) : sys := fold_left do_move l sys0.

Definition no_fail (m : move) : Prop := match m with Call _ Fail => False | _ => True end.

Lemma ldap_run_reachable strict l : (strict = true → Forall no_fail l) → reachable strict (run l).
Proof.
  unfold run, reachable. assert (H : star (step strict) sys0 sys0) by apply star_refl. revert H.
  generalize sys0 at 2 4. induction l as [|m l IH]; intros x Hx Hl; [done|]. cbn [fold_left].
  assert (Hm : star (step strict) x (do_move x m)).
  { destruct m as [i a| |]; cbn [do_move]; [|apply star_one, step_close|apply star_one, step_new].
    destruct (calls x !! i) as [p|] eqn:E; [|apply star_refl]. apply star_one, step_call; [done|].
    intros Hs k _ ->. specialize (Hl Hs). by apply Forall_cons in Hl as [? _]. }
  apply IH; [by eapply star_trans|]. intros Hs. specialize (Hl Hs). by apply Forall_cons in Hl as [_ ?].
Qed.

(** When the search fails again after the reconnection, the new
    connection is forgotten without being closed: no call and no client is
    left that knows it, and it stays open. *)
Theorem second_failure_leaks :
  ∃ x, reachable false x ∧ calls x = [Finished false] ∧ conn (client x) = None ∧ open (client x) ≠ ∅.
Proof.
  exists (run [New; Call 0 Good; Call 0 Good; Call 0 Fail; Call 0 Good; Call 0 Good;
               Call 0 Good; Call 0 Good; Call 0 Good; Call 0 Good; Call 0 Fail; Call 0 Good]).
  split; [by apply ldap_run_reachable|]. split; [by vm_compute|]. split; [by vm_compute|].
  intros H. assert (Hin : 1%nat ∈ (∅ : gset nat)); [|set_solver]. rewrite <- H. by vm_compute.
Qed.

(** When another call, or a close, takes the connection between the
    reconnection and the reading of it, the search runs on a nil connection
    and panics in its goroutine. *)
Theorem nil_reconnection_panics :
  ∃ x, reachable false x ∧ Crashed ∈ calls x.
Proof.
  exists (run [New; Call 0 Good; Call 0 Good; Call 0 Fail; Call 0 Good; Call 0 Good;
               Call 0 Good; Call 0 Good; Call 0 Good; DoClose; Call 0 Good; Call 0 Good]).
  split; [by apply ldap_run_reachable|]. vm_compute. constructor.
Qed.


(** An entry whose flags cannot be read is accepted. *)
Lemma unreadable_flags_accepted EscapeFilter config now entry :
  entry "userAccountControl"%string = ""%string → entry "accountExpires"%string = ""%string →
  VerifyUser EscapeFilter config (λ _, Ok [entry]) "user" now = Ok tt.
Proof. intros H1 H2. unfold VerifyUser, check_entry. cbn. by rewrite H1, H2. Qed.
End LdapClient.
