(* ===== verification/LdapAccess.v ===== *)
(** * Who is let in by NTLM with LDAP (web/gin/middleware/ntlm, ldap)

    The middleware of Ntlm.v with the [VerifyUser] of LdapClient.v as its
    verifier, the composition its comment names. *)

From S2P Require Import Prelude GoBytes GoBase64 Middleware Ntlm LdapClient.

Module LdapAccess.
Import Ntlm LdapClient.

Section access.
Context (EscapeFilter : string → string) (config : ConfigLDAPClient)
  (search : SearchRequest → result (list (string → string))).

(** [client.VerifyUser] as the middleware calls it, at the time [now]. *)
Definition ldap_verifier (now : Time) : UserVerifier := λ username domain,
  match VerifyUser EscapeFilter config search username now with Ok _ => None | Err e => Some e end.

Lemma ldap_verifier_accepts now username domain :
  ldap_verifier now username domain = None ↔ VerifyUser EscapeFilter config search username now = Ok tt.
Proof. unfold ldap_verifier. destruct (VerifyUser _ _ _ _ _) as [[]|e]; done. Qed.

(** The entry of an account that may come in. *)
Definition admitted (entry : string → string) (now : Time) : Prop := check_entry entry now = Ok tt.

Lemma VerifyUser_entry username now :
  VerifyUser EscapeFilter config search username now = Ok tt →
  username ≠ ""%string ∧
  ∃ entry rest, search (search_request EscapeFilter config username) = Ok (entry :: rest) ∧ admitted entry now.
Proof.
  unfold VerifyUser. destruct (String.eqb_spec username "") as [|Hne]; [done|].
  destruct (search _) as [[|entry rest]|e]; cbn [result_bind]; try done. eauto 10.
Qed.

Lemma admitted_spec entry now :
  admitted entry now ↔
  (∀ uac, parse (entry "userAccountControl"%string) = Some uac → Z.testbit uac 1 = false) ∧
  (∀ v, parse (entry "accountExpires"%string) = Some v → v ≠ 0 → v ≠ accountExpiresNever →
     now ≤ (Z.quot v 10000 - fileTimeEpochOffsetUnix) * Millisecond).
Proof.
  unfold admitted, check_entry. rewrite <- uac_disabled_spec, <- expired_spec.
  destruct (uac_disabled _); [naive_solver|]. destruct (expired _ now); naive_solver.
Qed.

End access.

(** ** Concrete requests *)

Definition directory_config : ConfigLDAPClient := MkConfig "ldap://dc" "" "" "DC=x" false "10s".

(** A directory with one account that never expires. *)
Definition directory (account flags : string) (r : SearchRequest) : result (list (string → string)) :=
  if (Filter r =? "(sAMAccountName=" ++ account ++ ")")%string
  then Ok [λ a, if (a =? "userAccountControl")%string then flags else "0"%string] else Ok [].

Definition ask (account flags header : string) : list CtxAction :=
  NTLMMiddleware "/a" [WithUserVerifier (ldap_verifier id directory_config (directory account flags) 0)] "/a/b" header.


(** Messages that name their users at offsets of sixteen bits, with names of
    the same length, ask for the same account when their first bytes, the
    signature, agree. *)
Lemma same_length_same_user pre1 pre2 len maxLen off1 off2 rest1 rest2 :
  let data1 := pre1 ++ binary.put16 len ++ binary.put16 maxLen ++ binary.put32 off1 ++ rest1 in
  let data2 := pre2 ++ binary.put16 len ++ binary.put16 maxLen ++ binary.put32 off2 ++ rest2 in
  0 ≤ maxLen ≤ 8 → 0 ≤ off1 < 65536 → 0 ≤ off2 < 65536 → (2 ≤ length rest1)%nat → (2 ≤ length rest2)%nat →
  take 8 data1 = take 8 data2 → (8 ≤ length data1)%nat → (8 ≤ length data2)%nat →
  length pre1 = 36%nat → length pre2 = 36%nat →
  getNTLMField data1 38 = getNTLMField data2 38.
Proof.
  intros data1 data2 Hm Ho1 Ho2 Hr1 Hr2 Ht Hl1 Hl2 Hp1 Hp2.
  assert (H : ∀ pre off rest, length pre = 36%nat → 0 ≤ off < 65536 → (2 ≤ length rest)%nat →
    let data := pre ++ binary.put16 len ++ binary.put16 maxLen ++ binary.put32 off ++ rest in
    (8 ≤ length data)%nat →
    getNTLMField data 38 = Some (string_of_bytes (removeZeros (take (Z.to_nat maxLen) (take 8 data))))).
  { intros pre off rest Hp Ho Hr data Hl. rewrite take_take, Nat.min_l by lia.
    pose proof (read_from_head pre len maxLen off rest ltac:(lia) Ho Hr ltac:(fold data; lia)) as H.
    rewrite Hp in H. exact H. }
  unfold data1 at 1, data2 at 1. rewrite (H pre1 off1 rest1), (H pre2 off2 rest2) by done.
  fold data1 data2. by rewrite Ht.
Qed.
End LdapAccess.
