(* ===== verification/Bbolt.v ===== *)
(** * embedded key-value store (db/bbolt/etcdBBolt.go)

    The wrapper over go.etcd.io/bbolt.  What it uses of a bucket is the class
    [Bucket], with the documented laws in [BucketLaws]; transactions work on a
    copy that is committed when the function returns nil.  Every operation
    dereferences the handle of the database, which is nil before [Start] and
    after [Stop]: [None] is that panic.  [BBLogger] is the logger handed to
    the library (bbl.go). *)

From S2P Require Import Prelude GoBytes.

(** Byte slices in lexicographic order. *)
Fixpoint bytes_ltb (a b : bytes) : bool :=
  match a, b with
  | [], [] => false
  | [], _ :: _ => true
  | _ :: _, [] => false
  | x :: a, y :: b => if x <? y then true else if y <? x then false else bytes_ltb a b
  end.

(** A bucket of the library. *)
Class Bucket (B : Type) := {
  b_new : B;
  b_get : B → bytes → option bytes;          (* nil when absent *)
  b_put : B → bytes → bytes → result B;
  b_delete : B → bytes → result B;
  b_seq : B → Z;
  b_next : B → result (Z * B);               (* NextSequence *)
  b_cursor : B → list (bytes * bytes)        (* First, then Next until nil *)
}.

Class BucketLaws (B : Type) `{Bucket B} : Prop := {
  new_law : b_cursor (b_new (B:=B)) = [] ∧ b_seq (b_new (B:=B)) = 0;
  put_law b b' k v : b_put b k v = Ok b' →
    b_seq b' = b_seq b ∧ ∀ j, b_get b' j = if decide (j = k) then Some v else b_get b j;
  delete_law b b' k : b_delete b k = Ok b' →
    b_seq b' = b_seq b ∧ ∀ j, b_get b' j = if decide (j = k) then None else b_get b j;
  next_law b b' n : b_next b = Ok (n, b') →
    n = b_seq b + 1 ∧ b_seq b' = n ∧ b_cursor b' = b_cursor b;
  cursor_sorted b : StronglySorted (λ x y, bytes_ltb x.1 y.1 = true) (b_cursor b);
  cursor_get b k v : (k, v) ∈ b_cursor b ↔ b_get b k = Some v
}.

(** ** Order *)

Lemma bytes_ltb_irrefl a : bytes_ltb a a = false.
Proof. induction a as [|x a IH]; [done|]. cbn. by rewrite Z.ltb_irrefl. Qed.

Lemma bytes_ltb_trans a b c : bytes_ltb a b = true → bytes_ltb b c = true → bytes_ltb a c = true.
Proof.
  revert b c. induction a as [|x a IH]; intros [|y b] [|z c]; cbn; try done.
  destruct (x <? y) eqn:E1, (y <? z) eqn:E2, (y <? x) eqn:E3, (z <? y) eqn:E4; bool_to_prop; try done; try lia;
    intros H1 H2; destruct (x <? z) eqn:E5, (z <? x) eqn:E6; bool_to_prop; try done; try lia; by apply (IH b).
Qed.

Lemma bytes_ltb_total a b : bytes_ltb a b = false → bytes_ltb b a = false → a = b.
Proof.
  revert b. induction a as [|x a IH]; intros [|y b]; cbn; try done.
  destruct (x <? y) eqn:E1, (y <? x) eqn:E2; bool_to_prop; try done.
  intros H1 H2. f_equal; [lia|by apply IH].
Qed.

(** Keys of the same length are ordered by the numbers they are. *)
Lemma be_value_ltb a b :
  wf_bytes a → wf_bytes b → length a = length b → binary.be_value a < binary.be_value b → bytes_ltb a b = true.
Proof.
  intros Ha. revert b. induction Ha as [|x a Hx Ha IH]; intros [|y b]; intros Hb Hl Hlt; try done.
  apply Forall_cons in Hb as [Hy Hb]. injection Hl as Hl. rewrite !binary.be_value_cons, Hl in Hlt.
  pose proof (binary.be_value_range a Ha) as Hra. pose proof (binary.be_value_range b Hb) as Hrb. rewrite Hl in Hra.
  cbn. destruct (x <? y) eqn:E1; [done|]. destruct (y <? x) eqn:E2; bool_to_prop; [nia|].
  assert (x = y) as -> by lia. apply IH; [done|done|lia].
Qed.

(** [Itob]: eight bytes, most significant first. *)
Definition Itob (v : Z) : bytes := binary.be64 v.

Lemma Itob_value v : 0 ≤ v < 2 ^ 64 → binary.be_value (Itob v) = v.
Proof. apply binary.be64_value. Qed.

Lemma Itob_order a b : 0 ≤ a → a < b → b < 2 ^ 64 → bytes_ltb (Itob a) (Itob b) = true.
Proof.
  intros Ha Hab Hb. apply be_value_ltb; [apply binary.be64_wf|apply binary.be64_wf|done|].
  rewrite !Itob_value by lia. done.
Qed.

Module Bbolt.

(** [KV] *)
Record KV := MkKV { Key : bytes; Value : bytes }.

Definition not_found : string := "bucket not found".

Section store.
Context {B : Type} `{BucketLaws B}.
(** The library refuses some bucket names. *)
Context (nameErr : bytes → option string).

(** The buckets of the open file; [None] is the nil handle. *)
Abbreviation db := (gmap bytes B).
Record BBolt := MkBBolt { handle : option db }.

Definition Start (bb : BBolt) (opened : result db) : option string * BBolt :=
  match handle bb with
  | Some _ => (Some "bbolt is already started"%string, bb)
  | None => match opened with Ok d => (None, MkBBolt (Some d)) | Err e => (Some e, MkBBolt None) end
  end.

Definition Stop (bb : BBolt) (closeErr : option string) : option string * BBolt :=
  match handle bb with Some _ => (closeErr, MkBBolt None) | None => (None, bb) end.

(** A transaction: a value the closure leaves, its error, the new contents.
    An error rolls back. *)
Definition Update {A : Type} (bb : BBolt) (f : db → A * option string * db) : option (A * option string * BBolt) :=
  match handle bb with
  | None => None
  | Some d =>
      let '(a, err, d') := f d in
      Some (a, err, MkBBolt (Some (match err with None => d' | Some _ => d end)))
  end.

(** A write to one bucket: the closure's [if b := tx.Bucket(bucket); b != nil]. *)
Definition in_bucket {A : Type} (bucket : bytes) (dflt : A) (f : B → A * option string * B) (d : db) :
    A * option string * db :=
  match d !! bucket with
  | None => (dflt, Some not_found, d)
  | Some b => let '(a, err, b') := f b in (a, err, <[bucket := b']> d)
  end.

Definition View {A : Type} (bb : BBolt) (bucket : bytes) (f : B → A) (dflt : A) : option (A * option string) :=
  match handle bb with
  | None => None
  | Some d => Some (match d !! bucket with Some b => (f b, None) | None => (dflt, Some not_found) end)
  end.

(** The error of one write of the library, with the bucket unchanged. *)
Definition lift (b : B) (r : result B) : unit * option string * B :=
  match r with Ok b' => (tt, None, b') | Err e => (tt, Some e, b) end.

Definition CreateBucket (bb : BBolt) (name : bytes) : option (unit * option string * BBolt) :=
  Update bb (λ d,
    match nameErr name with
    | Some e => (tt, Some e, d)
    | None => (tt, None, match d !! name with Some _ => d | None => <[name := b_new]> d end)
    end).

Definition DeleteBucket (bb : BBolt) (name : bytes) : option (unit * option string * BBolt) :=
  Update bb (λ d, match d !! name with Some _ => (tt, None, delete name d) | None => (tt, Some not_found, d) end).

Definition DelByKey (bb : BBolt) (bucket key : bytes) : option (unit * option string * BBolt) :=
  Update bb (in_bucket bucket tt (λ b, lift b (b_delete b key))).

Fixpoint delete_all (b : B) (keys : list bytes) : unit * option string * B :=
  match keys with
  | [] => (tt, None, b)
  | key :: keys =>
      match b_delete b key with
      | Err e => (tt, Some e, b)
      | Ok b => delete_all b keys
      end
  end.

Definition BatchDelByKey (bb : BBolt) (bucket : bytes) (keys : list bytes) : option (unit * option string * BBolt) :=
  Update bb (in_bucket bucket tt (λ b, delete_all b keys)).

Fixpoint put_all (b : B) (items : list KV) : unit * option string * B :=
  match items with
  | [] => (tt, None, b)
  | item :: items =>
      match b_put b (Key item) (Value item) with
      | Err e => (tt, Some e, b)
      | Ok b => put_all b items
      end
  end.

Definition BatchPut (bb : BBolt) (bucket : bytes) (items : list KV) : option (unit * option string * BBolt) :=
  Update bb (in_bucket bucket tt (λ b, put_all b items)).

Definition Put (bb : BBolt) (bucket key value : bytes) : option (unit * option string * BBolt) :=
  Update bb (in_bucket bucket tt (λ b, lift b (b_put b key value))).

(** [Get]: an absent key is an empty slice, without error. *)
Definition Get (bb : BBolt) (bucket key : bytes) : option (bytes * option string) :=
  View bb bucket (λ b, match b_get b key with Some v => v | None => [] end) [].

(** [GetAll]: keys with an empty value are left out. *)
Definition GetAll (bb : BBolt) (bucket : bytes) : option (list KV * option string) :=
  View bb bucket (λ b, omap (λ kv, if decide (kv.2 = []) then None else Some (MkKV kv.1 kv.2)) (b_cursor b)) [].

Definition add_seq (value : bytes) (b : B) : Z * option string * B :=
  match b_next b with
  | Err e => (0, Some e, b)
  | Ok (id, b) => match b_put b (Itob id) value with Ok b => (id, None, b) | Err e => (id, Some e, b) end
  end.

Definition AddWithSeqID (bb : BBolt) (bucket value : bytes) : option (Z * option string * BBolt) :=
  Update bb (in_bucket bucket 0 (add_seq value)).

Definition AddWithSeq (bb : BBolt) (bucket value : bytes) : option (unit * option string * BBolt) :=
  match AddWithSeqID bb bucket value with Some (_, e, bb) => Some (tt, e, bb) | None => None end.

(** ** Lemmas *)

Lemma Update_error {A : Type} (bb : BBolt) (f : db → A * option string * db) a e (bb' : BBolt) :
  Update bb f = Some (a, Some e, bb') → bb' = bb.
Proof.
  unfold Update. destruct bb as [[d|]]; cbn; [|done]. destruct (f d) as [[a' [e'|]] d']; intros [= <- <- <-]; done.
Qed.

Lemma put_all_spec items b b' :
  put_all b items = (tt, None, b') →
  ∀ k, b_get b' k =
    match last (filter (λ i, Key i = k) items) with Some i => Some (Value i) | None => b_get b k end.
Proof.
  revert b. induction items as [|i items IH]; intros b; cbn [put_all]; [by intros [= <-]|].
  destruct (b_put b (Key i) (Value i)) as [b1|e] eqn:E; [|done]. intros Hp k. rewrite (IH b1 Hp k).
  destruct (put_law _ _ _ _ E) as [_ Hg]. rewrite filter_cons. destruct (decide (Key i = k)) as [<-|Hne].
  - rewrite last_cons, Hg. destruct (last _) as [j|]; [done|]. by destruct (decide _).
  - rewrite Hg. destruct (last _) as [j|]; [done|]. by destruct (decide _) as [->|].
Qed.

Lemma delete_all_spec keys b b' :
  delete_all b keys = (tt, None, b') → ∀ k, b_get b' k = if decide (k ∈ keys) then None else b_get b k.
Proof.
  revert b. induction keys as [|key keys IH]; intros b; cbn [delete_all]; [by intros [= <-]|].
  destruct (b_delete b key) as [b1|e] eqn:E; [|done]. intros Hd k. rewrite (IH b1 Hd k).
  destruct (delete_law _ _ _ E) as [_ Hg]. rewrite Hg.
  destruct (decide (k ∈ keys)), (decide (k ∈ key :: keys)), (decide (k = key)); set_solver.
Qed.

Lemma cursor_NoDup b : NoDup (b_cursor b).
Proof.
  pose proof (cursor_sorted b) as Hs. induction Hs as [|x l Hs IH Hx]; constructor; [|done].
  intros Hin. rewrite Forall_forall in Hx. specialize (Hx x Hin). by rewrite bytes_ltb_irrefl in Hx.
Qed.

(** Contents determine the cursor. *)
Lemma cursor_unique b l :
  StronglySorted (λ x y, bytes_ltb x.1 y.1 = true) l → (∀ k v, (k, v) ∈ l ↔ b_get b k = Some v) → b_cursor b = l.
Proof.
  intros Hl Hg. apply (StronglySorted_unique_strong (λ x y, bytes_ltb x.1 y.1 = true)).
  - intros x y _ _ H1 H2. pose proof (bytes_ltb_trans _ _ _ H1 H2) as H3. by rewrite bytes_ltb_irrefl in H3.
  - apply cursor_sorted.
  - done.
  - apply NoDup_Permutation; [apply cursor_NoDup| |].
    + clear Hg. induction Hl as [|x l Hl IH Hx]; constructor; [|done]. intros Hin.
      rewrite Forall_forall in Hx. specialize (Hx x Hin). by rewrite bytes_ltb_irrefl in Hx.
    + intros [k v]. by rewrite cursor_get, Hg.
Qed.

(** A bucket that is only added to: its keys are numbers up to its sequence. *)
Definition numbered (b : B) : Prop :=
  0 ≤ b_seq b ∧ ∀ k v, (k, v) ∈ b_cursor b → ∃ n, k = Itob n ∧ 1 ≤ n ≤ b_seq b.

Lemma add_seq_spec b value id b' :
  numbered b → b_seq b + 1 < 2 ^ 64 → add_seq value b = (id, None, b') →
  id = b_seq b + 1 ∧ b_seq b' = id ∧ b_cursor b' = b_cursor b ++ [(Itob id, value)] ∧ numbered b'.
Proof.
  intros [Hs Hn] Hlim. unfold add_seq. destruct (b_next b) as [[n b1]|e] eqn:E1; [|done].
  destruct (b_put b1 (Itob n) value) as [b2|e] eqn:E2; [|done]. intros [= <- <-].
  destruct (next_law _ _ _ E1) as (-> & Hb1 & Hc1). destruct (put_law _ _ _ _ E2) as [Hs2 Hg2].
  assert (Hold : ∀ k v, (k, v) ∈ b_cursor b → bytes_ltb k (Itob (b_seq b + 1)) = true).
  { intros k v Hk. destruct (Hn k v Hk) as (m & -> & Hm). apply Itob_order; lia. }
  assert (Hcur : b_cursor b2 = b_cursor b ++ [(Itob (b_seq b + 1), value)]).
  { apply cursor_unique.
    - apply StronglySorted_app. split; [|split; [apply cursor_sorted|by repeat constructor]].
      intros [k v] x Hk ->%list_elem_of_singleton. by apply (Hold k v).
    - intros k v. rewrite elem_of_app, list_elem_of_singleton, Hg2, <- Hc1, cursor_get.
      destruct (decide (k = Itob (b_seq b + 1))) as [->|Hne].
      + split; [|intros [= <-]; by right]. intros [Hk|[= <-]]; [|done].
        rewrite <- cursor_get, Hc1 in Hk. apply Hold in Hk. by rewrite bytes_ltb_irrefl in Hk.
      + split; [intros [?|[= ? _]]; done|by left]. }
  split; [done|]. split; [congruence|]. split; [done|]. split; [lia|].
  intros k v. rewrite Hcur, Hs2, Hb1, elem_of_app, list_elem_of_singleton. intros [Hk|[= -> _]].
  - destruct (Hn k v Hk) as (m & -> & Hm). exists m. split; [done|lia].
  - exists (b_seq b + 1). split; [done|lia].
Qed.

(** Values added one after the other: the numbers they got. *)
Fixpoint add_all (bb : BBolt) (bucket : bytes) (values : list bytes) : option (list Z * BBolt) :=
  match values with
  | [] => Some ([], bb)
  | v :: values =>
      match AddWithSeqID bb bucket v with
      | Some (id, None, bb) =>
          match add_all bb bucket values with Some (ids, bb) => Some (id :: ids, bb) | None => None end
      | _ => None
      end
  end.

Lemma add_all_spec values bb bucket d b ids bb' :
  handle bb = Some d → d !! bucket = Some b → numbered b → b_seq b + Z.of_nat (length values) < 2 ^ 64 →
  add_all bb bucket values = Some (ids, bb') →
  ids = (λ i, b_seq b + 1 + Z.of_nat i) <$> seq 0 (length values) ∧
  ∃ d' b', handle bb' = Some d' ∧ d' !! bucket = Some b' ∧
    b_cursor b' = b_cursor b ++ zip (Itob <$> ids) values.
Proof.
  revert bb d b ids. induction values as [|v values IH]; intros bb d b ids Hd Hb Hn Hlim; cbn [add_all].
  { intros [= <- <-]. split; [done|]. exists d, b. by rewrite app_nil_r. }
  unfold AddWithSeqID, Update, in_bucket. rewrite Hd, Hb.
  destruct (add_seq v b) as [[id [e|]] b1] eqn:Ea; [done|]. cbn [length] in Hlim.
  destruct (add_seq_spec b v id b1 Hn ltac:(lia) Ea) as (Hid & Hs1 & Hc1 & Hn1).
  set (bb1 := MkBBolt (Some (<[bucket := b1]> d))).
  destruct (add_all bb1 bucket values) as [[ids1 bb2]|] eqn:Er; [|done]. intros [= <- <-].
  destruct (IH bb1 (<[bucket := b1]> d) b1 ids1 eq_refl (lookup_insert_eq _ _ _) Hn1 ltac:(lia) Er)
    as (-> & d' & b' & Hd' & Hb' & Hc'). split.
  - cbn [length seq]. rewrite fmap_cons, <- fmap_S_seq, <- list_fmap_compose. f_equal; [lia|].
    apply list_fmap_ext. intros i k Hi. cbn. lia.
  - exists d', b'. split; [done|]. split; [done|]. rewrite Hc', Hc1, <- app_assoc. done.
Qed.

(** ** Properties *)

(** A bucket used as a queue: values added to a new bucket get the
    numbers 1, 2, 3 and so on, and reading the bucket gives them back in the
    order in which they were added, empty values left out. *)
Theorem queue_order bb bucket d b values ids bb' :
  handle bb = Some d → d !! bucket = Some b → b_cursor b = [] → b_seq b = 0 →
  Z.of_nat (length values) < 2 ^ 64 →
  add_all bb bucket values = Some (ids, bb') →
  ids = (λ i, 1 + Z.of_nat i) <$> seq 0 (length values) ∧
  GetAll bb' bucket = Some (omap (λ kv, if decide (kv.2 = []) then None else Some (MkKV kv.1 kv.2))
                              (zip (Itob <$> ids) values), None).
Proof.
  intros Hd Hb Hc Hs Hlim Hadd. assert (Hn : numbered b) by (split; [lia|rewrite Hc; set_solver]).
  destruct (add_all_spec values bb bucket d b ids bb' Hd Hb Hn ltac:(lia) Hadd) as (-> & d' & b' & Hd' & Hb' & Hc').
  split; [apply list_fmap_ext; intros i k Hi; lia|]. unfold GetAll, View. by rewrite Hd', Hb', Hc', Hc.
Qed.

(** A batch of writes happens entirely or not at all: on an error the
    store is what it was; otherwise every key has the value written last, and
    the other keys theirs. *)
Theorem BatchPut_atomic bb bucket items err bb' :
  BatchPut bb bucket items = Some (tt, err, bb') →
  match err with
  | Some _ => bb' = bb
  | None => ∃ d b, handle bb = Some d ∧ d !! bucket = Some b ∧
      ∀ k, Get bb' bucket k =
        match last (filter (λ i, Key i = k) items) with Some i => Some (Value i, None) | None => Get bb bucket k end
  end.
Proof.
  intros Hb. destruct err as [e|]; [by apply Update_error in Hb|].
  unfold BatchPut, Update, in_bucket in Hb. destruct (handle bb) as [d|] eqn:Hd; [|done].
  destruct (d !! bucket) as [b|] eqn:Hbk; [|done].
  destruct (put_all b items) as [[[] [e|]] b1] eqn:Hp; [done|]. injection Hb as <-.
  exists d, b. split; [done|]. split; [done|]. intros k. unfold Get, View. cbn [handle].
  rewrite Hd, lookup_insert_eq, Hbk, (put_all_spec items b b1 Hp k). by destruct (last _).
Qed.

(** What is put is what a get returns, and a deleted key reads as
    empty; other keys and other buckets are not touched. *)
Theorem Put_Get bb bucket key value bb' :
  Put bb bucket key value = Some (tt, None, bb') →
  Get bb' bucket key = Some (value, None) ∧
  (∀ k, k ≠ key → Get bb' bucket k = Get bb bucket k) ∧
  (∀ b2 k, b2 ≠ bucket → Get bb' b2 k = Get bb b2 k) ∧
  ∀ bb2, DelByKey bb' bucket key = Some (tt, None, bb2) → Get bb2 bucket key = Some ([], None).
Proof.
  unfold Put, Update, in_bucket, lift. destruct (handle bb) as [d|] eqn:Hd; [|done].
  destruct (d !! bucket) as [b|] eqn:Hb; [|done].
  destruct (b_put b key value) as [b1|e] eqn:Hp; [|done]. intros [= <-].
  destruct (put_law _ _ _ _ Hp) as [_ Hg]. unfold Get, View. cbn [handle]. rewrite Hd.
  split_and!.
  - rewrite lookup_insert_eq, Hg. by destruct (decide _).
  - intros k Hk. rewrite lookup_insert_eq, Hb, Hg. by destruct (decide _).
  - intros b2 k Hne. by rewrite lookup_insert_ne.
  - intros bb2. unfold DelByKey, Update, in_bucket, lift. cbn [handle]. rewrite lookup_insert_eq.
    destruct (b_delete b1 key) as [b3|e] eqn:Hdel; [|done]. intros [= <-]. cbn [handle].
    destruct (delete_law _ _ _ Hdel) as [_ Hg3]. rewrite lookup_insert_eq, Hg3. by destruct (decide _).
Qed.
End store.

(** ** An implementation of the interface

    A bucket as a finite map and a counter, its cursor by sorting: the laws
    hold together. *)

Record map_bucket := MkMapBucket { content : gmap bytes bytes; seq_number : Z }.

Definition entry_le (x y : bytes * bytes) : Prop := bytes_ltb y.1 x.1 = false.
#[local] Instance entry_le_dec x y : Decision (entry_le x y).
Proof. unfold entry_le. apply _. Defined.
#[local] Instance entry_le_total : Total entry_le.
Proof.
  intros x y. unfold entry_le. destruct (bytes_ltb y.1 x.1) eqn:E1; [|by left]. right.
  destruct (bytes_ltb x.1 y.1) eqn:E2; [|done]. pose proof (bytes_ltb_trans _ _ _ E1 E2) as H.
  by rewrite bytes_ltb_irrefl in H.
Qed.
#[local] Instance entry_le_trans : Transitive entry_le.
Proof.
  intros x y z. unfold entry_le. intros H1 H2. destruct (bytes_ltb z.1 x.1) eqn:E; [|done].
  destruct (bytes_ltb x.1 y.1) eqn:E1.
  - by rewrite (bytes_ltb_trans _ _ _ E E1) in H2.
  - pose proof (bytes_ltb_total _ _ E1 H1) as Heq. rewrite Heq in E. congruence.
Qed.

#[export] Instance map_bucket_ops : Bucket map_bucket := {
  b_new := MkMapBucket ∅ 0;
  b_get b k := content b !! k;
  b_put b k v := if decide (k = []) then Err "key required" else Ok (MkMapBucket (<[k := v]> (content b)) (seq_number b));
  b_delete b k := Ok (MkMapBucket (delete k (content b)) (seq_number b));
  b_seq := seq_number;
  b_next b := Ok (seq_number b + 1, MkMapBucket (content b) (seq_number b + 1));
  b_cursor b := merge_sort entry_le (map_to_list (content b))
}.

Lemma sorted_strict (l : list (bytes * bytes)) :
  StronglySorted entry_le l → NoDup l.*1 → StronglySorted (λ x y, bytes_ltb x.1 y.1 = true) l.
Proof.
  induction 1 as [|x l Hl IH Hx]; [constructor|]. cbn. intros [Hn Hnd]%NoDup_cons. constructor; [by apply IH|].
  rewrite Forall_forall in *. intros y Hy. specialize (Hx y Hy). unfold entry_le in Hx.
  destruct (bytes_ltb x.1 y.1) eqn:E; [done|]. destruct Hn.
  rewrite (bytes_ltb_total _ _ E Hx). apply list_elem_of_fmap. by exists y.
Qed.

#[export] Instance map_bucket_laws : BucketLaws map_bucket.
Proof.
  split; cbn.
  - split; [|done]. by rewrite map_to_list_empty.
  - intros b b' k v. destruct (decide (k = [])); [done|]. intros [= <-]. split; [done|]. intros j. cbn.
    destruct (decide (j = k)) as [->|]; [apply lookup_insert_eq|by apply lookup_insert_ne].
  - intros b b' k [= <-]. split; [done|]. intros j. cbn.
    destruct (decide (j = k)) as [->|]; [apply lookup_delete_eq|by apply lookup_delete_ne].
  - by intros b b' n [= <- <-].
  - intros b. apply sorted_strict.
    + apply Sorted_StronglySorted; [apply _|]. apply Sorted_merge_sort, _.
    + eapply NoDup_Permutation_proper; [apply fmap_Permutation, merge_sort_Permutation|].
      apply NoDup_fst_map_to_list.
  - intros b k v. rewrite merge_sort_Permutation. apply elem_of_map_to_list.
Qed.

Definition jobs : bytes := [106; 111; 98; 115].
Definition store0 : BBolt (B:=map_bucket) := MkBBolt (Some {[jobs := b_new]}).

Lemma queue_order_witness :
  ∃ bb, add_all store0 jobs [[7]; [8]; []; [9]] = Some ([1; 2; 3; 4], bb) ∧
  GetAll bb jobs = Some ([MkKV (Itob 1) [7]; MkKV (Itob 2) [8]; MkKV (Itob 4) [9]], None).
Proof.
  eexists. split; [vm_compute; reflexivity|].
  refine (proj2 (queue_order store0 jobs {[jobs := b_new]} b_new [[7]; [8]; []; [9]] [1; 2; 3; 4] _
    eq_refl eq_refl _ eq_refl _ _)); [vm_compute; reflexivity|cbn; lia|vm_compute; reflexivity].
Defined.

Lemma BatchPut_atomic_witness :
  BatchPut store0 jobs [MkKV [1] [5]; MkKV [] [6]] = Some (tt, Some "key required"%string, store0).
Proof.
  destruct (BatchPut store0 jobs [MkKV [1] [5]; MkKV [] [6]]) as [[[[] err] bb']|] eqn:E; [|vm_compute in E; discriminate].
  pose proof (BatchPut_atomic store0 jobs [MkKV [1] [5]; MkKV [] [6]] err bb' E) as H.
  assert (He : err = Some "key required"%string) by (vm_compute in E; congruence).
  rewrite He in *. by rewrite H.
Defined.

Lemma Put_Get_witness :
  ∃ bb, Put store0 jobs [1] [5] = Some (tt, None, bb) ∧ Get bb jobs [1] = Some ([5], None).
Proof.
  eexists. split; [vm_compute; reflexivity|].
  refine (proj1 (Put_Get store0 jobs [1] [5] _ _)). vm_compute. reflexivity.
Defined.

(** A key that was never written reads like one with an empty value. *)
Lemma absent_key_reads_empty : Get store0 jobs [1] = Some ([], None).
Proof. by vm_compute. Qed.
End Bbolt.

(** ** The logger (db/bbolt/bbl.go)

    Every method asks the default logger whether its level is enabled and
    formats only then.  [Fatal] and [Panic] log an error and return. *)

Module BBLogger.
Section logger.
(** [fmt.Sprintf] on the values of the program, and [Enabled]. *)
Context {A : Type} (Sprintf : string → list A → string).

Inductive level := LevelDebug | LevelInfo | LevelWarn | LevelError.
Context (enabled : level → bool).

(** A line of the default logger. *)
Definition at_level (l : level) (message : unit → string) : list (level * string) :=
  if enabled l then [(l, message tt)] else [].

Definition Debug (v : list A) := at_level LevelDebug (λ _, Sprintf "%v" v).
Definition Debugf (format : string) (v : list A) := at_level LevelDebug (λ _, Sprintf format v).
Definition Error (v : list A) := at_level LevelError (λ _, Sprintf "%v" v).
Definition Errorf (format : string) (v : list A) := at_level LevelError (λ _, Sprintf format v).
Definition Info (v : list A) := at_level LevelInfo (λ _, Sprintf "%v" v).
Definition Infof (format : string) (v : list A) := at_level LevelInfo (λ _, Sprintf format v).
Definition Warning (v : list A) := at_level LevelWarn (λ _, Sprintf "%v" v).
Definition Warningf (format : string) (v : list A) := at_level LevelWarn (λ _, Sprintf format v).
Definition Fatal (v : list A) := at_level LevelError (λ _, "FATAL: " +:+ Sprintf "%v" v).
Definition Fatalf (format : string) (v : list A) := at_level LevelError (λ _, "FATAL: " +:+ Sprintf format v).
Definition Panic (v : list A) := at_level LevelError (λ _, "PANIC: " +:+ Sprintf "%v" v).
Definition Panicf (format : string) (v : list A) := at_level LevelError (λ _, "PANIC: " +:+ Sprintf format v).
End logger.
End BBLogger.
