(* ===== verification/Crypt.v ===== *)
(** * crypt: legacy and current ciphers, HMAC, the KeePass cache, generators
    (crypt/jasypt, crypt/des, crypt/aes, crypt/HmacSHA256, crypt/keepass,
    crypt/generator)

    The primitives of Go's crypto packages (MD5, DES blocks, AES-GCM,
    HMAC-SHA256) enter through classes that state what the code needs of them;
    the modes, paddings, envelopes and caches built on them are the code's own
    and are modelled in full.  Random bytes are arguments. *)

From S2P Require Import Prelude GoBytes GoBase64.

(** ** What the code needs of the primitives *)

Class Md5 := {
  md5_Sum : bytes → bytes;
  md5_length l : length (md5_Sum l) = 16%nat;
  md5_wf l : wf_bytes (md5_Sum l)
}.

(** An 8-byte block cipher: [des.NewCipher(key)] with a key of 8 bytes. *)
Class BlockCipher := {
  block_Encrypt : bytes → bytes → bytes;
  block_Decrypt : bytes → bytes → bytes;
  block_Encrypt_length k b : length b = 8%nat → length (block_Encrypt k b) = 8%nat;
  block_Encrypt_wf k b : wf_bytes b → wf_bytes (block_Encrypt k b);
  block_Decrypt_length k b : length b = 8%nat → length (block_Decrypt k b) = 8%nat;
  block_Decrypt_Encrypt k b :
    length k = 8%nat → length b = 8%nat → wf_bytes b → block_Decrypt k (block_Encrypt k b) = b
}.

(** Authenticated encryption with a nonce of 12 bytes. *)
Class Gcm := {
  sha256_Sum : bytes → bytes;
  gcm_Seal : bytes → bytes → bytes → bytes;
  gcm_Open : bytes → bytes → bytes → option bytes;
  gcm_Seal_wf k n p : wf_bytes p → wf_bytes (gcm_Seal k n p);
  gcm_Open_Seal k n p : gcm_Open k n (gcm_Seal k n p) = Some p
}.

(** ** Blocks and chaining *)

Definition xor_bytes (a b : bytes) : bytes := zip_with Z.lxor a b.

Lemma xor_byte a b : is_byte a → is_byte b → is_byte (Z.lxor a b).
Proof.
  unfold is_byte. intros Ha Hb. change 256 with (2 ^ 8) in *.
  assert (0 ≤ Z.lxor a b) by (apply Z.lxor_nonneg; lia).
  split; [done|]. destruct (Z.eq_dec (Z.lxor a b) 0) as [->|Hne]; [lia|].
  apply Z.log2_lt_pow2; [lia|]. eapply Z.le_lt_trans; [apply Z.log2_lxor; lia|].
  apply Z.max_lub_lt.
  - destruct (Z.eq_dec a 0) as [->|?]; [done|]. apply Z.log2_lt_pow2; lia.
  - destruct (Z.eq_dec b 0) as [->|?]; [done|]. apply Z.log2_lt_pow2; lia.
Qed.

Lemma xor_bytes_wf a b : wf_bytes a → wf_bytes b → wf_bytes (xor_bytes a b).
Proof.
  intros Ha. revert b. induction Ha as [|x a Hx Ha IH]; intros b Hb; [constructor|].
  destruct Hb as [|y b Hy Hb]; [constructor|]. constructor; [by apply xor_byte|by apply IH].
Qed.

Lemma xor_bytes_length a b : length a = length b → length (xor_bytes a b) = length a.
Proof. intros H. unfold xor_bytes. rewrite length_zip_with. lia. Qed.

Lemma xor_bytes_cancel a b : length a = length b → xor_bytes (xor_bytes a b) b = a.
Proof.
  revert b. induction a as [|x a IH]; intros [|y b] H; try done. cbn.
  rewrite Z.lxor_assoc, Z.lxor_nilpotent, Z.lxor_0_r. f_equal. apply IH. simpl in H. lia.
Qed.

Section cbc.
Context `{BlockCipher}.

(** of [cipher.NewCBCEncrypter] and [NewCBCDecrypter] over
    [n] blocks. *)
Fixpoint cbc_encrypt (n : nat) (key iv src : bytes) : bytes :=
  match n with
  | O => []
  | S n =>
      let c := block_Encrypt key (xor_bytes (take 8 src) iv) in
      c ++ cbc_encrypt n key c (drop 8 src)
  end.

Fixpoint cbc_decrypt (n : nat) (key iv src : bytes) : bytes :=
  match n with
  | O => []
  | S n =>
      xor_bytes (block_Decrypt key (take 8 src)) iv ++ cbc_decrypt n key (take 8 src) (drop 8 src)
  end.

Lemma cbc_encrypt_spec n key iv src :
  length src = (8 * n)%nat → length iv = 8%nat → wf_bytes src → wf_bytes iv →
  length (cbc_encrypt n key iv src) = (8 * n)%nat ∧ wf_bytes (cbc_encrypt n key iv src).
Proof.
  revert iv src. induction n as [|n IH]; intros iv src Hl Hiv Hwf Hwiv; [by split; [|constructor]|].
  cbn [cbc_encrypt]. set (c := block_Encrypt key (xor_bytes (take 8 src) iv)).
  assert (Hx : length (xor_bytes (take 8 src) iv) = 8%nat)
    by (rewrite xor_bytes_length; rewrite length_take; lia).
  assert (Hc : length c = 8%nat) by by apply block_Encrypt_length.
  assert (Hwc : wf_bytes c).
  { apply block_Encrypt_wf, xor_bytes_wf; [by apply Forall_take|done]. }
  destruct (IH c (drop 8 src)) as [H1 H2]; [rewrite length_drop; lia|done|by apply Forall_drop|done|].
  split; [rewrite length_app; lia|by apply wf_bytes_app].
Qed.

Lemma cbc_roundtrip n key iv src :
  length src = (8 * n)%nat → length iv = 8%nat → length key = 8%nat → wf_bytes src → wf_bytes iv →
  cbc_decrypt n key iv (cbc_encrypt n key iv src) = src.
Proof.
  revert iv src. induction n as [|n IH]; intros iv src Hl Hiv Hk Hwf Hwiv.
  { destruct src; [done|discriminate Hl]. }
  cbn [cbc_encrypt cbc_decrypt]. set (c := block_Encrypt key (xor_bytes (take 8 src) iv)).
  assert (Ht : length (take 8 src) = 8%nat) by (rewrite length_take; lia).
  assert (Hx : length (xor_bytes (take 8 src) iv) = 8%nat) by (rewrite xor_bytes_length; lia).
  assert (Hc : length c = 8%nat) by by apply block_Encrypt_length.
  assert (Hwx : wf_bytes (xor_bytes (take 8 src) iv)) by (apply xor_bytes_wf; [by apply Forall_take|done]).
  rewrite take_app_length', drop_app_length' by done. unfold c at 1.
  rewrite block_Decrypt_Encrypt, xor_bytes_cancel by (done || lia).
  rewrite IH; [by rewrite take_drop|rewrite length_drop; lia|done|done|by apply Forall_drop|].
  by apply block_Encrypt_wf.
Qed.
End cbc.

(** ** jasypt *)

Module Jasypt.
Section jasypt.
Context `{Md5} `{BlockCipher}.

Fixpoint md5_iter (n : nat) (key : bytes) : bytes :=
  match n with
  | O => key
  | S n => md5_iter n (md5_Sum key)
  end.

Definition getDerivedKey (password salt : bytes) (count : Z) : bytes * bytes :=
  let key := md5_iter (Z.to_nat (count - 1)) (md5_Sum (password ++ salt)) in
  (take 8 key, drop 8 key).

(** [des.NewCipher] refuses keys that do not have 8 bytes. *)
Definition NewCipher (key : bytes) : result bytes :=
  if (length key =? 8)%nat then Ok key else Err "crypto/des: invalid key size".

Definition doEncrypt (password plainText salt : bytes) (iterationCount : Z) : result bytes :=
  let padNum := (8 - Z.of_nat (length plainText) mod 8) mod 256 in
  let padded := plainText ++ replicate (Z.to_nat padNum) padNum in
  let '(dk, iv) := getDerivedKey password salt iterationCount in
  let? block := NewCipher dk in
  Ok (cbc_encrypt (length padded / 8) block iv padded).

Definition doDecrypt (password encText salt : bytes) (iterationCount : Z) : result bytes :=
  if (length encText =? 0)%nat || negb (length encText mod 8 =? 0)%nat
  then Err "invalid ciphertext length"
  else
    let '(dk, iv) := getDerivedKey password salt iterationCount in
    let? block := NewCipher dk in
    let decrypted := cbc_decrypt (length encText / 8) block iv encText in
    let padNum := nth (length decrypted - 1) decrypted 0 in
    if (padNum <? 1) || (8 <? padNum) then Err "invalid padding"
    else Ok (take (length decrypted - Z.to_nat padNum) decrypted).

Definition Encrypt (password : bytes) (iterationCount : Z) (plainText : bytes)
    (salt : result bytes) : result string :=
  let? salt := salt in
  let? encText := doEncrypt password plainText salt iterationCount in
  Ok (base64.EncodeToString (salt ++ encText)).

Definition Decrypt (password : bytes) (iterationCount : Z) (cipherText : string) : result bytes :=
  let '(msgBytes, ok) := base64.DecodeString cipherText in
  if negb ok then Err "illegal base64 data"
  else if (length msgBytes <? 8)%nat || negb (length msgBytes mod 8 =? 0)%nat
  then Err "invalid ciphertext length"
  else doDecrypt password (drop 8 msgBytes) (take 8 msgBytes) iterationCount.

Lemma getDerivedKey_spec password salt count :
  let '(dk, iv) := getDerivedKey password salt count in
  length dk = 8%nat ∧ length iv = 8%nat ∧ wf_bytes iv.
Proof.
  unfold getDerivedKey. set (k0 := md5_Sum (password ++ salt)).
  assert (Hk : ∀ n k, length k = 16%nat → wf_bytes k →
            length (md5_iter n k) = 16%nat ∧ wf_bytes (md5_iter n k)).
  { induction n as [|n IH]; intros k Hl Hw; [done|]. apply IH; [apply md5_length|apply md5_wf]. }
  destruct (Hk (Z.to_nat (count - 1)) k0) as [Hl Hw]; [apply md5_length|apply md5_wf|].
  rewrite length_take, length_drop, Hl. split_and!; [done|done|by apply Forall_drop].
Qed.

(** The padding fills the last block and is never empty. *)
Lemma padded_blocks (plainText : bytes) :
  let padNum := (8 - Z.of_nat (length plainText) mod 8) mod 256 in
  1 ≤ padNum ≤ 8 ∧ ∃ n, (length plainText + Z.to_nat padNum = 8 * S n)%nat.
Proof.
  cbn zeta. pose proof (Z.mod_pos_bound (Z.of_nat (length plainText)) 8 ltac:(lia)).
  rewrite Z.mod_small by lia. split; [lia|].
  exists (Z.to_nat (Z.of_nat (length plainText) / 8)).
  pose proof (Z.div_mod (Z.of_nat (length plainText)) 8 ltac:(lia)).
  assert (0 ≤ Z.of_nat (length plainText) / 8) by (apply Z.div_pos; lia). lia.
Qed.

Lemma nth_last_pad (l : bytes) (p : Z) (n : nat) :
  (0 < n)%nat → nth (length (l ++ replicate n p) - 1) (l ++ replicate n p) 0 = p.
Proof.
  intros Hn. rewrite length_app, length_replicate, app_nth2 by lia.
  assert (Hin : In (nth (length l + n - 1 - length l) (replicate n p) 0) (replicate n p))
    by (apply nth_In; rewrite length_replicate; lia).
  by apply list_elem_of_In, elem_of_replicate in Hin as [? _].
Qed.

Lemma Encrypt_Decrypt_aux password count plainText salt :
  wf_bytes plainText → length salt = 8%nat → wf_bytes salt →
  ∃ cipherText, Encrypt password count plainText (Ok salt) = Ok cipherText ∧
    Decrypt password count cipherText = Ok plainText.
Proof.
  intros Hp Hs Hws. unfold Encrypt, doEncrypt. cbn [result_bind].
  pose proof (getDerivedKey_spec password salt count) as Hk.
  pose proof (padded_blocks plainText) as [Hpad [n Hn]].
  set (padNum := (8 - Z.of_nat (length plainText) mod 8) mod 256) in *.
  destruct (getDerivedKey password salt count) as [dk iv] eqn:Ek. destruct Hk as (Hdk & Hiv & Hwiv).
  unfold NewCipher. rewrite Hdk. cbn [Nat.eqb result_bind].
  set (padded := plainText ++ replicate (Z.to_nat padNum) padNum).
  assert (Hl : length padded = (8 * S n)%nat) by (unfold padded; rewrite length_app, length_replicate; lia).
  assert (Hwp : wf_bytes padded).
  { unfold padded. apply wf_bytes_app. split; [done|]. apply Forall_replicate. unfold is_byte. lia. }
  rewrite Hl, Nat.mul_comm, Nat.div_mul by lia.
  destruct (cbc_encrypt_spec (S n) dk iv padded) as [Hel Hew]; [done..|].
  eexists. split; [done|]. unfold Decrypt.
  rewrite base64.DecodeString_EncodeToString by by apply wf_bytes_app. cbn [negb].
  rewrite length_app, Hs, Hel.
  replace (8 + 8 * S n)%nat with (S (S n) * 8)%nat by lia. rewrite Nat.Div0.mod_mul.
  replace (S (S n) * 8 <? 8)%nat with false by (symmetry; apply Nat.ltb_ge; lia).
  cbn [Nat.eqb negb orb]. rewrite drop_app_length', take_app_length' by done.
  unfold doDecrypt. rewrite Hel. replace (8 * S n =? 0)%nat with false by (symmetry; apply Nat.eqb_neq; lia).
  rewrite (Nat.mul_comm 8), Nat.Div0.mod_mul, Nat.div_mul by lia. cbn [Nat.eqb negb orb].
  rewrite Ek. unfold NewCipher. rewrite Hdk. cbn [Nat.eqb result_bind].
  rewrite cbc_roundtrip by done.
  assert (Hlast : nth (length padded - 1) padded 0 = padNum) by (apply nth_last_pad; lia).
  rewrite Hlast. ztest. cbn [orb].
  f_equal. rewrite Hl. replace (8 * S n - Z.to_nat padNum)%nat with (length plainText) by lia.
  unfold padded. apply take_app_length.
Qed.

(** [C35] Every text encrypts, and decrypting with the same password and
    iteration count gives it back: padding, key derivation, chaining and
    envelope agree between the two directions. *)
Theorem Encrypt_Decrypt password count plainText salt :
  wf_bytes plainText → length salt = 8%nat → wf_bytes salt →
  ∃ cipherText, Encrypt password count plainText (Ok salt) = Ok cipherText ∧
    Decrypt password count cipherText = Ok plainText.
Proof. apply Encrypt_Decrypt_aux. Qed.

(** A text that is not an envelope of whole blocks is refused. *)
Lemma Decrypt_length password count cipherText msg :
  base64.DecodeString cipherText = (msg, true) →
  (length msg < 16)%nat ∨ (length msg mod 8 ≠ 0)%nat →
  Decrypt password count cipherText = Err "invalid ciphertext length".
Proof.
  intros Hd Hl. unfold Decrypt. rewrite Hd. cbn [negb].
  destruct (_ || _) eqn:E; [done|]. apply orb_false_elim in E as [E1 E2].
  apply Nat.ltb_ge in E1. apply negb_false_iff, Nat.eqb_eq in E2.
  unfold doDecrypt. rewrite length_drop.
  assert (Hm : length msg = 8%nat).
  { destruct Hl; [|done]. pose proof (Nat.div_mod (length msg) 8). lia. }
  by rewrite Hm.
Qed.
End jasypt.
End Jasypt.

(** ** AES-GCM envelopes *)

Module Aes.
Section aes.
Context `{Gcm}.

Definition NonceSize : nat := 12.

Definition createHash (key : bytes) : bytes := sha256_Sum key.

(** [CryptPass]: one function for both directions. *)
Definition CryptPass (text : string) (cBlock : bytes) (isEncrypt : bool) (nonce : result bytes) : result string :=
  if isEncrypt then
    let? nonce := nonce in
    Ok (base64.EncodeToString (nonce ++ gcm_Seal cBlock nonce (bytes_of_string text)))
  else
    let '(data, ok) := base64.DecodeString text in
    if negb ok then Err "illegal base64 data"
    else if (length data <? NonceSize)%nat then Err "ciphertext too short"
    else
      match gcm_Open cBlock (take NonceSize data) (drop NonceSize data) with
      | Some byteText => Ok (string_of_bytes byteText)
      | None => Err "cipher: message authentication failed"
      end.

Definition Crypt (text : string) (secret : bytes) (nonce : result bytes) : result string :=
  CryptPass text (createHash secret) true nonce.

Definition DeCrypt (text : string) (secret : bytes) : result string :=
  CryptPass text (createHash secret) false (Err "unused").

(** What [Crypt] produces under a secret, [DeCrypt] opens under it. *)
Theorem Crypt_DeCrypt text secret nonce :
  length nonce = NonceSize → wf_bytes nonce →
  ∃ c, Crypt text secret (Ok nonce) = Ok c ∧ DeCrypt c secret = Ok text.
Proof.
  intros Hn Hw. eexists. split; [done|]. unfold DeCrypt, CryptPass.
  rewrite base64.DecodeString_EncodeToString
    by (apply wf_bytes_app; split; [done|apply gcm_Seal_wf, bytes_of_string_wf]).
  cbn [negb]. rewrite length_app, Hn.
  replace (_ <? _)%nat with false by (symmetry; apply Nat.ltb_ge; lia).
  rewrite take_app_length', drop_app_length', gcm_Open_Seal by done.
  by rewrite string_of_bytes_of_string.
Qed.
End aes.
End Aes.

(** ** HMAC-SHA256 *)

Module HmacSHA256.
Section hmac.
(** [hmac.New(sha256.New, secret)] over the data. *)
Context (mac : bytes → bytes → bytes).

Definition Encode (data secret : bytes) : string := base64.EncodeToString (mac secret data).

Definition Verify (data secret : bytes) (encoded : string) : bool :=
  let mac_ := mac secret data in
  let '(decoded, ok) := base64.DecodeString encoded in
  if negb ok then false else bool_decide (mac_ = decoded).

(** [Verify] accepts exactly the base64 texts of the code of the data
    under the secret, the one [Encode] makes among them. *)
Theorem Verify_spec data secret encoded :
  (Verify data secret encoded = true ↔ base64.DecodeString encoded = (mac secret data, true)) ∧
  (wf_bytes (mac secret data) → Verify data secret (Encode data secret) = true).
Proof.
  split.
  - unfold Verify. destruct (base64.DecodeString encoded) as [decoded ok]. destruct ok; cbn [negb].
    + rewrite bool_decide_eq_true. split; congruence.
    + split; congruence.
  - intros Hw. unfold Verify, Encode. rewrite base64.DecodeString_EncodeToString by done.
    by apply bool_decide_eq_true.
Qed.
End hmac.
End HmacSHA256.

(** ** Single DES *)

Module Des.
Section des.
Context `{BlockCipher}.

Fixpoint trim_left (l : bytes) : bytes :=
  match l with
  | 0 :: l => trim_left l
  | _ => l
  end.

(** [bytes.TrimFunc] with the test for NUL: both ends. *)
Definition ZeroUnPadding (origData : bytes) : bytes := reverse (trim_left (reverse (trim_left origData))).

Definition DesDecrypt (crypted key : bytes) : result bytes :=
  if (length crypted =? 0)%nat || negb (length crypted mod 8 =? 0)%nat
  then Err "ciphertext must be a non-empty multiple of 8 bytes"
  else if negb (length key =? 8)%nat then Err "crypto/des: invalid key size"
  else
    let startData := block_Decrypt key (take 8 crypted) in
    let origData := ZeroUnPadding (cbc_decrypt (length crypted / 8) key key crypted) in
    if (length origData <? 8)%nat then Err "index out of range"
    else Ok (startData ++ drop 8 origData).

Lemma trim_left_spec l : ∃ n, l = replicate n 0 ++ trim_left l ∧ head (trim_left l) ≠ Some 0.
Proof.
  induction l as [|b l (n & Hl & Hh)]; [by exists O|].
  destruct (decide (b = 0)) as [->|Hb].
  - exists (S n). cbn [trim_left replicate app]. by rewrite <- Hl.
  - exists O. by destruct b.
Qed.

(** [ZeroUnPadding] strips the zero bytes of both ends, not only the
    trailing ones. *)
Theorem ZeroUnPadding_both_ends origData :
  ∃ n m, origData = replicate n 0 ++ ZeroUnPadding origData ++ replicate m 0 ∧
    last (ZeroUnPadding origData) ≠ Some 0 ∧
    (Exists (λ b, b ≠ 0) origData → head (ZeroUnPadding origData) ≠ Some 0).
Proof.
  unfold ZeroUnPadding. destruct (trim_left_spec origData) as (n & H1 & H2).
  destruct (trim_left_spec (reverse (trim_left origData))) as (m & H3 & H4).
  set (r := trim_left (reverse (trim_left origData))) in *.
  assert (H5 : trim_left origData = reverse r ++ replicate m 0).
  { rewrite <- (reverse_involutive (trim_left origData)), H3, reverse_app, reverse_replicate. done. }
  exists n, m. rewrite <- H5. split; [done|]. split; [by rewrite last_reverse|].
  intros _ Hh. destruct (reverse r) as [|b l]; [done|]. simpl in Hh. simplify_eq.
  rewrite H5 in H2. done.
Qed.
End des.

(** A cipher to evaluate the functions with. *)
#[local] Instance xor_cipher : BlockCipher.
Proof.
  refine {| block_Encrypt k b := zip_with Z.lxor b (replicate 8 0);
            block_Decrypt k b := zip_with Z.lxor b (replicate 8 0) |}.
  - intros k b Hb. by rewrite length_zip_with, length_replicate, Hb.
  - intros k b Hb. apply xor_bytes_wf; [done|]. by apply Forall_replicate.
  - intros k b Hb. by rewrite length_zip_with, length_replicate, Hb.
  - intros k b Hk Hb Hw. by apply xor_bytes_cancel.
Defined.

(** When the first block decrypts to a byte equal to the first key byte, the
    left trim shifts the text: the first byte of the second block is lost. *)
Lemma DesDecrypt_shifts :
  DesDecrypt ([7; 1; 1; 1; 1; 1; 1; 1] ++ xor_bytes [65; 66; 67; 68; 69; 70; 71; 72] [7; 1; 1; 1; 1; 1; 1; 1])
    [7; 0; 0; 0; 0; 0; 0; 0] =
  Ok ([7; 1; 1; 1; 1; 1; 1; 1] ++ [66; 67; 68; 69; 70; 71; 72]).
Proof. by vm_compute. Qed.
End Des.

(** ** Concrete runs *)

(** Toy primitives: not ciphers, but they have the properties of the classes. *)
#[local] Instance toy_md5 : Md5 :=
  {| md5_Sum l := replicate 16 (Z.of_nat (length l) mod 256);
     md5_length l := length_replicate 16 _;
     md5_wf l := Forall_replicate is_byte 16 _ (Z.mod_pos_bound _ 256 eq_refl) |}.

#[local] Instance toy_gcm : Gcm :=
  {| sha256_Sum l := l; gcm_Seal k n p := p; gcm_Open k n c := Some c;
     gcm_Seal_wf k n p Hp := Hp; gcm_Open_Seal k n p := eq_refl |}.

#[local] Instance toy_cipher : BlockCipher := Des.xor_cipher.

Lemma Encrypt_Decrypt_witness :
  ∃ c, Jasypt.Encrypt [1] 1000 [104; 105] (Ok (seqZ 0 8)) = Ok c ∧ Jasypt.Decrypt [1] 1000 c = Ok [104; 105].
Proof.
  apply (Jasypt.Encrypt_Decrypt [1] 1000 [104; 105] (seqZ 0 8));
    [by repeat constructor|done|by repeat constructor].
Defined.

Lemma Crypt_DeCrypt_witness :
  ∃ c, Aes.Crypt "hello" [1] (Ok (seqZ 0 12)) = Ok c ∧ Aes.DeCrypt c [1] = Ok "hello"%string.
Proof. apply (Aes.Crypt_DeCrypt "hello" [1] (seqZ 0 12)); [done|by repeat constructor]. Defined.

Lemma ZeroUnPadding_witness : head (Des.ZeroUnPadding [0; 5; 0; 6; 0]) ≠ Some 0.
Proof.
  destruct (Des.ZeroUnPadding_both_ends [0; 5; 0; 6; 0]) as (n & m & _ & _ & H). apply H.
  by right; left.
Defined.

Lemma Verify_spec_witness :
  HmacSHA256.Verify (λ s d, s ++ d) [1] [2] (HmacSHA256.Encode (λ s d, s ++ d) [1] [2]) = true.
Proof.
  destruct (HmacSHA256.Verify_spec (λ s d, s ++ d) [1] [2] "") as [_ H]. apply H. by repeat constructor.
Defined.

(** ** keepass *)

Module Keepass.

Record NPItem := MkNPItem { Name : string; Pass : string; Notes : string }.

(** The part of the database the code reads. *)
Record Entry := MkEntry { UserName : string; Password : string; EntryNotes : string }.
Inductive Group := MkGroup (Groups : list Group) (Entries : list Entry).

Definition entry_item (note : string) (e : Entry) : list NPItem :=
  if strings.Contains (EntryNotes e) note then [MkNPItem (UserName e) (Password e) (EntryNotes e)] else [].

(** [getGroups]: appends to the caller's slice, subgroups before entries. *)
Fixpoint getGroup (note : string) (g : Group) (acc : list NPItem) {struct g} : list NPItem :=
  let '(MkGroup gs es) := g in
  let acc := (fix getGroups (gs : list Group) (acc : list NPItem) : list NPItem :=
                match gs with
                | [] => acc
                | g :: gs => getGroups gs (getGroup note g acc)
                end) gs acc in
  fold_left (λ acc e, acc ++ entry_item note e) es acc.

Definition getGroups (note : string) (gs : list Group) (acc : list NPItem) : list NPItem :=
  fold_left (λ acc g, getGroup note g acc) gs acc.

Record File := MkFile { content : bytes; modTime : Time; size : Z }.
Record keepassCacheEntry := MkCacheEntry { e_modTime : Time; e_size : Z; e_db : list Group }.

Abbreviation keepassCache := (gmap (string * string) keepassCacheEntry).

Section load.
(** Decoding and unlocking a database file with a password. *)
Context (decode : bytes → string → result (list Group)).

(** The result is the error (closing the file does not fail), the cache and
    the caller's slice. *)
Definition Load (fs : gmap string File) (cache : keepassCache) (fileName pass note : string)
    (acc : list NPItem) : option string * keepassCache * list NPItem :=
  let key := (fileName, pass) in
  let hit :=
    match cache !! key with
    | Some entry =>
        match fs !! fileName with
        | Some fi =>
            if time.Equal (modTime fi) (e_modTime entry) && (size fi =? e_size entry)
            then Some entry else None
        | None => None
        end
    | None => None
    end in
  match hit with
  | Some entry => (None, cache, getGroups note (e_db entry) acc)
  | None =>
      match fs !! fileName with
      | None => (Some "no such file"%string, cache, acc)
      | Some file =>
          match decode (content file) pass with
          | Err e => (Some e, cache, acc)
          | Ok db =>
              (None, <[key := MkCacheEntry (modTime file) (size file) db]> cache, getGroups note db acc)
          end
      end
  end.

(** [written] is the history of the files: what a file held when it had a
    given stamp.  As a function it says that a change of content changes the
    modification time or the size, the code's own assumption. *)
Definition consistent (written : string → Time → Z → option bytes) (fs : gmap string File) : Prop :=
  ∀ name f, fs !! name = Some f → written name (modTime f) (size f) = Some (content f).

Definition coherent (written : string → Time → Z → option bytes) (cache : keepassCache) : Prop :=
  ∀ name pass e, cache !! (name, pass) = Some e →
    ∃ c, written name (e_modTime e) (e_size e) = Some c ∧ decode c pass = Ok (e_db e).

(** The cache is transparent: as long as a change of a file changes
    its stamp, loading through the cache gives the same error and the same
    items as loading without it, and leaves the cache coherent. *)
Theorem Load_cache_transparent written fs cache fileName pass note acc :
  consistent written fs → coherent written cache →
  let '(err, cache', items) := Load fs cache fileName pass note acc in
  let '(err0, _, items0) := Load fs ∅ fileName pass note acc in
  err = err0 ∧ items = items0 ∧ coherent written cache'.
Proof.
  intros Hfs Hc. unfold Load. rewrite lookup_empty.
  assert (Hins : ∀ f db, fs !! fileName = Some f → decode (content f) pass = Ok db →
            coherent written (<[(fileName, pass) := MkCacheEntry (modTime f) (size f) db]> cache)).
  { intros f db Hf Hd name p e. destruct (decide ((fileName, pass) = (name, p))) as [[= <- <-]|Hne].
    - rewrite lookup_insert_eq. intros [= <-]. exists (content f). split; [by apply Hfs|done].
    - rewrite lookup_insert_ne by done. apply Hc. }
  destruct (fs !! fileName) as [f|] eqn:Ef.
  - destruct (cache !! (fileName, pass)) as [e|] eqn:Ee.
    + destruct (time.Equal _ _ && _) eqn:Et.
      * apply andb_prop in Et as [Et Es]. apply Z.eqb_eq in Et, Es.
        destruct (Hc _ _ _ Ee) as (c & Hw & Hd). rewrite <- Et, <- Es in Hw.
        apply Hfs in Ef. rewrite Hw in Ef. injection Ef as ->. rewrite Hd. done.
      * destruct (decode (content f) pass) eqn:Ed; split_and!; try done. by apply Hins.
    + destruct (decode (content f) pass) eqn:Ed; split_and!; try done. by apply Hins.
  - by destruct (cache !! (fileName, pass)).
Qed.
End load.

(** The items of a tree, in the order they are appended. *)
Fixpoint items_of (note : string) (g : Group) : list NPItem :=
  let '(MkGroup gs es) := g in (gs ≫= items_of note) ++ (es ≫= entry_item note).

(** [getGroups] appends exactly the matching entries, subgroups first. *)
Lemma getGroup_items note g acc : getGroup note g acc = acc ++ items_of note g.
Proof.
  revert g acc. fix IH 1. intros [gs es] acc. cbn [getGroup items_of].
  assert (He : ∀ acc, fold_left (λ acc e, acc ++ entry_item note e) es acc = acc ++ (es ≫= entry_item note)).
  { induction es as [|e es IHe]; intros a; cbn; [by rewrite app_nil_r|]. by rewrite IHe, app_assoc. }
  rewrite He, app_assoc. f_equal. clear He. revert acc.
  induction gs as [|g gs IHg]; intros acc; cbn; [by rewrite app_nil_r|].
  by rewrite IHg, IH, app_assoc.
Qed.

Lemma getGroups_items note gs acc : getGroups note gs acc = acc ++ (gs ≫= items_of note).
Proof.
  unfold getGroups. revert acc. induction gs as [|g gs IH]; intros acc; cbn; [by rewrite app_nil_r|].
  by rewrite IH, getGroup_items, app_assoc.
Qed.

Definition toy_decode (c : bytes) (pass : string) : result (list Group) :=
  Ok [MkGroup [] [MkEntry "u" pass (string_of_bytes c)]].
Definition toy_file : File := MkFile [110] 5 1.
Definition toy_cache : keepassCache :=
  {[("f", "p")%string := MkCacheEntry 5 1 [MkGroup [] [MkEntry "u" "p" "n"]]]}.

Lemma Load_cache_transparent_witness :
  (Load toy_decode {["f"%string := toy_file]} toy_cache "f" "p" "n" []).2 =
  (Load toy_decode {["f"%string := toy_file]} ∅ "f" "p" "n" []).2.
Proof.
  pose (written := λ (name : string) (t : Time) (s : Z), if t =? 5 then Some [110] else None).
  assert (H := Load_cache_transparent toy_decode written {["f"%string := toy_file]} toy_cache "f" "p" "n" []).
  assert (Hfs : consistent written {["f"%string := toy_file]}).
  { intros name f [_ <-]%lookup_singleton_Some. done. }
  assert (Hc : coherent toy_decode written toy_cache).
  { intros name pass e He. unfold toy_cache in He.
    apply lookup_singleton_Some in He as [[= <- <-] <-]. by exists [110]. }
  specialize (H Hfs Hc).
  destruct (Load toy_decode _ toy_cache "f" "p" "n" []) as [[err cache'] items].
  destruct (Load toy_decode _ ∅ "f" "p" "n" []) as [[err0 c0] items0]. by destruct H as (_ & -> & _).
Defined.
End Keepass.

(** ** generator *)

Module Generator.

Definition chars : bytes :=
  bytes_of_string "abcdefghijklmnopqrstuvwxyzABCDEFGHIJKLMNOPQRSTUVWXYZ1234567890!@#$%^&*()-=+".

(** [randomBytes]: two attempts at the system source, then [fallback]. *)
Definition randomBytes (try1 try2 : option bytes) (fallback : bytes) : bytes :=
  match try1 with
  | Some b => b
  | None => match try2 with Some b => b | None => fallback end
  end.

(** [randIndex]: the system source, then a generator seeded with the time;
    both are asked for an index below [max]. *)
Definition randIndex (system : Z → option Z) (seeded : Z → Z) (max : Z) : Z :=
  match system max with Some n => n | None => seeded max end.

(** [buff] are the [(l+1)/2] random bytes. *)
Definition RandomBase16String (l : Z) (buff : bytes) : result bytes :=
  let str := hex.Encode buff in
  if (0 <=? l) && (l <=? Z.of_nat (length str)) then Ok (take (Z.to_nat l) str)
  else Err "slice bounds out of range".

(** The sources answer each of the [length] calls anew. *)
Definition ShortID (sources : list ((Z → option Z) * (Z → Z))) : bytes :=
  (λ r : (Z → option Z) * (Z → Z), nth (Z.to_nat (randIndex r.1 r.2 (Z.of_nat (length chars)))) chars 0) <$> sources.

(** Both sources keep to [0, max). *)
Definition source_ok (r : (Z → option Z) * (Z → Z)) : Prop :=
  ∀ max, 0 < max → (∀ n, r.1 max = Some n → 0 ≤ n < max) ∧ 0 ≤ r.2 max < max.

(** Any non-negative length is served exactly. *)
Lemma RandomBase16String_length l buff :
  0 ≤ l → Z.of_nat (length buff) = (l + 1) / 2 →
  ∃ s, RandomBase16String l buff = Ok s ∧ Z.of_nat (length s) = l.
Proof.
  intros Hl Hb. unfold RandomBase16String. rewrite hex.Encode_length, Nat2Z.inj_mul, Hb.
  assert (l ≤ Z.of_nat 2 * ((l + 1) / 2)) by (Z.div_mod_to_equations; lia).
  ztest. cbn [andb]. eexists. split; [done|]. rewrite length_take, hex.Encode_length. lia.
Qed.

(** An identifier has the length asked for and consists of the letters of
    [chars], whether the system source answers or not. *)
Lemma ShortID_chars sources :
  Forall source_ok sources →
  length (ShortID sources) = length sources ∧ Forall (λ c, c ∈ chars) (ShortID sources).
Proof.
  intros H. unfold ShortID. rewrite length_fmap. split; [done|]. apply Forall_fmap.
  eapply Forall_impl; [exact H|]. intros r Hr. destruct (Hr (Z.of_nat (length chars)) ltac:(done)) as [H1 H2].
  assert (Hi : 0 ≤ randIndex r.1 r.2 (Z.of_nat (length chars)) < Z.of_nat (length chars)).
  { unfold randIndex. destruct (r.1 _) eqn:E; [by apply H1|done]. }
  apply list_elem_of_In, nth_In. apply Nat2Z.inj_lt. rewrite Z2Nat.id; apply Hi.
Qed.
End Generator.
