(* ===== verification/RabbitMQ.v ===== *)
(** * rabbitmq: reconnecting publisher and consumer (mq/rabbitmq/rabbitMQ.go)

    The connect goroutine is a thread whose program counter stands between the
    sections the mutex makes atomic and the calls of the AMQP library; [Stop]
    is a thread of two closing calls after its locked section.  Labels choose
    which thread moves and what the library answers, so every interleaving of
    [Start], [Stop], reconnections and connection losses is a run.  The broker
    is the bookkeeping of which connections and channels are open. *)

From S2P Require Import Prelude GoBytes GoFloat GoTime.

Module RabbitMQ.

(** ** Configuration *)

Record ConfigRabbitMQ := MkConfig {
  Url : string; Consumer : string; Queue : string; Exchange : string;
  ConcurrencyCount : Z; RetryDelay : string; ConfirmTimeout : string;
  DeadLetterExchange : string; Quorum : bool; Disabled : bool; DebugFlag : bool
}.

Definition maxReconnectDelay : Duration := 60 * Second.

(** The immutable part of a [RabbitMQ]; [hasConsumer] tells whether
    [consumerFunction] is not nil. *)
Record params := MkParams {
  config : ConfigRabbitMQ; queueName : string; hasConsumer : bool;
  retryDelay : Duration; confirmTimeout : Duration; args : list (string * string)
}.

Definition set_ConcurrencyCount (cfg : ConfigRabbitMQ) (n : Z) : ConfigRabbitMQ :=
  MkConfig (Url cfg) (Consumer cfg) (Queue cfg) (Exchange cfg) n (RetryDelay cfg) (ConfirmTimeout cfg)
    (DeadLetterExchange cfg) (Quorum cfg) (Disabled cfg) (DebugFlag cfg).

Definition NewRabbitMQ (configRabbitMQ : ConfigRabbitMQ)
    (queue : string) (consumer : bool) : params :=
  let cfg := configRabbitMQ in
  let args := (if Quorum cfg then [("x-queue-type", "quorum")] else [])
              ++ (if (DeadLetterExchange cfg =? "")%string then []
                  else [("x-dead-letter-exchange", DeadLetterExchange cfg)]) in
  let qName := if (queue =? "")%string then Queue cfg else queue in
  let retryD := duration.positiveOr Second (RetryDelay cfg) in
  let confirmD := duration.positiveOr (10 * Second) (ConfirmTimeout cfg) in
  let cfg := if ConcurrencyCount cfg <? 1 then set_ConcurrencyCount cfg 1 else cfg in
  MkParams cfg qName consumer retryD confirmD args.

(** ** Backoff

    [rand.Float64()] is [m / 2^53]; the factor [0.5 + rand.Float64()] is
    rounded to a double, that is, to a multiple of [2^-53]. *)

Fixpoint backoff_loop (i : nat) (d : Duration) : Duration :=
  match i with
  | O => d
  | S i => if d <? maxReconnectDelay then backoff_loop i (wrap64 (d * 2)) else d
  end.

Definition backoffDelay (r : params) (attempt : nat) (m : Z) : Duration :=
  let d := backoff_loop attempt (retryDelay r) in
  let d := if maxReconnectDelay <? d then maxReconnectDelay else d in
  mul_trunc d (rnd53 (2 ^ 52 + m)).

(** ** State *)

Record st := MkSt {
  connected : bool;
  mqConnect : option nat;
  mqChannel : option nat;
  mqQueue : string;
  mqMessages : option nat;
  stopped : bool;
  confirms : bool;
  ctx : nat;                      (* which context [r.ctx] is *)
  cancelled : gset nat;
  (* the library and the broker *)
  fresh_id : nat;
  open_conns : gset nat;
  chan_conn : gmap nat nat;       (* the connection of every channel *)
  chan_confirm : gset nat         (* channels in confirm mode *)
}.

Definition set_connected (s : st) (b : bool) : st :=
  MkSt b (mqConnect s) (mqChannel s) (mqQueue s) (mqMessages s) (stopped s) (confirms s) (ctx s)
    (cancelled s) (fresh_id s) (open_conns s) (chan_conn s) (chan_confirm s).
Definition set_conn (s : st) (c ch : option nat) (m : option nat) : st :=
  MkSt (connected s) c ch (mqQueue s) m (stopped s) (confirms s) (ctx s)
    (cancelled s) (fresh_id s) (open_conns s) (chan_conn s) (chan_confirm s).
Definition set_queue (s : st) (q : string) : st :=
  MkSt (connected s) (mqConnect s) (mqChannel s) q (mqMessages s) (stopped s) (confirms s) (ctx s)
    (cancelled s) (fresh_id s) (open_conns s) (chan_conn s) (chan_confirm s).
Definition set_stopped (s : st) (b : bool) : st :=
  MkSt (connected s) (mqConnect s) (mqChannel s) (mqQueue s) (mqMessages s) b (confirms s) (ctx s)
    (cancelled s) (fresh_id s) (open_conns s) (chan_conn s) (chan_confirm s).
Definition set_confirms (s : st) (b : bool) : st :=
  MkSt (connected s) (mqConnect s) (mqChannel s) (mqQueue s) (mqMessages s) (stopped s) b (ctx s)
    (cancelled s) (fresh_id s) (open_conns s) (chan_conn s) (chan_confirm s).
Definition set_ctx (s : st) (g : nat) (dead : gset nat) : st :=
  MkSt (connected s) (mqConnect s) (mqChannel s) (mqQueue s) (mqMessages s) (stopped s) (confirms s) g
    dead (fresh_id s) (open_conns s) (chan_conn s) (chan_confirm s).
Definition set_broker (s : st) (n : nat) (o : gset nat) (cc : gmap nat nat) (cf : gset nat) : st :=
  MkSt (connected s) (mqConnect s) (mqChannel s) (mqQueue s) (mqMessages s) (stopped s) (confirms s) (ctx s)
    (cancelled s) n o cc cf.

Definition close_conn (s : st) (c : nat) : st :=
  set_broker s (fresh_id s) (open_conns s ∖ {[c]}) (chan_conn s) (chan_confirm s).

Definition init : st := MkSt false None None "" None false false 0 ∅ 1 ∅ ∅ ∅.

Definition ctx_done (s : st) (g : nat) : bool := bool_decide (g ∈ cancelled s).

(** ** The connect goroutine *)

Inductive pc :=
| Loop (attempt : nat)
| DialClose (attempt : nat)
| Dial (attempt : nat)
| Dialed (attempt c : nat)
| Channel (attempt : nat)
| ChannelOpen (attempt c : nat)
| ChannelStore (attempt c ch : nat)
| SetupReturns (attempt : nat)
| ConfirmRead (attempt : nat)
| ConfirmCall (attempt ch : nat)
| ConfirmStore (attempt : nat)
| QueueRead (attempt : nat)
| QueueDeclare (attempt ch : nat)
| QueueStore (attempt ch : nat) (name : string)
| ConsumeRead (attempt : nat)
| ConsumeCall (attempt ch : nat)
| ConsumeStore (attempt ch : nat)
| Connected (attempt : nat)
| After (attempt : nat)
| Register (attempt : nat)
| Wait (attempt g : nat) (registered : option nat)
| Delay (attempt g : nat)
| Exit.

#[global] Instance pc_eq_dec : EqDecision pc.
Proof. solve_decision. Defined.

(** Answers of the library and of the clock. *)
Inductive answer := AOk | AErr | AClosed | ABlocked | ADone | ATick.

(** [closeConnLocked]. *)
Definition closeConnLocked (s : st) : st :=
  let s' := match mqConnect s with Some c => close_conn s c | None => s end in
  set_conn s' None None None.

(** The second half of [dial], under the lock. *)
Definition dial_store (s : st) (a c : nat) : st * pc :=
  if stopped s then (close_conn s c, After a)
  else (set_conn s (Some c) (mqChannel s) (mqMessages s), Channel a).

(** The end of [channel], under the lock. *)
Definition channel_store (s : st) (a c ch : nat) : st * pc :=
  if bool_decide (mqConnect s = Some c)
  then (set_conn s (mqConnect s) (Some ch) (mqMessages s), SetupReturns a)
  else (s, After a).

(** One step of the goroutine started by [connectAsync], by the function it
    is in; [None] when the answer does not apply at this point. *)
Definition dial_step (s : st) (p : pc) (e : answer) : option (st * pc) :=
  match p, e with
  | DialClose a, AOk => Some (closeConnLocked s, Dial a)
  | Dial a, AErr => Some (s, After a)
  | Dial a, AOk =>
      let c := fresh_id s in
      Some (set_broker s (S c) ({[c]} ∪ open_conns s) (chan_conn s) (chan_confirm s), Dialed a c)
  | Dialed a c, AOk => Some (dial_store s a c)
  | _, _ => None
  end.

Definition channel_step (s : st) (p : pc) (e : answer) : option (st * pc) :=
  match p, e with
  | Channel a, AOk =>
      Some (match mqConnect s with Some c => (s, ChannelOpen a c) | None => (s, After a) end)
  | ChannelOpen a c, AErr => Some (s, After a)
  | ChannelOpen a c, AOk =>
      let ch := fresh_id s in
      Some (set_broker s (S ch) (open_conns s) (<[ch := c]> (chan_conn s)) (chan_confirm s),
            ChannelStore a c ch)
  | ChannelStore a c ch, AOk => Some (channel_store s a c ch)
  | _, _ => None
  end.

Definition enableConfirms_step (s : st) (p : pc) (e : answer) : option (st * pc) :=
  match p, e with
  | ConfirmRead a, AOk =>
      Some (match mqChannel s with Some ch => (s, ConfirmCall a ch) | None => (s, QueueRead a) end)
  | ConfirmCall a ch, AErr => Some (s, QueueRead a)
  | ConfirmCall a ch, AOk =>
      Some (set_broker s (fresh_id s) (open_conns s) (chan_conn s) ({[ch]} ∪ chan_confirm s), ConfirmStore a)
  | ConfirmStore a, AOk => Some (set_confirms s true, QueueRead a)
  | _, _ => None
  end.

Definition queue_step (r : params) (s : st) (p : pc) (e : answer) : option (st * pc) :=
  match p, e with
  | QueueRead a, AOk =>
      Some (if (queueName r =? "")%string then (s, Connected a)
            else match mqChannel s with Some ch => (s, QueueDeclare a ch) | None => (s, After a) end)
  | QueueDeclare a ch, AErr => Some (s, After a)
  | QueueDeclare a ch, AOk => Some (s, QueueStore a ch (queueName r))
  | QueueStore a ch name, AOk =>
      Some (if bool_decide (mqChannel s = Some ch) then (set_queue s name, ConsumeRead a) else (s, After a))
  | _, _ => None
  end.

Definition initConsumer_step (r : params) (s : st) (p : pc) (e : answer) : option (st * pc) :=
  match p, e with
  | ConsumeRead a, AOk =>
      Some (if negb (hasConsumer r) then (s, Connected a)
            else match mqChannel s with Some ch => (s, ConsumeCall a ch) | None => (s, After a) end)
  | ConsumeCall a ch, AErr => Some (s, After a)
  | ConsumeCall a ch, AOk => Some (s, ConsumeStore a ch)
  | ConsumeStore a ch, AOk => Some (set_conn s (mqConnect s) (mqChannel s) (Some ch), Connected a)
  | _, _ => None
  end.

(** The loop around [connect]. *)
Definition loop_step (s : st) (p : pc) (e : answer) : option (st * pc) :=
  match p, e with
  | Loop a, AOk => Some (if ctx_done s (ctx s) then (s, Exit) else (s, DialClose a))
  | After a, AOk => Some (if connected s then (s, Register a) else (s, Delay a (ctx s)))
  | Register a, AOk => Some (s, Wait a (ctx s) (mqConnect s))
  | Wait a g (Some c), AClosed =>
      if bool_decide (c ∈ open_conns s) then None else Some (set_connected s false, Delay a (ctx s))
  | Wait a g (Some c), ABlocked => Some (set_connected s false, Delay a (ctx s))
  | Wait a g _, ADone => if ctx_done s g then Some (s, Exit) else None
  | Delay a g, ADone => if ctx_done s g then Some (s, Exit) else None
  | Delay a g, ATick => Some (s, Loop (S a))
  | _, _ => None
  end.

Definition conn_step (r : params) (s : st) (p : pc) (e : answer) : option (st * pc) :=
  match p with
  | DialClose _ | Dial _ | Dialed _ _ => dial_step s p e
  | Channel _ | ChannelOpen _ _ | ChannelStore _ _ _ => channel_step s p e
  | SetupReturns a => match e with AOk => Some (s, ConfirmRead a) | _ => None end
  | ConfirmRead _ | ConfirmCall _ _ | ConfirmStore _ => enableConfirms_step s p e
  | QueueRead _ | QueueDeclare _ _ | QueueStore _ _ _ => queue_step r s p e
  | ConsumeRead _ | ConsumeCall _ _ | ConsumeStore _ _ => initConsumer_step r s p e
  | Connected a => match e with AOk => Some (set_connected s true, After 0) | _ => None end
  | Loop _ | After _ | Register _ | Wait _ _ _ | Delay _ _ => loop_step s p e
  | Exit => None
  end.

(** ** Start and Stop *)

(** What [Stop] still has to close. *)
Inductive spc :=
| StopLock
| StopChannel (ch c : option nat)
| StopConn (c : option nat)
| StopDone.

#[global] Instance spc_eq_dec : EqDecision spc.
Proof. solve_decision. Defined.

Definition stop_locked (s : st) : st * spc :=
  (set_conn (set_stopped s true) None None None, StopChannel (mqChannel s) (mqConnect s)).

Definition stop_step (s : st) (p : spc) : option (st * spc) :=
  match p with
  | StopLock => Some (stop_locked s)
  | StopChannel ch c => Some (s, StopConn c)
  | StopConn (Some c) => Some (close_conn s c, StopDone)
  | StopConn None => Some (s, StopDone)
  | StopDone => None
  end.

Record sys := MkSys { state : st; threads : list pc; stops : list spc }.

Definition Start (r : params) (g : nat) (x : sys) : sys :=
  let s := set_stopped (set_ctx (state x) g (cancelled (state x))) false in
  if negb (Disabled (config r)) && negb (Url (config r) =? "")%string
  then MkSys s (threads x ++ [Loop 0]) (stops x)
  else MkSys s (threads x) (stops x).

Definition Stop_begin (r : params) (x : sys) : sys :=
  let s := set_ctx (state x) (ctx (state x)) ({[ctx (state x)]} ∪ cancelled (state x)) in
  if negb (Disabled (config r)) then MkSys s (threads x) (stops x ++ [StopLock])
  else MkSys s (threads x) (stops x).

Inductive label :=
| LConn (i : nat) (e : answer)
| LStart (g : nat)
| LStop
| LStopStep (i : nat)
| LDrop (c : nat).          (* the broker or the network closes a connection *)

Definition sys_step (r : params) (l : label) (x : sys) : option sys :=
  match l with
  | LConn i e =>
      p ← threads x !! i;
      '(s, p') ← conn_step r (state x) p e;
      Some (MkSys s (<[i := p']> (threads x)) (stops x))
  | LStart g => if bool_decide (g ∈ cancelled (state x)) then None else Some (Start r g x)
  | LStop => Some (Stop_begin r x)
  | LStopStep i =>
      p ← stops x !! i;
      '(s, p') ← stop_step (state x) p;
      Some (MkSys s (threads x) (<[i := p']> (stops x)))
  | LDrop c => Some (MkSys (close_conn (state x) c) (threads x) (stops x))
  end.

Definition step (r : params) (x y : sys) : Prop := ∃ l, sys_step r l x = Some y.

Fixpoint run (r : params) (ls : list label) (x : sys) : option sys :=
  match ls with
  | [] => Some x
  | l :: ls => y ← sys_step r l x; run r ls y
  end.

Definition init_sys : sys := MkSys init [] [].
Definition reachable (r : params) (x : sys) : Prop := star (step r) init_sys x.

Lemma run_reachable r ls x y : run r ls x = Some y → star (step r) x y.
Proof.
  revert x. induction ls as [|l ls IH]; intros x H; simpl in H.
  - injection H as ->. apply star_refl.
  - destruct (sys_step r l x) as [z|] eqn:E; [|done]. eapply star_step; [by exists l|]. by apply IH.
Qed.

(** ** Publishing *)

Inductive outcome := Published | PublishErr (e : string).
Inductive confirmation := Acked | Nacked | ConfirmTimedOut | CtxDone.

Definition nil_dereference : string := "nil pointer dereference".

(** [Produce]: [pub] is the answer of the publishing call, [cf] what the
    select over the confirmation receives.  On a channel that is not in
    confirm mode [PublishWithDeferredConfirm] returns a nil confirmation,
    whose [Done] method dereferences it. *)
Definition Produce (s : st) (pub : outcome) (cf : confirmation) : result unit :=
  if negb (connected s) then Err "not connected"
  else
    match mqChannel s with
    | None => Err "not connected"
    | Some ch =>
        match pub with
        | PublishErr e => Err e
        | Published =>
            if negb (confirms s) then Ok tt
            else if bool_decide (ch ∈ chan_confirm s) then
              match cf with
              | Acked => Ok tt
              | Nacked => Err "publisher confirm nack"
              | ConfirmTimedOut => Err "publisher confirm timeout"
              | CtxDone => Err "context canceled"
              end
            else Err nil_dereference
        end
    end.

Definition ProduceData (r : params) (s : st) (marshalled : result bytes) (pub : outcome)
    (cf : confirmation) : result unit :=
  if negb (Disabled (config r)) then
    let? data := marshalled in Produce s pub cf
  else Ok tt.

(** ** Messages nobody took

    [setupReturns] listens on the channel it finds, if there is one, and its
    goroutine logs what the broker returns until the channel is closed. *)

Record Return := MkReturn { ReplyCode : Z; ReplyText : string; RetExchange : string; RetRoutingKey : string }.
Inductive field := FInt (key : string) (v : Z) | FStr (key v : string).

Definition setupReturns (s : st) : option nat := mqChannel s.
Definition log_return (ret : Return) : list field :=
  [FInt "ReplyCode" (ReplyCode ret); FStr "ReplyText" (ReplyText ret); FStr "Exchange" (RetExchange ret);
   FStr "RoutingKey" (RetRoutingKey ret)].
Definition returns_loop (retCh : list Return) : list (list field) := log_return <$> retCh.

Definition IsConnected (s : st) : bool := connected s.

(** ** Consuming

    What a worker does with one message: the function returns, or panics. *)
Inductive settle := Ack | Nack_drop.

Definition worker (consumer : option bool) : option settle :=
  match consumer with
  | Some true => Some Ack
  | Some false => Some Nack_drop
  | None => None        (* the recovered panic leaves the message unsettled *)
  end.
(** ** Backoff bounds *)

Lemma backoff_loop_min i d :
  0 < d → Z.min maxReconnectDelay (backoff_loop i d) = Z.min maxReconnectDelay (d * 2 ^ Z.of_nat i).
Proof.
  revert d. induction i as [|i IH]; intros d Hd; cbn [backoff_loop].
  - change (2 ^ Z.of_nat 0) with 1. f_equal. lia.
  - assert (1 ≤ 2 ^ Z.of_nat i) by (apply (Z.pow_le_mono_r 2 0); lia).
    replace (2 ^ Z.of_nat (S i)) with (2 * 2 ^ Z.of_nat i) by (rewrite <- Z.pow_succ_r by lia; f_equal; lia).
    destruct (d <? maxReconnectDelay) eqn:E; bool_to_prop; [|nia].
    assert (maxReconnectDelay = 60000000000) by done.
    rewrite wrap64_id by (unfold in_int64, MinInt64, MaxInt64; lia).
    rewrite IH by lia. f_equal. lia.
Qed.

Lemma factor_bounds m : 0 ≤ m < 2 ^ 53 → 2 ^ 52 ≤ rnd53 (2 ^ 52 + m) ≤ 3 * 2 ^ 52.
Proof.
  intros Hm. split.
  - apply rnd53_lower; [exists 1, 52; lia|lia|lia].
  - apply rnd53_upper; [exists 3, 52; lia|lia|lia].
Qed.

(** [C12] The delay between reconnections is the exponential one with
    jitter: [retryDelay] doubled at every attempt and cut at a minute, times a
    factor between one half and three halves; no attempt number overflows. *)
Theorem backoffDelay_bounds r attempt m :
  0 < retryDelay r → 0 ≤ m < 2 ^ 53 →
  let d := Z.min maxReconnectDelay (retryDelay r * 2 ^ Z.of_nat attempt) in
  d / 2 ≤ backoffDelay r attempt m ≤ 3 * d / 2.
Proof.
  intros Hd Hm d. unfold backoffDelay.
  pose proof (backoff_loop_min attempt (retryDelay r) Hd) as Hmin. fold d in Hmin.
  set (l := backoff_loop attempt (retryDelay r)) in *.
  replace (if maxReconnectDelay <? l then maxReconnectDelay else l) with d
    by (destruct (maxReconnectDelay <? l) eqn:E; bool_to_prop; lia).
  assert (1 ≤ 2 ^ Z.of_nat attempt) by (apply (Z.pow_le_mono_r 2 0); lia).
  assert (HM : maxReconnectDelay = 60000000000) by done.
  assert (0 < d ≤ 60000000000) by (unfold d; nia).
  pose proof (factor_bounds m Hm).
  pose proof (mul_trunc_bounds d (rnd53 (2 ^ 52 + m)) (2 ^ 52) (3 * 2 ^ 52)) as Hb.
  replace (d * 2 ^ 52 / 2 ^ 53) with (d / 2) in Hb.
  2: { change (2 ^ 53) with (2 * 2 ^ 52). by rewrite Z.div_mul_cancel_r. }
  replace (d * (3 * 2 ^ 52) / 2 ^ 53) with (3 * d / 2) in Hb.
  2: { change (2 ^ 53) with (2 * 2 ^ 52). rewrite Z.mul_assoc, Z.div_mul_cancel_r by done. f_equal. lia. }
  apply Hb; [lia|lia|exists d, 52; lia|exists (3 * d), 52; lia|done].
Qed.

(** ** Ownership of connections *)

Definition holds (p : pc) (c : nat) : Prop := ∃ a, p = Dialed a c.
Definition will_close (p : spc) (c : nat) : Prop :=
  (∃ ch, p = StopChannel ch (Some c)) ∨ p = StopConn (Some c).

Definition dialing (p : pc) : Prop := (∃ a, p = Dial a) ∨ ∃ a c, p = Dialed a c.

(** The discipline under which connections are not lost: the object is started
    again only once the goroutine of the previous start has ended. *)
Definition step_solo (r : params) (x y : sys) : Prop :=
  ∃ l, (∀ g, l = LStart g → Forall (λ p, p = Exit) (threads x)) ∧ sys_step r l x = Some y.

Definition Inv (x : sys) : Prop :=
  let s := state x in
  (∀ i j p q, threads x !! i = Some p → threads x !! j = Some q → p ≠ Exit → q ≠ Exit → i = j) ∧
  (∀ i p, threads x !! i = Some p → dialing p → mqConnect s = None ∧ mqChannel s = None) ∧
  (stopped s = true → mqConnect s = None ∧ mqChannel s = None) ∧
  (∀ ch, mqChannel s = Some ch → ∃ c, mqConnect s = Some c ∧ chan_conn s !! ch = Some c) ∧
  (∀ i a c ch, threads x !! i = Some (ChannelStore a c ch) → chan_conn s !! ch = Some c) ∧
  (∀ c, c ∈ open_conns s → mqConnect s = Some c ∨ (∃ i p, threads x !! i = Some p ∧ holds p c)
     ∨ (∃ i p, stops x !! i = Some p ∧ will_close p c)) ∧
  (∀ ch c, chan_conn s !! ch = Some c → (ch < fresh_id s)%nat).

Lemma init_Inv : Inv init_sys.
Proof. split_and!; simpl; try set_solver. Qed.

(** The conditions under which a step of thread [i] keeps the invariant. *)
Lemma update_Inv x i p s p' :
  Inv x → threads x !! i = Some p → p ≠ Exit →
  (stopped s = true → mqConnect s = None ∧ mqChannel s = None) →
  (dialing p' → mqConnect s = None ∧ mqChannel s = None) →
  (∀ ch, mqChannel s = Some ch → ∃ c, mqConnect s = Some c ∧ chan_conn s !! ch = Some c) →
  chan_conn (state x) ⊆ chan_conn s →
  (∀ a c ch, p' = ChannelStore a c ch → chan_conn s !! ch = Some c) →
  (∀ c, c ∈ open_conns s → c ∈ open_conns (state x) ∨ holds p' c) →
  (∀ c, c ∈ open_conns s → mqConnect (state x) = Some c → mqConnect s = Some c) →
  (∀ c, c ∈ open_conns s → holds p c → mqConnect s = Some c ∨ holds p' c) →
  (∀ ch c, chan_conn s !! ch = Some c → (ch < fresh_id s)%nat) →
  Inv (MkSys s (<[i := p']> (threads x)) (stops x)).
Proof.
  intros (I6 & I7 & I1 & I2 & I3 & I4 & I5) Hi Hlive Ha Hdial Hb Hsub Hc Hd1 Hd2 Hd3 He.
  assert (Hlt : (i < length (threads x))%nat) by by eapply lookup_lt_Some.
  assert (Hothers : ∀ j q, j ≠ i → threads x !! j = Some q → q = Exit).
  { intros j q Hne Hj. destruct (decide (q = Exit)) as [|Hq]; [done|].
    destruct Hne. by eapply I6. }
  split_and!; simpl; [| |done|done| | |done].
  - intros j k q1 q2 Hj Hk Hq1 Hq2. destruct (decide (j = i)) as [->|Hj'].
    + destruct (decide (k = i)) as [->|Hk']; [done|].
      rewrite list_lookup_insert_ne in Hk by done. by destruct Hq2; eapply Hothers.
    + rewrite list_lookup_insert_ne in Hj by done. by destruct Hq1; eapply Hothers.
  - intros j q Hj Hq. destruct (decide (j = i)) as [->|Hne].
    + rewrite list_lookup_insert_eq in Hj by done. injection Hj as ->. by apply Hdial.
    + rewrite list_lookup_insert_ne in Hj by done. apply Hothers in Hj as ->; [|done].
      destruct Hq as [[? ?]|(? & ? & ?)]; discriminate.
  - intros j a c ch Hj. destruct (decide (j = i)) as [->|Hne].
    + rewrite list_lookup_insert_eq in Hj by done. injection Hj as ->. by eapply Hc.
    + rewrite list_lookup_insert_ne in Hj by done. eapply lookup_weaken; [by eapply I3|done].
  - intros c Hopen.
    assert (Hmine : holds p' c → ∃ j q, <[i:=p']> (threads x) !! j = Some q ∧ holds q c).
    { intros Hh. exists i, p'. by rewrite list_lookup_insert_eq. }
    destruct (Hd1 c Hopen) as [Hx|Hh]; [|right; left; auto].
    destruct (I4 c Hx) as [H|[(j & q & Hj & Hh)|H]]; [left; auto| |by right; right].
    destruct (decide (j = i)) as [->|Hne].
    + rewrite Hi in Hj. injection Hj as <-. destruct (Hd3 c Hopen Hh); [by left|right; left; auto].
    + right; left. exists j, q. by rewrite list_lookup_insert_ne.
Qed.

(** Steps that leave connections and channels alone. *)
Lemma quiet_Inv x i p s p' :
  Inv x → threads x !! i = Some p → p ≠ Exit →
  stopped s = stopped (state x) → mqConnect s = mqConnect (state x) → mqChannel s = mqChannel (state x) →
  chan_conn s = chan_conn (state x) → open_conns s = open_conns (state x) →
  (fresh_id (state x) ≤ fresh_id s)%nat →
  (∀ c, ¬ holds p c) → ¬ dialing p' → (∀ a c ch, p' ≠ ChannelStore a c ch) →
  Inv (MkSys s (<[i := p']> (threads x)) (stops x)).
Proof.
  intros HI Hi Hlive E1 E2 E3 E4 E5 E6 Hp Hdial Hp'. pose proof HI as (_ & _ & I1 & I2 & I3 & I4 & I5).
  apply (update_Inv x i p); rewrite ?E1, ?E2, ?E3, ?E4, ?E5; auto; try done.
  - intros a c ch ->. by destruct (Hp' a c ch).
  - intros c _ Hh. by destruct (Hp c).
  - intros ch c Hch. apply I5 in Hch. lia.
Qed.

(** The cases of a step, and those that change nothing the invariant reads. *)
Ltac step_cases Hstep :=
  repeat match type of Hstep with
  | Some (if ?b then _ else _) = _ => destruct b
  | (if ?b then _ else _) = _ => destruct b
  | Some (match ?o with Some _ => _ | None => _ end) = _ => destruct o eqn:?
  | match ?o with Some _ => _ | None => _ end = _ => destruct o eqn:?
  end; try discriminate Hstep.
Ltac quiet_case Hstep x i HI Hi :=
  try (injection Hstep as <- <-;
       apply (quiet_Inv x i _ _ _ HI Hi);
       [discriminate|reflexivity|reflexivity|reflexivity|reflexivity|reflexivity|simpl; lia
       |intros c' [a' H']; discriminate H'
       |intros [[? H']|(? & ? & H')]; discriminate H'|intros; discriminate]).

Lemma dial_step_Inv x i p e s p' :
  Inv x → threads x !! i = Some p → dial_step (state x) p e = Some (s, p') →
  Inv (MkSys s (<[i := p']> (threads x)) (stops x)).
Proof.
  intros HI Hi Hstep. pose proof HI as (I6 & I7 & I1 & I2 & I3 & I4 & I5).
  destruct p; destruct e; cbn [dial_step] in Hstep; try discriminate Hstep; step_cases Hstep; quiet_case Hstep x i HI Hi.
  - (* closeConnLocked *)
    injection Hstep as <- <-. unfold closeConnLocked.
    apply (update_Inv x i _ _ _ HI Hi); destruct (mqConnect (state x)) as [c|] eqn:Ec; simpl; try done;
      try (intros c' Hc' [a' H']; discriminate H'); intros c' Hc'; set_solver.
  - (* a new connection *)
    injection Hstep as <- <-. destruct (I7 i _ Hi) as [Hn1 Hn2]; [by left; eexists|].
    apply (update_Inv x i _ _ _ HI Hi); simpl; try done.
    + intros c' [->%elem_of_singleton|Hc']%elem_of_union; [right; by eexists|by left].
    + intros c' _ [a' H']. discriminate H'.
    + intros ch c' Hch. apply I5 in Hch. lia.
  - (* dial stores it, or closes it when stopped *)
    destruct (I7 i _ Hi) as [Hn1 Hn2]; [by right; eexists _, _|].
    unfold dial_store in Hstep. destruct (stopped (state x)) eqn:Es; injection Hstep as <- <-.
    + apply (update_Inv x i _ _ _ HI Hi); simpl; try done; try (rewrite Hn1, Hn2; done).
      * intros c' Hc'. left. set_solver.
      * intros c' Hc' [a' [= <- <-]]. set_solver.
    + apply (update_Inv x i _ _ _ HI Hi); simpl; try done; rewrite ?Hn1, ?Hn2, ?Es; try done.
      * intros [[? H']|(? & ? & H')]; discriminate H'.
      * intros c' Hc'. by left.
      * intros c' Hc' [a' [= <- <-]]. by left.
Qed.

Lemma channel_step_Inv x i p e s p' :
  Inv x → threads x !! i = Some p → channel_step (state x) p e = Some (s, p') →
  Inv (MkSys s (<[i := p']> (threads x)) (stops x)).
Proof.
  intros HI Hi Hstep. pose proof HI as (I6 & I7 & I1 & I2 & I3 & I4 & I5).
  destruct p; destruct e; cbn [channel_step] in Hstep; try discriminate Hstep; step_cases Hstep; quiet_case Hstep x i HI Hi.
  - (* a new channel *)
    injection Hstep as <- <-.
    assert (Hsub : chan_conn (state x) ⊆ <[fresh_id (state x) := c]> (chan_conn (state x))).
    { apply insert_subseteq. apply eq_None_not_Some. intros [c' Hc']. apply I5 in Hc'. lia. }
    apply (update_Inv x i _ _ _ HI Hi); simpl; try done.
    + intros [[? H']|(? & ? & H')]; discriminate H'.
    + intros ch Hch. destruct (I2 ch Hch) as (c' & H1 & H2). exists c'. split; [done|].
      by eapply lookup_weaken.
    + intros a' c' ch' [= <- <- <-]. apply lookup_insert_eq.
    + intros c' Hc'. by left.
    + intros c' _ [a' H']. discriminate H'.
    + intros ch c' Hch. destruct (decide (fresh_id (state x) = ch)) as [<-|Hne]; [lia|].
      rewrite lookup_insert_ne in Hch by done. apply I5 in Hch. lia.
  - (* channel stores it if the connection is still the one *)
    unfold channel_store in Hstep. destruct (bool_decide _) eqn:Eb; injection Hstep as <- <-.
    + apply bool_decide_eq_true in Eb. assert (Hs : stopped (state x) = false).
      { destruct (stopped (state x)) eqn:Es; [|done]. destruct (I1 eq_refl). congruence. }
      apply (update_Inv x i _ _ _ HI Hi); simpl; try done; rewrite ?Hs; try done.
      * intros [[? H']|(? & ? & H')]; discriminate H'.
      * intros ch' [= <-]. exists c. split; [done|]. by eapply I3.
      * intros c' Hc'. by left.
      * intros c' _ [a' H']. discriminate H'.
    + apply (quiet_Inv x i _ _ _ HI Hi); simpl; try done; try lia.
      * intros c' [a' H']; discriminate H'.
      * intros [[? H']|(? & ? & H')]; discriminate H'.
Qed.

Lemma conn_step_Inv r x i p e s p' :
  Inv x → threads x !! i = Some p → conn_step r (state x) p e = Some (s, p') →
  Inv (MkSys s (<[i := p']> (threads x)) (stops x)).
Proof.
  intros HI Hi Hstep.
  destruct p; cbn [conn_step] in Hstep; try discriminate Hstep;
    try (by eapply dial_step_Inv); try (by eapply channel_step_Inv);
    destruct e; cbn [enableConfirms_step queue_step initConsumer_step loop_step] in Hstep; try discriminate Hstep;
    step_cases Hstep; quiet_case Hstep x i HI Hi.
Qed.

Lemma Start_Inv r g x : Inv x → Forall (λ p, p = Exit) (threads x) → Inv (Start r g x).
Proof.
  intros (I6 & I7 & I1 & I2 & I3 & I4 & I5) Hsolo. rewrite Forall_lookup in Hsolo. unfold Start.
  destruct (_ && _); split_and!; simpl; try done.
  - assert (Hlast : ∀ k u, (threads x ++ [Loop 0]) !! k = Some u → u ≠ Exit → k = length (threads x)).
    { intros k u Hk Hu. apply lookup_app_Some in Hk as [Hk|[Hle Hk]]; [by destruct Hu; eapply Hsolo|].
      apply list_lookup_singleton_Some in Hk as [Hk _]. lia. }
    intros i j p q Hi Hj Hp Hq. rewrite (Hlast i p) by done. by rewrite (Hlast j q).
  - intros i p [Hi|[_ Hi]]%lookup_app_Some; [by eapply I7|].
    apply list_lookup_singleton_Some in Hi as [_ <-]. intros [[? H]|(? & ? & H)]; discriminate H.
  - intros i a c ch [Hi|[_ Hi]]%lookup_app_Some; [by eapply I3|].
    by apply list_lookup_singleton_Some in Hi as [_ ?].
  - intros c Hc. destruct (I4 c Hc) as [H|[(j & q & Hj & Hq)|H]]; [auto| |auto].
    right; left. exists j, q. split; [by apply lookup_app_l_Some|done].
Qed.

Lemma stop_step_Inv x i p s p' :
  Inv x → stops x !! i = Some p → stop_step (state x) p = Some (s, p') →
  Inv (MkSys s (threads x) (<[i := p']> (stops x))).
Proof.
  intros (I6 & I7 & I1 & I2 & I3 & I4 & I5) Hi Hstep.
  assert (Hlt : (i < length (stops x))%nat) by by eapply lookup_lt_Some.
  assert (Hmine : ∀ c, will_close p' c → ∃ j q, <[i:=p']> (stops x) !! j = Some q ∧ will_close q c).
  { intros c Hh. exists i, p'. by rewrite list_lookup_insert_eq. }
  assert (Hothers : ∀ c j q, stops x !! j = Some q → will_close q c → (will_close p c → will_close p' c) →
            ∃ j q, <[i:=p']> (stops x) !! j = Some q ∧ will_close q c).
  { intros c j q Hj Hq Hp. destruct (decide (j = i)) as [->|Hne].
    - rewrite Hi in Hj. injection Hj as <-. auto.
    - exists j, q. by rewrite list_lookup_insert_ne. }
  destruct p as [|ch c|[c|]|]; cbn [stop_step] in Hstep; try discriminate Hstep; injection Hstep as <- <-.
  - split_and!; simpl; try done.
    intros c Hc. destruct (I4 c Hc) as [H|[H|(j & q & Hj & Hq)]]; [|by auto|].
    + right; right. apply Hmine. left. eexists. by rewrite H.
    + right; right. eapply Hothers; [done|done|]. intros [[? ?]|?]; discriminate.
  - split_and!; simpl; try done.
    intros c' Hc'. destruct (I4 c' Hc') as [H|[H|(j & q & Hj & Hq)]]; [by auto..|].
    right; right. eapply Hothers; [done|done|]. intros [[? [= -> ->]]|?]; [by right|discriminate].
  - split_and!; simpl; try done.
    intros c' Hc'. destruct (I4 c') as [H|[H|(j & q & Hj & Hq)]]; [set_solver|by auto..|].
    right; right. eapply Hothers; [done|done|]. intros [[? H]|[= ->]]; [discriminate H|set_solver].
  - split_and!; simpl; try done.
    intros c' Hc'. destruct (I4 c' Hc') as [H|[H|(j & q & Hj & Hq)]]; [by auto..|].
    right; right. eapply Hothers; [done|done|]. intros [[? H]|H]; discriminate H.
Qed.

Lemma step_solo_Inv r x y : Inv x → step_solo r x y → Inv y.
Proof.
  intros HI (l & Hsolo & Hstep). pose proof HI as (I6 & I7 & I1 & I2 & I3 & I4 & I5).
  destruct l as [i e|g| |i|c]; cbn [sys_step] in Hstep.
  - destruct (threads x !! i) as [p|] eqn:Hi; [|done]. simpl in Hstep.
    destruct (conn_step r (state x) p e) as [[s p']|] eqn:Hc; [|done]. injection Hstep as <-.
    by eapply conn_step_Inv.
  - destruct (bool_decide _); [done|]. injection Hstep as <-.
    by apply Start_Inv, (Hsolo g).
  - injection Hstep as <-. unfold Stop_begin. destruct (negb _); [|done].
    split_and!; simpl; try done. intros c' Hc'. destruct (I4 c' Hc') as [H|[H|(j & q & Hj & Hq)]]; [auto..|].
    right; right. exists j, q. split; [|done]. by apply lookup_app_l_Some.
  - destruct (stops x !! i) as [p|] eqn:Hi; [|done]. simpl in Hstep.
    destruct (stop_step (state x) p) as [[s p']|] eqn:Hc; [|done]. injection Hstep as <-.
    by eapply stop_step_Inv.
  - injection Hstep as <-. split_and!; simpl; try done.
    intros c' Hc'. apply I4. set_solver.
Qed.

(** ** Properties *)

Lemma reachable_Inv r x : star (step_solo r) init_sys x → Inv x.
Proof. apply star_invariant; [|apply init_Inv]. intros s1 s2 H1 H2. by eapply step_solo_Inv. Qed.


Lemma Inv_released x :
  Inv x → stopped (state x) = true → Forall (λ p, p = Exit) (threads x) → Forall (λ p, p = StopDone) (stops x) →
  open_conns (state x) = ∅.
Proof.
  intros (_ & _ & I1 & _ & _ & I4 & _) Hs Hth Hst. destruct (I1 Hs) as [Hc _].
  apply set_eq. intros c. split; [|set_solver]. intros Hin. exfalso.
  destruct (I4 c Hin) as [H|[(i & p & Hi & [a ->])|(i & p & Hi & Hw)]].
  - congruence.
  - rewrite Forall_lookup in Hth. by apply Hth in Hi.
  - rewrite Forall_lookup in Hst. apply Hst in Hi as ->. by destruct Hw as [[? ?]|?].
Qed.


(** ** Concrete runs *)

Definition config0 : ConfigRabbitMQ :=
  MkConfig "amqp://host" "" "" "" 1 "5s" "10s" "" false false false.
Definition r0 : params := MkParams config0 "" false (5 * Second) (10 * Second) [].

(** A goroutine that goes from the top of its loop to [Wait]. *)
Definition connect_labels (i : nat) (confirm : answer) : list label :=
  [LConn i AOk; LConn i AOk; LConn i AOk; LConn i AOk; LConn i AOk; LConn i AOk; LConn i AOk;
   LConn i AOk; LConn i AOk; LConn i confirm] ++
  (match confirm with AOk => [LConn i AOk] | _ => [] end) ++
  [LConn i AOk; LConn i AOk; LConn i AOk; LConn i AOk].

(** Runs of the restricted relation. *)
Definition exited (p : pc) : bool := bool_decide (p = Exit).

Fixpoint run_solo (r : params) (ls : list label) (x : sys) : option sys :=
  match ls with
  | [] => Some x
  | l :: ls =>
      if match l with LStart _ => forallb exited (threads x) | _ => true end
      then y ← sys_step r l x; run_solo r ls y
      else None
  end.

Lemma run_solo_star r ls x y : run_solo r ls x = Some y → star (step_solo r) x y.
Proof.
  revert x. induction ls as [|l ls IH]; intros x H; cbn [run_solo] in H.
  - injection H as ->. apply star_refl.
  - destruct (match l with LStart _ => _ | _ => _ end) eqn:Eg; [|done].
    destruct (sys_step r l x) as [z|] eqn:E; [|done]. eapply star_step; [|by apply IH].
    exists l. split; [|done]. intros g ->. apply Forall_forall. intros p Hp.
    rewrite forallb_forall in Eg. apply list_elem_of_In, Eg in Hp. by apply bool_decide_eq_true in Hp.
Qed.

(** [confirms] survives the channel it was set for: when the broker
    refuses confirm mode after a reconnection, the object is connected and
    publishing dereferences a nil confirmation. *)
Theorem confirms_not_reset :
  ∃ x, star (step_solo r0) init_sys x ∧ connected (state x) = true ∧ confirms (state x) = true ∧
    ∀ cf, Produce (state x) Published cf = Err nil_dereference.
Proof.
  destruct (run_solo r0 ([LStart 1] ++ connect_labels 0 AOk ++
    [LDrop 1; LConn 0 AClosed; LConn 0 ATick] ++ connect_labels 0 AErr) init_sys) as [x|] eqn:E;
    [|by vm_compute in E].
  exists x. split; [by eapply run_solo_star|]. vm_compute in E. injection E as <-. done.
Qed.

(** [connected] survives a stop: when the first dial after a restart
    fails, the goroutine waits for the end of a connection that does not
    exist.  Only cancelling the context gets it out: it never dials again. *)
Theorem stale_connected_blocks :
  ∃ x, star (step_solo r0) init_sys x ∧ stopped (state x) = false ∧ mqConnect (state x) = None ∧
    threads x !! 1%nat = Some (Wait 0 2 None) ∧ ctx_done (state x) 2 = false ∧
    ∀ e, conn_step r0 (state x) (Wait 0 2 None) e = None.
Proof.
  destruct (run_solo r0 ([LStart 1] ++ connect_labels 0 AOk ++
    [LStop; LStopStep 0; LStopStep 0; LStopStep 0; LConn 0 ADone; LStart 2;
     LConn 1 AOk; LConn 1 AOk; LConn 1 AErr; LConn 1 AOk; LConn 1 AOk]) init_sys) as [x|] eqn:E;
    [|by vm_compute in E].
  exists x. split; [by eapply run_solo_star|]. vm_compute in E. injection E as <-.
  split_and!; try done. by intros [].
Qed.

(** Restarting while a dial of the previous run is in flight leaves two
    goroutines on one object: the old one reads the new context, stores its
    connection over the new one, and that one stays open with no owner. *)
Theorem restart_race_leaks :
  ∃ x c, reachable r0 x ∧ c ∈ open_conns (state x) ∧ mqConnect (state x) ≠ Some c ∧
    (∀ i p, threads x !! i = Some p → ¬ holds p c ∧ p ≠ Exit) ∧ length (threads x) = 2%nat ∧
    Forall (λ p, p = StopDone) (stops x) ∧ ctx_done (state x) (ctx (state x)) = false.
Proof.
  destruct (run r0 ([LStart 1; LConn 0 AOk; LConn 0 AOk; LStop; LStopStep 0; LStopStep 0; LStopStep 0;
     LStart 2; LConn 1 AOk; LConn 1 AOk; LConn 1 AOk; LConn 1 AOk; LConn 0 AOk; LConn 0 AOk]) init_sys)
    as [x|] eqn:E; [|by vm_compute in E].
  exists x, 1%nat. split; [by eapply run_reachable|]. vm_compute in E. injection E as <-.
  split_and!; try done.
  - intros i p Hi. destruct i as [|[|i]]; simpl in Hi; simplify_eq; (split; [intros [a Ha]; discriminate|done]).
  - by repeat constructor.
Qed.

Lemma backoffDelay_bounds_witness :
  5 * Second ≤ backoffDelay r0 1 0 ∧ backoffDelay r0 1000 (2 ^ 53 - 1) ≤ 90 * Second.
Proof.
  split.
  - apply (backoffDelay_bounds r0 1 0); [done|lia].
  - apply (backoffDelay_bounds r0 1000 (2 ^ 53 - 1)); [done|lia].
Defined.

Definition stopped_run : list label :=
  [LStart 1] ++ connect_labels 0 AOk ++ [LStop; LStopStep 0; LStopStep 0; LStopStep 0; LConn 0 ADone].


End RabbitMQ.
