(* ===== verification/RabbitConsumer.v ===== *)
(** * rabbitmq: the workers of a consumer (mq/rabbitmq/rabbitMQ.go, initConsumer)

    One goroutine hands the deliveries of the library channel to
    [concurrencyCount] workers over a buffered channel; a worker calls the
    consumer function and acknowledges or rejects.  RabbitMQ.v has the
    connection up to the start of these goroutines. *)

From S2P Require Import Prelude.

Module RabbitConsumer.

(** What a worker did with a delivery; a panic of the consumer function is
    recovered and leaves the delivery unanswered. *)
Inductive verdict := Acked | Nacked | Unanswered.

Section consumer.
(** The consumer function; [None] is a panic. *)
Context {M : Type} (consumerFunction : M → option bool) (concurrencyCount : Z).

Definition workers_count : nat := Z.to_nat (if concurrencyCount <? 1 then 1 else concurrencyCount).

Definition handle (m : M) : verdict :=
  match consumerFunction m with Some true => Acked | Some false => Nacked | None => Unanswered end.

Inductive dispatcher := DStart | DRecv | DSend (m : M) | DNil | DDone.
Inductive worker := WIdle | WBusy (m : M) | WDone.

Record sys := MkSys {
  mqMessages : bool;                       (* the field holds the channel, or nil *)
  src : list M; src_closed : bool;         (* the channel of the library *)
  workCh : list M; workCh_closed : bool;
  disp : dispatcher;
  workers : list worker;
  results : list (M * verdict);
  delivered : list M                       (* everything the library ever sent *)
}.

(** [initConsumer] has stored the channel and started its goroutines. *)
Definition start : sys := MkSys true [] false [] false DStart (replicate workers_count WIdle) [] [].

(** The steps of the goroutines. *)
Inductive cstep : sys → sys → Prop :=
| c_start mq s sc w wc ws r d :            (* range r.mqMessages evaluates the field *)
    cstep (MkSys mq s sc w wc DStart ws r d) (MkSys mq s sc w wc (if mq then DRecv else DNil) ws r d)
| c_recv mq m s sc w wc ws r d :
    cstep (MkSys mq (m :: s) sc w wc DRecv ws r d) (MkSys mq s sc w wc (DSend m) ws r d)
| c_close mq w wc ws r d :
    cstep (MkSys mq [] true w wc DRecv ws r d) (MkSys mq [] true w true DDone ws r d)
| c_send mq m s sc w wc ws r d :
    (length w < workers_count)%nat →
    cstep (MkSys mq s sc w wc (DSend m) ws r d) (MkSys mq s sc (w ++ [m]) wc DRecv ws r d)
| c_take mq s sc m w wc dp ws r d i :
    ws !! i = Some WIdle →
    cstep (MkSys mq s sc (m :: w) wc dp ws r d) (MkSys mq s sc w wc dp (<[i := WBusy m]> ws) r d)
| c_done mq s sc w wc dp ws r d i m :
    ws !! i = Some (WBusy m) →
    cstep (MkSys mq s sc w wc dp ws r d) (MkSys mq s sc w wc dp (<[i := WIdle]> ws) (r ++ [(m, handle m)]) d)
| c_exit mq s sc dp ws r d i :
    ws !! i = Some WIdle →
    cstep (MkSys mq s sc [] true dp ws r d) (MkSys mq s sc [] true dp (<[i := WDone]> ws) r d).

(** The steps of the library and of [Stop] and [dial], which set the field to nil. *)
Inductive estep : sys → sys → Prop :=
| e_deliver mq s w wc dp ws r d m :
    estep (MkSys mq s false w wc dp ws r d) (MkSys mq (s ++ [m]) false w wc dp ws r (d ++ [m]))
| e_close mq s w wc dp ws r d :
    estep (MkSys mq s false w wc dp ws r d) (MkSys mq s true w wc dp ws r d)
| e_forget mq s sc w wc dp ws r d :
    estep (MkSys mq s sc w wc dp ws r d) (MkSys false s sc w wc dp ws r d).

Definition step (x y : sys) : Prop := cstep x y ∨ estep x y.

(** ** Invariant *)

Definition busy (w : worker) : list M := match w with WBusy m => [m] | _ => [] end.
Definition hand (d : dispatcher) : list M := match d with DSend m => [m] | _ => [] end.

Record Inv (x : sys) : Prop := {
  i_all : delivered x ≡ₚ src x ++ hand (disp x) ++ workCh x ++ (workers x ≫= busy) ++ (results x).*1;
  i_verdict : Forall (λ mv, mv.2 = handle mv.1) (results x);
  i_cap : (length (workCh x) ≤ workers_count)%nat;
  i_count : length (workers x) = workers_count;
  i_closed : workCh_closed x = true ↔ disp x = DDone;
  i_done : disp x = DDone → src x = [] ∧ src_closed x = true;
  i_exit : WDone ∈ workers x → workCh_closed x = true ∧ workCh x = []
}.

Lemma busy_insert ws i w w' :
  ws !! i = Some w → busy w ++ (<[i := w']> ws ≫= busy) ≡ₚ busy w' ++ (ws ≫= busy).
Proof.
  revert i. induction ws as [|q ws IH]; intros [|i] Hi; try done.
  - injection Hi as ->. cbn. rewrite !app_assoc. by rewrite (Permutation_app_comm (busy w) (busy w')).
  - specialize (IH i Hi). change (<[S i := w']> (q :: ws)) with (q :: <[i := w']> ws). cbn [mbind list_bind].
    rewrite !(Permutation_app_swap_app _ (busy q)). by rewrite IH.
Qed.

Lemma exited_before (ws : list worker) (i : nat) (w : worker) : w ≠ WDone → WDone ∈ <[i := w]> ws → WDone ∈ ws.
Proof.
  intros Hw [j Hj]%list_elem_of_lookup. apply list_lookup_insert_Some in Hj as [(_ & ? & _)|[_ Hj]]; [done|].
  by apply list_elem_of_lookup_2 in Hj.
Qed.

Lemma cstep_Inv x y : Inv x → step x y → Inv y.
Proof.
  intros [I1 I2 I3 I4 I5 I6 I7] [Hs|Hs];
    [destruct Hs as [mq s sc w wc ws r d|mq m s sc w wc ws r d|mq w wc ws r d|mq m s sc w wc ws r d Hl|mq s sc m w wc dp ws r d i Hi
    |mq s sc w wc dp ws r d i m Hi|mq s sc dp ws r d i Hi]
    |destruct Hs as [mq s w wc dp ws r d m|mq s w wc dp ws r d|mq s sc w wc dp ws r d]];
    cbn in *; split; cbn; rewrite ?length_insert; try done.
  all: try (by destruct mq).
  all: try (rewrite I5; by destruct mq).
  - rewrite I1. by rewrite Permutation_middle.
  - intros H. by destruct (I7 H) as [_ ->].
  - rewrite I1. rewrite <- app_assoc. cbn. by rewrite (Permutation_middle w).
  - rewrite length_app. cbn. lia.
  - intros H. destruct (I7 H) as [Hwc _]. apply I5 in Hwc. done.
  - rewrite I1. pose proof (busy_insert ws i WIdle (WBusy m) Hi) as H. cbn in H. rewrite H. cbn.
    by rewrite (Permutation_middle w).
  - lia.
  - intros H. destruct (I7 (exited_before _ _ (WBusy m) ltac:(done) H)) as [_ ?]. done.
  - rewrite I1, fmap_app. pose proof (busy_insert ws i (WBusy m) WIdle Hi) as H. cbn in H. rewrite <- H. cbn.
    rewrite (Permutation_app_comm (r.*1) [m]). cbn. by rewrite (Permutation_middle (<[i:=WIdle]> ws ≫= busy)).
  - apply Forall_app. split; [done|by constructor].
  - intros H. apply I7. by apply (exited_before _ _ WIdle ltac:(done) H).
  - rewrite I1. pose proof (busy_insert ws i WIdle WDone Hi) as H. cbn in H. by rewrite H.
  - rewrite (Permutation_app_comm d [m]), <- app_assoc. cbn. rewrite <- (Permutation_middle s). by rewrite I1.
  - intros ->. by destruct (I6 eq_refl).
  - intros H. by destruct (I6 H).
Qed.

Lemma start_Inv : Inv start.
Proof.
  unfold start. split; cbn; try done; try lia.
  - assert (H : ∀ n, replicate n WIdle ≫= busy = []) by (induction n; done). by rewrite H.
  - apply length_replicate.
  - intros H. by apply elem_of_replicate in H as [? _].
Qed.

Lemma consumer_reachable_Inv x : star step start x → Inv x.
Proof. apply (star_invariant step Inv cstep_Inv), start_Inv. Qed.

Lemma star_cstep_Inv x y : Inv x → star cstep x y → Inv y.
Proof. apply (star_invariant cstep Inv). intros a b Ha Hab. apply (cstep_Inv a); [done|by left]. Qed.

(** ** Termination *)

Definition disp_weight (d : dispatcher) : nat := match d with DStart => 2 | DRecv => 1 | DSend _ => 4 | DNil | DDone => 0 end.
Definition worker_weight (w : worker) : nat := match w with WIdle => 1 | WBusy _ => 2 | WDone => 0 end.

Definition measure (x : sys) : nat :=
  4 * length (src x) + disp_weight (disp x) + 2 * length (workCh x) + sum_list (worker_weight <$> workers x).

Lemma cstep_measure x y : cstep x y → (measure y < measure x)%nat.
Proof.
  unfold measure. intros [mq s sc w wc ws r d|mq m s sc w wc ws r d|mq w wc ws r d|mq m s sc w wc ws r d Hl|mq s sc m w wc dp ws r d i Hi
    |mq s sc w wc dp ws r d i m Hi|mq s sc dp ws r d i Hi]; cbn [src disp workCh workers length disp_weight]; try lia.
  - destruct mq; cbn; lia.
  - rewrite length_app. cbn [length]. lia.
  - pose proof (sum_list_insert worker_weight ws i _ (WBusy m) Hi). cbn [worker_weight] in *. lia.
  - pose proof (sum_list_insert worker_weight ws i _ WIdle Hi). cbn [worker_weight] in *. lia.
  - pose proof (sum_list_insert worker_weight ws i _ WDone Hi). cbn [worker_weight] in *. lia.
Qed.

Definition finished (x : sys) : Prop := disp x = DDone ∧ workCh x = [] ∧ Forall (eq WDone) (workers x).

Lemma workers_count_pos : (1 ≤ workers_count)%nat.
Proof. unfold workers_count. destruct (concurrencyCount <? 1) eqn:E; bool_to_prop; lia. Qed.

#[local] Instance worker_done_dec (w : worker) : Decision (WDone = w).
Proof. destruct w; [right; done|right; done|left; done]. Defined.

(** Until everything is over some goroutine can make a step. *)
Lemma progress x :
  Inv x → src_closed x = true → disp x ≠ DStart → disp x ≠ DNil → (∃ y, cstep x y) ∨ finished x.
Proof.
  intros [I1 I2 I3 I4 I5 I6 I7] Hc Hs Hn. pose proof workers_count_pos as Hpos.
  assert (Hw : ∃ w ws, workers x = w :: ws) by (destruct (workers x) as [|w ws]; [cbn in I4; lia|eauto]).
  destruct x as [mq s sc w wc dp ws r d]. cbn in *. subst sc.
  assert (Hbusy : ∀ i m, ws !! i = Some (WBusy m) → ∃ y, cstep (MkSys mq s true w wc dp ws r d) y)
    by (intros i m Hi; eexists; by apply (c_done _ _ _ _ _ _ _ _ _ i m)).
  destruct dp as [| |m| |]; try done.
  - left. destruct s as [|m s]; eexists; [apply c_close|apply c_recv].
  - left. destruct (decide (length w < workers_count)%nat) as [Hl|Hl]; [eexists; by apply c_send|].
    destruct Hw as (w0 & ws' & ->). destruct w0 as [|m0|].
    + destruct w as [|m1 w]; [cbn in Hl; lia|]. eexists. by apply (c_take _ _ _ _ _ _ _ _ _ _ 0).
    + by apply (Hbusy 0%nat m0).
    + destruct (I7 ltac:(constructor)) as [Hwc _]. by apply I5 in Hwc.
  - assert (Hwc : wc = true) by by apply I5. subst wc.
    destruct (Forall_or_lookup (eq WDone) ws) as [Ha|(i & w0 & Hi & Hne)].
    + right. split; [done|]. split; [|done]. destruct Hw as (w0 & ws' & ->). apply Forall_cons in Ha as [<- _].
      by apply I7; constructor.
    + left. destruct w0 as [|m0|]; [|by apply (Hbusy i m0)|done].
      destruct w as [|m1 w]; eexists; [by apply (c_exit _ _ _ _ _ _ _ i)|by apply (c_take _ _ _ _ _ _ _ _ _ _ i)].
Qed.


(** A stop or a reconnection that clears the field before the handing
    goroutine reads it leaves that goroutine reading a nil channel and every
    worker waiting: none of them can ever make a step again, even after the
    library has closed its channel. *)
Theorem cleared_channel_blocks :
  ∃ x, star step start x ∧ src_closed x = true ∧ (∀ y, ¬ cstep x y) ∧ Forall (eq WIdle) (workers x).
Proof.
  exists (MkSys false [] true [] false DNil (replicate workers_count WIdle) [] []). split; [|split; [done|split]].
  - eapply star_step; [right; apply e_forget|]. eapply star_step; [left; apply c_start|].
    eapply star_step; [right; apply e_close|]. apply star_refl.
  - intros y Hy. inversion Hy; subst. match goal with H : replicate _ _ !! _ = _ |- _ => by apply lookup_replicate in H as [? _] end.
  - cbn. by apply Forall_replicate.
Qed.
End consumer.

(** Two workers; odd messages are refused, and the last one panics. *)
Definition sample (m : nat) : option bool := if decide (m = 5)%nat then None else Some (Nat.even m).

Definition sample_end : sys (M := nat) :=
  MkSys true [] true [] false DRecv [WBusy 5%nat; WIdle] [(4%nat, Acked)] [5%nat; 4%nat].

Lemma sample_run : star (step sample 2) (start 2) sample_end.
Proof.
  unfold start. eapply star_step; [left; apply c_start|].
  eapply star_step; [right; apply (e_deliver _ _ _ _ _ _ _ _ 5%nat)|]. eapply star_step; [left; apply c_recv|].
  eapply star_step; [left; apply c_send; vm_compute; lia|].
  eapply star_step; [left; apply (c_take sample 2 true [] false 5%nat [] false DRecv [WIdle; WIdle] [] [5%nat] 0); reflexivity|].
  eapply star_step; [right; apply (e_deliver _ _ _ _ _ _ _ _ 4%nat)|]. eapply star_step; [left; apply c_recv|].
  eapply star_step; [left; apply c_send; vm_compute; lia|].
  eapply star_step; [left; apply (c_take sample 2 true [] false 4%nat [] false DRecv [WBusy 5%nat; WIdle] [] [5%nat; 4%nat] 1); reflexivity|].
  eapply star_step; [left; apply (c_done sample 2 true [] false [] false DRecv [WBusy 5%nat; WBusy 4%nat] [] [5%nat; 4%nat] 1 4%nat); reflexivity|].
  eapply star_step; [right; apply e_close|]. apply star_refl.
Qed.

End RabbitConsumer.
