(* ===== verification/MailSender.v ===== *)
(** * mail sender: one persistent SMTP connection (mail/sender/mailSender.go)

    Every operation runs under the mutex of the shared state, so it is one
    function of the state.  What the SMTP library answers at each call is an
    argument; the connections it has open are part of the state, and the
    messages it was given are recorded. *)

From S2P Require Import Prelude GoBytes GoStrconv GoTime.

Module MailSender.

Record ConfigMailSender := MkConfig {
  Server : string; User : string; Password : string; WithSSL : bool; Timeout : string; DryRun : bool
}.

Definition defaultSendTimeout : Duration := 30 * Second.

(** The errors the code tells apart. *)
Inductive error :=
| errSendTimeout
| ErrNoActiveConnection
| SendError (connCheck : bool)      (* mail.SendError, with its reason *)
| NetError
| OtherError (message : string).

#[global] Instance error_eq_dec : EqDecision error.
Proof. solve_decision. Defined.

Definition isConnLevelErr (e : error) : bool :=
  match e with
  | ErrNoActiveConnection => true
  | SendError connCheck => connCheck
  | NetError => true
  | errSendTimeout | OtherError _ => false
  end.

Record mailSenderState := MkState {
  client : option nat;
  host : string;
  port : Z;
  timeout : Duration
}.

Definition emptyState : mailSenderState := MkState None "" 0 0.

(** The library: connections that are open, the next connection and the
    clients that were given the message, in order. *)
Record world := MkWorld { fresh_id : nat; open : gset nat; sent : list nat }.

Definition set_client (st : mailSenderState) (c : option nat) : mailSenderState :=
  MkState c (host st) (port st) (timeout st).

Section sender.
(** [net.SplitHostPort]. *)
Context (splitHostPort : string → option (string * string)).
Context (config : ConfigMailSender).

Definition hostAndPort : result (string * Z) :=
  match splitHostPort (Server config) with
  | None => Err "invalid mail server address"
  | Some (h, portStr) =>
      match strconv.Atoi portStr with
      | (p, None) => Ok (h, p)
      | (_, Some _) => Err "invalid mail server port"
      end
  end.

Definition Start (st : mailSenderState) : option error * mailSenderState :=
  if (Server config =? "")%string then (Some (OtherError "mail server is not configured"), st)
  else
    match hostAndPort with
    | Err e => (Some (OtherError e), st)
    | Ok (h, p) => (None, MkState (client st) h p (timeout st))
    end.

(** of client [c]; [closeErr] is its error. *)
Definition close_client (w : world) (c : nat) : world := MkWorld (fresh_id w) (open w ∖ {[c]}) (sent w).

Definition Stop (st : mailSenderState) (w : world) (closeErr : option error) :
    option error * mailSenderState * world :=
  match client st with
  | Some c => (closeErr, set_client st None, close_client w c)
  | None => (None, st, w)
  end.

Definition endpointLocked (st : mailSenderState) : result mailSenderState :=
  let? st := (if (host st =? "")%string then
                let? (h, p) := hostAndPort in Ok (MkState (client st) h p (timeout st))
              else Ok st) in
  Ok (if timeout st <=? 0 then
        let t := duration.positiveOr defaultSendTimeout (Timeout config) in
        MkState (client st) (host st) (port st) t
      else st).

(** [dialLocked]; [dial] is the error of [NewClient] or [DialWithContext]. *)
Definition dialLocked (st : mailSenderState) (w : world) (dial : option error) :
    option error * nat * mailSenderState * world :=
  match client st with
  | Some c => (None, c, st, w)
  | None =>
      match dial with
      | Some e => (Some e, 0%nat, st, w)
      | None =>
          let c := fresh_id w in
          (None, c, set_client st (Some c), MkWorld (S c) ({[c]} ∪ open w) (sent w))
      end
  end.

Definition closeLocked (st : mailSenderState) (w : world) : mailSenderState * world :=
  match client st with
  | Some c => (set_client st None, close_client w c)
  | None => (st, w)
  end.

(** [sendWithTimeout]: what came first, the answer of [Send] ([None] for nil)
    or the timer. *)
Definition sendWithTimeout (w : world) (c : nat) (answer : option error) : option error * world :=
  (answer, MkWorld (fresh_id w) (open w) (sent w ++ [c])).

(** The answers of the library during one call. *)
Record answers := MkAnswers {
  addressErr : option error;     (* From, To *)
  dial1 : option error; send1 : option error;
  dial2 : option error; send2 : option error
}.

Definition SendMessage (st : mailSenderState) (w : world) (ans : answers) :
    option error * mailSenderState * world :=
  if DryRun config then (None, st, w)
  else
    match addressErr ans with
    | Some e => (Some e, st, w)
    | None =>
        match endpointLocked st with
        | Err e => (Some (OtherError e), st, w)
        | Ok st =>
            let '(err, c, st, w) := dialLocked st w (dial1 ans) in
            match err with
            | Some e => (Some e, st, w)
            | None =>
                let '(err, w) := sendWithTimeout w c (send1 ans) in
                match err with
                | None => (None, st, w)
                | Some e =>
                    if bool_decide (e = errSendTimeout) then
                      let '(st, w) := closeLocked st w in (Some e, st, w)
                    else if negb (isConnLevelErr e) then (Some e, st, w)
                    else
                      let '(st, w) := closeLocked st w in
                      let '(err, c, st, w) := dialLocked st w (dial2 ans) in
                      match err with
                      | Some e => (Some e, st, w)
                      | None =>
                          let '(err, w) := sendWithTimeout w c (send2 ans) in
                          match err with
                          | None => (None, st, w)
                          | Some e => let '(st, w) := closeLocked st w in (Some e, st, w)
                          end
                      end
                end
            end
        end
    end.

(** ** Lemmas *)

(** The connection kept is the only one open. *)
Definition owned (st : mailSenderState) (w : world) : Prop :=
  open w = match client st with Some c => {[c]} | None => ∅ end ∧
  ∀ c, client st = Some c → (c < fresh_id w)%nat.

Lemma owned_close st w : owned st w → let '(st', w') := closeLocked st w in owned st' w' ∧ client st' = None.
Proof.
  intros Hown. unfold closeLocked. destruct (client st) as [c|] eqn:E; [|done].
  destruct Hown as [Ho Hf]. rewrite E in Ho. split; [|done].
  split; simpl; [rewrite Ho; set_solver|done].
Qed.

Lemma owned_dial st w d :
  owned st w →
  let '(err, c, st', w') := dialLocked st w d in
  owned st' w' ∧ (err = None → client st' = Some c) ∧ sent w' = sent w ∧
  (client st = None → err = d).
Proof.
  intros Hown. unfold dialLocked. destruct (client st) as [c|] eqn:E; [done|].
  destruct d as [e|]; [done|]. split_and!; [|done..]. destruct Hown as [Ho Hf]. rewrite E in Ho.
  split; simpl; [rewrite Ho; set_solver|intros c [= <-]; lia].
Qed.

Lemma endpoint_client st st' : endpointLocked st = Ok st' → client st' = client st.
Proof.
  unfold endpointLocked. destruct (host st =? "")%string.
  - destruct hostAndPort as [[h p]|e]; [|done]. simpl. by destruct (timeout st <=? 0); intros [= <-].
  - simpl. by destruct (timeout st <=? 0); intros [= <-].
Qed.

(** What one call did: the clients that were given the message, and why the
    call ended as it did. *)
Inductive attempts (ans : answers) : list nat → option error → Prop :=
| no_attempt err : (err = None → DryRun config = true) → attempts ans [] err
| one_attempt c : (∀ e, send1 ans = Some e → isConnLevelErr e = false) → attempts ans [c] (send1 ans)
| redial_failed c e : dial2 ans = Some e → attempts ans [c] (Some e)
| two_attempts c1 c2 e :
    send1 ans = Some e → isConnLevelErr e = true → c1 ≠ c2 → attempts ans [c1; c2] (send2 ans).

Lemma SendMessage_spec_aux st w ans :
  owned st w →
  let '(err, st', w') := SendMessage st w ans in
  owned st' w' ∧ ∃ l, sent w' = sent w ++ l ∧ attempts ans l err.
Proof.
  intros Hown. unfold SendMessage.
  assert (Hno : ∀ err, (err = None → DryRun config = true) → ∃ l, sent w = sent w ++ l ∧ attempts ans l err).
  { intros err He. exists []. rewrite app_nil_r. split; [done|by constructor]. }
  destruct (DryRun config) eqn:Edry; [split; [done|]; apply Hno; auto|].
  destruct (addressErr ans) as [e|]; [split; [done|]; apply Hno; discriminate|].
  destruct (endpointLocked st) as [st1|e] eqn:Eend; [|split; [done|]; apply Hno; discriminate].
  apply endpoint_client in Eend.
  assert (Hown1 : owned st1 w) by (unfold owned; by rewrite Eend).
  pose proof (owned_dial st1 w (dial1 ans) Hown1) as Hd.
  destruct (dialLocked st1 w (dial1 ans)) as [[[err c] st2] w2].
  destruct Hd as (Hown2 & Hc & Hsent & _).
  destruct err as [e|]; [split; [done|]; rewrite Hsent; apply Hno; discriminate|].
  specialize (Hc eq_refl). cbn [sendWithTimeout].
  assert (Hown3 : owned st2 (MkWorld (fresh_id w2) (open w2) (sent w2 ++ [c]))) by done.
  destruct (send1 ans) as [e|] eqn:Es1.
  2: { split; [done|]. exists [c]. simpl. rewrite Hsent. split; [done|].
       rewrite <- Es1. constructor. congruence. }
  destruct (bool_decide (e = errSendTimeout)) eqn:Et.
  { apply bool_decide_eq_true in Et as ->. pose proof (owned_close _ _ Hown3) as Hcl.
    unfold closeLocked in *. rewrite Hc in *. split; [apply Hcl|]. exists [c]. simpl. rewrite Hsent.
    split; [done|]. rewrite <- Es1. constructor. intros e He. congruence || (rewrite Es1 in He; by simplify_eq). }
  destruct (isConnLevelErr e) eqn:Ec; cbn [negb].
  2: { split; [done|]. exists [c]. simpl. rewrite Hsent. split; [done|].
       rewrite <- Es1. constructor. intros e' He'. rewrite Es1 in He'. by simplify_eq. }
  pose proof (owned_close _ _ Hown3) as Hcl. unfold closeLocked at 1. unfold closeLocked in Hcl.
  rewrite Hc in *. destruct Hcl as [Hown4 Hnone].
  set (st3 := set_client st2 None) in *. 
  set (w3 := close_client (MkWorld (fresh_id w2) (open w2) (sent w2 ++ [c])) c) in *.
  assert (Hfresh : (c < fresh_id w3)%nat) by (simpl; by apply Hown2).
  assert (Hsent3 : sent w3 = sent w ++ [c]) by (simpl; by rewrite Hsent).
  pose proof (owned_dial st3 w3 (dial2 ans) Hown4) as Hd2.
  unfold dialLocked in *. rewrite Hnone in *.
  destruct (dial2 ans) as [e2|] eqn:Ed2.
  { split; [apply Hown4|]. exists [c]. split; [done|]. by apply redial_failed. }
  destruct Hd2 as (Hown5 & _ & Hs5 & _). cbn [sendWithTimeout].
  assert (Htwo : attempts ans [c; fresh_id w3] (send2 ans)) by (apply (two_attempts _ _ _ e); [done..|lia]).
  destruct (send2 ans) as [e3|]; simpl; rewrite Hsent.
  - split; [|exists [c; fresh_id w2]; by rewrite <- app_assoc].
    pose proof (owned_close _ _ Hown5) as Hcl. unfold closeLocked in Hcl. simpl in Hcl. by destruct Hcl.
  - split; [done|]. exists [c; fresh_id w2]. by rewrite <- app_assoc.
Qed.

(** ** Properties *)

(** The calls other components make, one after the other under the mutex. *)
Inductive call := CStart | CStop (closeErr : option error) | CSend (ans : answers).

Definition run_call (x : mailSenderState * world) (c : call) : mailSenderState * world :=
  let '(st, w) := x in
  match c with
  | CStart => ((Start st).2, w)
  | CStop e => let '(_, st, w) := Stop st w e in (st, w)
  | CSend ans => let '(_, st, w) := SendMessage st w ans in (st, w)
  end.

Definition run_calls (l : list call) : mailSenderState * world :=
  fold_left run_call l (emptyState, MkWorld 0 ∅ []).

Lemma run_calls_owned l x : owned x.1 x.2 → owned (fold_left run_call l x).1 (fold_left run_call l x).2.
Proof.
  revert x. induction l as [|c l IH]; intros [st w] Hx; [done|]. cbn [fold_left]. apply IH. clear IH.
  destruct c as [|e|ans]; cbn [run_call fst snd] in *.
  - unfold Start. destruct (_ =? _)%string; [done|]. by destruct hostAndPort as [[h p]|e].
  - pose proof (owned_close st w Hx) as Hc. unfold Stop. unfold closeLocked in Hc.
    destruct (client st); [apply Hc|exact Hx].
  - pose proof (SendMessage_spec_aux st w ans Hx) as Hs.
    destruct (SendMessage st w ans) as [[err st'] w']. apply Hs.
Qed.

(** [C37] After any sequence of starts, stops and messages, with any answers
    of the library, the only connection open is the one the sender keeps; a
    stop leaves none. *)
Theorem single_connection l :
  let '(st, w) := run_calls l in
  open w = match client st with Some c => {[c]} | None => ∅ end ∧
  ∀ e, let '(_, st', w') := Stop st w e in client st' = None ∧ open w' = ∅.
Proof.
  assert (Hown : owned (run_calls l).1 (run_calls l).2).
  { apply run_calls_owned. split; [done|]. discriminate. }
  destruct (run_calls l) as [st w]. cbn [fst snd] in Hown.
  pose proof Hown as [Ho _]. split; [done|]. intros e.
  pose proof (owned_close st w Hown) as Hc. unfold Stop. unfold closeLocked in Hc.
  destruct (client st) as [c|] eqn:E; [|by rewrite E]. destruct Hc as [[Ho' _] Hn]. split; [done|].
  by rewrite Hn in Ho'.
Qed.

(** A message is given to the server at most twice: the second time
    only after an error of the connection, on a connection dialled anew, and
    never after a timeout; success is reported only when the last attempt
    succeeded. *)
Theorem SendMessage_attempts l ans :
  let '(st, w) := run_calls l in
  let '(err, st', w') := SendMessage st w ans in
  ∃ tried, sent w' = sent w ++ tried ∧ attempts ans tried err ∧ (length tried ≤ 2)%nat ∧
    (send1 ans = Some errSendTimeout → (length tried ≤ 1)%nat) ∧
    (err = None → DryRun config = false → tried ≠ []).
Proof.
  assert (Hown : owned (run_calls l).1 (run_calls l).2).
  { apply run_calls_owned. split; [done|]. discriminate. }
  destruct (run_calls l) as [st w]. cbn [fst snd] in Hown.
  pose proof (SendMessage_spec_aux st w ans Hown) as Hs.
  destruct (SendMessage st w ans) as [[err st'] w']. destruct Hs as (_ & tried & Hsent & Hat).
  exists tried. split; [done|]. split; [done|].
  destruct Hat; simpl; split_and!; try lia; try done.
  - intros Hn Hd. apply H in Hn. congruence.
  - intros He. rewrite He in H. by injection H as <-.
Qed.
End sender.

Definition cfg : ConfigMailSender := MkConfig "mx:25" "u" "p" false "30s" false.
Definition split0 (s : string) : option (string * string) := Some ("mx", "25")%string.

(** A lost connection: one redial, one retry. *)
Lemma retry_example :
  let '(st, w) := run_calls split0 cfg
     [CStart; CSend (MkAnswers None None None None None);
      CSend (MkAnswers None None (Some NetError) None None)] in
  sent w = [0; 0; 1]%nat ∧ client st = Some 1%nat ∧ open w = {[1%nat]} ∧ timeout st = 30 * Second.
Proof. by vm_compute. Qed.

Definition lost : answers := MkAnswers None None (Some NetError) None None.

Lemma SendMessage_attempts_witness :
  let '(st, w) := run_calls split0 cfg [CStart; CSend (MkAnswers None None None None None)] in
  let '(err, st', w') := SendMessage split0 cfg st w lost in
  err = None ∧ sent w = [0]%nat ∧ sent w' = [0; 0; 1]%nat ∧
  ∃ tried, sent w' = sent w ++ tried ∧ (length tried ≤ 2)%nat.
Proof.
  pose proof (SendMessage_attempts split0 cfg
    [CStart; CSend (MkAnswers None None None None None)] lost) as H.
  vm_compute in H |- *. destruct H as (tried & H1 & _ & H2 & _). split_and!; try reflexivity. exists tried. done.
Defined.
End MailSender.
