(* ===== verification/Smsc.v ===== *)
(** * SMS centre (smsc/smsc.go)

    One message is sent at a time (sendMu): its parts are submitted in order,
    and the answer of the first part that is confirmed is the result.  The
    handler that receives the confirmations runs concurrently; here it runs at
    the points an argument chooses, between two submissions or while the
    sender waits.  Pointers of PDUs and channels are locations. *)

From S2P Require Import Prelude GoBytes GoTime.

Module Smsc.

Record ConfigSMSC := MkConfig {
  SMSC : string; SystemID : string; Password : string; SystemType : string;
  SourceAddr : string; ResultTimeout : string; DryRun : bool
}.

(** Result timeout: five seconds unless the configuration parses to a
    positive duration. *)
Definition NewSMSCenter_timeout (config : ConfigSMSC) : Duration :=
  duration.positiveOr (5 * Second) (ResultTimeout config).

(** The waiters and the one-place channels; [trans] is the current session. *)
Record SMSCenter := MkSMSCenter {
  trans : option nat;
  waitChs : gmap nat nat;
  chans : gmap nat (option string);
  fresh_id : nat
}.

Definition set_trans (s : SMSCenter) (t : option nat) : SMSCenter :=
  MkSMSCenter t (waitChs s) (chans s) (fresh_id s).
Definition set_wait (s : SMSCenter) (w : gmap nat nat) : SMSCenter :=
  MkSMSCenter (trans s) w (chans s) (fresh_id s).

(** ** Confirmations *)

(** A SubmitSMResp: the request it answers, when that is a SubmitSM, and the
    message identifier.  Its command status is not looked at. *)
Record response := MkResponse { OriginalRequest : option nat; MessageID : string; CommandStatus : Z }.

(** [ch <- id] with a default branch, on a channel with one place. *)
Definition offer (c : gmap nat (option string)) (ch : nat) (id : string) : gmap nat (option string) :=
  match c !! ch with
  | Some None => <[ch := Some id]> c
  | _ => c
  end.

Definition handleSubmitSMResponse (s : SMSCenter) (r : response) : SMSCenter :=
  match OriginalRequest r with
  | None => s
  | Some orig =>
      match waitChs s !! orig with
      | Some ch =>
          MkSMSCenter (trans s) (delete orig (waitChs s)) (offer (chans s) ch (MessageID r)) (fresh_id s)
      | None => s
      end
  end.

Definition handle_all (s : SMSCenter) (l : list response) : SMSCenter :=
  fold_left handleSubmitSMResponse l s.

Definition dropWaitingParts (s : SMSCenter) : SMSCenter := set_wait s ∅.

Definition dropWaitingPartsFrom (s : SMSCenter) (messages : list nat) : SMSCenter :=
  set_wait s (fold_left (λ w m, delete m w) messages (waitChs s)).

(** ** Sending *)

(** What happens to one part: the error of [Submit], if any, and the
    confirmations handled before the next part. *)
Record submission := MkSubmission { submitErr : option string; arrived : list response }.

(** The loop over the parts; [messages] are the parts that remain. *)
Fixpoint sendSMS_loop (s : SMSCenter) (messages : list nat) (subs : list submission) (partChs : list nat) :
    result (list nat) * SMSCenter :=
  match messages with
  | [] => (Ok partChs, s)
  | msg :: rest =>
      let partCh := fresh_id s in
      let s1 := MkSMSCenter (trans s) (<[msg := partCh]> (waitChs s)) (<[partCh := None]> (chans s)) (S partCh) in
      match subs with
      | sub :: subs =>
          let s2 := handle_all s1 (arrived sub) in
          match submitErr sub with
          | Some e => (Err e, dropWaitingPartsFrom s2 messages)
          | None => sendSMS_loop s2 rest subs (partChs ++ [partCh])
          end
      | [] => sendSMS_loop s1 rest [] (partChs ++ [partCh])
      end
  end.

(** [build] is the outcome of preparing and splitting the message: the number
    of parts, or the error of an address, the encoding or the split. *)
Definition sendSMS (s : SMSCenter) (build : result nat) (subs : list submission) :
    result (list nat) * SMSCenter :=
  match trans s with
  | None => (Err "smsc session is not started", s)
  | Some _ =>
      match build with
      | Err e => (Err e, s)
      | Ok n =>
          let messages := seq (fresh_id s) n in
          sendSMS_loop (MkSMSCenter (trans s) (waitChs s) (chans s) (fresh_id s + n)) messages subs []
      end
  end.

Definition timeoutErr : string := "send message timeout while result message is waiting".

(** The first part, in the order [order], whose channel holds an answer. *)
Fixpoint first_result (c : gmap nat (option string)) (order : list nat) : option string :=
  match order with
  | [] => None
  | ch :: order => match c !! ch with Some (Some id) => Some id | _ => first_result c order end
  end.

(** One attempt: [waiting] are the confirmations handled while the sender
    waits, [order] the order in which the forwarding goroutines (one per part,
    by position) are scheduled. *)
Record attempt := MkAttempt {
  build : result nat; subs : list submission; waiting : list response; order : list nat
}.

Definition sendMessage (dryRun : bool) (s : SMSCenter) (a : attempt) : result string * SMSCenter :=
  if dryRun then (Ok "DryRun"%string, s)
  else
    match sendSMS s (build a) (subs a) with
    | (Err e, s) => (Err e, s)
    | (Ok partChs, s) =>
        let s := handle_all s (waiting a) in
        match first_result (chans s) (omap (λ i, partChs !! i) (order a)) with
        | Some res => (Ok res, dropWaitingParts s)
        | None => (Err timeoutErr, dropWaitingParts s)
        end
    end.

(** ** Sessions *)

(** [startLocked]; [session] is what [gosmpp.NewSession] returned. *)
Definition startLocked (dryRun : bool) (s : SMSCenter) (session : result nat) : option string * SMSCenter :=
  if dryRun then (None, s)
  else match session with
       | Ok t => (None, set_trans s (Some t))
       | Err e => (Some e, set_trans s None)
       end.

Definition stopLocked (dryRun : bool) (s : SMSCenter) (closeErr : option string) : option string :=
  if negb dryRun && bool_decide (is_Some (trans s)) then closeErr else None.

(** [Restart]: the error of the stop is only logged. *)
Definition Restart (dryRun : bool) (s : SMSCenter) (session : result nat) : option string * SMSCenter :=
  startLocked dryRun s session.

(** ** The retry loop *)

Definition closingPrefix : string := "connection is closing, can not send PDU to SMSC".

(** What the loop did besides sending. *)
Inductive effect := Attempted | Restarted | Slept (d : Duration).

(** [n] iterations remain, the current one being number [i]. *)
Fixpoint SendMessage_loop (n : nat) (dryRun : bool) (i : Z) (s : SMSCenter)
    (env : list (attempt * result nat)) (lastErr : option string) : result string * SMSCenter * list effect :=
  match n, env with
  | S n, (a, session) :: env =>
      match sendMessage dryRun s a with
      | (Ok res, s) => (Ok res, s, [Attempted])
      | (Err e, s) =>
          if strings.HasPrefix e closingPrefix then
            match Restart dryRun s session with
            | (Some e', s) => (Err e', s, [Attempted; Restarted])
            | (None, s) =>
                let '(r, s, l) := SendMessage_loop n dryRun (i + 1) s env (Some e) in
                (r, s, Attempted :: Restarted :: l)
            end
          else
            let '(r, s, l) := SendMessage_loop n dryRun (i + 1) s env (Some e) in
            (r, s, Attempted :: (if i <? 5 then [Slept (i * 100 * Millisecond)] else []) ++ l)
      end
  | _, _ =>
      (match lastErr with Some e => Err e | None => Err "can't send message" end, s, [])
  end.

Definition SendMessage (dryRun : bool) (s : SMSCenter) (env : list (attempt * result nat)) :
    result string * SMSCenter * list effect :=
  SendMessage_loop 5 dryRun 1 s env None.

(** ** Lemmas *)

(** What the channels [chs], waited for by the parts [ms], may hold after the
    responses [l]: the identifier of a response to the same part. *)
Definition sound (l : list response) (ms : gmap nat nat) (s : SMSCenter) : Prop :=
  (∀ m ch, ms !! m = Some ch → (ch < fresh_id s)%nat ∧ (m < fresh_id s)%nat) ∧
  (∀ m ch, waitChs s !! m = Some ch → (ch < fresh_id s)%nat ∧ (m < fresh_id s)%nat) ∧
  (∀ m ch m', waitChs s !! m = Some ch → ms !! m' = Some ch → m = m') ∧
  (∀ m ch id, ms !! m = Some ch → chans s !! ch = Some (Some id) →
     ∃ r, r ∈ l ∧ OriginalRequest r = Some m ∧ MessageID r = id).

Lemma sound_mono l l' ms s : l ⊆ l' → sound l ms s → sound l' ms s.
Proof.
  intros Hl (H1 & H2 & H3 & H4). split_and!; try done.
  intros m ch id Hm Hc. destruct (H4 m ch id Hm Hc) as (r & Hr & ?). exists r. set_solver.
Qed.

Lemma sound_handle l ms s r :
  r ∈ l → sound l ms s → sound l ms (handleSubmitSMResponse s r).
Proof.
  intros Hr (H1 & H2 & H3 & H4). unfold handleSubmitSMResponse.
  destruct (OriginalRequest r) as [orig|] eqn:Eo; [|done].
  destruct (waitChs s !! orig) as [ch|] eqn:Ew; [|done]. split_and!; simpl; try done.
  - intros m c [_ Hm]%lookup_delete_Some. by eapply H2.
  - intros m c m' [_ Hm]%lookup_delete_Some. by eapply H3.
  - intros m c id Hm Hc. unfold offer in Hc.
    destruct (chans s !! ch) as [[old|]|] eqn:Ec; [by eapply H4| |by eapply H4].
    destruct (decide (ch = c)) as [<-|Hne].
    + rewrite lookup_insert_eq in Hc. injection Hc as <-.
      pose proof (H3 _ _ _ Ew Hm) as ->. by exists r.
    + rewrite lookup_insert_ne in Hc by done. by eapply H4.
Qed.

Lemma sound_handle_all l ms s rs : rs ⊆ l → sound l ms s → sound l ms (handle_all s rs).
Proof.
  revert s. induction rs as [|r rs IH]; intros s Hrs Hs; [done|]. cbn [handle_all fold_left].
  apply IH; [set_solver|]. apply sound_handle; [set_solver|done].
Qed.

Lemma fresh_handle_all s rs : fresh_id (handle_all s rs) = fresh_id s ∧ trans (handle_all s rs) = trans s.
Proof.
  revert s. induction rs as [|r rs IH]; intros s; [done|]. cbn [handle_all fold_left].
  destruct (IH (handleSubmitSMResponse s r)) as [H1 H2]. unfold handle_all in *. rewrite H1, H2.
  unfold handleSubmitSMResponse. destruct (OriginalRequest r); [|done]. by destruct (waitChs s !! _).
Qed.

Definition all_arrived (subs : list submission) : list response := subs ≫= arrived.

(** A part that begins to wait on a fresh channel. *)
Lemma sound_wait l ms s msg :
  (msg < fresh_id s)%nat → sound l ms s →
  sound l (<[msg := fresh_id s]> ms)
    (MkSMSCenter (trans s) (<[msg := fresh_id s]> (waitChs s)) (<[fresh_id s := None]> (chans s)) (S (fresh_id s))).
Proof.
  intros Hlt Hs. destruct Hs as (H1 & H2 & H3 & H4). split_and!; simpl.
  - intros m c. destruct (decide (msg = m)) as [<-|Hne].
    + rewrite lookup_insert_eq. intros [= <-]. lia.
    + rewrite lookup_insert_ne by done. intros Hc. apply H1 in Hc. lia.
  - intros m c. destruct (decide (msg = m)) as [<-|Hne].
    + rewrite lookup_insert_eq. intros [= <-]. lia.
    + rewrite lookup_insert_ne by done. intros Hc. apply H2 in Hc. lia.
  - intros m c m'. destruct (decide (msg = m)) as [<-|Hne]; destruct (decide (msg = m')) as [<-|Hne'];
      rewrite ?lookup_insert_eq, ?lookup_insert_ne by done; [done| | |by apply H3].
    + intros [= <-] Hc. apply H1 in Hc. lia.
    + intros Hc [= <-]. apply H2 in Hc. lia.
  - intros m c id. destruct (decide (msg = m)) as [<-|Hne].
    + rewrite lookup_insert_eq. intros [= <-]. by rewrite lookup_insert_eq.
    + rewrite lookup_insert_ne by done. intros Hc.
      rewrite lookup_insert_ne by (apply H1 in Hc; lia). by apply H4.
Qed.

(** The parts and the channels registered for them. *)
Lemma sendSMS_loop_sound l messages subs s partChs ms s' chs :
  all_arrived subs ⊆ l → sound l ms s → NoDup messages →
  (∀ m, m ∈ messages → (m < fresh_id s)%nat ∧ ms !! m = None) →
  sendSMS_loop s messages subs partChs = (Ok chs, s') →
  ∃ ms', sound l ms' s' ∧ (∀ ch, ch ∈ chs → ch ∈ partChs ∨ ∃ m, m ∈ messages ∧ ms' !! m = Some ch) ∧
    (∀ m, ms' !! m ≠ None → ms !! m ≠ None ∨ m ∈ messages) ∧
    (∀ m ch, ms !! m = Some ch → ms' !! m = Some ch).
Proof.
  revert subs s partChs ms. induction messages as [|msg rest IH]; intros subs s partChs ms Hsub Hs Hnd Hm H.
  - cbn in H. injection H as <- <-. exists ms. split_and!; try done; try set_solver.
  - cbn [sendSMS_loop] in H. apply NoDup_cons in Hnd as [Hni Hnd].
    destruct (Hm msg ltac:(set_solver)) as [Hlt Hnone]. set (ch := fresh_id s) in *.
    set (s1 := MkSMSCenter (trans s) (<[msg:=ch]> (waitChs s)) (<[ch:=None]> (chans s)) (S ch)) in *.
    pose proof (sound_wait l ms s msg Hlt Hs : sound l (<[msg := ch]> ms) s1) as Hs1.
    assert (Hrest : ∀ s2 subs2, fresh_id s2 = S ch → sound l (<[msg := ch]> ms) s2 → all_arrived subs2 ⊆ l →
              sendSMS_loop s2 rest subs2 (partChs ++ [ch]) = (Ok chs, s') →
              ∃ ms', sound l ms' s' ∧ (∀ c, c ∈ chs → c ∈ partChs ∨ ∃ m, m ∈ msg :: rest ∧ ms' !! m = Some c) ∧
                (∀ m, ms' !! m ≠ None → ms !! m ≠ None ∨ m ∈ msg :: rest) ∧
                (∀ m c, ms !! m = Some c → ms' !! m = Some c)).
    { intros s2 subs2 Hf Hs2 Hsub2 H2.
      destruct (IH subs2 s2 (partChs ++ [ch]) (<[msg := ch]> ms) Hsub2 Hs2 Hnd) as (ms' & G1 & G2 & G3 & G4);
        [|done|].
      - intros m Hin. destruct (Hm m ltac:(set_solver)) as [Hlt' Hn']. rewrite Hf. split; [lia|].
        rewrite lookup_insert_ne; [done|]. set_solver.
      - exists ms'. split; [done|]. split_and!.
        + intros c Hc. destruct (G2 c Hc) as [Hin|(m & Hin & Hm')]; [|right; exists m; set_solver].
          apply elem_of_app in Hin as [?|Hin]; [by left|]. apply list_elem_of_singleton in Hin as ->.
          right. exists msg. split; [set_solver|]. apply G4, lookup_insert_eq.
        + intros m Hm'. destruct (G3 m Hm') as [Hin|Hin]; [|right; set_solver].
          destruct (decide (msg = m)) as [<-|Hne]; [right; set_solver|].
          rewrite lookup_insert_ne in Hin by done. by left.
        + intros m c Hc. apply G4. rewrite lookup_insert_ne; [done|]. intros <-. congruence. }
    destruct subs as [|sub subs].
    + by apply (Hrest s1 []).
    + destruct (submitErr sub); [discriminate H|].
      cbn in Hsub. unfold all_arrived in Hsub. cbn [mbind list_bind] in Hsub.
      apply (Hrest (handle_all s1 (arrived sub)) subs); [by destruct (fresh_handle_all s1 (arrived sub))| | |done].
      * apply sound_handle_all; [set_solver|done].
      * unfold all_arrived. set_solver.
Qed.

Lemma first_result_Some c order id :
  first_result c order = Some id → ∃ ch, ch ∈ order ∧ c !! ch = Some (Some id).
Proof.
  induction order as [|ch order IH]; intros H; [done|]. cbn [first_result] in H.
  destruct (c !! ch) as [[i|]|] eqn:E; [injection H as <-; exists ch; set_solver| |];
    destruct (IH H) as (ch' & ? & ?); exists ch'; set_solver.
Qed.

(** Waiters refer to allocated parts and channels. *)
Definition wf (s : SMSCenter) : Prop :=
  ∀ m ch, waitChs s !! m = Some ch → (ch < fresh_id s)%nat ∧ (m < fresh_id s)%nat.

Lemma wf_mono s s' :
  (fresh_id s ≤ fresh_id s')%nat →
  (∀ m ch, waitChs s' !! m = Some ch → waitChs s !! m = Some ch ∨ ((ch < fresh_id s')%nat ∧ (m < fresh_id s')%nat)) →
  wf s → wf s'.
Proof. intros Hf Hw Hs m ch Hm. destruct (Hw m ch Hm) as [H|H]; [apply Hs in H; lia|done]. Qed.

Lemma wf_handle_all s rs : wf s → wf (handle_all s rs).
Proof.
  revert s. induction rs as [|r rs IH]; intros s Hs; [done|]. cbn [handle_all fold_left]. apply IH.
  unfold handleSubmitSMResponse. destruct (OriginalRequest r) as [o|]; [|done].
  destruct (waitChs s !! o) as [ch|]; [|done]. intros m c; simpl; intros [_ Hm]%lookup_delete_Some. by apply Hs.
Qed.

Lemma wf_dropFrom s ms : wf s → wf (dropWaitingPartsFrom s ms).
Proof.
  intros Hs m ch. unfold dropWaitingPartsFrom. simpl.
  assert (Hsub : ∀ w : gmap nat nat, fold_left (λ w m, delete m w) ms w ⊆ w).
  { induction ms as [|a ms IH]; intros w; [done|]. simpl. etrans; [apply IH|]. apply delete_subseteq. }
  intros Hm. eapply lookup_weaken in Hm; [|apply Hsub]. by apply Hs.
Qed.

Lemma wf_loop messages subs s partChs :
  wf s → (∀ m, m ∈ messages → (m < fresh_id s)%nat) → wf (sendSMS_loop s messages subs partChs).2.
Proof.
  revert subs s partChs. induction messages as [|msg rest IH]; intros subs s partChs Hs Hm; [done|].
  cbn [sendSMS_loop]. set (s1 := MkSMSCenter _ _ _ _).
  assert (Hs1 : wf s1).
  { intros m c. simpl. destruct (decide (msg = m)) as [<-|Hne].
    - rewrite lookup_insert_eq. intros [= <-]. pose proof (Hm msg ltac:(set_solver)). lia.
    - rewrite lookup_insert_ne by done. intros Hc. apply Hs in Hc. lia. }
  assert (Hrest : ∀ s2, wf s2 → fresh_id s2 = S (fresh_id s) →
            ∀ subs2, wf (sendSMS_loop s2 rest subs2 (partChs ++ [fresh_id s])).2).
  { intros s2 Hs2 Hf subs2. apply IH; [done|]. intros m Hin. rewrite Hf. pose proof (Hm m ltac:(set_solver)). lia. }
  destruct subs as [|sub subs]; [by apply Hrest|].
  destruct (submitErr sub); [by apply wf_dropFrom, wf_handle_all|].
  apply Hrest; [by apply wf_handle_all|]. by destruct (fresh_handle_all s1 (arrived sub)).
Qed.

Lemma sendMessage_wf dryRun s a : wf s → wf (sendMessage dryRun s a).2.
Proof.
  intros Hs. unfold sendMessage. destruct dryRun; [done|].
  assert (Hw : wf (sendSMS s (build a) (subs a)).2).
  { unfold sendSMS. destruct (trans s); [|done]. destruct (build a) as [k|]; [|done].
    apply wf_loop; simpl.
    - apply (wf_mono s); simpl; [lia|auto|done].
    - intros m Hm%elem_of_seq. lia. }
  destruct (sendSMS s (build a) (subs a)) as [[chs|e] s1]; [|done]. simpl in Hw.
  destruct (first_result _ _); simpl; intros m ch; simpl; by rewrite lookup_empty.
Qed.

(** ** Properties *)

(** [C40] The identifier a send returns is the one of a confirmation of one
    of its own parts: confirmations of other, earlier or abandoned messages
    are never mistaken for it. *)
Theorem sendMessage_own_response s a id s' :
  wf s → sendMessage false s a = (Ok id, s') →
  ∃ n r part, build a = Ok n ∧ r ∈ all_arrived (subs a) ++ waiting a ∧
    OriginalRequest r = Some part ∧ (fresh_id s ≤ part < fresh_id s + n)%nat ∧ MessageID r = id ∧
    waitChs s' = ∅.
Proof.
  intros Hwf. unfold sendMessage, sendSMS. destruct (trans s) as [t|]; [|done].
  destruct (build a) as [n|e]; [|done].
  set (s0 := MkSMSCenter _ _ _ _). destruct (sendSMS_loop _ _ _ _) as [[chs|e] s1] eqn:Eloop; [|done].
  set (l := all_arrived (subs a) ++ waiting a).
  assert (Hs0 : sound l ∅ s0).
  { split_and!; intros m ch; rewrite ?lookup_empty; try done.
    - simpl. intros Hm. apply Hwf in Hm. lia. }
  destruct (sendSMS_loop_sound l (seq (fresh_id s) n) (subs a) s0 [] ∅ s1 chs) as (ms & Hs1 & Hchs & Hms & _);
    [set_solver|done|apply NoDup_seq| |done|].
  { intros m Hm%elem_of_seq. simpl. by split; [lia|]. }
  apply (sound_handle_all l ms s1 (waiting a)) in Hs1 as (_ & _ & _ & H4); [|set_solver].
  destruct (first_result _ _) as [res|] eqn:Ef; [|done]. intros [= <- <-].
  apply first_result_Some in Ef as (ch & Hin & Hc).
  apply list_elem_of_omap in Hin as (i & _ & Hi). apply list_elem_of_lookup_2 in Hi.
  destruct (Hchs ch Hi) as [?|(m & Hm & Hmc)]; [set_solver|].
  destruct (H4 m ch res Hmc Hc) as (r & Hr & Ho & Hid). apply elem_of_seq in Hm.
  exists n, r, m. split_and!; try done; lia.
Qed.

Definition is_attempt (e : effect) : bool := match e with Attempted => true | _ => false end.
Definition sleep_of (e : effect) : Duration := match e with Slept d => d | _ => 0 end.
Definition total_sleep (l : list effect) : Duration := foldr (λ e acc, sleep_of e + acc) 0 l.

Definition attempt_count (l : list effect) : Z := foldr (λ e acc, (if is_attempt e then 1 else 0) + acc) 0 l.

Lemma attempt_count_cons e l : attempt_count (e :: l) = (if is_attempt e then 1 else 0) + attempt_count l.
Proof. done. Qed.

Lemma total_sleep_cons e l : total_sleep (e :: l) = sleep_of e + total_sleep l.
Proof. done. Qed.

Lemma SendMessage_loop_spec n dryRun i s env lastErr :
  1 ≤ i → Z.of_nat n + i = 6 → wf s →
  let '(r, s', l) := SendMessage_loop n dryRun i s env lastErr in
  wf s' ∧ attempt_count l ≤ Z.of_nat n ∧
  0 ≤ total_sleep l ≤ (if i <? 5 then (10 - i * (i - 1) / 2) * (100 * Millisecond) else 0) ∧
  (∀ id, r = Ok id → ∃ a sess s0, (a, sess) ∈ env ∧ wf s0 ∧ (sendMessage dryRun s0 a).1 = Ok id).
Proof.
  revert i s env lastErr. induction n as [|n IH]; intros i s env lastErr Hi Hn Hwf.
  - cbn [SendMessage_loop]. split; [done|]. split; [simpl; lia|]. split; [|by destruct lastErr].
    simpl. destruct (i <? 5) eqn:E; bool_to_prop; lia.
  - cbn [SendMessage_loop]. destruct env as [|[a session] env].
    { split; [done|]. split; [simpl; lia|]. split; [|by destruct lastErr].
      simpl. destruct (i <? 5) eqn:E; [|lia]. bool_to_prop. split; [lia|].
      assert (i = 1 ∨ i = 2 ∨ i = 3 ∨ i = 4) as [-> | [-> | [-> | ->]]] by lia; by vm_compute. }
    pose proof (sendMessage_wf dryRun s a Hwf) as Hw.
    destruct (sendMessage dryRun s a) as [[res|e] s1] eqn:Es; simpl in Hw.
    { split; [done|]. split; [simpl; lia|]. split.
      - simpl. destruct (i <? 5) eqn:E; [|lia]. bool_to_prop.
        assert (i = 1 ∨ i = 2 ∨ i = 3 ∨ i = 4) as [-> | [-> | [-> | ->]]] by lia; by vm_compute.
      - intros id [= <-]. exists a, session, s. rewrite Es. split; [set_solver|done]. }
    assert (Harith : (if i + 1 <? 5 then (10 - (i + 1) * (i + 1 - 1) / 2) * (100 * Millisecond) else 0)
                     + (if i <? 5 then i * 100 * Millisecond else 0)
                     ≤ (if i <? 5 then (10 - i * (i - 1) / 2) * (100 * Millisecond) else 0)).
    { assert (i = 1 ∨ i = 2 ∨ i = 3 ∨ i = 4 ∨ i = 5) as [-> | [-> | [-> | [-> | ->]]]] by lia; by vm_compute. }
    assert (Hmax : 0 ≤ (if i <? 5 then (10 - i * (i - 1) / 2) * (100 * Millisecond) else 0)).
    { assert (i = 1 ∨ i = 2 ∨ i = 3 ∨ i = 4 ∨ i = 5) as [-> | [-> | [-> | [-> | ->]]]] by lia; by vm_compute. }
    assert (Hpos : 0 ≤ (if i <? 5 then i * 100 * Millisecond else 0)).
    { destruct (i <? 5); unfold Millisecond; lia. }
    destruct (strings.HasPrefix e closingPrefix).
    + unfold Restart, startLocked. destruct dryRun; [|destruct session as [t|e']].
      3: { split_and!; [done|simpl; lia|simpl; lia| |done].
           simpl. lia. }
      all: match goal with |- context [SendMessage_loop ?k ?d ?j ?s2 ?en ?le] =>
             specialize (IH j s2 en le ltac:(lia) ltac:(lia)) end.
      all: match type of IH with wf ?x → _ => assert (Hwx : wf x) by done; specialize (IH Hwx) end.
      all: destruct (SendMessage_loop _ _ _ _ _ _) as [[r s2] l]; destruct IH as (G1 & G2 & G3 & G4).
      all: split; [done|]; split; [rewrite !attempt_count_cons; cbn [is_attempt]; lia|]; split; [rewrite !total_sleep_cons; cbn [sleep_of]; lia|].
      all: intros id Hid; destruct (G4 id Hid) as (a' & se & s0 & Hin & ?); exists a', se, s0; set_solver.
    + specialize (IH (i + 1) s1 env (Some e) ltac:(lia) ltac:(lia) Hw).
      destruct (SendMessage_loop n _ _ _ _ _) as [[r s2] l]. destruct IH as (G1 & G2 & G3 & G4).
      split; [done|]. split.
      { destruct (i <? 5); cbn [app]; rewrite !attempt_count_cons; cbn [is_attempt]; lia. }
      split.
      * destruct (i <? 5); cbn [app]; rewrite !total_sleep_cons; cbn [sleep_of]; lia.
      * intros id Hid. destruct (G4 id Hid) as (a' & se & s0 & Hin & ?). exists a', se, s0. set_solver.
Qed.

(** A message is attempted at most five times, with at most one second
    of sleep in all; the identifier returned is the one an attempt got. *)
Theorem SendMessage_bounded dryRun s env :
  wf s →
  let '(r, s', l) := SendMessage dryRun s env in
  wf s' ∧ attempt_count l ≤ 5 ∧ 0 ≤ total_sleep l ≤ Second ∧
  (∀ id, r = Ok id → ∃ a sess s0, (a, sess) ∈ env ∧ wf s0 ∧ (sendMessage dryRun s0 a).1 = Ok id).
Proof.
  intros Hwf. pose proof (SendMessage_loop_spec 5 dryRun 1 s env None ltac:(lia) ltac:(lia) Hwf) as H.
  unfold SendMessage. destruct (SendMessage_loop _ _ _ _ _ _) as [[r s'] l]. exact H.
Qed.

(** ** Concrete runs *)

Definition s0 : SMSCenter := MkSMSCenter (Some 0%nat) ∅ ∅ 10.
Definition ok_attempt : attempt :=
  MkAttempt (Ok 2%nat) [MkSubmission None []; MkSubmission None []]
    [MkResponse (Some 3%nat) "other" 0; MkResponse (Some 11%nat) "id7" 0] [0; 1]%nat.

Lemma s0_wf : wf s0.
Proof. intros m ch H. unfold s0 in H. simpl in H. by rewrite lookup_empty in H. Qed.

Lemma sendMessage_own_response_witness :
  ∃ n r part, build ok_attempt = Ok n ∧ r ∈ all_arrived (subs ok_attempt) ++ waiting ok_attempt ∧
    OriginalRequest r = Some part ∧ (fresh_id s0 ≤ part < fresh_id s0 + n)%nat ∧ MessageID r = "id7"%string ∧
    waitChs (sendMessage false s0 ok_attempt).2 = ∅.
Proof. apply (sendMessage_own_response s0 ok_attempt); [apply s0_wf|by vm_compute]. Defined.

Lemma SendMessage_bounded_witness :
  let '(r, s', l) := SendMessage false s0 (replicate 6 (MkAttempt (Err "x") [] [] [], Ok 1%nat)) in
  attempt_count l ≤ 5 ∧ total_sleep l = Second.
Proof.
  pose proof (SendMessage_bounded false s0 (replicate 6 (MkAttempt (Err "x") [] [] [], Ok 1%nat)) s0_wf) as H.
  destruct (SendMessage _ _ _) as [[r s'] l] eqn:E. split; [apply H|].
  vm_compute in E. injection E as <- <- <-. by vm_compute.
Defined.
End Smsc.
