(* ===== verification/SmscPdu.v ===== *)
(** * SMS centre: protocol data units (smsc/smsc.go)

    What the session answers to the units it receives, and the submission that
    is built for a message.  Units are the library's; only what the handlers
    look at is kept. *)

From S2P Require Import Prelude GoBytes Smsc.

Module SmscPdu.

(** The types the handlers tell apart; [Other] is any other unit. *)
Inductive PDU :=
| SubmitSM (p : nat) | SubmitSMResp (MessageID : string) (status : Z)
| EnquireLink (seq : Z) | EnquireLinkResp (seq : Z)
| DataSM (seq : Z) | DataSMResp (seq : Z)
| DeliverSM (seq : Z) | DeliverSMResp (seq : Z)
| Unbind (seq : Z) | UnbindResp (seq : Z)
| GenericNack (seq : Z) | Other (seq : Z).

(** [GetResponse] of the units the handlers answer. *)
Definition GetResponse (p : PDU) : option PDU :=
  match p with
  | EnquireLink n => Some (EnquireLinkResp n)
  | DataSM n => Some (DataSMResp n)
  | DeliverSM n => Some (DeliverSMResp n)
  | Unbind n => Some (UnbindResp n)
  | _ => None
  end.

(** The answer and whether the bind is closed. *)
Definition handleReceivedPduRequest (p : PDU) : option PDU * bool :=
  match p with
  | Unbind _ => (GetResponse p, true)
  | EnquireLink _ | DataSM _ | DeliverSM _ => (GetResponse p, false)
  | _ => (None, false)
  end.

(** Whether the bind is closed when a request expires. *)
Definition handleExpirePduRequest (p : PDU) : bool :=
  match p with EnquireLink _ => true | _ => false end.

(** A response with the request it answers; the request is a SubmitSM or not. *)
Definition handleExpectedPduResponse (s : Smsc.SMSCenter) (resp orig : PDU) : Smsc.SMSCenter :=
  match resp with
  | SubmitSMResp id status =>
      Smsc.handleSubmitSMResponse s
        (Smsc.MkResponse (match orig with SubmitSM p => Some p | _ => None end) id status)
  | _ => s
  end.

(** The handlers that only log, as the message they log. *)
Definition handlePDU (p : PDU) : string :=
  match p with
  | SubmitSMResp _ _ => "SubmitSMResp"
  | GenericNack _ => "GenericNack Received"
  | EnquireLinkResp _ => "EnquireLinkResp Received"
  | DataSM _ => "DataSM"
  | DeliverSM _ => "DeliverSM"
  | _ => "Pdu"
  end.

Definition handleOnClosePduRequest (p : PDU) : string :=
  match p with
  | Unbind _ => "OnClose Unbind"
  | SubmitSM _ => "OnClose SubmitSM"
  | EnquireLink _ => "OnClose EnquireLink"
  | DataSM _ => "OnClose DataSM"
  | _ => "handleOnClosePduRequest"
  end.

Definition handleUnexpectedPduResponse (p : PDU) : string := "handleUnexpectedPduResponse".

(** ** What a session does with the units it is given *)

Inductive incoming := Request (p : PDU) | Response (resp orig : PDU) | Expired (p : PDU) | Unexpected (p : PDU) | Closed (p : PDU).

(** The centre, the answers sent, and whether the bind was closed. *)
Definition handle (x : Smsc.SMSCenter * list PDU * bool) (i : incoming) : Smsc.SMSCenter * list PDU * bool :=
  let '(s, out, closed) := x in
  match i with
  | Request p => let '(a, c) := handleReceivedPduRequest p in (s, out ++ option_list a, closed || c)
  | Response resp orig => (handleExpectedPduResponse s resp orig, out, closed)
  | Expired p => (s, out, closed || handleExpirePduRequest p)
  | Unexpected _ | Closed _ => (s, out, closed)
  end.

Definition handle_units (x : Smsc.SMSCenter * list PDU * bool) (l : list incoming) := fold_left handle l x.

(** The request an answer answers. *)
Definition answers (i : incoming) : list PDU :=
  match i with Request (EnquireLink _ as p) | Request (DataSM _ as p) | Request (DeliverSM _ as p) | Request (Unbind _ as p) => option_list (GetResponse p) | _ => [] end.

Definition closes (i : incoming) : bool :=
  match i with Request (Unbind _) | Expired (EnquireLink _) => true | _ => false end.

(** The confirmations among the units. *)
Definition confirmation (i : incoming) : list Smsc.response :=
  match i with
  | Response (SubmitSMResp id status) orig => [Smsc.MkResponse (match orig with SubmitSM p => Some p | _ => None end) id status]
  | _ => []
  end.

(** Each link check, data unit, delivery and unbind is answered once, in
    order, and nothing else is; the bind is closed by an unbind or by a link
    check nobody answered only; and the centre sees the confirmations alone. *)
Theorem units_handled l s out closed :
  handle_units (s, out, closed) l =
    (Smsc.handle_all s (l ≫= confirmation), out ++ (l ≫= answers), closed || existsb closes l).
Proof.
  revert s out closed. induction l as [|i l IH]; intros s out closed; [by rewrite app_nil_r, orb_false_r|].
  unfold handle_units in *. cbn [fold_left]. unfold handle at 2.
  destruct i as [p|resp orig|p|p|p]; [destruct p|destruct resp|destruct p|..];
    cbn [handleReceivedPduRequest GetResponse handleExpectedPduResponse handleExpirePduRequest];
    rewrite IH; cbn [mbind list_bind confirmation answers closes existsb app option_list GetResponse];
    rewrite ?app_nil_r, ?orb_false_r, <- ?app_assoc, ?orb_true_r, ?orb_true_l, <- ?orb_assoc; done.
Qed.

(** ** The submission *)

Definition tonINTERNATIONAL : Z := 1.
Definition tonALPHANUMERIC : Z := 5.
Definition npiUNKNOWN : Z := 0.
Definition npiISDN : Z := 1.

Record Address := MkAddress { Ton : Z; Npi : Z; Addr : string }.
Inductive Encoding := UCS2 | GSM7BIT.

Record submission := MkSubmission {
  SourceAddr : Address; DestAddr : Address; Text : string; Enc : Encoding;
  ReplaceIfPresentFlag : Z; RegisteredDelivery : Z; PriorityFlag : Z; ProtocolID : Z; EsmClass : Z
}.

Section prepare.
(** [Address.SetAddress], [data.ValidateGSM7String], [SetLongMessageWithEnc]
    and [Split], which gives the parts. *)
Context {part : Type} (setAddress : string → option string) (ValidateGSM7String : string → list ascii)
  (setLong : string → Encoding → option string) (Split : submission → result (list part)).

Definition prepare (defaultSource from to text : string) : result submission :=
  let from := if (from =? "")%string then defaultSource else from in
  match setAddress from with
  | Some e => Err e
  | None =>
      match setAddress to with
      | Some e => Err e
      | None =>
          let enc := match ValidateGSM7String text with [] => GSM7BIT | _ => UCS2 end in
          match setLong text enc with
          | Some e => Err e
          | None =>
              Ok (MkSubmission (MkAddress tonALPHANUMERIC npiUNKNOWN from) (MkAddress tonINTERNATIONAL npiISDN to)
                    text enc 0 1 1 0 0)
          end
      end
  end.

Definition parts (defaultSource from to text : string) : result (list part) :=
  let? sm := prepare defaultSource from to text in Split sm.

(** The number of parts that [Smsc.sendSMS] takes, or the error. *)
Definition build (defaultSource from to text : string) : result nat :=
  let? ps := parts defaultSource from to text in Ok (length ps).

(** A message that is sent goes to the number it was given, from the
    sender it was given or else the configured one, asks for a confirmation,
    and uses the 7-bit alphabet exactly when that can hold all of it. *)
Theorem submission_spec defaultSource from to text sm :
  prepare defaultSource from to text = Ok sm →
  DestAddr sm = MkAddress tonINTERNATIONAL npiISDN to ∧
  SourceAddr sm = MkAddress tonALPHANUMERIC npiUNKNOWN (if (from =? "")%string then defaultSource else from) ∧
  Text sm = text ∧ RegisteredDelivery sm = 1 ∧ (Enc sm = GSM7BIT ↔ ValidateGSM7String text = []) ∧
  setLong text (Enc sm) = None.
Proof.
  unfold prepare. destruct (setAddress _); [done|]. destruct (setAddress to); [done|].
  destruct (setLong text _) eqn:E; [done|]. intros [= <-]. cbn. split_and!; try done.
  by destruct (ValidateGSM7String text).
Qed.
End prepare.

(** A text outside the 7-bit alphabet, sent from the configured name. *)
Lemma submission_spec_witness :
  let validate t := if (t =? "hi")%string then [] else ["?"%char] in
  ∃ sm, prepare (λ _, None) validate (λ _ _, None) "Shop" "" "79001234567" "ok?" = Ok sm ∧ Enc sm = UCS2 ∧
    Addr (SourceAddr sm) = "Shop"%string.
Proof.
  cbv zeta. eexists. split; [reflexivity|].
  destruct (submission_spec (λ _, None) (λ t, if (t =? "hi")%string then [] else ["?"%char]) (λ _ _, None)
    "Shop" "" "79001234567" "ok?" _ eq_refl) as (_ & H & _ & _ & He & _).
  split; [|by rewrite H]. destruct (Enc _) eqn:E; [reflexivity|]. destruct He as [He _]. discriminate (He eq_refl).
Defined.
End SmscPdu.
