(* ===== verification/SmscStore.v ===== *)
(** * A store of requests over a cache (smsc/CustomStore.go)

    The cache is an interface: it may forget entries at any time, but it does
    not invent them.  The encodings are the library's; what is used of them is
    that decoding undoes encoding. *)

From S2P Require Import Prelude GoBytes GoStrconv.

Module SmscStore.

(** ** The cache *)

Class BigCache (C : Type) := {
  bc_set : C → string → bytes → option string * C;
  bc_get : C → string → option bytes;
  bc_delete : C → string → option string * C;
  bc_reset : C → option string * C;
  bc_len : C → Z;
  bc_values : C → list (option bytes)          (* the iterator: a value or an error *)
}.

Class BigCacheLaws (C : Type) `{BigCache C} : Prop := {
  set_law c k v k' v' : bc_get (bc_set c k v).2 k' = Some v' →
    if decide (k = k') then (bc_set c k v).1 = None → v' = v else bc_get c k' = Some v';
  set_err c k v e v' : (bc_set c k v).1 = Some e → bc_get (bc_set c k v).2 k = Some v' → bc_get c k = Some v';
  delete_law c k k' v : bc_get (bc_delete c k).2 k' = Some v → bc_get c k' = Some v ∧ ((bc_delete c k).1 = None → k ≠ k');
  reset_law c k v : bc_get (bc_reset c).2 k = Some v → bc_get c k = Some v ∧ (bc_reset c).1 ≠ None
}.

(** ** Requests *)

Section store.
Context {P : Type} (GetSequenceNumber : P → Z).
Record Request := MkRequest { PDU : P; TimeSent : Time }.

(** [Marshal] and [pdu.Parse]; [Encode] and [Decode] are gob's. *)
Context (Marshal : P → bytes) (Parse : bytes → result P)
  (Encode : bytes * Time → result bytes) (Decode : bytes → result (bytes * Time)).

Definition serialize (request : Request) : result bytes :=
  match Encode (Marshal (PDU request), TimeSent request) with
  | Ok b => Ok b
  | Err _ => Err "serialization failed"
  end.

Definition deserialize (bRequest : bytes) : result Request :=
  match Decode bRequest with
  | Err _ => Err "deserialization failed"
  | Ok (p, t) => let? p := Parse p in Ok (MkRequest p t)
  end.

(** ** The store *)

Context `{BigCache C}.
Record CustomStore := MkCustomStore { store : option C }.

(** [cancelled] is the error of a context that is done. *)
Definition not_initialized : string := "custom store is not initialized".
Definition key (n : Z) : string := strconv.Itoa n.

(** The lifetime and the largest entry asked of [bigcache.New], whose error
    is only logged: the store is then the nil one. *)
Definition NewCustomStore (bigcache_New : Duration → Z → option C) : CustomStore :=
  MkCustomStore (bigcache_New (30 * Second) 4096).

Definition Set_ (s : CustomStore) (cancelled : option string) (request : Request) : option string * CustomStore :=
  match cancelled with
  | Some e => (Some e, s)
  | None =>
      match store s with
      | None => (Some not_initialized, s)
      | Some c =>
          match serialize request with
          | Err e => (Some e, s)
          | Ok b => let '(err, c) := bc_set c (key (GetSequenceNumber (PDU request))) b in (err, MkCustomStore (Some c))
          end
      end
  end.

Definition Get (s : CustomStore) (cancelled : option string) (sequenceNumber : Z) : option Request :=
  match cancelled, store s with
  | None, Some c =>
      match bc_get c (key sequenceNumber) with
      | None => None
      | Some b => match deserialize b with Ok r => Some r | Err _ => None end
      end
  | _, _ => None
  end.

(** The iteration ends at the first entry it cannot read; what cannot be
    decoded is listed as the empty request. *)
Fixpoint list_loop (empty : Request) (vs : list (option bytes)) : list Request :=
  match vs with
  | Some b :: vs => (match deserialize b with Ok r => r | Err _ => empty end) :: list_loop empty vs
  | _ => []
  end.
Definition List_ (empty : Request) (s : CustomStore) (cancelled : option string) : list Request :=
  match cancelled, store s with None, Some c => list_loop empty (bc_values c) | _, _ => [] end.

Definition Delete (s : CustomStore) (cancelled : option string) (sequenceNumber : Z) : option string * CustomStore :=
  match cancelled with
  | Some e => (Some e, s)
  | None =>
      match store s with
      | None => (Some not_initialized, s)
      | Some c => let '(err, c) := bc_delete c (key sequenceNumber) in (err, MkCustomStore (Some c))
      end
  end.

Definition Clear (s : CustomStore) (cancelled : option string) : option string * CustomStore :=
  match cancelled with
  | Some e => (Some e, s)
  | None =>
      match store s with
      | None => (Some not_initialized, s)
      | Some c => let '(err, c) := bc_reset c in (err, MkCustomStore (Some c))
      end
  end.

Definition Length (s : CustomStore) (cancelled : option string) : Z * option string :=
  match cancelled with
  | Some e => (0, Some e)
  | None => match store s with None => (0, Some not_initialized) | Some c => (bc_len c, None) end
  end.

Definition Close (s : CustomStore) (closeErr : option string) : option string :=
  match store s with None => None | Some _ => closeErr end.

(** ** Against a map *)

Inductive op := OSet (cancelled : option string) (r : Request) | ODelete (cancelled : option string) (n : Z) | OClear (cancelled : option string).

Definition run_op (x : CustomStore * list (option string)) (o : op) : CustomStore * list (option string) :=
  let '(err, s) := match o with
                   | OSet c r => Set_ x.1 c r
                   | ODelete c n => Delete x.1 c n
                   | OClear c => Clear x.1 c
                   end in (s, x.2 ++ [err]).

(** The same calls on a map of what should be there: those that succeeded. *)
Definition spec_op (m : gmap Z Request) (oe : op * option string) : gmap Z Request :=
  match oe with
  | (_, Some _) => m
  | (OSet _ r, None) => <[GetSequenceNumber (PDU r) := r]> m
  | (ODelete _ n, None) => delete n m
  | (OClear _, None) => ∅
  end.

Definition run (s : CustomStore) (l : list op) : CustomStore * list (option string) := fold_left run_op l (s, []).
Definition spec (l : list (op * option string)) : gmap Z Request := fold_left spec_op l ∅.

Context `{!BigCacheLaws C}.
(** Decoding undoes encoding, and sequence numbers fit their type. *)
Context (Parse_Marshal : ∀ p, Parse (Marshal p) = Ok p) (Decode_Encode : ∀ x b, Encode x = Ok b → Decode b = Ok x)
  (seq_range : ∀ p, in_int64 (GetSequenceNumber p)).

Lemma deserialize_serialize r b : serialize r = Ok b → deserialize b = Ok r.
Proof.
  unfold serialize, deserialize. destruct (Encode _) as [b'|e] eqn:E; [|done]. intros [= <-].
  rewrite (Decode_Encode _ _ E), Parse_Marshal. by destruct r.
Qed.

Lemma key_inj n m : in_int64 n → in_int64 m → key n = key m → n = m.
Proof.
  unfold key. intros Hn Hm Heq. pose proof (strconv.Atoi_Itoa n Hn) as H1. pose proof (strconv.Atoi_Itoa m Hm) as H2.
  rewrite Heq in H1. congruence.
Qed.

(** What the cache holds is in the map. *)
Definition within (s : CustomStore) (m : gmap Z Request) : Prop :=
  ∀ n r, in_int64 n → Get s None n = Some r → m !! n = Some r.

Lemma Get_store c n :
  Get (MkCustomStore (Some c)) None n =
    match bc_get c (key n) with None => None | Some b => match deserialize b with Ok r => Some r | Err _ => None end end.
Proof. done. Qed.

Lemma run_op_within s m o :
  within s m → let '(s', errs) := run_op (s, []) o in ∃ err, errs = [err] ∧ within s' (spec_op m (o, err)).
Proof.
  intros Hw. unfold run_op.
  assert (Hkeep : ∀ e, ∃ err, [Some e] = [err] ∧ within s (spec_op m (o, err))).
  { intros e. exists (Some e). split; [done|]. by destruct o. }
  destruct o as [[e|] r|[e|] n|[e|]]; cbn [fst snd]; try apply Hkeep.
  - destruct s as [[c|]]; [|apply Hkeep]. unfold Set_; cbn [store]. destruct (serialize r) as [b|e] eqn:Es; [|apply Hkeep].
    set (k := key (GetSequenceNumber (PDU r))). pose proof (set_law c k b) as Hl. pose proof (set_err c k b) as He.
    destruct (bc_set c k b) as [err c']. cbn [fst snd app] in *.
    exists err. split; [done|]. intros n r' Hn Hg. rewrite Get_store in Hg.
    destruct (bc_get c' (key n)) as [b'|] eqn:Eg; [|done]. specialize (Hl _ _ Eg).
    destruct (decide (k = key n)) as [Hk|Hk].
    + apply key_inj in Hk; [|apply seq_range|done]. destruct err as [e|]; cbn [spec_op].
      * apply Hw; [done|]. rewrite Get_store. rewrite <- Hk in Eg |- *. fold k in Eg |- *. by rewrite (He e b' eq_refl Eg).
      * rewrite Hk, lookup_insert_eq. rewrite (Hl eq_refl), (deserialize_serialize r b Es) in Hg. done.
    + assert (Hne : GetSequenceNumber (PDU r) ≠ n) by (intros <-; by destruct Hk).
      assert (Hold : m !! n = Some r') by (apply Hw; [done|]; by rewrite Get_store, Hl).
      destruct err; cbn [spec_op]; [done|]. by rewrite lookup_insert_ne.
  - destruct s as [[c|]]; [|apply Hkeep]. unfold Delete. cbn [store]. pose proof (delete_law c (key n)) as Hl.
    destruct (bc_delete c (key n)) as [err c']. cbn [fst snd app] in *.
    exists err. split; [done|]. intros n' r' Hn Hg. rewrite Get_store in Hg.
    destruct (bc_get c' (key n')) as [b'|] eqn:Eg; [|done]. destruct (Hl _ _ Eg) as [Hb Hne].
    assert (Hold : m !! n' = Some r') by (apply Hw; [done|]; by rewrite Get_store, Hb).
    destruct err; cbn [spec_op]; [done|]. rewrite lookup_delete_ne; [done|]. intros <-. by apply Hne.
  - destruct s as [[c|]]; [|apply Hkeep]. unfold Clear. cbn [store]. pose proof (reset_law c) as Hl.
    destruct (bc_reset c) as [err c']. cbn [fst snd app] in *.
    exists err. split; [done|]. intros n' r' Hn Hg. rewrite Get_store in Hg.
    destruct (bc_get c' (key n')) as [b'|] eqn:Eg; [|done]. destruct (Hl _ _ Eg) as [Hb Hne].
    destruct err; [|done]. cbn [spec_op]. apply Hw; [done|]. by rewrite Get_store, Hb.
Qed.

Lemma run_op_errs s errs o : run_op (s, errs) o = ((run_op (s, []) o).1, errs ++ (run_op (s, []) o).2).
Proof. unfold run_op. cbn [fst snd]. by destruct (match o with OSet c r => _ | ODelete c n => _ | OClear c => _ end). Qed.

End store.

(** ** A cache that forgets

    A map of a few entries: setting into a full one drops another entry. *)

Record small_cache := MkSmall { entries : list (string * bytes) }.
Definition lookup_entry (l : list (string * bytes)) (k : string) : option bytes :=
  match list_find (λ kv, kv.1 = k) l with Some (_, kv) => Some kv.2 | None => None end.
Definition remove_entry (l : list (string * bytes)) (k : string) : list (string * bytes) := filter (λ kv, kv.1 ≠ k) l.

Lemma lookup_remove l k k' v : lookup_entry (remove_entry l k) k' = Some v → lookup_entry l k' = Some v ∧ k ≠ k'.
Proof.
  unfold lookup_entry, remove_entry. induction l as [|[k2 v2] l IH]; [done|].
  rewrite filter_cons. cbn [fst list_find]. destruct (decide (k2 ≠ k)) as [Hne|Heq].
  - cbn [list_find fst]. destruct (decide (k2 = k')) as [->|]; [by intros [= <-]|]. intros H.
    destruct (list_find _ (filter _ _)) as [[i kv]|]; [|done]. cbn in H. destruct (IH H) as [H1 H2]. split; [|done].
    destruct (list_find _ l) as [[j kv']|]; done.
  - intros H. destruct (IH H) as [H1 H2]. split; [|done]. apply dec_stable in Heq. subst k2.
    destruct (decide (k = k')); [done|]. destruct (list_find _ l) as [[j kv']|]; done.
Qed.

Lemma lookup_take l k n v : lookup_entry (take n l) k = Some v → lookup_entry l k = Some v.
Proof.
  unfold lookup_entry. revert n. induction l as [|[k2 v2] l IH]; intros [|n]; try done. cbn [take list_find fst].
  destruct (decide (k2 = k)); [done|]. intros Hl. specialize (IH n). cbn in *.
  destruct (list_find _ (take n l)) as [[i kv]|]; [|done]. cbn in Hl. specialize (IH Hl).
  destruct (list_find _ l) as [[j kv']|]; done.
Qed.

#[export] Instance small_cache_ops : BigCache small_cache := {
  bc_set c k v := (None, MkSmall ((k, v) :: take 2 (remove_entry (entries c) k)));
  bc_get c k := lookup_entry (entries c) k;
  bc_delete c k := (match lookup_entry (entries c) k with Some _ => None | None => Some "Entry not found"%string end,
                    MkSmall (remove_entry (entries c) k));
  bc_reset c := (None, MkSmall []);
  bc_len c := Z.of_nat (length (entries c));
  bc_values c := (λ kv, Some kv.2) <$> entries c
}.

#[export] Instance small_cache_laws : BigCacheLaws small_cache.
Proof.
  split; cbn [bc_set bc_get bc_delete bc_reset small_cache_ops fst snd entries].
  - intros c k v k' v'. unfold lookup_entry. cbn [list_find fst]. destruct (decide (k = k')) as [|Hne]; [by intros [= <-]|].
    intros Hl. assert (H' : lookup_entry (take 2 (remove_entry (entries c) k)) k' = Some v').
    { unfold lookup_entry. by destruct (list_find _ _) as [[i kv]|]. }
    apply lookup_take, lookup_remove in H' as [H' _]. exact H'.
  - done.
  - intros c k k' v Hl. apply lookup_remove in Hl as [? ?]. done.
  - done.
Qed.

(** Units are numbers, of which the low 32 bits are the sequence number. *)
Definition gob (x : bytes * Time) : result bytes := Ok (x.2 :: x.1).
Definition ungob (b : bytes) : result (bytes * Time) := match b with t :: p => Ok (p, t) | [] => Err "EOF" end.
Definition parse1 (b : bytes) : result Z := match b with [n] => Ok n | _ => Err "EOF" end.
Definition sample (n : Z) : Request (P := Z) := MkRequest n (n * Second).

Definition sample_run : CustomStore (C := small_cache) * list (option string) :=
  run (wrapS 32) (λ n, [n]) gob (MkCustomStore (Some (MkSmall [])))
    [OSet None (sample 1); OSet None (sample 2); ODelete None 7; OSet None (sample 3); OSet None (sample 4); OSet (Some "cancelled"%string) (sample 2)].

End SmscStore.
