(* ===== verification/SmscSession.v ===== *)
(** * SMS centre: the sessions (smsc/smsc.go)

    [Start], [Stop] and the restarts of the senders take turns under
    restartMu, so a run is a sequence of these sections; the sessions that
    are open at the SMSC are part of the state.  The sender of [SendMessage]
    is taken apart at its restarts: between two of them other sections may
    come. *)

From S2P Require Import Prelude GoBytes Smsc.

Module SmscSession.
Import Smsc.

Record world := MkWorld { center : SMSCenter; open : gset nat; next : nat }.

Definition with_session (w : world) (err : option string) : result nat :=
  match err with None => Ok (next w) | Some e => Err e end.

(** [startLocked]: a session that is established is open. *)
Definition start (dryRun : bool) (w : world) (err : option string) : option string * world :=
  let '(e, s) := startLocked dryRun (center w) (with_session w err) in
  (e, if dryRun then MkWorld s (open w) (next w)
      else match err with
           | None => MkWorld s ({[next w]} ∪ open w) (S (next w))
           | Some _ => MkWorld s (open w) (next w)
           end).

(** [stopLocked]: the session is closed, the field keeps it. *)
Definition stop (dryRun : bool) (w : world) (closeErr : option string) : option string * world :=
  (stopLocked dryRun (center w) closeErr,
   match dryRun, trans (center w) with
   | false, Some t => MkWorld (center w) (open w ∖ {[t]}) (next w)
   | _, _ => w
   end).

Definition restart (dryRun : bool) (w : world) (closeErr err : option string) : option string * world :=
  start dryRun (stop dryRun w closeErr).2 err.

(** One attempt of a sender on the current session; [None] when it is over,
    and otherwise the error that makes the sender restart or wait. *)
Definition send (dryRun : bool) (w : world) (a : attempt) : result string * world :=
  let '(r, s) := sendMessage dryRun (center w) a in (r, MkWorld s (open w) (next w)).

(** ** Runs *)

Inductive label :=
| LStart (err : option string)
| LStop (closeErr : option string)
| LSend (a : attempt)
| LRestart (closeErr err : option string).

(** [failing] counts the senders whose last attempt failed on a closing
    connection: each is about to restart. *)
Inductive step (dryRun : bool) : world * nat → label → world * nat → Prop :=
| step_start w n err : open w = ∅ → step dryRun (w, n) (LStart err) ((start dryRun w err).2, n)
| step_stop w n closeErr : step dryRun (w, n) (LStop closeErr) ((stop dryRun w closeErr).2, n)
| step_send w n a r w' :
    send dryRun w a = (r, w') →
    step dryRun (w, n) (LSend a)
      (w', match r with
           | Err e => if strings.HasPrefix e closingPrefix then S n else n
           | Ok _ => n
           end)
| step_restart w n closeErr err :
    step dryRun (w, S n) (LRestart closeErr err) ((restart dryRun w closeErr err).2, n).

Definition sstep (dryRun : bool) (w w' : world * nat) : Prop := ∃ l, step dryRun w l w'.

(** What is open is the current session, and sessions are numbered. *)
Definition owned (w : world) : Prop :=
  open w ⊆ (match trans (center w) with Some t => {[t]} | None => ∅ end) ∧
  (∀ t, trans (center w) = Some t → (t < next w)%nat).

Lemma handle_all_trans s rs : trans (handle_all s rs) = trans s.
Proof. apply fresh_handle_all. Qed.

Lemma sendSMS_loop_trans messages subs s partChs :
  trans (sendSMS_loop s messages subs partChs).2 = trans s.
Proof.
  revert subs s partChs. induction messages as [|msg rest IH]; intros subs s partChs; [done|].
  cbn [sendSMS_loop]. destruct subs as [|sub subs]; [by rewrite IH|].
  destruct (submitErr sub); [|rewrite IH]; by rewrite ?handle_all_trans; cbn; rewrite ?handle_all_trans.
Qed.

(** Sending leaves the sessions alone. *)
Lemma sendMessage_trans dryRun s a : trans (sendMessage dryRun s a).2 = trans s.
Proof.
  unfold sendMessage. destruct dryRun; [done|].
  assert (Hl : trans (sendSMS s (build a) (subs a)).2 = trans s).
  { unfold sendSMS. destruct (trans s) eqn:E; [|done]. destruct (build a); [|done]. by rewrite sendSMS_loop_trans. }
  destruct (sendSMS s (build a) (subs a)) as [[chs|e] s1]; [|done]. cbn in Hl.
  destruct (first_result _ _); cbn; by rewrite handle_all_trans.
Qed.

Lemma smsc_start_owned dryRun w err :
  owned w → open w = ∅ → owned (start dryRun w err).2 ∧
  ((start dryRun w err).1 ≠ None → open (start dryRun w err).2 = ∅).
Proof.
  intros [Ho Hn] Hi. unfold start, with_session, startLocked.
  destruct dryRun, err as [e|]; cbn; unfold owned; cbn; rewrite ?Hi; (split; [|done]); (split; [set_solver|]);
    [done|done|done|intros t [= <-]; lia].
Qed.

Lemma smsc_stop_owned dryRun w closeErr :
  owned w → owned (stop dryRun w closeErr).2 ∧ (dryRun = false → open (stop dryRun w closeErr).2 = ∅).
Proof.
  intros [Ho Hn]. unfold stop. destruct dryRun; [by split|]. unfold owned.
  destruct (trans (center w)) as [t|] eqn:E; cbn; rewrite ?E; (split; [split; [set_solver|done]|]); set_solver.
Qed.

(** In dry-run mode no session is ever opened. *)
Definition dry (dryRun : bool) (w : world) : Prop := dryRun = true → open w = ∅.

Lemma step_owned dryRun w n l w' n' :
  step dryRun (w, n) l (w', n') → owned w ∧ dry dryRun w → owned w' ∧ dry dryRun w'.
Proof.
  intros Hs [Ho Hd]. inversion Hs; subst.
  - destruct (smsc_start_owned dryRun w err Ho) as [H _]; [done|]. split; [done|].
    intros ->. by unfold start, with_session, startLocked.
  - destruct (smsc_stop_owned dryRun w closeErr Ho) as [H _]. split; [done|].
    intros ->. unfold stop. by apply Hd.
  - unfold send in *. pose proof (sendMessage_trans dryRun (center w) a) as Ht.
    destruct (sendMessage dryRun (center w) a) as [r0 s]. simplify_eq/=. split; [|exact Hd].
    destruct Ho as [H1 H2]. split; cbn; by rewrite Ht.
  - unfold restart. destruct (smsc_stop_owned dryRun w closeErr Ho) as [Ho' Hi].
    assert (Hi' : open (stop dryRun w closeErr).2 = ∅).
    { destruct dryRun; [by apply Hd|by apply Hi]. }
    destruct (smsc_start_owned dryRun _ err Ho' Hi') as [H _]. split; [done|].
    intros ->. unfold start, with_session, startLocked. by cbn.
Qed.

(** ** Properties *)

(** Whatever the senders, the restarts and the stops do, and in whatever
    order, at most one session is open, the one in the field: every restart
    closes the session it replaces, and a stop leaves none. *)
Theorem smsc_single_session dryRun w n w' n' :
  owned w → dry dryRun w → star (sstep dryRun) (w, n) (w', n') →
  (∀ t, t ∈ open w' → trans (center w') = Some t) ∧
  ∀ closeErr, open (stop dryRun w' closeErr).2 = ∅.
Proof.
  intros Ho Hd Hs.
  assert (H : owned w' ∧ dry dryRun w').
  { change (owned (w', n').1 ∧ dry dryRun (w', n').1).
    apply (star_invariant (sstep dryRun) (λ x, owned x.1 ∧ dry dryRun x.1)) with (s1 := (w, n)); [|done|done].
    intros [w1 n1] [w2 n2] HI [l Hl]. by apply step_owned in Hl. }
  destruct H as [[H1 H2] H3]. split.
  - intros t Ht. apply H1 in Ht. destruct (trans (center w')); set_solver.
  - intros closeErr. destruct dryRun; [by apply H3|by apply smsc_stop_owned].
Qed.

(** [Stop] does not last: a sender whose attempt on the closed session fails
    with the error of a closing connection restarts the service, and the new
    session stays open. *)
Theorem smsc_stop_undone w n closeErr a e s :
  let w1 := (stop false w closeErr).2 in
  sendMessage false (center w1) a = (Err e, s) → strings.HasPrefix e closingPrefix = true →
  owned w →
  open w1 = ∅ ∧
  ∃ w2, star (sstep false) (w1, n) (w2, n) ∧ open w2 = {[next w]}.
Proof.
  intros w1 Hs He Ho. destruct (smsc_stop_owned false w closeErr Ho) as [Ho1 Hi]. fold w1 in Ho1, Hi.
  specialize (Hi eq_refl). split; [done|].
  assert (Hnext : next w1 = next w) by (unfold w1, stop; by destruct (trans (center w))).
  set (w' := MkWorld s (open w1) (next w1)).
  exists (restart false w' None None).2. split.
  - apply star_step with (w', S n).
    + exists (LSend a). pose proof (step_send false w1 n a (Err e) w') as H. cbv beta iota in H. rewrite He in H. apply H.
      unfold send. by rewrite Hs.
    + apply star_one. exists (LRestart None None). constructor.
  - unfold restart, stop, start, with_session, startLocked.
    clearbody w1. subst w'. cbn. rewrite <- Hnext. destruct (trans s) as [t|]; cbn; rewrite Hi; set_solver.
Qed.

(** ** Concrete runs *)

Definition idle0 : world := MkWorld (MkSMSCenter None ∅ ∅ 10) ∅ 0.
Definition up0 : world := (start false idle0 None).2.

(** The connection closes under a message of one part. *)
Definition closing : attempt := MkAttempt (Ok 1%nat) [MkSubmission (Some closingPrefix) []] [] [].

Lemma smsc_single_session_witness :
  let w := (restart false up0 None None).2 in
  open w = {[1%nat]} ∧ (∀ t, t ∈ open w → trans (center w) = Some t).
Proof.
  split; [by apply set_eq; vm_compute|].
  set (w1 := (send false up0 closing).2).
  assert (Hs : star (sstep false) (idle0, 0%nat) ((restart false w1 None None).2, 0%nat)).
  { eapply star_step; [exists (LStart None); by constructor|].
    eapply star_step; [exists (LSend closing); apply (step_send _ _ _ _ (Err closingPrefix) w1); by vm_compute|].
    apply star_one. exists (LRestart None None). constructor. }
  apply (smsc_single_session false idle0 0 _ 0) in Hs as [H _]; [|by split|done].
  exact H.
Defined.

Lemma smsc_stop_undone_witness :
  let w1 := (stop false up0 None).2 in
  open w1 = ∅ ∧ ∃ w2, star (sstep false) (w1, 0%nat) (w2, 0%nat) ∧ open w2 = {[1%nat]}.
Proof.
  apply (smsc_stop_undone up0 0 None closing closingPrefix (sendMessage false (center (stop false up0 None).2) closing).2).
  - by vm_compute.
  - by vm_compute.
  - apply smsc_start_owned; [by split|done].
Defined.

End SmscSession.
