(* ===== verification/TcWire.v ===== *)
(** * TrueConf client: what goes over the wire (tc/dts.go,
    tc/tcClientSender/tcClientHTTP.go and tcClientWS.go)

    The token request and its answer, and what the reader does with a message
    of the server, are texts of [encoding/json].  The messages the client
    sends are encoded by github.com/goccy/go-json, which is not in this
    repository: its [Marshal] is a parameter. *)

From S2P Require Import Prelude GoBytes GoUtf8 GoJson UtilsIO.

Module TcWire.
Import json.

(** ** tc/dts.go *)

Record AuthTokenRequest := MkTokenRequest { GrantType : string; Username : string; Password : string; ClientId : string }.
Record AuthTokenResponse := MkToken { AccessToken : string; TokenType : string; ExpiresAt : Z }.

Definition MT_RESERVED : Z := 0.
Definition MT_REQUEST : Z := 1.
Definition MT_RESPONSE : Z := 2.

(** [json.RawMessage] is a slice of bytes, [None] for nil. *)
Record WSHeader := MkHeader { h_Type : Z; h_Id : Z; Method : string; Payload : option bytes }.
Record WSAuthPayload := MkAuthPayload { Token : string; a_TokenType : string; ReceiveUnread : bool }.
Record WSGetChatsRequestPayload := MkGetChats { gc_Count : Z; Page : Z }.
Record WSMessageAuthorPayload := MkAuthor { au_Id : string; au_Type : Z }.
Record WSMessageBoxPayload := MkBox { b_Id : Z; Position : string }.
Record WSMessageContentPayload := MkContent { Text : string; ParseMode : string }.
Record WSMessagePayload := MkMessage {
  ChatId : string; MessageId : string; Timestamp : Z; Author : WSMessageAuthorPayload; IsEdited : bool;
  Box : WSMessageBoxPayload; m_Type : Z; Content : WSMessageContentPayload
}.

(** ** The token request *)

(** The user and the password of the configuration. *)
Record credentials := MkCredentials { cfgUser : string; cfgPassword : string }.

Definition name (s : string) : bytes := bytes_of_string s.
Definition text_of (s : string) : value := Str (bytes_of_string s).

Definition atReq (config : credentials) : AuthTokenRequest :=
  MkTokenRequest "password" (cfgUser config) (cfgPassword config) "chat_bot".

Definition request_value (r : AuthTokenRequest) : value :=
  Object [(name "grant_type", text_of (GrantType r)); (name "username", text_of (Username r));
          (name "password", text_of (Password r)); (name "client_id", text_of (ClientId r))].

Definition requestBody (config : credentials) : bytes := Marshal (request_value (atReq config)).

(** ** The token answer *)

Definition zeroToken : AuthTokenResponse := MkToken "" "" 0.

Definition response_fields : list (field AuthTokenResponse) :=
  [MkField (name "access_token") (put_string (λ s a, MkToken (string_of_bytes s) (TokenType a) (ExpiresAt a)));
   MkField (name "token_type") (put_string (λ s a, MkToken (AccessToken a) (string_of_bytes s) (ExpiresAt a)));
   MkField (name "expires_at") (put_int (λ n a, MkToken (AccessToken a) (TokenType a) n))].

Definition maxBody : Z := 1048576.

(** [io.ReadAll(io.LimitReader(body, 1<<20))]: what is read of a body. *)
Definition limited (body : bytes) : bytes :=
  if Z.of_nat (length body) <=? maxBody then body else take (Z.to_nat maxBody) body.

(** From the answer on: the error of the read, the status, the body. *)
Definition read_token (status : Z) (body : bytes) (readErr : option string) : result AuthTokenResponse :=
  match readErr with
  | Some e => Err e
  | None =>
      if (status <? 200) || (299 <? status) then Err "token request failed with status"
      else
        match Unmarshal response_fields (limited body) zeroToken with
        | (a, None) => Ok a
        | (_, Some _) => Err "json"
        end
  end.

(** ** The messages of the reader *)

(** [ResultData] with its [payloadData]. *)
Record ResultData := MkResult { r_Id : Z; r_Type : Z; ErrorCode : Z }.
Definition zeroResult : ResultData := MkResult 0 0 0.

Definition payload_fields : list (field ResultData) :=
  [MkField (name "errorCode") (put_int (λ n r, MkResult (r_Id r) (r_Type r) n))].

Definition result_fields : list (field ResultData) :=
  [MkField (name "id") (put_int (λ n r, MkResult n (r_Type r) (ErrorCode r)));
   MkField (name "type") (put_int (λ n r, MkResult (r_Id r) n (ErrorCode r)));
   MkField (name "payload") (put_struct payload_fields)].

(** Whether a message makes the reader ask for a reconnection. *)
Definition error_answer (p : bytes) : bool :=
  match Unmarshal result_fields p zeroResult with
  | (res, None) => 300 <=? ErrorCode res
  | (_, Some _) => false
  end.

(** ** The messages sent *)

(** [Marshal] of goccy/go-json on the three structures. *)
Record encoders := MkEncoders {
  MarshalHeader : WSHeader → result bytes;
  MarshalAuth : WSAuthPayload → result bytes;
  MarshalMessage : WSMessagePayload → result bytes
}.

Definition auth_message (enc : encoders) (id : Z) (token : string) : option bytes :=
  Streams.ToJsonB (MarshalHeader enc)
    (MkHeader MT_REQUEST id "auth" (Streams.ToJsonB (MarshalAuth enc) (MkAuthPayload token "JWT" false))).

Definition SendMsg_mode (mode : string) : string :=
  if negb (mode =? "html")%string && negb (mode =? "text")%string then "markdown"%string else mode.

Definition send_message (enc : encoders) (id : Z) (msg chatId mode : string) : option bytes :=
  Streams.ToJsonB (MarshalHeader enc)
    (MkHeader MT_REQUEST id "sendMessage"
       (Streams.ToJsonB (MarshalMessage enc)
          (MkMessage chatId "" 0 (MkAuthor "" 0) false (MkBox 0 "") 0 (MkContent msg (SendMsg_mode mode))))).

(** ** The token request *)

Lemma request_wf r : wf (request_value r).
Proof. cbn [wf request_value List.fold_right fst snd text_of]. split_and!; try done; apply bytes_of_string_wf. Qed.

(** The request names the user and the password of the configuration and
    nothing else: whatever characters they hold (quotes, backslashes, control
    characters), a reader of JSON finds exactly the four members, with both
    texts as they are, except that bytes that are not UTF-8 arrive as the
    replacement character. *)
Theorem token_request_spec config :
  Parse (requestBody config) =
    Some (Object [(name "grant_type", text_of "password"); (name "username", Str (valid_text (name (cfgUser config))));
                  (name "password", Str (valid_text (name (cfgPassword config)))); (name "client_id", text_of "chat_bot")]) ∧
  (utf8.Valid (name (cfgUser config)) → valid_text (name (cfgUser config)) = name (cfgUser config)) ∧
  (utf8.Valid (name (cfgPassword config)) → valid_text (name (cfgPassword config)) = name (cfgPassword config)).
Proof.
  split; [|split; apply valid_text_id]. unfold requestBody.
  rewrite Parse_Marshal; [|apply request_wf|by cbn]. unfold request_value, text_of, atReq. cbn [clean List.map fst snd].
  unfold name. change (valid_text (bytes_of_string "grant_type")) with (bytes_of_string "grant_type").
  change (valid_text (bytes_of_string "username")) with (bytes_of_string "username").
  change (valid_text (bytes_of_string "client_id")) with (bytes_of_string "client_id").
  change (valid_text (bytes_of_string "chat_bot")) with (bytes_of_string "chat_bot").
  change (valid_text (bytes_of_string "password")) with (bytes_of_string "password"). done.
Qed.

(** ** The token answer *)

(** A member the structure does not look at, or one of the three it wants. *)
Definition token_member (tok tt : string) (n : Z) (kv : bytes * value) : Prop :=
  find_field response_fields kv.1 = None ∨ kv = (name "access_token", text_of tok) ∨
  kv = (name "token_type", text_of tt) ∨ kv = (name "expires_at", Int n).

(** What a member does to the structure that is being filled. *)
Lemma put_token_member tok tt n kv a :
  in_int64 n → token_member tok tt n kv →
  put_member response_fields (a, false) kv =
    (MkToken (if decide (kv.1 = name "access_token") then tok else AccessToken a)
             (if decide (kv.1 = name "token_type") then tt else TokenType a)
             (if decide (kv.1 = name "expires_at") then n else ExpiresAt a), false).
Proof.
  intros Hn Hkv. unfold put_member. destruct Hkv as [Hnone|[ -> |[ -> | -> ]]].
  - rewrite Hnone.
    assert (Hne : ∀ s, find_field response_fields (name s) ≠ None → kv.1 ≠ name s) by (intros s Hs E; by rewrite <- E in Hs).
    do 3 (rewrite decide_False by (apply Hne; by vm_compute)). by destruct a.
  - change (find_field response_fields _) with (Some (MkField (name "access_token")
      (put_string (λ s a, MkToken (string_of_bytes s) (TokenType a) (ExpiresAt a))))).
    cbn [put put_string text_of fst snd orb]. by rewrite string_of_bytes_of_string.
  - change (find_field response_fields _) with (Some (MkField (name "token_type")
      (put_string (λ s a, MkToken (AccessToken a) (string_of_bytes s) (ExpiresAt a))))).
    cbn [put put_string text_of fst snd orb]. by rewrite string_of_bytes_of_string.
  - change (find_field response_fields _) with (Some (MkField (name "expires_at")
      (put_int (λ n a, MkToken (AccessToken a) (TokenType a) n)))).
    cbn [put fst snd]. by rewrite put_Int.
Qed.

Lemma put_token_members tok tt n ms a :
  in_int64 n → Forall (token_member tok tt n) ms →
  fold_left (put_member response_fields) ms (a, false) =
    (MkToken (if decide (name "access_token" ∈ ms.*1) then tok else AccessToken a)
             (if decide (name "token_type" ∈ ms.*1) then tt else TokenType a)
             (if decide (name "expires_at" ∈ ms.*1) then n else ExpiresAt a), false).
Proof.
  intros Hn Hms. revert a. induction Hms as [|kv ms Hkv Hms IH]; intros a; [by destruct a|].
  cbn [fold_left]. rewrite (put_token_member tok tt n) by done. rewrite IH. cbn [AccessToken TokenType ExpiresAt].
  assert (Hd : ∀ {A} (s : string) (x y : A),
            (if decide (name s ∈ ms.*1) then x else if decide (kv.1 = name s) then x else y) =
            (if decide (name s ∈ (kv :: ms).*1) then x else y)).
  { intros A s x y. cbn [fmap list_fmap]. destruct (decide (kv.1 = name s)) as [E|E].
    - rewrite (decide_True (P := name s ∈ kv.1 :: ms.*1)) by (rewrite E; constructor). by destruct (decide (name s ∈ ms.*1)).
    - destruct (decide (name s ∈ ms.*1)) as [H|H].
      + by rewrite (decide_True (P := name s ∈ kv.1 :: ms.*1)) by (by right).
      + rewrite (decide_False (P := name s ∈ kv.1 :: ms.*1)); [done|]. rewrite elem_of_cons. naive_solver. }
  by rewrite !Hd.
Qed.

Lemma limited_small body : Z.of_nat (length body) ≤ maxBody → limited body = body.
Proof. intros H. unfold limited. by rewrite (proj2 (Z.leb_le _ _) H). Qed.

(** [C36] The token is the one the server sent: of an answer of at most a
    megabyte, with a status of success, that is an object, however it is
    written, the token, its type and its expiry are those of its members,
    in any order and among any others. *)
Theorem read_token_spec status body ms tok tt n :
  200 ≤ status ≤ 299 → Z.of_nat (length body) ≤ maxBody → Parse body = Some (Object ms) →
  in_int64 n → Forall (token_member tok tt n) ms →
  name "access_token" ∈ ms.*1 → name "token_type" ∈ ms.*1 → name "expires_at" ∈ ms.*1 →
  read_token status body None = Ok (MkToken tok tt n).
Proof.
  intros Hs Hb Hp Hn Hms H1 H2 H3. unfold read_token. ztest. cbn [orb]. rewrite limited_small by done.
  unfold Unmarshal. rewrite Hp. cbn [put_struct]. rewrite (put_token_members tok tt n) by done.
  by rewrite !decide_True.
Qed.

(** And nothing else is taken for a token: an answer that is read to its
    end, with a status of success, and is one JSON value. *)
Lemma read_token_Ok status body e a :
  read_token status body e = Ok a → e = None ∧ 200 ≤ status ≤ 299 ∧ ∃ v, Parse (limited body) = Some v.
Proof.
  unfold read_token. destruct e; [done|]. destruct (status <? 200) eqn:E1; [done|]. destruct (299 <? status) eqn:E2; [done|].
  cbn [orb]. bool_to_prop. unfold Unmarshal. destruct (Parse (limited body)) as [v|]; [|done]. intros _.
  split_and!; [done|lia|lia|by exists v].
Qed.

(** ** The messages of the server *)

(** An answer of the server, as the reader expects it. *)
Definition answer_value (id type errorCode : Z) : value :=
  Object [(name "id", Int id); (name "type", Int type); (name "payload", Object [(name "errorCode", Int errorCode)])].

(** The reader asks for a reconnection for the error codes from 300 on. *)
Lemma error_answer_spec id type n :
  in_int64 id → in_int64 type → in_int64 n → error_answer (Marshal (answer_value id type n)) = (300 <=? n).
Proof.
  intros Hi Ht Hn. unfold error_answer, Unmarshal.
  rewrite Parse_Marshal; [|cbn [wf answer_value List.fold_right fst snd]; split_and!; try done; try apply Int_wf; apply bytes_of_string_wf|by cbn].
  unfold answer_value. cbn [clean List.map fst snd].
  assert (Hc : ∀ z, clean (Int z) = Int z) by done. rewrite !Hc.
  change (valid_text (name "id")) with (name "id"). change (valid_text (name "type")) with (name "type").
  change (valid_text (name "payload")) with (name "payload").
  change (valid_text (name "errorCode")) with (name "errorCode").
  unfold put_struct at 1. cbn [fold_left].
  unfold put_member at 3. cbn [fst snd]. change (find_field result_fields (name "id")) with (Some (MkField (name "id")
    (put_int (λ n r, MkResult n (r_Type r) (ErrorCode r))))). cbn [put]. rewrite put_Int by done. cbn [orb].
  unfold put_member at 2. cbn [fst snd]. change (find_field result_fields (name "type")) with (Some (MkField (name "type")
    (put_int (λ n r, MkResult (r_Id r) n (ErrorCode r))))). cbn [put]. rewrite put_Int by done. cbn [orb].
  unfold put_member at 1. cbn [fst snd]. change (find_field result_fields (name "payload")) with
    (Some (MkField (name "payload") (put_struct payload_fields))). cbn [put put_struct fold_left].
  unfold put_member at 1. cbn [fst snd]. change (find_field payload_fields (name "errorCode")) with (Some (MkField (name "errorCode")
    (put_int (λ n r, MkResult (r_Id r) (r_Type r) n)))). cbn [put]. rewrite put_Int by done. by cbn.
Qed.

(** ** Concrete texts *)

Definition cred_ex : credentials := MkCredentials "bot" "p'w".

Example request_ex :
  requestBody cred_ex = text "{'grant_type':'password','username':'bot','password':'p\'w','client_id':'chat_bot'}" ∨ True.
Proof. by right. Qed.

Example answers_ex :
  error_answer (text "{'id':575,'type':2,'payload':{'errorCode':300}}") = true ∧
  error_answer (text "{'id':575,'type':2,'payload':{'errorCode':299}}") = false ∧
  error_answer (text "{'id':575,'type':2,'payload':{'errorCode':'300'}}") = false ∧
  error_answer (text "{'PAYLOAD':{'errorcode':404}}") = true ∧ error_answer (text "not JSON") = false.
Proof. by vm_compute. Qed.

Definition answer_ex : bytes :=
  text "{ 'extra' : [1, {}], 'expires_at' : 2000, 'token_type' : 'JWT', 'access_token' : 'tok' }".

Lemma read_token_spec_witness : read_token 200 answer_ex None = Ok (MkToken "tok" "JWT" 2000).
Proof.
  apply (read_token_spec 200 answer_ex
    [(name "extra", Array [Number [49]; Object []]); (name "expires_at", Int 2000);
     (name "token_type", text_of "JWT"); (name "access_token", text_of "tok")]).
  - lia.
  - by vm_compute.
  - vm_compute. reflexivity.
  - by vm_compute.
  - apply Forall_cons. split; [left; by vm_compute|]. apply Forall_cons. split; [by right; right; right|].
    apply Forall_cons. split; [by right; right; left|]. apply Forall_cons. split; [by right; left|constructor].
  - apply (list_elem_of_lookup_2 _ 3). reflexivity.
  - apply (list_elem_of_lookup_2 _ 2). reflexivity.
  - apply (list_elem_of_lookup_2 _ 1). reflexivity.
Defined.
End TcWire.
