(* ===== verification/TcClient.v ===== *)
(** * TrueConf client (tc/tcClientSender/tcClient.go, tcClientWS.go,
    tcClientHTTP.go)

    The websocket connection, its reconnection loop, the token request with
    its retries and the token refresh loop.  Answers of the network, clock
    readings and random numbers are arguments; [interrupted] says that [Stop]
    ran while a dial was in flight. *)

From S2P Require Import Prelude GoBytes GoFloat GoJson TcWire.

Module TcClient.

Definition maxRestartBackoff : Duration := 5 * Minute.

(** [serverHost]: scheme and trailing slash go. *)
Definition serverHost (server : string) : string :=
  let server := match strings.Index server "://" with
                | Some i => strings.drop (i + 3) server
                | None => server
                end in
  strings.TrimSuffix server "/".

Record TcClient := MkTc {
  started : bool;
  stopped : bool;
  stopCtxDone : bool;          (* stopCtx is made once, in NewTcClient *)
  connecting : bool;
  restartFlag : bool;
  wsconn : option nat;
  token : string;
  tokenIssued : Time;
  tokenExpires : Time;
  msgId : Z;
  (* the network *)
  fresh_id : nat;
  open : gset nat
}.

Definition NewTcClient : TcClient :=
  MkTc false false false false false None "" zeroTime zeroTime 0 0 ∅.

Definition set_conn (t : TcClient) (conn : option nat) (cing : bool) (n : nat) (o : gset nat) : TcClient :=
  MkTc (started t) (stopped t) (stopCtxDone t) cing (restartFlag t) conn (token t) (tokenIssued t)
    (tokenExpires t) (msgId t) n o.
Definition set_life (t : TcClient) (st sp sc : bool) : TcClient :=
  MkTc st sp sc (connecting t) (restartFlag t) (wsconn t) (token t) (tokenIssued t)
    (tokenExpires t) (msgId t) (fresh_id t) (open t).
Definition set_restart (t : TcClient) (b : bool) : TcClient :=
  MkTc (started t) (stopped t) (stopCtxDone t) (connecting t) b (wsconn t) (token t) (tokenIssued t)
    (tokenExpires t) (msgId t) (fresh_id t) (open t).
Definition set_token (t : TcClient) (tok : string) (issued expires : Time) : TcClient :=
  MkTc (started t) (stopped t) (stopCtxDone t) (connecting t) (restartFlag t) (wsconn t) tok issued
    expires (msgId t) (fresh_id t) (open t).
Definition next_msgId (t : TcClient) : TcClient :=
  MkTc (started t) (stopped t) (stopCtxDone t) (connecting t) (restartFlag t) (wsconn t) (token t)
    (tokenIssued t) (tokenExpires t) (wrapU 32 (msgId t + 1)) (fresh_id t) (open t).

(** [wsDisconnect]: closing the connection ends its two goroutines. *)
Definition wsDisconnect (t : TcClient) : TcClient :=
  set_conn t None false (fresh_id t)
    (match wsconn t with Some c => open t ∖ {[c]} | None => open t end).

Definition Stop (t : TcClient) : TcClient := wsDisconnect (set_life t false true true).

(** ** Token request *)

(** The answer to one POST: an error of the transport, or a status with the
    body and the error reading it ended with. *)
Inductive http_answer :=
| TransportErr (e : string)
| Answer (status : Z) (body : bytes) (readErr : option string).

(** The loop over attempts; [n] are left, the current one is number
    [attempt].  The second component are the sleeps. *)
Fixpoint token_attempts (n : nat) (attempt : Z) (env : list http_answer) :
    result (Z * bytes * option string) * list Duration * nat :=
  match n, env with
  | S n, TransportErr e :: env =>
      if 3 <=? attempt + 1 then (Err e, [], 1%nat)
      else
        let '(r, sl, k) := token_attempts n (attempt + 1) env in
        (r, (attempt + 1) * Second :: sl, S k)
  | S n, Answer status body readErr :: env => (Ok (status, body, readErr), [], 1%nat)
  | _, _ => (Err "no answer", [], 0%nat)
  end.

Definition getAuthorizationToken (env : list http_answer) : result TcWire.AuthTokenResponse * list Duration * nat :=
  let '(r, sl, k) := token_attempts 3 0 env in
  (match r with
   | Err e => Err e
   | Ok (status, body, readErr) => TcWire.read_token status body readErr
   end, sl, k).

(** ** Connecting *)

Record connect_env := MkConnectEnv {
  now : Time;
  new_token : list http_answer;
  dial : option string;        (* its error *)
  interrupted : bool;          (* Stop ran while dialling *)
  push : option string         (* the error of pushWSMsg: the queue stayed full *)
}.

Definition wsConnect (t : TcClient) (tok : string) (env : connect_env) : option string * TcClient :=
  if bool_decide (is_Some (wsconn t)) then (Some "already connected"%string, t)
  else if connecting t then (Some "connect already in progress"%string, t)
  else
    let t := set_conn t (wsconn t) true (fresh_id t) (open t) in
    let tok := if (tok =? "")%string && negb (token t =? "")%string && time.Before (now env) (tokenExpires t)
               then token t else tok in
    let tokr := if (tok =? "")%string then
                  let? a := (getAuthorizationToken (new_token env)).1.1 in Ok (TcWire.AccessToken a)
                else Ok tok in
    match tokr with
    | Err e => (Some e, set_conn t (wsconn t) false (fresh_id t) (open t))
    | Ok tok =>
        let t := if interrupted env then Stop t else t in
        match dial env with
        | Some e => (Some e, set_conn t (wsconn t) false (fresh_id t) (open t))
        | None =>
            let c := fresh_id t in
            let t := set_conn t (wsconn t) (connecting t) (S c) ({[c]} ∪ open t) in
            if stopped t then
              (Some "client is stopped"%string, set_conn t (wsconn t) false (fresh_id t) (open t ∖ {[c]}))
            else
              let t := next_msgId (set_conn t (Some c) false (fresh_id t) (open t)) in
              match push env with
              | Some e => (Some e, wsDisconnect t)
              | None => (None, t)
              end
        end
    end.

Definition Start (t : TcClient) (auth : list http_answer) (issued : Time) (env : connect_env) :
    option string * TcClient :=
  if started t then (Some "already started"%string, t)
  else
    let t := set_life t true false (stopCtxDone t) in
    let '(err, t) :=
      match (getAuthorizationToken auth).1.1 with
      | Ok a => wsConnect (set_token t (TcWire.AccessToken a) issued (TcWire.ExpiresAt a * Second)) (TcWire.AccessToken a) env
      | Err e => (Some e, t)
      end in
    (err, match err with None => t | Some _ => set_life t false (stopped t) (stopCtxDone t) end).

(** ** Reconnecting *)

(** One turn of the loop of [wsRestart]: the random number of the backoff,
    whether [Stop] ran during the sleep, and the connection attempt. *)
Record restart_env := MkRestartEnv { rnd : Z; stopped_asleep : bool; conn_env : connect_env }.

Definition restart_base (count : Z) : Duration :=
  let backoff := wrap64 (count * Minute) in
  if maxRestartBackoff <? backoff then maxRestartBackoff else backoff.

(** [rand.Int63n(int64(backoff/2))] is [rnd] reduced to its range. *)
Definition restart_backoff (count : Z) (r : Z) : Duration :=
  let backoff := restart_base count in
  backoff + r mod Z.quot backoff 2.

Inductive restart_end := Connected | AbortedStopped | AbortedCancelled | StillTrying.

Fixpoint restart_loop (t : TcClient) (count : Z) (env : list restart_env) :
    restart_end * TcClient * list Duration :=
  match env with
  | [] => (StillTrying, t, [])
  | e :: env =>
      if stopped t then (AbortedStopped, t, [])
      else
        let t := wsDisconnect t in
        let sl := if 1 <? count then [restart_backoff count (rnd e)] else [] in
        let t := if (1 <? count) && stopped_asleep e then Stop t else t in
        if (1 <? count) && stopCtxDone t then (AbortedCancelled, t, sl)
        else
          match wsConnect t "" (conn_env e) with
          | (Some _, t) =>
              if stopped t then (AbortedStopped, t, sl)
              else let '(r, t, sl') := restart_loop t (count + 1) env in (r, t, sl ++ sl')
          | (None, t) => (Connected, t, sl)
          end
  end.

Definition wsRestart (t : TcClient) (env : list restart_env) : option (restart_end * TcClient * list Duration) :=
  if restartFlag t then None       (* already restarting *)
  else
    let '(r, t, sl) := restart_loop (set_restart t true) 1 env in
    Some (r, set_restart t false, sl).

(** ** Token refresh *)

(** The wait before the next refresh. *)
Definition refresh_wait (t : TcClient) (retryIn : Duration) (now : Time) : Duration :=
  let wait :=
    if 0 <? retryIn then retryIn
    else if time.IsZero (tokenExpires t) then 5 * Second
    else
      let life := time.Sub (tokenExpires t) (tokenIssued t) in
      let refreshAt := time.Add (tokenIssued t) (mul_trunc life (3 * 2 ^ 51)) in
      time.Sub refreshAt now in
  if wait <? 0 then 0 else wait.

(** One turn of [tokenRefreshLoop]: [None] when the goroutine ends.  With
    [stopCtx] cancelled and a timer still running, the select can only return. *)
Definition refresh_turn (t : TcClient) (retryIn : Duration) (now : Time) (auth : list http_answer)
    (issued : Time) : option (Duration * TcClient) :=
  if negb (started t) then None
  else if stopCtxDone t && (0 <? refresh_wait t retryIn now) then None
  else
    match (getAuthorizationToken auth).1.1 with
    | Ok a => Some (0, set_token t (TcWire.AccessToken a) issued (TcWire.ExpiresAt a * Second))
    | Err _ => Some (30 * Second, t)
    end.

(** ** Sending *)

(** The error, and the message that went to the queue. *)
Definition SendMsg (enc : TcWire.encoders) (t : TcClient) (msg chatId mode : string) (push : option string) :
    option string * list (option bytes) * TcClient :=
  if stopped t then (Some "tc client is stopped"%string, [], t)
  else
    let t := next_msgId t in
    (push, match push with None => [TcWire.send_message enc (msgId t) msg chatId mode] | Some _ => [] end, t).

(** ** Lemmas *)

(** The connection kept is the only one open, and a stopped client has none. *)
Definition owned (t : TcClient) : Prop :=
  open t = match wsconn t with Some c => {[c]} | None => ∅ end ∧
  (∀ c, wsconn t = Some c → (c < fresh_id t)%nat) ∧
  (stopped t = true → wsconn t = None).

Lemma wsDisconnect_owned t : owned t → owned (wsDisconnect t) ∧ open (wsDisconnect t) = ∅.
Proof.
  intros (Ho & Hf & _). assert (He : open (wsDisconnect t) = ∅).
  { unfold wsDisconnect, set_conn. simpl. rewrite Ho. destruct (wsconn t); set_solver. }
  split; [|done]. split; [exact He|done].
Qed.

Lemma Stop_owned t : owned t → owned (Stop t) ∧ open (Stop t) = ∅ ∧ stopped (Stop t) = true ∧ wsconn (Stop t) = None.
Proof.
  intros (Ho & Hf & _). assert (He : open (Stop t) = ∅).
  { unfold Stop, wsDisconnect, set_conn. simpl. rewrite Ho. destruct (wsconn t); set_solver. }
  split; [|done]. split; [exact He|done].
Qed.

(** What an attempt to connect leaves behind. *)
Definition connect_post (t : TcClient) (env : connect_env) (err : option string) (t' : TcClient) : Prop :=
  owned t' ∧
  (err = None → is_Some (wsconn t') ∧ stopped t' = false ∧ interrupted env = false) ∧
  (err ≠ None → wsconn t = None → open t' = ∅) ∧
  (stopCtxDone t = true → stopCtxDone t' = true) ∧ restartFlag t' = restartFlag t.

Lemma wsConnect_spec t tok env :
  owned t → connect_post t env (wsConnect t tok env).1 (wsConnect t tok env).2.
Proof.
  intros Hown. unfold wsConnect, connect_post.
  destruct (bool_decide _) eqn:Ec.
  { apply bool_decide_eq_true in Ec as [c Hc]. cbn. split; [done|]. split; [done|]. split; [|done].
    intros _ H. congruence. }
  apply bool_decide_eq_false in Ec.
  assert (Hn : wsconn t = None) by (destruct (wsconn t); [by destruct Ec|done]).
  pose proof Hown as (Ho & Hf & _). rewrite Hn in Ho.
  destruct (connecting t) eqn:Ecing; [done|].
  match goal with |- context [match ?x with Ok _ => _ | Err _ => _ end] => destruct x as [tk|e] end.
  2: { cbn. rewrite ?Hn, ?Ho. done. }
  destruct (interrupted env) eqn:Ei; destruct (dial env) as [e|]; cbn.
  - rewrite Hn, Ho. done.
  - rewrite Hn, Ho. split; [split; cbn; [set_solver|done]|]. split; [done|]. split; [set_solver|done].
  - rewrite Hn, Ho. done.
  - destruct (stopped t) eqn:Es; cbn; rewrite ?Hn, ?Ho.
    + split; [split; cbn; [set_solver|done]|]. split; [done|]. split; [set_solver|done].
    + destruct (push env) as [e|]; cbn.
      * split; [split; cbn; [set_solver|done]|]. split; [done|]. split; [set_solver|done].
      * split; [split; cbn; [set_solver|split; [intros c [= <-]; lia|congruence]]|]. done.
Qed.

Lemma restart_base_spec count :
  1 ≤ count ≤ 100000000 → restart_base count = Z.min (count * Minute) maxRestartBackoff.
Proof.
  intros Hc. unfold restart_base. assert (HM : Minute = 60000000000) by done.
  rewrite wrap64_id by (unfold in_int64, MinInt64, MaxInt64; lia).
  destruct (maxRestartBackoff <? _) eqn:E; bool_to_prop; lia.
Qed.

Lemma restart_backoff_bounds count r :
  1 ≤ count ≤ 100000000 →
  let base := Z.min (count * Minute) maxRestartBackoff in
  base ≤ restart_backoff count r < base + base / 2.
Proof.
  intros Hc. cbn zeta. unfold restart_backoff. rewrite restart_base_spec by done.
  assert (HM : Minute = 60000000000) by done. assert (HX : maxRestartBackoff = 300000000000) by done.
  set (base := Z.min _ _). assert (60000000000 ≤ base) by (unfold base; lia).
  rewrite Z.quot_div_nonneg by lia. assert (0 < base / 2) by (apply Z.div_str_pos; lia).
  pose proof (Z.mod_pos_bound r (base / 2) ltac:(lia)). lia.
Qed.

Lemma restart_loop_spec env t count :
  owned t → 1 ≤ count → count + Z.of_nat (length env) ≤ 100000000 →
  let '(r, t', sl) := restart_loop t count env in
  owned t' ∧ (r = Connected → is_Some (wsconn t') ∧ stopped t' = false) ∧
  (r ≠ Connected → env ≠ [] → open t' = ∅) ∧
  (∀ i d, sl !! i = Some d →
     let c := Z.max count 2 + Z.of_nat i in
     let base := Z.min (c * Minute) maxRestartBackoff in base ≤ d < base + base / 2) ∧
  restartFlag t' = restartFlag t.
Proof.
  revert t count. induction env as [|e env IH]; intros t count Hown Hc Hlen.
  - cbn. split; [done|]. split; [done|]. split; [done|]. split; [|done]. intros i d Hi. by rewrite lookup_nil in Hi.
  - cbn [restart_loop]. cbn [length] in Hlen. destruct (stopped t) eqn:Es.
    { pose proof Hown as (Ho & _ & Hs). split; [done|]. split; [done|].
      split; [intros _ _; by rewrite Ho, (Hs Es)|]. split; [|done]. intros i d Hi. by rewrite lookup_nil in Hi. }
    destruct (wsDisconnect_owned t Hown) as [Hd He].
    set (t1 := if (1 <? count) && stopped_asleep e then Stop (wsDisconnect t) else wsDisconnect t).
    assert (H1 : owned t1 ∧ open t1 = ∅ ∧ wsconn t1 = None ∧ restartFlag t1 = restartFlag t).
    { unfold t1. destruct (_ && _); [|done]. destruct (Stop_owned _ Hd) as (? & ? & _ & ?). done. }
    destruct H1 as (Ho1 & He1 & Hn1 & Hr1).
    set (sl := if 1 <? count then [restart_backoff count (rnd e)] else []).
    assert (Hsl : ∀ i d, sl !! i = Some d →
      let c := Z.max count 2 + Z.of_nat i in
      let base := Z.min (c * Minute) maxRestartBackoff in base ≤ d < base + base / 2).
    { unfold sl. destruct (1 <? count) eqn:E; [|intros i d Hi; by rewrite lookup_nil in Hi]. bool_to_prop.
      intros i d Hi. apply list_lookup_singleton_Some in Hi as [-> <-].
      replace (Z.max count 2 + Z.of_nat 0) with count by lia. apply restart_backoff_bounds. lia. }
    destruct ((1 <? count) && stopCtxDone t1) eqn:Ecx; [done|].
    pose proof (wsConnect_spec t1 "" (conn_env e) Ho1) as Hpost.
    destruct (wsConnect t1 "" (conn_env e)) as [err t2]. cbn [fst snd] in Hpost.
    destruct Hpost as (Ho2 & Hok & Hfail & _ & Hr2).
    destruct err as [msg|].
    2: { split; [done|]. split; [intros _; by destruct (Hok eq_refl) as (? & ? & _)|].
         split; [done|]. split; [done|]. congruence. }
    assert (He2 : open t2 = ∅) by (apply Hfail; done).
    destruct (stopped t2) eqn:Es2; [split_and!; try done; congruence|].
    specialize (IH t2 (count + 1) Ho2 ltac:(lia) ltac:(lia)).
    destruct (restart_loop t2 (count + 1) env) as [[r t'] sl'] eqn:Eloop.
    destruct IH as (G1 & G2 & G3 & G4 & G5). split; [done|]. split; [done|]. split.
    { intros Hr _. destruct env as [|e2 env2]; [|by apply G3]. cbn in Eloop. injection Eloop as <- <- <-. done. }
    split; [|congruence]. intros i d Hi. apply lookup_app_Some in Hi as [Hi|[Hle Hi]]; [by apply Hsl|].
    specialize (G4 _ _ Hi). unfold sl in *. destruct (1 <? count) eqn:E; bool_to_prop; cbn [length] in *.
    + replace (Z.max count 2 + Z.of_nat i) with (Z.max (count + 1) 2 + Z.of_nat (i - 1)) by lia. exact G4.
    + replace (Z.max count 2 + Z.of_nat i) with (Z.max (count + 1) 2 + Z.of_nat (i - 0)) by lia. exact G4.
Qed.

(** ** Properties *)

(** The life of a client: the calls that touch its connection, in order. *)
Inductive call :=
| CStart (auth : list http_answer) (issued : Time) (env : connect_env)
| CStop
| CRestart (env : list restart_env)
| CSend (enc : TcWire.encoders) (msg chatId mode : string) (push : option string).

Definition call_ok (c : call) : Prop :=
  match c with CRestart env => Z.of_nat (length env) < 100000000 | _ => True end.

Definition run_call (t : TcClient) (c : call) : TcClient :=
  match c with
  | CStart auth issued env => (Start t auth issued env).2
  | CStop => Stop t
  | CRestart env => match wsRestart t env with Some (_, t, _) => t | None => t end
  | CSend enc msg chatId mode push => (SendMsg enc t msg chatId mode push).2
  end.

Lemma Start_owned t auth issued env : owned t → owned (Start t auth issued env).2.
Proof.
  intros Hown. unfold Start. destruct (started t); [done|].
  assert (H0 : owned (set_life t true false (stopCtxDone t))).
  { destruct Hown as (Ho & Hf & Hs). split; [exact Ho|]. split; [exact Hf|done]. }
  destruct (getAuthorizationToken auth).1.1 as [a|e]; [|done].
  set (t1 := set_token _ _ _ _). assert (H1 : owned t1) by exact H0.
  pose proof (wsConnect_spec t1 (TcWire.AccessToken a) env H1) as (Hpost & _).
  destruct (wsConnect t1 (TcWire.AccessToken a) env) as [err t2]. cbn [snd] in Hpost |- *.
  destruct err; [|done]. exact Hpost.
Qed.

(** [C16] Whatever calls the client receives and whatever the network
    answers, the only connection open is the one the client keeps, and a
    stopped client keeps none, even when it was stopped during a dial or a
    reconnection. *)
Theorem connection_owned l :
  Forall call_ok l →
  let t := fold_left run_call l NewTcClient in
  open t = match wsconn t with Some c => {[c]} | None => ∅ end ∧ (stopped t = true → open t = ∅).
Proof.
  intros Hl t. assert (H : owned t).
  { unfold t. clear t. assert (H0 : owned NewTcClient) by done. revert H0. generalize NewTcClient.
    induction Hl as [|c l Hc Hl IH]; intros t Ht; [done|]. cbn [fold_left]. apply IH. clear IH.
    destruct c as [auth issued env| |env|mode push]; cbn [run_call].
    - by apply Start_owned.
    - by apply Stop_owned.
    - unfold wsRestart. destruct (restartFlag t); [done|].
      assert (H1 : owned (set_restart t true)) by exact Ht.
      pose proof (restart_loop_spec env (set_restart t true) 1 H1 ltac:(lia)) as Hloop.
      simpl in Hc. specialize (Hloop ltac:(lia)).
      destruct (restart_loop _ _ _) as [[r t'] sl]. destruct Hloop as (Ho & _). exact Ho.
    - unfold SendMsg. by destruct (stopped t). }
  destruct H as (Ho & _ & Hs). split; [done|]. intros Hst. by rewrite Ho, (Hs Hst).
Qed.

(** A reconnection tries at once, then waits between tries: two
    minutes, three, four and five from there on, each plus a random part of
    less than half; it ends connected or without a connection. *)
Theorem wsRestart_backoff t env r t' sl :
  owned t → Z.of_nat (length env) < 100000000 → wsRestart t env = Some (r, t', sl) →
  (r = Connected → is_Some (wsconn t') ∧ stopped t' = false) ∧
  (r ≠ Connected → env ≠ [] → open t' = ∅) ∧ restartFlag t' = false ∧
  ∀ i d, sl !! i = Some d →
    let base := Z.min ((2 + Z.of_nat i) * Minute) maxRestartBackoff in base ≤ d < base + base / 2.
Proof.
  intros Hown Hlen. unfold wsRestart. destruct (restartFlag t); [done|].
  assert (H1 : owned (set_restart t true)) by exact Hown.
  pose proof (restart_loop_spec env (set_restart t true) 1 H1 ltac:(lia) ltac:(lia)) as Hloop.
  destruct (restart_loop _ _ _) as [[r0 t0] sl0]. intros [= <- <- <-].
  destruct Hloop as (_ & G2 & G3 & G4 & _). done.
Qed.

(** The token request makes at most three attempts, one and two
    seconds apart, and stops at the first answer. *)
Theorem getAuthorizationToken_attempts env :
  let '(r, sl, k) := getAuthorizationToken env in
  (k ≤ 3)%nat ∧ sl `prefix_of` [Second; 2 * Second] ∧
  (∀ a, r = Ok a → ∃ pre status body rest, env = pre ++ Answer status body None :: rest ∧ length pre = length sl ∧
     200 ≤ status ≤ 299 ∧ TcWire.read_token status body None = Ok a ∧ Forall (λ x, ∃ e, x = TransportErr e) pre).
Proof.
  unfold getAuthorizationToken.
  assert (Hfin : ∀ status body e a, TcWire.read_token status body e = Ok a →
             e = None ∧ 200 ≤ status ≤ 299 ∧ TcWire.read_token status body None = Ok a).
  { intros status body e a H. by destruct (TcWire.read_token_Ok _ _ _ _ H) as (-> & ? & _). }
  destruct env as [|[e1|s1 b1 r1] [|[e2|s2 b2 r2] [|[e3|s3 b3 r3] env]]]; cbn -[TcWire.read_token];
    (split; [lia|split; [by eexists|intros a Ha]]); try discriminate Ha;
    apply Hfin in Ha as (-> & Hs & Ha).
  1: exists [TransportErr e1; TransportErr e2], s3, b3, env.
  2: exists [TransportErr e1], s2, b2, [].
  3: exists [TransportErr e1], s2, b2, (TransportErr e3 :: env).
  4: exists [TransportErr e1], s2, b2, (Answer s3 b3 r3 :: env).
  5: exists [], s1, b1, [].
  6: exists [], s1, b1, [TransportErr e2].
  7: exists [], s1, b1, (TransportErr e2 :: TransportErr e3 :: env).
  8: exists [], s1, b1, (TransportErr e2 :: Answer s3 b3 r3 :: env).
  9: exists [], s1, b1, [Answer s2 b2 r2].
  10: exists [], s1, b1, (Answer s2 b2 r2 :: TransportErr e3 :: env).
  11: exists [], s1, b1, (Answer s2 b2 r2 :: Answer s3 b3 r3 :: env).
  all: split_and!; try done; try lia; repeat (constructor; [by eexists|]); constructor.
Qed.

(** The token is refreshed after three quarters of its life: in
    whole nanoseconds, never later, and never by a negative wait. *)
Theorem refresh_wait_bounds t now :
  time.IsZero (tokenExpires t) = false → tokenIssued t ≤ now →
  0 < tokenExpires t - tokenIssued t < 2 ^ 50 → now - tokenIssued t < 2 ^ 62 →
  0 ≤ refresh_wait t 0 now ∧
  now + refresh_wait t 0 now ≤ Z.max now (tokenIssued t + 3 * (tokenExpires t - tokenIssued t) / 4) ∧
  tokenIssued t + 3 * (tokenExpires t - tokenIssued t) / 4 ≤ now + refresh_wait t 0 now.
Proof.
  intros Hz Hnow Hlife Hage. unfold refresh_wait. rewrite Hz. cbn [Z.ltb Z.compare].
  set (life := tokenExpires t - tokenIssued t) in *.
  assert (Hsub : time.Sub (tokenExpires t) (tokenIssued t) = life).
  { apply Sub_exact. fold life. unfold in_int64, MinInt64, MaxInt64. lia. }
  rewrite Hsub. set (q := mul_trunc life (3 * 2 ^ 51)).
  assert (Hq : q = 3 * life / 4).
  { assert (Hr : representable (life * (3 * 2 ^ 51))) by (exists (life * 3), 51; lia).
    pose proof (mul_trunc_bounds life (3 * 2 ^ 51) (3 * 2 ^ 51) (3 * 2 ^ 51)
                  ltac:(lia) ltac:(lia) Hr Hr ltac:(lia)) as Hb. fold q in Hb.
    replace (life * (3 * 2 ^ 51) / 2 ^ 53) with (3 * life / 4) in Hb; [lia|].
    replace (life * (3 * 2 ^ 51)) with (3 * life * 2 ^ 51) by lia.
    change (2 ^ 53) with (4 * 2 ^ 51). by rewrite Z.div_mul_cancel_r. }
  assert (0 ≤ q ≤ life) by (rewrite Hq; split; [apply Z.div_pos; lia|apply Z.div_le_upper_bound; lia]).
  unfold time.Add. rewrite (Sub_exact (tokenIssued t + q) now)
    by (unfold in_int64, MinInt64, MaxInt64; lia).
  rewrite <- Hq. destruct (tokenIssued t + q - now <? 0) eqn:E; bool_to_prop; lia.
Qed.

(** [stopCtx] is never renewed: after a stop, however the client is
    started again, the refresh loop ends at its first wait, and a
    reconnection whose first try fails gives up instead of backing off. *)
Theorem restarted_client_gives_up t auth issued env :
  let t1 := (Start (Stop t) auth issued env).2 in
  (∀ retryIn now a i, 0 < refresh_wait t1 retryIn now → refresh_turn t1 retryIn now a i = None) ∧
  (∀ e1 e2 rest t2 m, wsConnect (wsDisconnect (set_restart t1 true)) "" (conn_env e1) = (Some m, t2) →
     owned t1 → (restart_loop (set_restart t1 true) 1 (e1 :: e2 :: rest)).1.1 ∈ [AbortedStopped; AbortedCancelled]).
Proof.
  intros t1.
  assert (Hctx : stopCtxDone t1 = true).
  { unfold t1, Start. cbn [started Stop wsDisconnect set_conn set_life].
    destruct (getAuthorizationToken auth).1.1 as [a|e]; [|done].
    set (t0 := set_token _ _ _ _). assert (H0 : stopCtxDone t0 = true) by done. clearbody t0.
    assert (Hc : stopCtxDone (wsConnect t0 (TcWire.AccessToken a) env).2 = true).
    { unfold wsConnect. destruct (bool_decide _); [done|]. destruct (connecting t0); [done|].
      match goal with |- context [match ?x with Ok _ => _ | Err _ => _ end] => destruct x end; [|done].
      destruct (interrupted env), (dial env); cbn; try done;
        destruct (stopped t0); cbn; try done; destruct (push env); done. }
    destruct (wsConnect t0 (TcWire.AccessToken a) env) as [err t2]. cbn [snd] in Hc. by destruct err. }
  split.
  - intros retryIn now a i Hw. unfold refresh_turn. destruct (started t1); [|done]. cbn [negb].
    rewrite Hctx. apply Z.ltb_lt in Hw. by rewrite Hw.
  - intros e1 e2 rest t2 m Hconn Hown. cbn [restart_loop].
    destruct (stopped (set_restart t1 true)) eqn:Es; [set_solver|].
    cbn [Z.ltb Z.compare Pos.compare Pos.compare_cont andb]. rewrite Hconn.
    assert (H1 : owned (wsDisconnect (set_restart t1 true))).
    { apply wsDisconnect_owned. exact Hown. }
    pose proof (wsConnect_spec _ "" (conn_env e1) H1) as (_ & _ & _ & Hc & _).
    rewrite Hconn in Hc. cbn [snd] in Hc. specialize (Hc Hctx).
    destruct (stopped t2) eqn:Es2; [cbn; set_solver|].
    change (1 <? 1 + 1) with true. cbn [andb].
    destruct (stopped_asleep e2); cbn; rewrite ?Hc; cbn; set_solver.
Qed.

(** ** Concrete runs *)

Definition good_token : http_answer := 
  Answer 200 (json.text "{'access_token':'tok','token_type':'JWT','expires_at':2000}") None.
Definition good_env : connect_env := MkConnectEnv (1000 * Second) [good_token] None false None.
Definition bad_env : connect_env := MkConnectEnv (1000 * Second) [good_token] (Some "refused"%string) false None.
Definition live : TcClient := (Start NewTcClient [good_token] (1000 * Second) good_env).2.

Lemma live_owned : owned live.
Proof. apply Start_owned. done. Qed.

Lemma connection_owned_witness :
  let t := fold_left run_call [CStart [good_token] 0 good_env; CStop] NewTcClient in
  stopped t = true ∧ open t = ∅.
Proof.
  split; [done|].
  destruct (connection_owned [CStart [good_token] 0 good_env; CStop]) as [_ H]; [by repeat constructor|].
  apply H. done.
Defined.

Definition two_failures : list restart_env :=
  [MkRestartEnv 0 false bad_env; MkRestartEnv 7 false bad_env; MkRestartEnv 8 false good_env].

Lemma wsRestart_backoff_witness :
  ∃ t', wsRestart live two_failures = Some (Connected, t', [2 * Minute + 7; 3 * Minute + 8]) ∧
    is_Some (wsconn t').
Proof.
  destruct (wsRestart live two_failures) as [[[r t'] sl]|] eqn:E; [|by vm_compute in E].
  assert (H := wsRestart_backoff live two_failures r t' sl live_owned ltac:(done) E).
  vm_compute in E. injection E as <- <- <-. eexists. split; [reflexivity|]. by apply H.
Defined.

Lemma getAuthorizationToken_attempts_witness :
  let '(r, sl, k) := getAuthorizationToken [TransportErr "x"; good_token] in k = 2%nat ∧ sl = [Second].
Proof.
  assert (H := getAuthorizationToken_attempts [TransportErr "x"; good_token]).
  destruct (getAuthorizationToken _) as [[r sl] k] eqn:E. destruct H as [_ _].
  vm_compute in E. injection E as <- <- <-. done.
Defined.

Lemma refresh_wait_bounds_witness :
  refresh_wait live 0 (1000 * Second) = 750 * Second ∧ 0 ≤ refresh_wait live 0 (1000 * Second).
Proof.
  split; [by vm_compute|].
  destruct (refresh_wait_bounds live (1000 * Second)) as [H _]; [by vm_compute|by vm_compute..|exact H].
Defined.

Lemma restarted_client_gives_up_witness :
  refresh_turn (Start (Stop live) [good_token] (1000 * Second) good_env).2 0 (1000 * Second) [good_token] 0 = None ∧
  restartFlag live = false.
Proof.
  split; [|done]. destruct (restarted_client_gives_up live [good_token] (1000 * Second) good_env) as [H _].
  apply H. by vm_compute.
Defined.
End TcClient.
