(* ===== verification/TcPumps.v ===== *)
(** * TrueConf client: the pumps and the reconnections as goroutines
    (tc/tcClientSender/tcClientWS.go, tcClient.go)

    TcClient.v has the operations one after the other; here [Start], [Stop],
    [SendMsg], [wsRestart], [readMsg] and [writeMsg] run at the same time.
    A thread makes one step at a time between two points where others can
    run; tokens are left to TcClient.v.  A client that is started once never
    loses a connection; one that is started again may. *)

From S2P Require Import Prelude GoBytes GoJson TcWire.

Module TcPumps.

(** Messages of the queue: the authentication of a connection, and the
    messages of the clients. *)
Inductive msg := Auth | User (id : Z).

(** What follows a [wsDisconnect], a [wsConnect] or a [pushWSMsg]. *)
Inductive kont := KStart | KStop | KSend | KRestart | KConn (k : kont) | KFail (k : kont).

Inductive pc :=
| Start0 | Stop0 | Send0 (m : msg)
| Push (m : msg) (k : kont)                    (* pushWSMsg *)
| RestartCAS | RestartTest | Sleep | RestartEnd
| Disc (k : kont) | DiscClose (k : kont) (c : nat) | DiscWait (k : kont)
| Conn (k : kont) | Dialing (k : kont) | Commit (k : kont) (c : nat) | Spawn (k : kont)
| Writer0 | Writer (conn : option nat) | WTest (conn : option nat) (m : msg) | WWrite (conn : option nat) (m : msg)
| Reader0 | Reader (c : nat)
| PumpFail                                     (* the restart of a pump that ends *)
| Crashed (m : option msg)                     (* a method called on a nil connection *)
| Ended.

#[global] Instance msg_eq_dec : EqDecision msg.
Proof. solve_decision. Defined.
#[global] Instance kont_eq_dec : EqDecision kont.
Proof. solve_decision. Defined.
#[global] Instance pc_eq_dec : EqDecision pc.
Proof. solve_decision. Defined.

Record tc := MkTc {
  queue : list msg;                            (* wsMsg *)
  pushed : list msg;                           (* everything ever queued *)
  taken : list (msg * option nat);             (* taken out, with the connection it was written to *)
  wsconn : option nat; ctx : option nat; cancel : bool; connecting : bool;
  restartFlag : bool; stopped : bool; stopCtxDone : bool;
  wg : Z;
  next_conn : nat; closed : gset nat; cancelled : gset nat
}.

Definition NewTcClient : tc := MkTc [] [] [] None None false false false false false 0 0 ∅ ∅.

Definition set_queue (s : tc) q p t :=
  MkTc q p t (wsconn s) (ctx s) (cancel s) (connecting s) (restartFlag s) (stopped s) (stopCtxDone s) (wg s) (next_conn s) (closed s) (cancelled s).
Definition set_conn (s : tc) c x ca co n cl cd :=
  MkTc (queue s) (pushed s) (taken s) c x ca co (restartFlag s) (stopped s) (stopCtxDone s) (wg s) n cl cd.
Definition set_flags (s : tc) r st sd :=
  MkTc (queue s) (pushed s) (taken s) (wsconn s) (ctx s) (cancel s) (connecting s) r st sd (wg s) (next_conn s) (closed s) (cancelled s).
Definition set_wg (s : tc) w :=
  MkTc (queue s) (pushed s) (taken s) (wsconn s) (ctx s) (cancel s) (connecting s) (restartFlag s) (stopped s) (stopCtxDone s) w (next_conn s) (closed s) (cancelled s).
Definition set_connecting (s : tc) (b : bool) :=
  set_conn s (wsconn s) (ctx s) (cancel s) b (next_conn s) (closed s) (cancelled s).

(** The answer of the environment, the case a [select] takes, or a message
    of the server. *)
Inductive choice := Good | Fail | CtxDone | Tick | Take | Received (p : bytes).

Definition queue_cap : nat := 256.

(** [wsRestart] is started unless the client is stopped or restarting. *)
Definition go_restart (s : tc) : list pc := if negb (stopped s) && negb (restartFlag s) then [RestartCAS] else [].

(** [wsConnect] returned an error, or succeeded, for its caller. *)
Definition connect_failed (s : tc) (k : kont) : pc :=
  match k with KRestart => if stopped s then RestartEnd else RestartTest | _ => Ended end.
Definition connected (k : kont) : pc := match k with KRestart => RestartEnd | _ => Ended end.

Definition after_push (k : kont) : pc := match k with KConn k => connected k | _ => Ended end.
Definition push_failed (k : kont) : pc := match k with KConn k => Disc (KFail k) | _ => Ended end.
(** [wsDisconnect] returned. *)
Definition after_disc (s : tc) (k : kont) : pc :=
  match k with KRestart => Sleep | KFail k => connect_failed s k | _ => Ended end.

(** [pushWSMsg]: [Fail] is the timeout of a queue that stays full. *)
Definition pushWSMsg (a : choice) (s : tc) (m : msg) (k : kont) : tc * pc :=
  if (length (queue s) <? queue_cap)%nat then (set_queue s (queue s ++ [m]) (pushed s ++ [m]) (taken s), after_push k)
  else match a with Fail => (s, push_failed k) | _ => (s, Push m k) end.

(** The locked section of [wsDisconnect]. *)
Definition disc_locked (s : tc) (k : kont) : tc * pc :=
  let cd := if cancel s then cancelled s ∪ match ctx s with Some c => {[c]} | None => ∅ end else cancelled s in
  let s' := set_conn s None (ctx s) false false (next_conn s) (closed s) cd in
  (s', match wsconn s with Some c => DiscClose k c | None => after_disc s' k end).

Definition close_conn (s : tc) (c : nat) : tc :=
  set_conn s (wsconn s) (ctx s) (cancel s) (connecting s) (next_conn s) (closed s ∪ {[c]}) (cancelled s).

(** The first locked section of [wsConnect], the dial, and the last one. *)
Definition conn_locked (s : tc) (k : kont) : tc * pc :=
  if bool_decide (is_Some (wsconn s)) || connecting s then (s, connect_failed s k) else (set_connecting s true, Dialing k).

Definition dial (a : choice) (s : tc) (k : kont) : tc * pc :=
  match a with
  | Good => (set_conn s (wsconn s) (ctx s) (cancel s) (connecting s) (S (next_conn s)) (closed s) (cancelled s), Commit k (next_conn s))
  | _ => (set_connecting s false, connect_failed s k)
  end.

Definition commit (s : tc) (k : kont) (c : nat) : tc * pc :=
  if stopped s then (close_conn (set_connecting s false) c, connect_failed s k)
  else (set_conn s (Some c) (Some c) true false (next_conn s) (closed s) (cancelled s), Spawn k).

(** One turn of the loop of [writeMsg]. *)
Definition writer (a : choice) (s : tc) (conn : option nat) : tc * pc :=
  match a with
  | CtxDone =>
      match ctx s with
      | Some c => if bool_decide (c ∈ cancelled s) then (set_wg s (wg s - 1), Ended) else (s, Writer conn)
      | None => (s, Writer conn)
      end
  | Take => match queue s with m :: q => (set_queue s q (pushed s) (taken s), WTest conn m) | [] => (s, Writer conn) end
  | _ =>                                       (* the ticker *)
      match conn with
      | None => (s, Crashed None)
      | Some c => if bool_decide (c ∈ closed s) then (s, PumpFail) else (s, match a with Fail => PumpFail | _ => Writer conn end)
      end
  end.

Definition write (a : choice) (s : tc) (conn : option nat) (m : msg) : tc * pc :=
  match conn with
  | None => (s, Crashed (Some m))
  | Some c =>
      if bool_decide (c ∈ closed s) || match a with Fail => true | _ => false end
      then (set_queue s (queue s) (pushed s) (taken s ++ [(m, None)]), PumpFail)
      else (set_queue s (queue s) (pushed s) (taken s ++ [(m, Some c)]), Writer conn)
  end.

(** One step of a thread: the state, what the thread does next, and the
    goroutines it started. *)
Definition tstep (showAnswers : bool) (a : choice) (s : tc) (p : pc) : tc * pc * list pc :=
  match p with
  | Start0 => (set_flags s (restartFlag s) false (stopCtxDone s), Conn KStart, [])
  | Stop0 => (set_flags s (restartFlag s) true true, Disc KStop, [])
  | Send0 m => (s, if stopped s then Ended else Push m KSend, [])
  | Push m k => (pushWSMsg a s m k, [])
  | RestartCAS => if restartFlag s then (s, Ended, []) else (set_flags s true (stopped s) (stopCtxDone s), RestartTest, [])
  | RestartTest => (s, if stopped s then RestartEnd else Disc KRestart, [])
  | Sleep => (s, match a with Fail => if stopCtxDone s then RestartEnd else Sleep | _ => Conn KRestart end, [])
  | RestartEnd => (set_flags s false (stopped s) (stopCtxDone s), Ended, [])
  | Disc k => (disc_locked s k, [])
  | DiscClose k c => (close_conn s c, DiscWait k, [])
  | DiscWait k => (s, if wg s =? 0 then after_disc s k else DiscWait k, [])
  | Conn k => (conn_locked s k, [])
  | Dialing k => (dial a s k, [])
  | Commit k c => (commit s k c, [])
  | Spawn k => (set_wg s (wg s + 2), Push Auth (KConn k), [Writer0; Reader0])
  | Writer0 => (s, Writer (wsconn s), [])
  | Writer conn => (writer a s conn, [])
  | WTest conn m =>
      if restartFlag s || stopped s then (set_queue s (queue s) (pushed s) (taken s ++ [(m, None)]), Writer conn, [])
      else (s, WWrite conn m, [])
  | WWrite conn m => (write a s conn m, [])
  | Reader0 => (s, match wsconn s with Some c => Reader c | None => Crashed None end, [])
  | Reader c =>
      if bool_decide (c ∈ closed s) then (s, PumpFail, [])
      else match a with
           | Fail => (s, PumpFail, [])
           | Received p => (s, Reader c, if showAnswers && TcWire.error_answer p then go_restart s else [])
           | _ => (s, Reader c, [])
           end
  | PumpFail => (set_wg s (wg s - 1), Ended, go_restart s)
  | Crashed m => (s, Crashed m, [])
  | Ended => (s, Ended, [])
  end.

(** ** The system *)

Record sys := MkSys { client : tc; threads : list pc }.
Definition sys0 : sys := MkSys NewTcClient [].

(** The calls the user of the library makes. *)
Definition user_call (p : pc) : bool := match p with Start0 | Stop0 | Send0 (User _) => true | _ => false end.

Inductive move := Call (p : pc) | Run (i : nat) (a : choice).

Definition do_move (showAnswers : bool) (x : sys) (m : move) : sys :=
  match m with
  | Call p => if user_call p then MkSys (client x) (threads x ++ [p]) else x
  | Run i a =>
      match threads x !! i with
      | Some p => let '(s, p, spawned) := tstep showAnswers a (client x) p in MkSys s (<[i := p]> (threads x) ++ spawned)
      | None => x
      end
  end.

Definition run (showAnswers : bool) (l : list move) : sys := fold_left (do_move showAnswers) l sys0.

(** ** What every run keeps *)

Fixpoint of_restart (k : kont) : bool :=
  match k with KRestart => true | KConn k | KFail k => of_restart k | _ => false end.

(** Between the swap that takes [restartFlag] and the store that gives it back. *)
Definition in_restart (p : pc) : bool :=
  match p with
  | RestartTest | Sleep | RestartEnd => true
  | Push _ k | Disc k | DiscClose k _ | DiscWait k | Conn k | Dialing k | Commit k _ | Spawn k => of_restart k
  | _ => false
  end.

(** Continuations that occur. *)
Definition wf_kont (k : kont) : bool := match k with KStart | KRestart => true | _ => false end.
Definition wf_pc (p : pc) : bool :=
  match p with
  | Push _ k => match k with KSend => true | KConn k => wf_kont k | _ => false end
  | Disc k | DiscClose k _ | DiscWait k => match k with KStop | KRestart => true | KFail k => wf_kont k | _ => false end
  | Conn k | Dialing k | Commit k _ | Spawn k => wf_kont k
  | _ => true
  end.

Definition pump (p : pc) : bool :=
  match p with Writer0 | Writer _ | WTest _ _ | WWrite _ _ | Reader0 | Reader _ | PumpFail | Crashed _ => true | _ => false end.

(** A message taken out of the queue and not yet written or dropped. *)
Definition in_hand (p : pc) : list msg := match p with WTest _ m | WWrite _ m | Crashed (Some m) => [m] | _ => [] end.

Definition count (f : pc → bool) (l : list pc) : Z := foldr (λ p n, (if f p then 1 else 0) + n) 0 l.

Lemma count_app f l1 l2 : count f (l1 ++ l2) = count f l1 + count f l2.
Proof. unfold count. induction l1 as [|p l1 IH]; cbn in *; [done|]. rewrite IH. lia. Qed.

Lemma count_insert f l i p p' :
  l !! i = Some p → count f (<[i := p']> l) = count f l - (if f p then 1 else 0) + (if f p' then 1 else 0).
Proof.
  unfold count. revert i. induction l as [|q l IH]; intros [|i] Hi; try done.
  - injection Hi as ->. cbn. lia.
  - specialize (IH i Hi). change (<[S i:=p']> (q :: l)) with (q :: <[i:=p']> l). cbn [foldr]. lia.
Qed.

Lemma count_nonneg f l : 0 ≤ count f l.
Proof. unfold count. induction l as [|p l IH]; cbn in *; [done|]. destruct (f p); lia. Qed.

Definition b2z (b : bool) : Z := if b then 1 else 0.

Record Inv (x : sys) : Prop := {
  i_wf : Forall (λ p, wf_pc p = true) (threads x);
  i_restart : count in_restart (threads x) = b2z (restartFlag (client x));
  i_wg : wg (client x) = count pump (threads x);
  i_cap : (length (queue (client x)) ≤ queue_cap)%nat
}.

(** What one step does to the counters. *)
Lemma tstep_counts sa a s p :
  wf_pc p = true → (length (queue s) ≤ queue_cap)%nat → (in_restart p = true → restartFlag s = true) →
  let '(s', p', sp) := tstep sa a s p in
  wf_pc p' = true ∧ Forall (λ p, wf_pc p = true) sp ∧
  b2z (restartFlag s') - b2z (restartFlag s) = b2z (in_restart p') - b2z (in_restart p) ∧ count in_restart sp = 0 ∧
  wg s' - wg s = b2z (pump p') - b2z (pump p) + count pump sp ∧ (length (queue s') ≤ queue_cap)%nat.
Proof.
  intros Hw Hq Hr.
  assert (Hgo : Forall (λ p, wf_pc p = true) (go_restart s) ∧ count in_restart (go_restart s) = 0 ∧ count pump (go_restart s) = 0).
  { unfold go_restart. destruct (_ && _); by repeat constructor. }
  destruct Hgo as (Hg1 & Hg2 & Hg3).
  destruct p as [| |m|m k| | | | |k|k c|k|k|k|k c|k| |conn|conn m|conn m| |c| |m| ]; cbn [tstep];
    unfold pushWSMsg, disc_locked, conn_locked, dial, commit, writer, write, after_push, push_failed, after_disc, connected,
      connect_failed, set_connecting, close_conn;
    repeat first [case_match | progress cbn in * | progress simplify_eq];
    try (rewrite Hr in * by done); split_and!; try done; try lia.
  all: try (match goal with H : (_ <=? 255)%nat = true |- _ => apply Nat.leb_le in H end;
            rewrite length_app; unfold queue_cap in *; cbn [length]; lia).
  all: try (by repeat constructor).
  all: try (rewrite Hg3; lia).
  all: try (match goal with H : queue _ = _ |- _ => rewrite H in Hq; cbn in Hq; lia end).
  - rewrite H0. reflexivity.
  - rewrite H1. exact Hq.
Qed.

Lemma count_in_restart_flag x i p :
  Inv x → threads x !! i = Some p → in_restart p = true → restartFlag (client x) = true.
Proof.
  intros [_ Hr _ _] Hi Hp. pose proof (count_insert in_restart _ i p Ended Hi) as H. rewrite Hp in H. cbn [in_restart] in H.
  pose proof (count_nonneg in_restart (<[i:=Ended]> (threads x))). destruct (restartFlag (client x)); [done|]. cbn in Hr. lia.
Qed.

Lemma do_move_Inv sa x m : Inv x → Inv (do_move sa x m).
Proof.
  intros HI. destruct m as [p|i a]; cbn [do_move].
  - destruct (user_call p) eqn:E; [|done]. destruct HI as [H1 H2 H3 H4].
    assert (wf_pc p = true ∧ in_restart p = false ∧ pump p = false) as (Ha & Hb & Hc) by by destruct p.
    split; cbn [threads client]; rewrite ?count_app; cbn [count foldr]; rewrite ?Hb, ?Hc; [|lia|lia|done].
    apply Forall_app. split; [done|by constructor].
  - destruct (threads x !! i) as [p|] eqn:Hi; [|done].
    pose proof (count_in_restart_flag x i p HI Hi) as Hflag. destruct HI as [H1 H2 H3 H4].
    pose proof (proj1 (Forall_lookup _ _) H1 i p Hi) as Hw.
    pose proof (tstep_counts sa a (client x) p Hw H4 Hflag) as H.
    destruct (tstep sa a (client x) p) as [[s' p'] sp]. destruct H as (Ha & Hb & Hc & Hd & He & Hf).
    pose proof (count_insert in_restart _ i p p' Hi) as C1. pose proof (count_insert pump _ i p p' Hi) as C2.
    split; cbn [threads client]; rewrite ?count_app; unfold b2z in *; [|lia|lia|done].
    apply Forall_app. split; [|done]. by apply Forall_insert.
Qed.

Lemma run_Inv sa l : Inv (run sa l).
Proof.
  unfold run. assert (H0 : Inv sys0) by (split; cbn; [constructor|done|done|unfold queue_cap; lia]).
  revert H0. generalize sys0. induction l as [|m l IH]; intros x Hx; [done|]. by apply IH, do_move_Inv.
Qed.

(** [C13] Whatever the calls of the client and the interleaving of its
    goroutines: at most one reconnection is in progress, and exactly while the
    flag is set; the wait group counts the pumps that have not ended; and the
    queue never exceeds its capacity. *)
Theorem one_restart sa l :
  let x := run sa l in
  count in_restart (threads x) = (if restartFlag (client x) then 1 else 0) ∧
  wg (client x) = count pump (threads x) ∧
  (length (queue (client x)) ≤ 256)%nat.
Proof. destruct (run_Inv sa l) as [_ H2 H3 H4]. by split_and!. Qed.

(** ** Messages *)

Definition hands (l : list pc) : list msg := l ≫= in_hand.

Lemma hands_insert l i p p' :
  l !! i = Some p → in_hand p ++ hands (<[i := p']> l) ≡ₚ in_hand p' ++ hands l.
Proof.
  unfold hands. revert i. induction l as [|q l IH]; intros [|i] Hi; try done.
  - injection Hi as ->. cbn. rewrite !app_assoc. by rewrite (Permutation_app_comm (in_hand p) (in_hand p')).
  - specialize (IH i Hi). change (<[S i := p']> (q :: l)) with (q :: <[i := p']> l). cbn [mbind list_bind].
    rewrite !(Permutation_app_swap_app _ (in_hand q)). by rewrite IH.
Qed.

(** One step moves messages between the queue, a hand and the past. *)
Lemma tstep_messages sa a s p h :
  pushed s ≡ₚ (taken s).*1 ++ (in_hand p ++ h) ++ queue s →
  let '(s', p', sp) := tstep sa a s p in
  pushed s' ≡ₚ (taken s').*1 ++ (in_hand p' ++ h) ++ queue s' ∧ hands sp = [].
Proof.
  intros H. assert (Hg : hands (go_restart s) = []) by (unfold go_restart; by destruct (_ && _)).
  destruct p as [| |m|m k| | | | |k|k c|k|k|k|k c|k| |conn|conn m|conn m| |c| |m| ]; cbn [tstep];
    unfold pushWSMsg, disc_locked, conn_locked, dial, commit, writer, write, after_push, push_failed, after_disc, connected,
      connect_failed, set_connecting, close_conn;
    repeat first [case_match | progress cbn in * | progress simplify_eq]; (split; [|done]); rewrite H.
  all: rewrite ?fmap_app; cbn; rewrite <- ?app_assoc; try done.
  all: try (by rewrite (Permutation_middle h)).
  all: match goal with H : queue _ = [] |- _ => by rewrite H end.
Qed.

(** [C24] Nothing is sent twice or out of nowhere: under every interleaving
    the messages ever queued are those still in the queue, those a writer is
    holding, and those taken out, each once. *)
Theorem messages_accounted sa l :
  let x := run sa l in
  pushed (client x) ≡ₚ (taken (client x)).*1 ++ hands (threads x) ++ queue (client x).
Proof.
  cbv zeta. unfold run. assert (H0 : pushed (client sys0) ≡ₚ (taken (client sys0)).*1 ++ hands (threads sys0) ++ queue (client sys0)) by done.
  revert H0. generalize sys0. induction l as [|m l IH]; intros x Hx; [done|]. apply IH. clear IH.
  destruct m as [p|i a]; cbn [do_move].
  - destruct (user_call p) eqn:E; [|done]. cbn [client threads]. unfold hands in *. rewrite bind_app. cbn.
    assert (Hp : in_hand p = []) by by destruct p. by rewrite Hp, !app_nil_r.
  - destruct (threads x !! i) as [p|] eqn:Hi; [|done].
    pose proof (hands_insert _ _ _ Ended Hi) as He. cbn [in_hand app] in He.
    rewrite <- He in Hx. apply (tstep_messages sa a) in Hx.
    destruct (tstep sa a (client x) p) as [[s' p'] sp]. destruct Hx as [Hx Hsp]. cbn [client threads].
    unfold hands at 1. rewrite bind_app. fold (hands sp). rewrite Hsp, app_nil_r. rewrite Hx.
    pose proof (hands_insert _ i Ended p' (list_lookup_insert_eq (threads x) i Ended (lookup_lt_Some _ _ _ Hi))) as Hp.
    rewrite list_insert_insert_eq in Hp. cbn [in_hand app] in Hp. by rewrite <- Hp.
Qed.

(** ** Connections

    A client that is started once. *)

Definition is_start (m : move) : bool := match m with Call Start0 => true | _ => false end.
Definition starts (l : list move) : nat := length (filter (λ m, is_start m = true) l).

(** The connections a thread is about to keep or to close. *)
Definition held (p : pc) : option nat := match p with Commit _ c | DiscClose _ c => Some c | _ => None end.
Definition is_held (x : sys) (c : nat) : Prop := ∃ j p, threads x !! j = Some p ∧ held p = Some c.

(** [Start] up to its pumps; what there is only after them. *)
Definition starting (p : pc) : bool :=
  match p with Start0 | Conn KStart | Dialing KStart | Commit KStart _ | Spawn KStart => true | _ => false end.
Definition later (p : pc) : bool := pump p || in_restart p || match p with RestartCAS => true | _ => false end.
Definition dialing (p : pc) : bool := match p with Dialing _ | Commit _ _ => true | _ => false end.

Record Owned (called : bool) (x : sys) : Prop := {
  w_called : called = false → count starting (threads x) = 0 ∧ count later (threads x) = 0;
  w_start : count starting (threads x) ≤ 1 ∧ (count starting (threads x) = 1 → count later (threads x) = 0);
  w_dial : is_Some (wsconn (client x)) → count dialing (threads x) = 0;
  w_open : ∀ c, (c < next_conn (client x))%nat → c ∈ closed (client x) ∨ wsconn (client x) = Some c ∨ is_held x c;
  w_stop : stopped (client x) = true → wsconn (client x) = None ∨ Disc KStop ∈ threads x
}.

(** What one step does to a start, to what follows it, and to the connections. *)
Ltac pump_cases sa a s p :=
  assert (Hgo : count starting (go_restart s) = 0 ∧ count dialing (go_restart s) = 0 ∧ Disc KStop ∉ go_restart s);
  [unfold go_restart; destruct (_ && _); (split; [done|]; split; [done|]; set_solver)|];
  destruct Hgo as (Hgo1 & Hgo2 & Hgo3);
  destruct p as [| |m|m k| | | | |k|k c|k|k|k|k c|k| |conn|conn m|conn m| |c| |m| ]; cbn [tstep];
  unfold pushWSMsg, disc_locked, conn_locked, dial, commit, writer, write, after_push, push_failed, after_disc, connected,
    connect_failed, set_connecting, close_conn, set_queue, set_conn, set_flags, set_wg;
  repeat first [case_match | progress cbn [fst snd negb orb andb queue pushed taken wsconn ctx cancel connecting restartFlag
    stopped stopCtxDone wg next_conn closed cancelled wf_pc wf_kont] in * | progress simplify_eq].

Lemma tstep_starting sa a s p :
  wf_pc p = true →
  let '(s', p', sp) := tstep sa a s p in
  (starting p' = true → starting p = true) ∧ count starting sp = 0 ∧
  (later p' = true → later p = true) ∧
  (count later sp = 0 ∨ later p = true ∨ starting p = true ∧ starting p' = false).
Proof.
  intros Hw. pump_cases sa a s p; split_and!; try done; auto.
  destruct k; try done; [by do 2 right|by right; left].
Qed.

Lemma free_none (s : tc) : bool_decide (is_Some (wsconn s)) || connecting s = false → wsconn s = None.
Proof. intros [H%bool_decide_eq_false _]%orb_false_iff. destruct (wsconn s); [by destruct H|done]. Qed.

Lemma tstep_dialing sa a s p :
  wf_pc p = true →
  let '(s', p', sp) := tstep sa a s p in
  count dialing sp = 0 ∧ (dialing p' = true → dialing p = true ∨ wsconn s = None) ∧
  (is_Some (wsconn s') → wsconn s' = wsconn s ∧ (dialing p' = true → dialing p = true) ∨ dialing p = true ∧ dialing p' = false ∧ stopped s' = false).
Proof.
  intros Hw. pump_cases sa a s p; split_and!; try done; auto.
  - by right; apply free_none.
  - rewrite free_none by done. by intros [? ?].
Qed.

Lemma tstep_connections sa a s p :
  wf_pc p = true →
  let '(s', p', sp) := tstep sa a s p in
  (next_conn s ≤ next_conn s')%nat ∧ closed s ⊆ closed s' ∧
  (∀ c, (c < next_conn s')%nat → (c < next_conn s)%nat ∨ held p' = Some c) ∧
  (∀ c, held p = Some c → c ∈ closed s' ∨ wsconn s' = Some c ∨ held p' = Some c) ∧
  (∀ c, wsconn s = Some c → wsconn s' = Some c ∨ held p' = Some c ∨ dialing p = true).
Proof.
  intros Hw. pump_cases sa a s p; split_and!; intros; cbn [held] in *; simplify_eq; auto; try lia; try set_solver.
  destruct (decide (c = next_conn s)) as [->|]; [by right|left; lia].
Qed.

Lemma tstep_stopping sa a s p :
  wf_pc p = true → p ≠ Start0 →
  let '(s', p', sp) := tstep sa a s p in
  Disc KStop ∉ sp ∧ (stopped s' = true → stopped s = true ∨ p' = Disc KStop) ∧
  (stopped s' = true → wsconn s = None → wsconn s' = None) ∧ (p = Disc KStop → wsconn s' = None).
Proof.
  intros Hw Hp. pump_cases sa a s p; split_and!; intros; simplify_eq; auto; try set_solver.
Qed.

Lemma count_le f g l : (∀ p, p ∈ l → f p = true → g p = true) → count f l ≤ count g l.
Proof.
  intros H. unfold count. induction l as [|p l IH]; [done|]. cbn [foldr].
  assert (Hl : ∀ q, q ∈ l → f q = true → g q = true) by (intros q Hq; apply H; set_solver). specialize (IH Hl).
  pose proof (H p ltac:(set_solver)) as Hp. destruct (f p), (g p); lia.
Qed.

Lemma count_zero f l i p : count f l = 0 → l !! i = Some p → f p = false.
Proof.
  revert i. induction l as [|q l IH]; intros [|i]; try done; unfold count in *; cbn [foldr];
    pose proof (count_nonneg f l) as Hn; unfold count in Hn; intros H Hi.
  - injection Hi as ->. destruct (f p); [lia|done].
  - apply (IH i); [destruct (f q); lia|done].
Qed.

(** At most one thread dials. *)
Lemma one_dialing b x : Inv x → Owned b x → count dialing (threads x) ≤ 1.
Proof.
  intros [Hw Hr _ _] [_ [Hs1 Hs2] _ _ _].
  assert (H : count dialing (threads x) ≤ count starting (threads x) + count in_restart (threads x)).
  { clear -Hw. induction Hw as [|p l Hp _ IH]; [done|]. unfold count in *. cbn [foldr].
    assert (dialing p = true → starting p = true ∨ in_restart p = true).
    { destruct p as [| | | | | | | | | | | |k|k c| | | | | | | | | | ]; try done; destruct k; auto. }
    destruct (dialing p), (starting p), (in_restart p); naive_solver lia. }
  assert (count in_restart (threads x) ≤ count later (threads x)).
  { apply count_le. intros p _ Hp. unfold later. rewrite Hp. by rewrite orb_true_r. }
  pose proof (count_nonneg starting (threads x)). unfold b2z in Hr. destruct (restartFlag (client x)); lia.
Qed.

Section one_step.
Context (b : bool) (x : sys) (i : nat) (p p' : pc) (s' : tc) (sp : list pc) (sa : bool) (a : choice).
Context (Hi : threads x !! i = Some p) (HI : Inv x) (HO : Owned b x) (Hw : wf_pc p = true).
Context (E : tstep sa a (client x) p = (s', p', sp)).

Let y : sys := MkSys s' (<[i := p']> (threads x) ++ sp).

Lemma count_step f : count f (threads y) = count f (threads x) - b2z (f p) + b2z (f p') + count f sp.
Proof. unfold y. cbn [threads]. rewrite count_app, (count_insert f _ i p p' Hi). unfold b2z. lia. Qed.

Lemma stepped_here q : q = p' → threads y !! i = Some q.
Proof.
  intros ->. pose proof (lookup_lt_Some _ _ _ Hi). unfold y. cbn [threads].
  rewrite lookup_app_l by (by rewrite length_insert). by apply list_lookup_insert_eq.
Qed.

Lemma stepped_other j q : threads x !! j = Some q → j ≠ i → threads y !! j = Some q.
Proof.
  intros Hj Hne. unfold y. cbn [threads]. rewrite lookup_app_l; [by rewrite list_lookup_insert_ne|]. rewrite length_insert. by eapply lookup_lt_Some.
Qed.

Lemma step_starting :
  (b = false → count starting (threads y) = 0 ∧ count later (threads y) = 0) ∧
  count starting (threads y) ≤ 1 ∧ (count starting (threads y) = 1 → count later (threads y) = 0).
Proof using Hi HO Hw E.
  destruct HO as [Hc [Hs1 Hs2] _ _ _]. pose proof (tstep_starting sa a (client x) p Hw) as H. rewrite E in H.
  destruct H as (H1 & H2 & H3 & H4). rewrite !count_step, H2.
  assert (Hz : ∀ f, count f (threads x) = 0 → f p = false) by (intros f Hf; by apply (count_zero f (threads x) i)).
  pose proof (count_nonneg starting (threads x)). unfold b2z. split; [|split].
  - intros ->. destruct (Hc eq_refl) as [Ha Hb]. pose proof (Hz _ Ha) as Hp. pose proof (Hz _ Hb) as Hq.
    rewrite Hp, Hq in *. destruct (starting p'); [by specialize (H1 eq_refl)|].
    destruct (later p'); [by specialize (H3 eq_refl)|]. destruct H4 as [?|[?|[? _]]]; [lia|done|done].
  - destruct (starting p'); [rewrite H1 by done|destruct (starting p)]; lia.
  - intros Hone. assert (Hsp : starting p' = true → starting p = true) by done.
    assert (Hone' : count starting (threads x) = 1 ∧ (starting p = true → starting p' = true)).
    { destruct (starting p), (starting p'); try (by specialize (Hsp eq_refl)); split; try done; lia. }
    destruct Hone' as [Hone1 Hsp']. specialize (Hs2 Hone1). pose proof (Hz _ Hs2) as Hq. rewrite Hq in *.
    destruct (later p'); [by specialize (H3 eq_refl)|].
    destruct H4 as [?|[?|[H5 H6]]]; [lia|done|]. rewrite (Hsp' H5) in H6. done.
Qed.

Lemma step_dial : is_Some (wsconn s') → count dialing (threads y) = 0.
Proof using Hi HI HO Hw E.
  intros Hsome. pose proof (one_dialing b x HI HO) as H1. destruct HO as [_ _ Hd _ _].
  pose proof (tstep_dialing sa a (client x) p Hw) as H. rewrite E in H. destruct H as (H2 & _ & H3).
  rewrite count_step, H2. pose proof (count_nonneg dialing (threads y)) as Hn. rewrite count_step, H2 in Hn. unfold b2z in *.
  destruct (H3 Hsome) as [[He Hp]|(Hp & Hp' & _)].
  - rewrite He in Hsome. specialize (Hd Hsome). rewrite Hd in *. destruct (dialing p'); [rewrite Hp in * by done; lia|].
    destruct (dialing p); lia.
  - rewrite Hp, Hp' in *. lia.
Qed.

Lemma step_open c : (c < next_conn s')%nat → c ∈ closed s' ∨ wsconn s' = Some c ∨ is_held y c.
Proof using Hi HO Hw E.
  destruct HO as [_ _ Hd Ho _]. pose proof (tstep_connections sa a (client x) p Hw) as H. rewrite E in H.
  destruct H as (H1 & H2 & H3 & H4 & H5). intros Hc.
  assert (Hhere : held p' = Some c → is_held y c) by (intros Hp; exists i, p'; split; [by apply stepped_here|done]).
  destruct (H3 c Hc) as [Hold|Hp]; [|by auto]. destruct (Ho c Hold) as [Hcl|[Hws|(j & q & Hj & Hq)]].
  - left. by apply H2.
  - destruct (H5 c Hws) as [?|[?|Hdl]]; [by auto..|].
    rewrite (count_zero dialing (threads x) i p) in Hdl; [done| |done]. apply Hd. by rewrite Hws.
  - destruct (decide (j = i)) as [->|Hne].
    + rewrite Hi in Hj. injection Hj as <-. destruct (H4 c Hq) as [?|[?|?]]; auto.
    + right. right. exists j, q. split; [by apply stepped_other|done].
Qed.

Lemma step_stop : stopped s' = true → wsconn s' = None ∨ Disc KStop ∈ threads y.
Proof using Hi HO Hw E.
  destruct HO as [_ _ _ _ Hst]. destruct (decide (p = Start0)) as [->|Hp].
  { cbn in E. by injection E as <- _ _. }
  pose proof (tstep_stopping sa a (client x) p Hw Hp) as H. rewrite E in H. destruct H as (_ & H2 & H3 & H4). intros Hs.
  destruct (H2 Hs) as [Hold|Hp']; [|right; eapply list_elem_of_lookup_2, stepped_here; done].
  destruct (Hst Hold) as [Hn|Hin]; [left; by apply H3|].
  apply list_elem_of_lookup_1 in Hin as [j Hj]. destruct (decide (j = i)) as [->|Hne].
  - rewrite Hi in Hj. injection Hj as ->. left. by apply H4.
  - right. eapply list_elem_of_lookup_2. by apply stepped_other.
Qed.
End one_step.

Lemma call_Owned b x p :
  Owned b x → user_call p = true → (is_start (Call p) = true → b = false) →
  Owned (b || is_start (Call p)) (MkSys (client x) (threads x ++ [p])).
Proof.
  intros [Hc [Hs1 Hs2] Hd Ho Hst] Hu Hb.
  assert (Hf : later p = false ∧ dialing p = false ∧ held p = None ∧ starting p = is_start (Call p)) by by destruct p.
  destruct Hf as (Hl & Hdl & Hh & Hp).
  assert (Hcount : ∀ f, count f (threads x ++ [p]) = count f (threads x) + b2z (f p)).
  { intros f. rewrite count_app. unfold b2z. cbn. lia. }
  split; cbn [client threads]; rewrite ?Hcount, ?Hl, ?Hdl, ?Hp; unfold b2z; rewrite ?Z.add_0_r.
  - intros [-> ->]%orb_false_iff. cbn. rewrite Z.add_0_r. by apply Hc.
  - destruct (is_start (Call p)); [|by rewrite Z.add_0_r]. destruct (Hc (Hb eq_refl)) as [-> ->]. lia.
  - done.
  - intros c Hlt. destruct (Ho c Hlt) as [?|[?|(j & q & Hj & Hq)]]; [by auto..|]. right. right. exists j, q.
    split; [by apply lookup_app_l_Some|done].
  - intros H. destruct (Hst H) as [?|Hin]; [by left|]. right. apply elem_of_app. by left.
Qed.

Lemma do_move_Owned sa b x m :
  Inv x → Owned b x → (is_start m = true → b = false) → Owned (b || is_start m) (do_move sa x m).
Proof.
  intros HI HO Hb. destruct m as [p|i a]; cbn [do_move].
  - destruct (user_call p) eqn:Hu; [by apply call_Owned|]. replace (is_start (Call p)) with false by by destruct p.
    by rewrite orb_false_r.
  - cbn [is_start]. rewrite orb_false_r. destruct (threads x !! i) as [p|] eqn:Hi; [|done].
    pose proof (proj1 (Forall_lookup _ _) (i_wf _ HI) i p Hi) as Hw.
    destruct (tstep sa a (client x) p) as [[s' p'] sp] eqn:E.
    destruct (step_starting b x i p p' s' sp sa a Hi HO Hw E) as (H1 & H2 & H3).
    split; cbn [client]; [done|done|by eapply step_dial|by eapply step_open|by eapply step_stop].
Qed.

Lemma run_Owned sa l : (starts l ≤ 1)%nat → ∃ b, Owned b (run sa l).
Proof.
  assert (H : ∀ l x b, Inv x → Owned b x → (starts l + (if b : bool then 1 else 0) ≤ 1)%nat →
    ∃ b, Owned b (fold_left (do_move sa) l x)).
  { clear l. induction l as [|m l IH]; intros x b HI HO Hn; [by exists b|]. cbn [fold_left].
    unfold starts in Hn. rewrite filter_cons in Hn. apply (IH _ (b || is_start m)); [by apply do_move_Inv| |].
    - apply do_move_Owned; [done..|]. intros Hm. rewrite decide_True in Hn by done. cbn in Hn. destruct b; [lia|done].
    - unfold starts. destruct (is_start m) eqn:Hm; [rewrite decide_True in Hn by done|rewrite decide_False in Hn by done];
        cbn in Hn; destruct b; cbn in *; lia. }
  intros Hl. apply (H l sys0 false); [apply (run_Inv sa [])| |lia].
  split; cbn; done || lia.
Qed.

(** [C14] Whatever its goroutines, its reconnections and the network do, a client
    that is started once never loses a connection: every one that was opened
    is closed, is the one the client keeps, or is in the hands of a thread
    that goes on to keep or close it; and once a stopped client has no such
    thread any more, all its connections are closed. *)
Theorem started_once_releases sa l :
  (starts l ≤ 1)%nat →
  let x := run sa l in
  (∀ c, (c < next_conn (client x))%nat → c ∈ closed (client x) ∨ wsconn (client x) = Some c ∨ is_held x c) ∧
  (stopped (client x) = true → Forall (λ p, held p = None ∧ p ≠ Disc KStop) (threads x) →
   ∀ c, (c < next_conn (client x))%nat → c ∈ closed (client x)).
Proof.
  intros Hl x. destruct (run_Owned sa l Hl) as [b [_ _ _ Ho Hst]]. fold x in Ho, Hst. split; [exact Ho|].
  intros Hs Hq c Hc. rewrite Forall_forall in Hq. destruct (Ho c Hc) as [?|[Hw|(j & q & Hj & Hh)]]; [done| |].
  - destruct (Hst Hs) as [?|Hin]; [congruence|]. by destruct (Hq _ Hin) as [_ ?].
  - apply list_elem_of_lookup_2 in Hj. destruct (Hq _ Hj) as [? _]. congruence.
Qed.

(** ** What can go wrong *)

Definition start_up : list move := Call Start0 :: repeat (Run 0 Good) 6.
(** The writer authenticates, the reader fails, and the client reconnects as
    far as the push of the new authentication. *)
Definition reconnect : list move :=
  [Run 1 Good; Run 1 Take; Run 1 Good; Run 1 Good; Run 2 Good; Run 2 Fail; Run 2 Good] ++ repeat (Run 3 Good) 4 ++
  [Run 1 CtxDone] ++ repeat (Run 3 Good) 7.

(** After a reconnection the authentication can be lost: the writer of
    the new connection may take it while the restart flag is still set, and
    drops it.  The client is then connected, at rest, and messages go out on
    a connection that was never authenticated. *)
Theorem authentication_dropped :
  ∃ l, let x := run false l in
    wsconn (client x) = Some 1%nat ∧ restartFlag (client x) = false ∧ stopped (client x) = false ∧
    Forall (λ p, p = Ended ∨ p = Writer (Some 1%nat) ∨ p = Reader 1) (threads x) ∧
    (User 7, Some 1%nat) ∈ taken (client x) ∧ ((Auth, Some 1%nat) ∉ taken (client x)) ∧ queue (client x) = [].
Proof.
  exists (start_up ++ reconnect ++ [Run 4 Good; Run 4 Take; Run 4 Good; Run 3 Good; Run 5 Good; Call (Send0 (User 7));
                                    Run 6 Good; Run 6 Good; Run 4 Take; Run 4 Good; Run 4 Good]).
  cbv zeta. match goal with |- context [run ?b ?l] => set (x := run b l) end.
  assert (E : (wsconn (client x), restartFlag (client x), stopped (client x), threads x, taken (client x), queue (client x)) =
    (Some 1%nat, false, false, [Ended; Ended; Ended; Ended; Writer (Some 1%nat); Reader 1; Ended],
     [(Auth, Some 0%nat); (Auth, None); (User 7, Some 1%nat)], [])) by (vm_compute; reflexivity).
  clearbody x. injection E as -> -> -> -> -> ->. split_and!; try done.
  - rewrite !Forall_cons. split_and!; auto.
  - set_solver.
  - set_solver.
Qed.

(** A stop between the connection and the first step of its reader
    leaves the reader with a nil connection, on which it calls a method: the
    program crashes. *)
Theorem reader_crashes :
  ∃ l, Crashed None ∈ threads (run false l).
Proof.
  exists (start_up ++ [Call Stop0; Run 3 Good; Run 3 Good; Run 2 Good]).
  apply list_elem_of_lookup. exists 2%nat. vm_compute. reflexivity.
Qed.

(** A reconnection is dialling while the client is stopped and started again:
    both dials succeed, the second connection takes the place of the first,
    and nobody is left to close the first. *)
Definition stale_dial : list move :=
  start_up ++ [Run 1 Good; Run 1 Take; Run 1 Good; Run 1 Good; Run 2 Good; Run 2 Fail; Run 2 Good] ++
  repeat (Run 3 Good) 4 ++ [Run 1 CtxDone] ++ repeat (Run 3 Good) 3 ++
  [Call Stop0; Run 4 Good; Run 4 Good; Call Start0; Run 5 Good; Run 5 Good;
   Run 3 Good; Run 3 Good; Run 5 Good; Run 5 Good] ++ repeat (Run 3 Good) 3 ++ repeat (Run 5 Good) 2.

Theorem stale_dial_leaks :
  let x := run false stale_dial in
  starts stale_dial = 2%nat ∧ (1 < next_conn (client x))%nat ∧
  1%nat ∉ closed (client x) ∧ wsconn (client x) = Some 2%nat ∧ Forall (λ p, held p = None) (threads x).
Proof.
  cbv zeta. split; [vm_compute; reflexivity|].
  match goal with |- context [run ?b ?l] => set (x := run b l) end.
  assert (E : (next_conn (client x), closed (client x), wsconn (client x), threads x) =
    (3%nat, {[0%nat]}, Some 2%nat, [Ended; Ended; Ended; Ended; Ended; Ended; Writer0; Reader0; Writer0; Reader0]))
    by (vm_compute; reflexivity).
  clearbody x. injection E as -> -> -> ->. split; [lia|]. split; [set_solver|]. split; [done|]. by repeat constructor.
Qed.

(** One start, a reconnection and a stop. *)
Definition one_life : list move :=
  start_up ++ [Call Stop0; Run 3 Good; Run 3 Good; Run 3 Good; Run 1 Good; Run 1 CtxDone; Run 3 Good].

Lemma started_once_releases_witness :
  let x := run true one_life in next_conn (client x) = 1%nat ∧ 0%nat ∈ closed (client x).
Proof.
  split; [vm_compute; reflexivity|]. apply (started_once_releases true one_life).
  - vm_compute. lia.
  - vm_compute. reflexivity.
  - apply (bool_decide_unpack _). vm_compute. exact I.
  - vm_compute. lia.
Defined.
End TcPumps.
