(* ===== verification/TcSequential.v ===== *)
(** * The operations of the TrueConf client among its goroutines
    (tc/tcClientSender)

    TcClient.v runs [Start], [Stop] and [wsRestart] one after the other,
    each to its end; TcPumps.v cuts them into the steps between which other
    goroutines run.  Here every history of the first is a schedule of the
    second: the schedule is built call by call, with the pumps brought to
    their end when a connection is closed. *)

From S2P Require Import Prelude GoBytes GoJson TcWire TcClient TcPumps.

Module TcSequential.
Import TcPumps.

Section simulation.
Context (showAnswers : bool).

Definition moves (x y : sys) : Prop := ∃ m, y = do_move showAnswers x m.
Notation reach := (star moves).

(** ** Moves of one thread among the others *)

Lemma reach_step a s p s' p' sp A B L L' :
  L = A ++ p :: B → L' = A ++ p' :: B ++ sp → tstep showAnswers a s p = (s', p', sp) →
  reach (MkSys s L) (MkSys s' L').
Proof.
  intros -> -> H. apply star_one. exists (Run (length A) a). cbn [do_move threads client].
  rewrite list_lookup_middle by done. rewrite H. f_equal.
  rewrite insert_app_r_alt by lia. rewrite Nat.sub_diag. cbn [insert list_insert]. by rewrite <- app_assoc.
Qed.

(** A step that starts no goroutine. *)
Lemma reach_solo a s p s' p' A B L L' :
  L = A ++ p :: B → L' = A ++ p' :: B → tstep showAnswers a s p = (s', p', []) → reach (MkSys s L) (MkSys s' L').
Proof. intros -> -> H. eapply reach_step; [done| |exact H]. by rewrite app_nil_r. Qed.

Lemma reach_call s p A : user_call p = true → reach (MkSys s A) (MkSys s (A ++ [p])).
Proof. intros H. apply star_one. exists (Call p). cbn [do_move]. by rewrite H. Qed.

(** Equalities of lists of threads up to the grouping of their parts. *)
Ltac lists := repeat progress (cbn [app]; rewrite <- ?app_assoc); rewrite ?app_nil_r; reflexivity.
Ltac solo a A B := eapply (reach_solo a _ _ _ _ A B); [lists|lists|].

(** Threads that have ended, or restarts that were not given a turn yet. *)
Definition quiet (Q : list pc) : Prop := Forall (λ p, p = Ended ∨ p = RestartCAS) Q.

Lemma quiet_app Q1 Q2 : quiet Q1 → quiet Q2 → quiet (Q1 ++ Q2).
Proof. apply Forall_app_2. Qed.
Lemma quiet_go s : quiet (go_restart s).
Proof. unfold go_restart. destruct (_ && _); [|constructor]. constructor; [by right|constructor]. Qed.
Lemma quiet_ended : quiet [Ended].
Proof. constructor; [by left|constructor]. Qed.
#[local] Hint Resolve quiet_app quiet_go quiet_ended : core.

(** ** The states that go together *)

Record rel (t : TcClient.TcClient) (s : tc) : Prop := {
  r_wsconn : wsconn s = TcClient.wsconn t;
  r_connecting : connecting s = TcClient.connecting t;
  r_restart : restartFlag s = TcClient.restartFlag t;
  r_stopped : stopped s = TcClient.stopped t;
  r_stopCtx : stopCtxDone s = TcClient.stopCtxDone t;
  r_next : next_conn s = TcClient.fresh_id t;
  r_open : ∀ c, c ∈ TcClient.open t ↔ (c < next_conn s)%nat ∧ c ∉ closed s;
  r_closed : ∀ c, c ∈ closed s → (c < next_conn s)%nat
}.

(** The two pumps of a connection, the context of which is the present one. *)
Definition serving (s : tc) (c : nat) : Prop :=
  wsconn s = Some c ∧ ctx s = Some c ∧ cancel s = true ∧ c ∉ closed s ∧ (c < next_conn s)%nat.

(** Nobody is in the middle of a call. *)
Definition at_rest (t : TcClient.TcClient) (x : sys) : Prop :=
  rel t (client x) ∧ TcClient.connecting t = false ∧ TcClient.restartFlag t = false ∧
  match TcClient.wsconn t with
  | None => quiet (threads x) ∧ wg (client x) = 0
  | Some c => TcClient.stopped t = false ∧ serving (client x) c ∧ wg (client x) = 2 ∧
      ∃ Q1 Q2, threads x = Q1 ++ Writer (Some c) :: Reader c :: Q2 ∧ quiet Q1 ∧ quiet Q2
  end.

(** ** Disconnecting *)

Definition disconnected (s : tc) (k : kont) (c : nat) : tc := set_wg (close_conn (disc_locked s k).1 c) 0.

Lemma disc_none s k A B :
  wsconn s = None →
  reach (MkSys s (A ++ Disc k :: B)) (MkSys (disc_locked s k).1 (A ++ after_disc (disc_locked s k).1 k :: B)).
Proof. intros Hn. solo Good A B. cbn [tstep]. unfold disc_locked. by rewrite Hn. Qed.

(** The writer and, when it has not ended before, the reader end once the
    connection is closed. *)
Lemma pumps_end s c Q1 Q2 (both : bool) :
  ctx s = Some c → c ∈ cancelled s → c ∈ closed s → wg s = (if both then 2 else 1) →
  ∃ E, quiet E ∧
    reach (MkSys s (Q1 ++ Writer (Some c) :: (if both then Reader c else Ended) :: Q2))
          (MkSys (set_wg s 0) (Q1 ++ Ended :: Ended :: Q2 ++ E)).
Proof.
  intros Hx Hcan Hcl Hw.
  assert (H1 : reach (MkSys s (Q1 ++ Writer (Some c) :: (if both then Reader c else Ended) :: Q2))
    (MkSys (set_wg s (wg s - 1)) (Q1 ++ Ended :: (if both then Reader c else Ended) :: Q2))).
  { solo CtxDone Q1 ((if both then Reader c else Ended) :: Q2). cbn [tstep writer]. rewrite Hx, bool_decide_true by done. reflexivity. }
  destruct both; cycle 1.
  { exists []. split; [constructor|]. rewrite app_nil_r. rewrite Hw in H1. exact H1. }
  exists (go_restart (set_wg s (wg s - 1))). split; [auto|]. eapply star_trans; [exact H1|].
  eapply star_trans; [solo Good (Q1 ++ [Ended]) Q2|].
  { cbn [tstep]. by rewrite bool_decide_true. }
  eapply (reach_step Good _ _ _ _ (go_restart (set_wg s (wg s - 1))) (Q1 ++ [Ended]) Q2); [lists|lists|]. cbn [tstep]. do 2 f_equal. cbn. by rewrite Hw.
Qed.

(** Where the pumps are: among the threads before or after the one that
    disconnects, all the others being quiet. *)
Definition pumps_in (c : nat) (both : bool) (A B : list pc) : Prop :=
  ∃ P1 P2, quiet P1 ∧ quiet P2 ∧
    (A = P1 ++ Writer (Some c) :: (if both then Reader c else Ended) :: P2 ∧ quiet B ∨
     B = P1 ++ Writer (Some c) :: (if both then Reader c else Ended) :: P2 ∧ quiet A).

Lemma disc_some s k c (both : bool) A B :
  serving s c → wg s = (if both then 2 else 1) → pumps_in c both A B →
  ∃ A' B', quiet A' ∧ quiet B' ∧
    reach (MkSys s (A ++ Disc k :: B)) (MkSys (disconnected s k c) (A' ++ after_disc (disconnected s k c) k :: B')).
Proof.
  intros (Hc & Hx & Hcan & Hcl & Hlt) Hw (P1 & P2 & H1 & H2 & Hp).
  set (s1 := close_conn (disc_locked s k).1 c).
  assert (Hd : reach (MkSys s (A ++ Disc k :: B)) (MkSys s1 (A ++ DiscWait k :: B))).
  { eapply star_trans.
    - solo Good A B. cbn [tstep]. unfold disc_locked. rewrite Hc. reflexivity.
    - solo Good A B. cbn [tstep]. unfold s1, disc_locked. reflexivity. }
  assert (Hend : ∀ Q1 Q2, ∃ E, quiet E ∧
    reach (MkSys s1 (Q1 ++ Writer (Some c) :: (if both then Reader c else Ended) :: Q2))
          (MkSys (disconnected s k c) (Q1 ++ Ended :: Ended :: Q2 ++ E))).
  { intros Q1 Q2. apply pumps_end; [done| |unfold s1; cbn; set_solver|done]. unfold s1. cbn. rewrite Hx, Hcan. set_solver. }
  assert (Hq : quiet [Ended; Ended]) by (apply (quiet_app [Ended] [Ended]); auto).
  destruct Hp as [[-> HB]|[-> HA]].
  - destruct (Hend P1 (P2 ++ DiscWait k :: B)) as (E & HE & Hr). exists (P1 ++ Ended :: Ended :: P2), (B ++ E).
    split; [apply quiet_app; [done|]; by apply (quiet_app [Ended; Ended])|]. split; [auto|].
    eapply star_trans; [exact Hd|]. rewrite <- app_assoc. cbn [app]. eapply star_trans; [exact Hr|].
    eapply (reach_solo Good _ _ _ _ (P1 ++ Ended :: Ended :: P2) (B ++ E)); [lists|lists|]. reflexivity.
  - destruct (Hend (A ++ DiscWait k :: P1) P2) as (E & HE & Hr). exists A, (P1 ++ Ended :: Ended :: P2 ++ E).
    split; [done|]. split; [apply quiet_app; [done|]; apply (quiet_app [Ended; Ended]); auto|].
    eapply star_trans; [exact Hd|].
    replace (A ++ DiscWait k :: P1 ++ Writer (Some c) :: (if both then Reader c else Ended) :: P2)
      with ((A ++ DiscWait k :: P1) ++ Writer (Some c) :: (if both then Reader c else Ended) :: P2) by lists.
    eapply star_trans; [exact Hr|].
    eapply (reach_solo Good _ _ _ _ A (P1 ++ Ended :: Ended :: P2 ++ E)); [lists|lists|]. reflexivity.
Qed.

Lemma rel_disc_none t s k : rel t s → wsconn s = None → rel (TcClient.wsDisconnect t) (disc_locked s k).1.
Proof.
  intros [H1 H2 H3 H4 H5 H6 H7 H8] Hn. rewrite Hn in H1.
  split; cbn; try done. by rewrite <- H1.
Qed.

Lemma rel_disc_some t s k c : rel t s → serving s c → rel (TcClient.wsDisconnect t) (disconnected s k c).
Proof.
  intros [H1 H2 H3 H4 H5 H6 H7 H8] (Hc & _ & _ & _ & Hlt). rewrite Hc in H1.
  split; cbn; try done.
  - rewrite <- H1. intros c'. rewrite elem_of_difference, H7. set_solver.
  - set_solver.
Qed.

(** ** Connecting *)

(** The writer empties the queue, to the network or, during a restart, to
    nowhere. *)
Lemma drain s c A B :
  c ∉ closed s →
  ∃ tk, reach (MkSys s (A ++ Writer (Some c) :: B)) (MkSys (set_queue s [] (pushed s) tk) (A ++ Writer (Some c) :: B)).
Proof.
  intros Hc. remember (queue s) as q eqn:Eq. revert s Hc Eq. induction q as [|m q IH]; intros s Hc Eq.
  { exists (taken s). replace (set_queue s [] (pushed s) (taken s)) with s by (destruct s; cbn in *; by subst). apply star_refl. }
  set (s1 := set_queue s q (pushed s) (taken s)).
  assert (Ht : reach (MkSys s (A ++ Writer (Some c) :: B)) (MkSys s1 (A ++ WTest (Some c) m :: B))).
  { solo Take A B. cbn [tstep writer]. by rewrite <- Eq. }
  assert (Hw : ∃ tk, reach (MkSys s1 (A ++ WTest (Some c) m :: B)) (MkSys (set_queue s q (pushed s) tk) (A ++ Writer (Some c) :: B))).
  { destruct (restartFlag s || stopped s) eqn:E.
    - exists (taken s ++ [(m, None)]). solo Good A B. cbn [tstep]. change (restartFlag s1 || stopped s1) with (restartFlag s || stopped s).
      rewrite E. reflexivity.
    - exists (taken s ++ [(m, Some c)]). eapply star_trans; [solo Good A B|solo Good A B].
      + cbn [tstep]. change (restartFlag s1 || stopped s1) with (restartFlag s || stopped s). rewrite E. reflexivity.
      + cbn [tstep write]. change (closed s1) with (closed s). rewrite bool_decide_false by done. reflexivity. }
  destruct Hw as [tk Hw]. destruct (IH (set_queue s q (pushed s) tk) Hc eq_refl) as [tk' Hr]. exists tk'.
  eapply star_trans; [exact Ht|]. eapply star_trans; [exact Hw|exact Hr].
Qed.

(** The users of the library can fill the queue. *)
Lemma fill s A :
  stopped s = false → (length (queue s) ≤ queue_cap)%nat →
  ∃ q ps Q, length q = queue_cap ∧ quiet Q ∧ reach (MkSys s A) (MkSys (set_queue s q ps (taken s)) (A ++ Q)).
Proof.
  intros Hs. remember (queue_cap - length (queue s))%nat as n eqn:En. revert s A Hs En.
  induction n as [|n IH]; intros s A Hs En Hl.
  { exists (queue s), (pushed s), []. split; [lia|]. split; [constructor|]. rewrite app_nil_r.
    replace (set_queue s (queue s) (pushed s) (taken s)) with s by by destruct s. apply star_refl. }
  set (s1 := set_queue s (queue s ++ [User 0]) (pushed s ++ [User 0]) (taken s)).
  assert (H1 : reach (MkSys s A) (MkSys s1 (A ++ [Ended]))).
  { eapply star_trans; [apply (reach_call s (Send0 (User 0))); done|].
    eapply star_trans; [solo Good A (@nil pc); cbn [tstep]; rewrite Hs; reflexivity|].
    solo Good A (@nil pc). assert (E : (length (queue s) <? queue_cap)%nat = true) by (apply Nat.ltb_lt; lia).
    cbn [tstep]. unfold pushWSMsg. by rewrite E. }
  assert (E : length (queue s1) = S (length (queue s))) by (unfold s1; cbn [queue set_queue]; by rewrite length_app, Nat.add_1_r).
  destruct (IH s1 (A ++ [Ended])) as (q & ps & Q & Hq & HQ & Hr); [done|rewrite E; lia|rewrite E; lia|].
  exists q, ps, ([Ended] ++ Q). split; [done|]. split; [auto|]. eapply star_trans; [exact H1|]. rewrite app_assoc. exact Hr.
Qed.

(** [Stop], while there is no connection, runs to its end. *)
Definition stopping (s : tc) : tc := (disc_locked (set_flags s (restartFlag s) true true) KStop).1.

Lemma stop_idle s A : wsconn s = None → reach (MkSys s A) (MkSys (stopping s) (A ++ [Ended])).
Proof.
  intros Hn. eapply star_trans; [apply (reach_call s Stop0); done|].
  eapply star_trans; [solo Good A (@nil pc); reflexivity|].
  apply (disc_none (set_flags s (restartFlag s) true true) KStop A []). done.
Qed.

Lemma rel_stopping t s : rel t s → wsconn s = None → rel (TcClient.Stop t) (stopping s).
Proof.
  intros [H1 H2 H3 H4 H5 H6 H7 H8] Hn. rewrite Hn in H1. split; cbn; try done. by rewrite <- H1.
Qed.

(** A dial that succeeds, up to the push of the authentication: the pumps
    have begun and the queue is empty. *)
Definition dialled (s : tc) : tc :=
  set_conn s (wsconn s) (ctx s) (cancel s) (connecting s) (S (next_conn s)) (closed s) (cancelled s).
Definition pumping (s : tc) (tk : list (msg * option nat)) : tc :=
  set_queue (set_wg (commit (dialled s) KStart (next_conn s)).1 (wg s + 2)) [] (pushed s) tk.

Lemma pumps_start s k A B :
  stopped s = false → next_conn s ∉ closed s →
  let c := next_conn s in
  ∃ tk, reach (MkSys s (A ++ Dialing k :: B))
              (MkSys (pumping s tk) (A ++ Push Auth (KConn k) :: B ++ [Writer (Some c); Reader c])).
Proof.
  intros Hs Hc c. set (s1 := (commit (dialled s) KStart c).1).
  assert (H1 : reach (MkSys s (A ++ Dialing k :: B)) (MkSys s1 (A ++ Spawn k :: B))).
  { eapply star_trans; [solo Good A B; reflexivity|]. solo Good A B. cbn [tstep]. unfold s1, commit. cbn. by rewrite Hs. }
  set (s2 := set_wg s1 (wg s + 2)).
  assert (Hcn : wsconn s2 = Some c ∧ closed s2 = closed s ∧ taken s2 = taken s ∧ pushed s2 = pushed s).
  { unfold s2, s1, commit. cbn. by rewrite Hs. }
  destruct Hcn as (E1 & E2 & E3 & E4).
  assert (H2 : reach (MkSys s1 (A ++ Spawn k :: B)) (MkSys s2 (A ++ Push Auth (KConn k) :: B ++ [Writer0; Reader0]))).
  { eapply (reach_step Good _ _ _ _ [Writer0; Reader0] A B); [lists|lists|]. cbn [tstep]. unfold s2, s1, commit. cbn. by rewrite Hs. }
  assert (H3 : reach (MkSys s2 (A ++ Push Auth (KConn k) :: B ++ [Writer0; Reader0]))
                     (MkSys s2 (A ++ Push Auth (KConn k) :: B ++ [Writer (Some c); Reader c]))).
  { eapply star_trans.
    - solo Good (A ++ Push Auth (KConn k) :: B) [Reader0]. cbn [tstep]. rewrite E1. reflexivity.
    - solo Good (A ++ Push Auth (KConn k) :: B ++ [Writer (Some c)]) (@nil pc). cbn [tstep]. by rewrite E1. }
  destruct (drain s2 c (A ++ Push Auth (KConn k) :: B) [Reader c]) as [tk H4]; [by rewrite E2|].
  exists tk. eapply star_trans; [exact H1|]. eapply star_trans; [exact H2|]. eapply star_trans; [exact H3|].
  rewrite <- !app_assoc in H4. cbn [app] in H4. unfold pumping. fold c. fold s1. fold s2. rewrite <- E4. exact H4.
Qed.

(** What an attempt to connect ends with: no connection, or one with its two
    pumps at the end of the list. *)
Definition connect_end (t : TcClient.TcClient) (err : option string) (s : tc) (A B : list pc) : Prop :=
  rel t s ∧ TcClient.connecting t = false ∧ quiet A ∧
  match err with
  | Some _ => TcClient.wsconn t = None ∧ wg s = 0 ∧ quiet B
  | None => ∃ c B1, TcClient.wsconn t = Some c ∧ TcClient.stopped t = false ∧ serving s c ∧ wg s = 2 ∧
              quiet B1 ∧ B = B1 ++ [Writer (Some c); Reader c]
  end.

Definition next_pc (err : option string) (s : tc) (k : kont) : pc :=
  match err with None => connected k | Some _ => connect_failed s k end.

Lemma rel_set_connecting t s b :
  rel t s → rel (TcClient.set_conn t (TcClient.wsconn t) b (TcClient.fresh_id t) (TcClient.open t)) (set_connecting s b).
Proof. by intros [H1 H2 H3 H4 H5 H6 H7 H8]. Qed.

Lemma dial_fails t s k A B :
  rel t s → TcClient.wsconn t = None → wg s = 0 → quiet A → quiet B →
  ∃ s' A' B', (∀ e, connect_end (TcClient.set_conn t (TcClient.wsconn t) false (TcClient.fresh_id t) (TcClient.open t)) (Some e) s' A' B') ∧
    reach (MkSys s (A ++ Dialing k :: B)) (MkSys s' (A' ++ connect_failed s' k :: B')).
Proof.
  intros Hr Hn Hw HA HB. exists (set_connecting s false), A, B. split; [by split; [apply rel_set_connecting|]|].
  solo Fail A B. reflexivity.
Qed.

(** The end of [wsConnect] once there is a token. *)
Definition dial_tail (t : TcClient.TcClient) (env : TcClient.connect_env) : option string * TcClient.TcClient :=
  match TcClient.dial env with
  | Some e => (Some e, TcClient.set_conn t (TcClient.wsconn t) false (TcClient.fresh_id t) (TcClient.open t))
  | None =>
      let c := TcClient.fresh_id t in
      let t := TcClient.set_conn t (TcClient.wsconn t) (TcClient.connecting t) (S c) ({[c]} ∪ TcClient.open t) in
      if TcClient.stopped t then
        (Some "client is stopped"%string, TcClient.set_conn t (TcClient.wsconn t) false (TcClient.fresh_id t) (TcClient.open t ∖ {[c]}))
      else
        let t := TcClient.next_msgId (TcClient.set_conn t (Some c) false (TcClient.fresh_id t) (TcClient.open t)) in
        match TcClient.push env with Some e => (Some e, TcClient.wsDisconnect t) | None => (None, t) end
  end.

Lemma rel_connected t s q ps tk :
  rel t s → stopped s = false →
  let c := TcClient.fresh_id t in
  rel (TcClient.next_msgId (TcClient.set_conn t (Some c) false (S c) ({[c]} ∪ TcClient.open t))) (set_queue (pumping s tk) q ps tk) ∧
  serving (set_queue (pumping s tk) q ps tk) c.
Proof.
  intros [H1 H2 H3 H4 H5 H6 H7 H8] Hs c. unfold c. rewrite <- H6.
  assert (Hc : next_conn s ∉ closed s) by (intros Hin%H8; lia).
  split; [split|split_and!]; cbn; unfold commit; cbn; rewrite ?Hs; cbn; try done; try congruence; try lia.
  - intros c'. rewrite elem_of_union, elem_of_singleton, H7. split.
    + intros [->|[Hl Hn]]; [split; [lia|done]|split; [lia|done]].
    + intros [Hl Hn]. destruct (decide (c' = next_conn s)) as [->|]; [by left|right; split; [lia|done]].
  - intros c' Hin%H8. lia.
Qed.

Lemma dial_sim t s env k A B :
  rel t s → TcClient.wsconn t = None → wg s = 0 → quiet A → quiet B →
  let '(err, t') := dial_tail t env in
  ∃ s' A' B', connect_end t' err s' A' B' ∧ reach (MkSys s (A ++ Dialing k :: B)) (MkSys s' (A' ++ next_pc err s' k :: B')).
Proof.
  intros Hr Hn Hw HA HB. pose proof Hr as [H1 H2 H3 H4 H5 H6 H7 H8].
  assert (Hc : next_conn s ∉ closed s) by (intros Hin%H8; lia).
  unfold dial_tail. destruct (TcClient.dial env) as [e|].
  { destruct (dial_fails t s k A B Hr Hn Hw HA HB) as (s' & A' & B' & He & Hreach). exists s', A', B'. split; [apply He|exact Hreach]. }
  cbv zeta. cbn [TcClient.stopped TcClient.set_conn]. destruct (TcClient.stopped t) eqn:Es.
  - exists (close_conn (set_connecting (dialled s) false) (next_conn s)), A, B. split.
    + split; [|done]. split; cbn; rewrite <- ?H6; try done.
      * congruence.
      * intros c'. rewrite elem_of_difference, !elem_of_union, !elem_of_singleton, H7. split.
        -- intros [[->|[Hl Hd]] Hne]; [done|]. split; [lia|tauto].
        -- intros [Hl Hd]. split; [|tauto]. right. split; [|tauto]. assert (c' ≠ next_conn s) by tauto. lia.
      * intros c' [Hin%H8| ->%elem_of_singleton]%elem_of_union; lia.
    + eapply star_trans; [solo Good A B; reflexivity|]. solo Good A B. cbn [tstep]. unfold commit. cbn. rewrite H4. reflexivity.
  - assert (Hs : stopped s = false) by congruence.
    destruct (pumps_start s k A B Hs Hc) as [tk Hp]. rewrite H6 in Hp. set (c := TcClient.fresh_id t) in *.
    destruct (TcClient.push env) as [e|].
    + destruct (fill (pumping s tk) (A ++ Push Auth (KConn k) :: B ++ [Writer (Some c); Reader c])) as (q & ps & Q & Hq & HQ & Hf).
      { cbn. unfold commit. cbn. by rewrite Hs. }
      { cbn. unfold queue_cap. lia. }
      destruct (rel_connected t s q ps tk Hr Hs) as [Hrel Hserv]. fold c in Hrel, Hserv.
      set (s5 := set_queue (pumping s tk) q ps tk) in *.
      assert (Hw5 : wg s5 = 2) by (cbn; lia).
      destruct (disc_some s5 (KFail k) c true A (B ++ [Writer (Some c); Reader c] ++ Q)) as (A' & B' & HA' & HB' & Hd); [done|done| |].
      { exists B, Q. split; [done|]. split; [done|]. right. split; [lists|done]. }
      exists (disconnected s5 (KFail k) c), A', B'. split.
      * split; [by apply (rel_disc_some _ _ (KFail k) c Hrel Hserv)|]. by split_and!.
      * eapply star_trans; [exact Hp|]. eapply star_trans; [exact Hf|].
        eapply star_trans; [|exact Hd]. eapply (reach_solo Fail _ _ _ _ A (B ++ [Writer (Some c); Reader c] ++ Q)); [lists|lists|].
        cbn [tstep]. unfold pushWSMsg.
        assert (E : (length (queue s5) <? queue_cap)%nat = false) by (apply Nat.ltb_ge; unfold s5; cbn [queue set_queue]; lia).
        assert (E' : set_queue (pumping s tk) q ps (taken (pumping s tk)) = s5) by reflexivity.
        rewrite E', E. reflexivity.
    + destruct (rel_connected t s [Auth] (pushed s ++ [Auth]) tk Hr Hs) as [Hrel Hserv]. fold c in Hrel, Hserv.
      exists (set_queue (pumping s tk) [Auth] (pushed s ++ [Auth]) tk), A, (B ++ [Writer (Some c); Reader c]). split.
      * split; [exact Hrel|]. split; [done|]. split; [done|]. exists c, B. split_and!; try done. cbn. lia.
      * eapply star_trans; [exact Hp|]. solo Good A (B ++ [Writer (Some c); Reader c]). reflexivity.
Qed.

Lemma connect_sim t s tok env k A B :
  rel t s → TcClient.wsconn t = None → TcClient.connecting t = false → wg s = 0 → quiet A → quiet B →
  let '(err, t') := TcClient.wsConnect t tok env in
  ∃ s' A' B', connect_end t' err s' A' B' ∧ reach (MkSys s (A ++ Conn k :: B)) (MkSys s' (A' ++ next_pc err s' k :: B')).
Proof.
  intros Hr Hn Hc Hw HA HB. pose proof (r_wsconn _ _ Hr) as Hws. rewrite Hn in Hws.
  assert (H1 : reach (MkSys s (A ++ Conn k :: B)) (MkSys (set_connecting s true) (A ++ Dialing k :: B))).
  { solo Good A B. cbn [tstep]. unfold conn_locked. rewrite Hws, (r_connecting _ _ Hr), Hc. reflexivity. }
  unfold TcClient.wsConnect. rewrite Hn, Hc. cbn [bool_decide]. rewrite bool_decide_false by (by intros [? [=]]).
  set (t1 := TcClient.set_conn t None true (TcClient.fresh_id t) (TcClient.open t)).
  assert (Hr1 : rel t1 (set_connecting s true)) by (pose proof (rel_set_connecting t s true Hr) as Hx; by rewrite Hn in Hx).
  match goal with |- context [match ?x with Ok _ => _ | Err _ => _ end] => destruct x as [tk|e] end; cycle 1.
  { destruct (dial_fails t1 (set_connecting s true) k A B Hr1 eq_refl Hw HA HB) as (s' & A' & B' & He & Hreach).
    exists s', A', B'. split; [apply (He e)|]. eapply star_trans; [exact H1|exact Hreach]. }
  destruct (TcClient.interrupted env).
  - pose proof (dial_sim (TcClient.Stop t1) (stopping (set_connecting s true)) env k A (B ++ [Ended])
      (rel_stopping _ _ Hr1 Hws) eq_refl Hw HA ltac:(auto)) as Hd.
    change (let '(err, t') := dial_tail (TcClient.Stop t1) env in
      ∃ s' A' B', connect_end t' err s' A' B' ∧ reach (MkSys s (A ++ Conn k :: B)) (MkSys s' (A' ++ next_pc err s' k :: B'))).
    destruct (dial_tail (TcClient.Stop t1) env) as [err t']. destruct Hd as (s' & A' & B' & He & Hreach).
    exists s', A', B'. split; [exact He|]. eapply star_trans; [exact H1|]. eapply star_trans; [|exact Hreach].
    pose proof (stop_idle (set_connecting s true) (A ++ Dialing k :: B) Hws) as Hst. rewrite <- app_assoc in Hst. exact Hst.
  - pose proof (dial_sim t1 (set_connecting s true) env k A B Hr1 eq_refl Hw HA HB) as Hd.
    change (let '(err, t') := dial_tail t1 env in
      ∃ s' A' B', connect_end t' err s' A' B' ∧ reach (MkSys s (A ++ Conn k :: B)) (MkSys s' (A' ++ next_pc err s' k :: B'))).
    destruct (dial_tail t1 env) as [err t']. destruct Hd as (s' & A' & B' & He & Hreach).
    exists s', A', B'. split; [exact He|]. eapply star_trans; [exact H1|exact Hreach].
Qed.

(** ** The operations *)

Lemma rel_flags t s t' r sp sc :
  rel t s → TcClient.wsconn t' = TcClient.wsconn t → TcClient.connecting t' = TcClient.connecting t →
  TcClient.fresh_id t' = TcClient.fresh_id t → TcClient.open t' = TcClient.open t →
  TcClient.restartFlag t' = r → TcClient.stopped t' = sp → TcClient.stopCtxDone t' = sc →
  rel t' (set_flags s r sp sc).
Proof.
  intros [H1 H2 H3 H4 H5 H6 H7 H8] E1 E2 E3 E4 E5 E6 E7. split; cbn; try congruence; [|exact H8]. by rewrite E4.
Qed.

Lemma wsConnect_restartFlag t tok env :
  TcClient.restartFlag (TcClient.wsConnect t tok env).2 = TcClient.restartFlag t.
Proof. unfold TcClient.wsConnect. repeat case_match; cbn; done. Qed.

(** A call that has ended leaves the client at rest. *)
Lemma connect_end_rest t err s A B :
  connect_end t err s A B → TcClient.restartFlag t = false → at_rest t (MkSys s (A ++ Ended :: B)).
Proof.
  intros (Hr & Hc & HA & H) Hf. split; [done|]. split; [done|]. split; [done|]. destruct err as [e|].
  - destruct H as (-> & Hw & HB). split; [|done]. apply quiet_app; [done|]. by apply (quiet_app [Ended]).
  - destruct H as (c & B1 & -> & Hs & Hserv & Hw & HB & ->). split; [done|]. split; [done|]. split; [done|].
    exists (A ++ Ended :: B1), []. split; [cbn [threads]; lists|]. split; [|constructor].
    apply quiet_app; [done|]. by apply (quiet_app [Ended]).
Qed.

Lemma stop_sim t x : at_rest t x → ∃ y, reach x y ∧ at_rest (TcClient.Stop t) y.
Proof.
  destruct x as [s L]. intros (Hr & Hc & Hf & H). cbn [client threads] in *. pose proof (r_wsconn _ _ Hr) as Hws.
  destruct (TcClient.wsconn t) as [c|] eqn:Et.
  - destruct H as (Hs & Hserv & Hw & Q1 & Q2 & -> & H1 & H2).
    set (s1 := set_flags s (restartFlag s) true true).
    assert (Hr1 : rel (TcClient.set_life t false true true) s1) by (by apply (rel_flags t s); rewrite ?(r_restart _ _ Hr)).
    destruct (disc_some s1 KStop c true (Q1 ++ Writer (Some c) :: Reader c :: Q2) []) as (A' & B' & HA' & HB' & Hd); [done|done| |].
    { exists Q1, Q2. split; [done|]. split; [done|]. left. split; [done|constructor]. }
    exists (MkSys (disconnected s1 KStop c) (A' ++ Ended :: B')). split.
    + eapply star_trans; [apply (reach_call s Stop0); done|].
      eapply star_trans; [|exact Hd]. solo Good (Q1 ++ Writer (Some c) :: Reader c :: Q2) (@nil pc). reflexivity.
    + split; [by apply (rel_disc_some _ s1 KStop c Hr1)|]. split; [done|]. split; [done|]. cbn. split; [|done].
      apply quiet_app; [done|]. by apply (quiet_app [Ended]).
  - destruct H as [HL Hw]. exists (MkSys (stopping s) (L ++ [Ended])). split; [by apply stop_idle|].
    split; [by apply rel_stopping|]. split; [done|]. split; [done|]. cbn. auto.
Qed.

(** on a client that has its connection. *)
Lemma connect_refused s k c A B :
  wsconn s = Some c → reach (MkSys s (A ++ Conn k :: B)) (MkSys s (A ++ connect_failed s k :: B)).
Proof. intros H. solo Good A B. cbn [tstep]. unfold conn_locked. rewrite H. reflexivity. Qed.

Lemma start_sim t x auth issued env : at_rest t x → ∃ y, reach x y ∧ at_rest (TcClient.Start t auth issued env).2 y.
Proof.
  destruct x as [s L]. intros Hrest. unfold TcClient.Start. destruct (TcClient.started t); [exists (MkSys s L); split; [apply star_refl|done]|].
  destruct Hrest as (Hr & Hc & Hf & H). cbn [client threads] in *. pose proof (r_wsconn _ _ Hr) as Hws.
  set (s1 := set_flags s (restartFlag s) false (stopCtxDone s)).
  set (t1 := TcClient.set_life t true false (TcClient.stopCtxDone t)).
  assert (Hrel : ∀ t', TcClient.wsconn t' = TcClient.wsconn t → TcClient.connecting t' = TcClient.connecting t →
    TcClient.fresh_id t' = TcClient.fresh_id t → TcClient.open t' = TcClient.open t →
    TcClient.restartFlag t' = TcClient.restartFlag t → TcClient.stopped t' = false → TcClient.stopCtxDone t' = TcClient.stopCtxDone t →
    rel t' s1).
  { intros t' E1 E2 E3 E4 E5 E6 E7. apply (rel_flags t s); try done; rewrite ?(r_restart _ _ Hr), ?(r_stopCtx _ _ Hr); done. }
  assert (H0 : reach (MkSys s L) (MkSys s1 (L ++ [Conn KStart]))).
  { eapply star_trans; [apply (reach_call s Start0); done|]. solo Good L (@nil pc). reflexivity. }
  destruct (TcClient.wsconn t) as [c|] eqn:Et.
  - (* connected already: the call fails, and everything else stays *)
    assert (Hrest : ∀ t', TcClient.wsconn t' = Some c → TcClient.connecting t' = false → TcClient.fresh_id t' = TcClient.fresh_id t →
      TcClient.open t' = TcClient.open t → TcClient.restartFlag t' = false → TcClient.stopped t' = false →
      TcClient.stopCtxDone t' = TcClient.stopCtxDone t → ∃ y, reach (MkSys s L) y ∧ at_rest t' y).
    { intros t' E1 E2 E3 E4 E5 E6 E7. exists (MkSys s1 (L ++ [Ended])). split.
      - eapply star_trans; [exact H0|]. by apply (connect_refused s1 KStart c L []).
      - destruct H as (Hs & Hserv & Hw & Q1 & Q2 & -> & H1 & H2).
        split; [apply Hrel; congruence|]. split; [done|]. split; [done|]. rewrite E1. split; [done|]. split; [exact Hserv|]. split; [done|].
        exists Q1, (Q2 ++ [Ended]). split; [cbn [threads]; lists|auto]. }
    assert (Hcon : ∀ tk tok, TcClient.wsConnect (TcClient.set_token t1 tk issued tok) tk env = (Some "already connected"%string, TcClient.set_token t1 tk issued tok)).
    { intros tk tok. unfold TcClient.wsConnect. cbn [TcClient.wsconn TcClient.set_token TcClient.set_life t1]. rewrite Et.
      by rewrite bool_decide_true by (by eexists). }
    destruct (TcClient.getAuthorizationToken auth).1.1 as [a|e].
    + rewrite Hcon. apply Hrest; done.
    + apply Hrest; done.
  - destruct H as [HL Hw]. destruct (TcClient.getAuthorizationToken auth).1.1 as [a|e].
    + set (t2 := TcClient.set_token t1 _ _ _). set (tk := TcWire.AccessToken a).
      assert (Hr2 : rel t2 s1) by by apply Hrel.
      pose proof (connect_sim t2 s1 tk env KStart L [] Hr2 Et Hc Hw HL ltac:(constructor)) as Hsim.
      pose proof (wsConnect_restartFlag t2 tk env) as Hfl.
      destruct (TcClient.wsConnect t2 tk env) as [err t']. destruct Hsim as (s' & A' & B' & He & Hreach). cbn [snd] in *.
      exists (MkSys s' (A' ++ Ended :: B')). split.
      * eapply star_trans; [exact H0|]. destruct err; exact Hreach.
      * apply (connect_end_rest _ err).
        -- destruct err as [e|]; [|exact He]. destruct He as ([H1 H2 H3 H4 H5 H6 H7 H8] & H9). split; [by split|exact H9].
        -- destruct err; cbn; rewrite Hfl; exact Hf.
    + destruct (dial_fails (TcClient.set_conn t1 None true (TcClient.fresh_id t1) (TcClient.open t1)) (set_connecting s1 true) KStart L [])
        as (s' & A' & B' & He & Hreach); [| done|done|done|constructor|].
      { pose proof (rel_set_connecting t1 s1 true ltac:(by apply Hrel)) as Hx. cbn [TcClient.wsconn t1 TcClient.set_life] in Hx. by rewrite Et in Hx. }
      exists (MkSys s' (A' ++ Ended :: B')). split.
      * eapply star_trans; [exact H0|]. eapply star_trans; [|exact Hreach].
        solo Good L (@nil pc). cbn [tstep]. unfold conn_locked. cbn. rewrite Hws, (r_connecting _ _ Hr), Hc. reflexivity.
      * apply (connect_end_rest _ (Some e)); [|exact Hf]. destruct (He e) as ([H1 H2 H3 H4 H5 H6 H7 H8] & H9 & H10 & _ & H11 & H12).
        split; [|cbn; rewrite ?Et, ?Hc; by split_and!]. split; cbn; rewrite ?Et, ?Hc; done.
Qed.

(** One turn that has begun with no connection, up to its end or to the
    sleep of the next one. *)
Lemma test_sim t s A B :
  rel t s → TcClient.wsconn t = None → TcClient.stopped t = false →
  ∃ s', rel (TcClient.wsDisconnect t) s' ∧ wg s' = wg s ∧ reach (MkSys s (A ++ RestartTest :: B)) (MkSys s' (A ++ Sleep :: B)).
Proof.
  intros Hr Hn Hs. pose proof (r_wsconn _ _ Hr) as Hws. rewrite Hn in Hws.
  exists (disc_locked s KRestart).1. split; [by apply rel_disc_none|]. split; [done|].
  eapply star_trans; [|apply (disc_none s KRestart A B Hws)].
  solo Good A B. cbn [tstep]. by rewrite (r_stopped _ _ Hr), Hs.
Qed.

(** The loop of [wsRestart], from where the old connection is closed. *)
Lemma loop_sim env : ∀ t s count A B r t' sl,
  rel (TcClient.wsDisconnect t) s → TcClient.stopped t = false → wg s = 0 → quiet A → quiet B →
  TcClient.restart_loop t count env = (r, t', sl) → r ≠ TcClient.StillTrying →
  ∃ s' A' B' err, connect_end t' err s' A' B' ∧ TcClient.restartFlag t' = TcClient.restartFlag t ∧
    reach (MkSys s (A ++ Sleep :: B)) (MkSys s' (A' ++ RestartEnd :: B')).
Proof.
  induction env as [|e env IH]; intros t s count A B r t' sl Hr Hs Hw HA HB Hl Hne;
    cbn [TcClient.restart_loop] in Hl; [by injection Hl as <- <- <-|].
  rewrite Hs in Hl. set (t0 := TcClient.wsDisconnect t) in *.
  set (t1 := if (1 <? count) && TcClient.stopped_asleep e then TcClient.Stop t0 else t0) in *.
  assert (H1 : ∃ s1 B1, rel t1 s1 ∧ TcClient.wsconn t1 = None ∧ TcClient.connecting t1 = false ∧
    TcClient.restartFlag t1 = TcClient.restartFlag t ∧ wg s1 = 0 ∧ quiet B1 ∧
    reach (MkSys s (A ++ Sleep :: B)) (MkSys s1 (A ++ Sleep :: B1))).
  { pose proof (r_wsconn _ _ Hr) as Hws. unfold t1. destruct (_ && _).
    - exists (stopping s), (B ++ [Ended]). split; [by apply rel_stopping|]. split_and!; try done; [auto|].
      pose proof (stop_idle s (A ++ Sleep :: B) Hws) as H. rewrite <- app_assoc in H. exact H.
    - exists s, B. split_and!; try done. apply star_refl. }
  destruct H1 as (s1 & B1 & Hr1 & Hn1 & Hc1 & Hf1 & Hw1 & HB1 & Hreach). clearbody t1. rewrite <- Hf1.
  destruct ((1 <? count) && TcClient.stopCtxDone t1) eqn:Ex.
  { injection Hl as <- <- <-. exists s1, A, B1, (Some ""%string). split; [by split_and!|]. split; [done|].
    eapply star_trans; [exact Hreach|]. solo Fail A B1. cbn [tstep]. rewrite (r_stopCtx _ _ Hr1).
    apply andb_true_iff in Ex as [_ ->]. done. }
  pose proof (connect_sim t1 s1 "" (TcClient.conn_env e) KRestart A B1 Hr1 Hn1 Hc1 Hw1 HA HB1) as Hcon.
  pose proof (wsConnect_restartFlag t1 "" (TcClient.conn_env e)) as Hfl.
  destruct (TcClient.wsConnect t1 "" (TcClient.conn_env e)) as [err t2]. destruct Hcon as (s2 & A2 & B2 & He & Hreach2).
  cbn [snd] in Hfl. rewrite <- Hfl.
  assert (H2 : reach (MkSys s (A ++ Sleep :: B)) (MkSys s2 (A2 ++ next_pc err s2 KRestart :: B2))).
  { eapply star_trans; [exact Hreach|]. eapply star_trans; [|exact Hreach2]. solo Good A B1. reflexivity. }
  destruct err as [m|]; [|injection Hl as <- <- <-; by exists s2, A2, B2, None].
  cbn [next_pc connect_failed] in H2. pose proof He as (Hr2 & Hc2 & HA2 & Hn2 & Hw2 & HB2). rewrite (r_stopped _ _ Hr2) in H2.
  destruct (TcClient.stopped t2) eqn:Es2; [injection Hl as <- <- <-; by exists s2, A2, B2, (Some m)|].
  destruct (TcClient.restart_loop t2 (count + 1) env) as [[r2 t3] sl2] eqn:El. injection Hl as <- <- <-.
  destruct (test_sim t2 s2 A2 B2 Hr2 Hn2 Es2) as (s3 & Hr3 & Hw3 & Hreach3).
  destruct (IH t2 s3 (count + 1) A2 B2 r2 t3 sl2) as (s4 & A4 & B4 & err & He4 & Hf4 & Hreach4); try done; [congruence|].
  exists s4, A4, B4, err. split; [done|]. split; [done|]. eapply star_trans; [exact H2|]. eapply star_trans; [exact Hreach3|exact Hreach4].
Qed.

(** A reconnection: the reader sees the connection fail and starts it. *)
Lemma restart_sim t x c env r t' sl :
  at_rest t x → TcClient.wsconn t = Some c → TcClient.wsRestart t env = Some (r, t', sl) → r ≠ TcClient.StillTrying →
  ∃ y, reach x y ∧ at_rest t' y.
Proof.
  destruct x as [s L]. intros (Hr & Hc & Hf & H) Hn. rewrite Hn in H. cbn [client threads] in *.
  destruct H as (Hs & Hserv & Hw & Q1 & Q2 & -> & H1 & H2). unfold TcClient.wsRestart. rewrite Hf.
  destruct (TcClient.restart_loop (TcClient.set_restart t true) 1 env) as [[r0 t0] sl0] eqn:El. intros [= <- <- <-] Hne.
  set (s1 := set_wg s 1). set (s2 := set_flags s1 true (stopped s) (stopCtxDone s)).
  assert (Ha : reach (MkSys s (Q1 ++ Writer (Some c) :: Reader c :: Q2)) (MkSys s1 (Q1 ++ Writer (Some c) :: Ended :: Q2 ++ [RestartCAS]))).
  { eapply star_trans.
    - solo Fail (Q1 ++ [Writer (Some c)]) Q2. cbn [tstep]. destruct Hserv as (_ & _ & _ & Hcl & _). by rewrite bool_decide_false.
    - eapply (reach_step Good _ _ _ _ [RestartCAS] (Q1 ++ [Writer (Some c)]) Q2); [lists|lists|].
      cbn [tstep]. unfold go_restart. rewrite (r_stopped _ _ Hr), Hs, (r_restart _ _ Hr), Hf, Hw. reflexivity. }
  assert (Hb : reach (MkSys s1 (Q1 ++ Writer (Some c) :: Ended :: Q2 ++ [RestartCAS]))
                     (MkSys s2 ((Q1 ++ Writer (Some c) :: Ended :: Q2) ++ [Disc KRestart]))).
  { eapply star_trans; [solo Good (Q1 ++ Writer (Some c) :: Ended :: Q2) (@nil pc)|solo Good (Q1 ++ Writer (Some c) :: Ended :: Q2) (@nil pc)].
    - cbn [tstep]. change (restartFlag s1) with (restartFlag s). rewrite (r_restart _ _ Hr), Hf. reflexivity.
    - cbn. unfold s2. rewrite (r_stopped _ _ Hr), Hs. reflexivity. }
  assert (Hr2 : rel (TcClient.set_restart t true) s2) by (destruct Hr; by split).
  destruct (disc_some s2 KRestart c false (Q1 ++ Writer (Some c) :: Ended :: Q2) []) as (A & B & HA & HB & Hd); [done|done| |].
  { exists Q1, Q2. split; [done|]. split; [done|]. left. split; [done|constructor]. }
  destruct (loop_sim env (TcClient.set_restart t true) (disconnected s2 KRestart c) 1 A B r0 t0 sl0) as (s3 & A3 & B3 & err & He & Hf3 & Hl);
    [by apply (rel_disc_some _ s2 KRestart c Hr2)|done..|].
  exists (MkSys (set_flags s3 false (stopped s3) (stopCtxDone s3)) (A3 ++ Ended :: B3)). split.
  - eapply star_trans; [exact Ha|]. eapply star_trans; [exact Hb|]. eapply star_trans; [exact Hd|].
    eapply star_trans; [exact Hl|]. solo Good A3 B3. reflexivity.
  - apply (connect_end_rest _ err); [|done]. destruct He as ([G1 G2 G3 G4 G5 G6 G7 G8] & He). split; [by split|exact He].
Qed.

(** ** Histories *)

Inductive op :=
| OStart (auth : list TcClient.http_answer) (issued : Time) (env : TcClient.connect_env)
| OStop
| ORestart (env : list TcClient.restart_env).

(** What a call leaves of the client; a reconnection takes a connection that
    failed, and is followed to its end. *)
Definition run_op (t : TcClient.TcClient) (o : op) : option TcClient.TcClient :=
  match o with
  | OStart auth issued env => Some (TcClient.Start t auth issued env).2
  | OStop => Some (TcClient.Stop t)
  | ORestart env =>
      match TcClient.wsconn t, TcClient.wsRestart t env with
      | Some _, Some (TcClient.Connected, t', _) | Some _, Some (TcClient.AbortedStopped, t', _)
      | Some _, Some (TcClient.AbortedCancelled, t', _) => Some t'
      | _, _ => None
      end
  end.

Fixpoint run_ops (t : TcClient.TcClient) (l : list op) : option TcClient.TcClient :=
  match l with [] => Some t | o :: l => t' ← run_op t o; run_ops t' l end.

Lemma op_sim t x o t' : at_rest t x → run_op t o = Some t' → ∃ y, reach x y ∧ at_rest t' y.
Proof.
  intros Hx. destruct o as [auth issued env| |env]; cbn [run_op].
  - intros [= <-]. by apply start_sim.
  - intros [= <-]. by apply stop_sim.
  - destruct (TcClient.wsconn t) as [c|] eqn:Et; [|done].
    destruct (TcClient.wsRestart t env) as [[[r t1] sl]|] eqn:E; [|done]. intros H.
    apply (restart_sim t x c env r t' sl); [done|done| |by destruct r]. rewrite E. by destruct r; simplify_eq.
Qed.

Lemma ops_sim l : ∀ t x t', at_rest t x → run_ops t l = Some t' → ∃ y, reach x y ∧ at_rest t' y.
Proof.
  induction l as [|o l IH]; intros t x t' Hx; cbn [run_ops].
  - intros [= <-]. exists x. split; [apply star_refl|done].
  - intros (t1 & H1 & H2)%bind_Some. destruct (op_sim t x o t1 Hx H1) as (y & Hxy & Hy).
    destruct (IH t1 y t' Hy H2) as (z & Hyz & Hz). exists z. split; [by eapply star_trans|done].
Qed.

Lemma reach_moves x y : reach x y → ∃ ms, y = fold_left (do_move showAnswers) ms x.
Proof.
  induction 1 as [x|x y z [m ->] _ (ms & ->)]; [by exists []|]. by exists (m :: ms).
Qed.

(** [C20] Every history of [Start], [Stop] and reconnections one after the
    other, whatever the network answers, is a run of the client's goroutines:
    some choice of calls, steps and environment brings the system to rest
    with the same connection, flags, open connections and pumps as the
    history leaves.  So what is proved of all runs of the goroutines holds of
    the histories. *)
Theorem sequential_runs_included l t :
  run_ops TcClient.NewTcClient l = Some t → ∃ ms, at_rest t (run showAnswers ms).
Proof.
  intros H. destruct (ops_sim l TcClient.NewTcClient sys0 t) as (y & Hr & Hy); [|done|].
  { split; [split; cbn; try done; intros c; set_unfold; lia|]. split; [done|]. split; [done|]. cbn. split; [constructor|done]. }
  destruct (reach_moves _ _ Hr) as [ms ->]. by exists ms.
Qed.
End simulation.

(** ** A concrete history *)

(** A start, a reconnection that backs off twice, and a stop. *)
Definition one_life : list op :=
  [OStart [TcClient.good_token] (1000 * Second) TcClient.good_env; ORestart TcClient.two_failures; OStop].

Lemma sequential_runs_included_witness :
  ∃ t ms, run_ops TcClient.NewTcClient one_life = Some t ∧ at_rest t (run false ms) ∧
    TcClient.stopped t = true ∧ TcClient.fresh_id t = 2%nat ∧ next_conn (client (run false ms)) = 2%nat.
Proof.
  destruct (run_ops TcClient.NewTcClient one_life) as [t|] eqn:E; [|by vm_compute in E].
  destruct (sequential_runs_included false one_life t E) as [ms Hms]. exists t, ms. split; [done|]. split; [exact Hms|].
  assert (Ef : (TcClient.stopped t, TcClient.fresh_id t) = (true, 2%nat)).
  { vm_compute in E. injection E as <-. reflexivity. }
  injection Ef as E1 E2. split; [done|]. split; [done|]. by rewrite (r_next _ _ (proj1 Hms)).
Defined.
End TcSequential.
