(* ===== verification/TcToken.v ===== *)
(** * TrueConf client: what the log shows of a token answer
    (tc/tcClientSender/tcClientHTTP.go, safeTokenBody) *)

From S2P Require Import Prelude GoBytes GoJson TcWire.

Module TcToken.

Definition quote : Z := 34.
Definition colon : Z := 58.

(** The field the expression looks for, with its quotes. *)
Definition key : bytes := quote :: bytes_of_string "access_token" ++ [quote].
Definition redacted : bytes := key ++ [colon; quote] ++ bytes_of_string "<redacted>" ++ [quote].

(** [\s] *)
Definition is_space (c : Z) : bool := (c =? 9) || (c =? 10) || (c =? 12) || (c =? 13) || (c =? 32).

Fixpoint skip_space (l : bytes) : bytes :=
  match l with c :: l' => if is_space c then skip_space l' else l | [] => [] end.

(** Anything but quotes, then the closing quote: what comes after it. *)
Fixpoint after_quote (l : bytes) : option bytes :=
  match l with [] => None | c :: l => if c =? quote then Some l else after_quote l end.

Definition expect (c : Z) (l : bytes) : option bytes :=
  match l with x :: l => if x =? c then Some l else None | [] => None end.

(** A match of [tokenFieldRe] at the start of the text: what follows it. *)
Definition match_field (l : bytes) : option bytes :=
  if bytes_prefix key l then
    match expect colon (skip_space (drop (length key) l)) with
    | Some l => match expect quote (skip_space l) with Some l => after_quote l | None => None end
    | None => None
    end
  else None.

(** [ReplaceAllString]; every turn drops a byte at least, so the length of
    the text is fuel enough. *)
Fixpoint replace_loop (fuel : nat) (l : bytes) : bytes :=
  match fuel, l with
  | S fuel, c :: l' =>
      match match_field l with
      | Some rest => redacted ++ replace_loop fuel rest
      | None => c :: replace_loop fuel l'
      end
  | _, _ => []
  end.

Definition replace (l : bytes) : bytes := replace_loop (length l) l.

Definition max : nat := 256.

Definition safeTokenBody (b : bytes) : bytes := take max (replace b).

(** ** Lemmas *)

Lemma skip_space_length l : (length (skip_space l) ≤ length l)%nat.
Proof. induction l as [|c l IH]; cbn; [done|]. destruct (is_space c); cbn; lia. Qed.

Lemma after_quote_length l r : after_quote l = Some r → (length r < length l)%nat.
Proof. revert r. induction l as [|c l IH]; intros r; [done|]. cbn. destruct (_ =? _); [intros [= <-]; lia|]. intros H%IH. lia. Qed.

Lemma expect_length c l r : expect c l = Some r → (length r < length l)%nat.
Proof. destruct l as [|x l]; [done|]. cbn. destruct (_ =? _); [|done]. intros [= <-]. lia. Qed.

Lemma match_field_length l r : match_field l = Some r → (length r < length l)%nat.
Proof.
  unfold match_field. destruct (bytes_prefix key l); [|done].
  destruct (expect colon _) as [l1|] eqn:E1; [|done]. destruct (expect quote _) as [l2|] eqn:E2; [|done].
  intros E3%after_quote_length. apply expect_length in E1, E2.
  pose proof (skip_space_length l1). pose proof (skip_space_length (drop (length key) l)). rewrite length_drop in *. lia.
Qed.

Lemma replace_fuel n m l : (length l ≤ n)%nat → (length l ≤ m)%nat → replace_loop n l = replace_loop m l.
Proof.
  revert m l. induction n as [|n IH]; intros [|m] [|c l] Hn Hm; cbn in Hn, Hm; try lia; try done.
  cbn [replace_loop]. destruct (match_field (c :: l)) as [r|] eqn:E.
  - apply match_field_length in E. cbn in E. f_equal. apply IH; lia.
  - f_equal. apply IH; lia.
Qed.

Lemma replace_cons c l :
  replace (c :: l) = match match_field (c :: l) with Some rest => redacted ++ replace rest | None => c :: replace l end.
Proof.
  unfold replace. cbn [length replace_loop]. destruct (match_field (c :: l)) as [r|] eqn:E; [|done].
  apply match_field_length in E. cbn in E. f_equal. apply replace_fuel; lia.
Qed.

(** The field as a server writes it, with a value without quotes. *)
Definition field (sp1 sp2 tok : bytes) : bytes := key ++ sp1 ++ [colon] ++ sp2 ++ [quote] ++ tok ++ [quote].

Lemma skip_space_app sp c l : Forall (λ c, is_space c = true) sp → is_space c = false → skip_space (sp ++ c :: l) = c :: l.
Proof. intros Hs Hc. induction Hs as [|x sp Hx Hs IH]; cbn; [by rewrite Hc|]. by rewrite Hx. Qed.

Lemma after_quote_app tok l : quote ∉ tok → after_quote (tok ++ quote :: l) = Some l.
Proof.
  induction tok as [|c tok IH]; intros Hn; cbn; [done|]. destruct (c =? quote) eqn:E; bool_to_prop; [set_solver|].
  apply IH. set_solver.
Qed.

Lemma match_field_field sp1 sp2 tok l :
  Forall (λ c, is_space c = true) sp1 → Forall (λ c, is_space c = true) sp2 → quote ∉ tok →
  match_field (field sp1 sp2 tok ++ l) = Some l.
Proof.
  intros H1 H2 Hq. unfold match_field, field. rewrite <- !app_assoc.
  assert (Hp : bytes_prefix key (key ++ sp1 ++ [colon] ++ sp2 ++ [quote] ++ tok ++ [quote] ++ l) = true) by (apply bytes_prefix_spec; by eexists).
  rewrite Hp, drop_app_length. cbn [app]. rewrite skip_space_app by done. cbn [expect]. rewrite Z.eqb_refl.
  rewrite skip_space_app by done. cbn [expect]. rewrite Z.eqb_refl. by apply after_quote_app.
Qed.
(** A match cannot begin before the field, when the key does not occur there:
    the key overlaps itself by its quotes only. *)
Lemma match_field_before s t :
  s ≠ [] → bytes_prefix key s = false → match_field (s ++ key ++ t) = None.
Proof.
  intros Hs Hp. unfold match_field. destruct (bytes_prefix key (s ++ key ++ t)) eqn:E; [|done].
  apply bytes_prefix_spec in E as [u E]. destruct (decide (length key ≤ length s)%nat) as [Hl|Hl].
  - assert (Hpre : bytes_prefix key s = true); [|congruence]. apply bytes_prefix_spec. exists (drop (length key) s).
    rewrite <- (take_drop (length key) s) at 1. f_equal.
    apply (f_equal (take (length key))) in E. rewrite take_app_le in E by done. by rewrite take_app_length in E.
  - assert (Hk : s = take (length s) key).
    { apply (f_equal (take (length s))) in E. rewrite take_app_length in E. by rewrite take_app_le in E by lia. }
    assert (Hd : take (length key - length s) key = drop (length s) key).
    { apply (f_equal (drop (length s))) in E. rewrite drop_app_length in E. rewrite drop_app_le in E by lia.
      apply (f_equal (take (length key - length s))) in E. rewrite take_app_le in E by lia.
      rewrite E. rewrite take_app_le by (rewrite length_drop; lia).
      rewrite take_ge; [done|]. rewrite length_drop. lia. }
    assert (Hlen : (1 ≤ length s ≤ 13)%nat).
    { destruct s; [done|]. cbn [length] in *. change (length key) with 14%nat in Hl. lia. }
    assert (H13 : length s = 13%nat).
    { revert Hd. assert (Hall : forallb (λ k, negb (bool_decide (take (14 - k) key = drop k key))) (seq 1 12) = true) by (vm_compute; reflexivity).
      rewrite forallb_forall in Hall. intros Hd. destruct (decide (length s = 13)%nat); [done|].
      specialize (Hall (length s) ltac:(apply in_seq; lia)). apply negb_true_iff in Hall.
      apply bool_decide_eq_false in Hall. by destruct Hall. }
    rewrite H13 in Hk. rewrite Hk. cbn. reflexivity.
Qed.

Lemma replace_before pre t :
  (∀ a b, pre ≠ a ++ key ++ b) → replace (pre ++ key ++ t) = pre ++ replace (key ++ t).
Proof.
  induction pre as [|c pre IH]; intros Hn; [done|]. cbn [app]. rewrite replace_cons.
  assert (Hp : bytes_prefix key (c :: pre) = false).
  { apply not_true_is_false. intros [u Hu]%bytes_prefix_spec. by apply (Hn [] u). }
  pose proof (match_field_before (c :: pre) t ltac:(done) Hp) as Hm. cbn [app] in Hm. rewrite Hm. f_equal. apply IH.
  intros a b ->. by apply (Hn (c :: a) b).
Qed.


Definition answer (tok : string) : bytes :=
  [123] ++ field [] [32] (bytes_of_string tok) ++ [44; quote] ++ bytes_of_string "expires_at" ++ [quote; colon; 49; 125].


(** The expression takes an escaped quote for the end of the token.  An
    answer whose token holds one, and whose expiry is not a number, is an
    error of the decoder; it is logged, and with it the rest of the token. *)
Theorem escaped_token_logged :
  let body := json.text "{'access_token':'ab\'cd','expires_at':'soon'}" in
  TcWire.read_token 200 body None = Err "json" ∧
  (∃ rest, json.Parse body = Some (json.Object ((TcWire.name "access_token", json.Str (json.text "ab'cd")) :: rest))) ∧
  safeTokenBody body = json.text "{'access_token':'<redacted>'cd','expires_at':'soon'}".
Proof. split_and!; [by vm_compute|eexists; by vm_compute|by vm_compute]. Qed.
End TcToken.
