(* ===== verification/EnvOs.v ===== *)
(** * Processes of the machine, and whether the program runs in an IDE
    (utils/env, utils/env/os, utils/os/win)

    The process table of Darwin is one buffer of records of fixed size; the
    snapshots of Windows are walked entry by entry.  The system calls are
    arguments. *)

From S2P Require Import Prelude GoBytes.

Module Darwin.

Definition KINFO_STRUCT_SIZE : nat := 648.

(** The fields of [kinfoProc], at their offsets. *)
Record kinfoProc := MkKinfo { Pid : Z; Comm : bytes; PPid : Z }.

Definition le32 (l : bytes) : Z :=
  wrapS 32 (nth 0 l 0 + 256 * nth 1 l 0 + 65536 * nth 2 l 0 + 16777216 * nth 3 l 0).

(** [binary.Read] of one record: an error when the bytes are too few. *)
Definition read_kinfo (l : bytes) : result kinfoProc :=
  if (length l <? KINFO_STRUCT_SIZE)%nat then Err "unexpected EOF"
  else Ok (MkKinfo (le32 (drop 40 l)) (take 16 (drop 243 l)) (le32 (drop 560 l))).

Record DarwinProcess := MkProcess { pid : Z; ppid : Z; binary : bytes }.

(** The bytes before the first zero, or all sixteen. *)
Fixpoint darwinCstring (s : bytes) : bytes :=
  match s with b :: s => if b =? 0 then [] else b :: darwinCstring s | [] => [] end.

Definition to_process (p : kinfoProc) : DarwinProcess := MkProcess (Pid p) (PPid p) (darwinCstring (Comm p)).

(** [for i := SIZE; i < buf.Len(); i += SIZE]: the record read is the one
    that ends at [i].  Each turn moves [i] forward, so the length of the
    buffer is fuel enough. *)
Fixpoint parse_loop (fuel : nat) (buf : bytes) (k i : nat) (procs : list kinfoProc) : result (list kinfoProc) :=
  match fuel with
  | O => Ok procs
  | S fuel =>
      if (i <? length buf)%nat then
        match read_kinfo (take (i - k) (drop k buf)) with
        | Err e => Err e
        | Ok p => parse_loop fuel buf i (i + KINFO_STRUCT_SIZE) (procs ++ [p])
        end
      else Ok procs
  end.

(** [darwinSyscall]: the first [sysctl] gives the room the table needs, the
    second fills a buffer of that size and says how much of it it used.  A
    table without room makes [&bs[0]] panic, and so would a size beyond the
    buffer ([None]). *)
Definition darwinSyscall (size : result nat) (sysctl : bytes → result (bytes * nat)) : option (result bytes) :=
  match size with
  | Err errno => Some (Err errno)
  | Ok size =>
      let bs := replicate size 0 in
      if (size =? 0)%nat then None
      else
        match sysctl bs with
        | Err errno => Some (Err errno)
        | Ok (bs, size) => if (size <=? length bs)%nat then Some (Ok (take size bs)) else None
        end
  end.

(** [syscall] is what [darwinSyscall] returned. *)
Definition getProcesses (syscall : result bytes) : result (list DarwinProcess) :=
  let? buf := syscall in
  let? procs := parse_loop (length buf) buf 0 KINFO_STRUCT_SIZE [] in
  Ok (to_process <$> procs).

Definition goland : bytes := bytes_of_string "goland".

Definition has_suffix (l s : bytes) : bool := bool_decide (drop (length l - length s) l = s).

(** [range] over the list of processes. *)
Definition IsInIDE (syscall : result bytes) : bool :=
  match getProcesses syscall with
  | Ok l => existsb (λ p, has_suffix (binary p) goland) l
  | Err _ => false
  end.

(** The kernel on a table: the room it asks for, and the copy it makes when
    the table, which may have changed since, fits into the buffer. *)
Definition sysctl_copy (table bs : bytes) : result (bytes * nat) :=
  if (length table <=? length bs)%nat then Ok (table ++ drop (length table) bs, length table)
  else Err "cannot allocate memory".

(** A record of the buffer. *)
Definition chunk (buf : bytes) (n : nat) : bytes := take KINFO_STRUCT_SIZE (drop (n * KINFO_STRUCT_SIZE) buf).
Definition kinfo_at (buf : bytes) (n : nat) : kinfoProc :=
  MkKinfo (le32 (drop 40 (chunk buf n))) (take 16 (drop 243 (chunk buf n))) (le32 (drop 560 (chunk buf n))).

Lemma chunk_full buf n : (S n * KINFO_STRUCT_SIZE ≤ length buf)%nat → length (chunk buf n) = KINFO_STRUCT_SIZE.
Proof. intros H. unfold chunk. rewrite length_take, length_drop. unfold KINFO_STRUCT_SIZE in *. lia. Qed.

Lemma parse_loop_spec fuel buf n procs :
  (length buf ≤ fuel + n * KINFO_STRUCT_SIZE)%nat →
  parse_loop fuel buf (n * KINFO_STRUCT_SIZE) (n * KINFO_STRUCT_SIZE + KINFO_STRUCT_SIZE) procs =
    Ok (procs ++ (kinfo_at buf <$> seq n ((length buf - 1) / KINFO_STRUCT_SIZE - n))).
Proof.
  assert (Hpos : (0 < KINFO_STRUCT_SIZE)%nat) by (unfold KINFO_STRUCT_SIZE; lia).
  revert n procs. induction fuel as [|fuel IH]; intros n procs Hf; cbn [parse_loop].
  - assert (H0 : ((length buf - 1) / KINFO_STRUCT_SIZE - n = 0)%nat).
    { assert (((length buf - 1) / KINFO_STRUCT_SIZE ≤ n)%nat); [|lia]. apply Nat.Div0.div_le_upper_bound. lia. }
    rewrite H0. cbn. by rewrite app_nil_r.
  - destruct (n * KINFO_STRUCT_SIZE + KINFO_STRUCT_SIZE <? length buf)%nat eqn:E.
    + apply Nat.ltb_lt in E.
      assert (Hd : (n < (length buf - 1) / KINFO_STRUCT_SIZE)%nat).
      { apply Nat.div_le_lower_bound; lia. }
      replace (n * KINFO_STRUCT_SIZE + KINFO_STRUCT_SIZE - n * KINFO_STRUCT_SIZE)%nat with KINFO_STRUCT_SIZE by lia.
      fold (chunk buf n). unfold read_kinfo. rewrite chunk_full by lia. rewrite Nat.ltb_irrefl. fold (kinfo_at buf n).
      replace (n * KINFO_STRUCT_SIZE + KINFO_STRUCT_SIZE)%nat with (S n * KINFO_STRUCT_SIZE)%nat by lia.
      rewrite IH by lia. rewrite <- app_assoc. cbn [app]. f_equal. f_equal.
      replace ((length buf - 1) / KINFO_STRUCT_SIZE - n)%nat with (S ((length buf - 1) / KINFO_STRUCT_SIZE - S n)) by lia. done.
    + apply Nat.ltb_ge in E.
      assert (H0 : ((length buf - 1) / KINFO_STRUCT_SIZE - n = 0)%nat).
      { assert (((length buf - 1) / KINFO_STRUCT_SIZE < S n)%nat); [|lia]. apply Nat.Div0.div_lt_upper_bound. lia. }
      rewrite H0. cbn. by rewrite app_nil_r.
Qed.

(** The list of processes never fails once the table is read, and
    decodes the records of the table in order, but only those that end
    strictly before its end: of a table of [n] whole records the last one is
    left out. *)
Theorem getProcesses_spec buf :
  getProcesses (Ok buf) = Ok ((λ n, to_process (kinfo_at buf n)) <$> seq 0 ((length buf - 1) / KINFO_STRUCT_SIZE)).
Proof.
  unfold getProcesses. cbn [result_bind]. pose proof (parse_loop_spec (length buf) buf 0 []) as H.
  cbn [Nat.mul Nat.add] in H. rewrite H by lia. cbn [result_bind app]. rewrite Nat.sub_0_r.
  by rewrite <- list_fmap_compose.
Qed.

(** Over a kernel that copies its table into the room it asked for, the
    table is what is decoded; when it has outgrown the room in between there
    is no list, and no IDE is seen. *)
Lemma darwinSyscall_table room table :
  (0 < room)%nat →
  darwinSyscall (Ok room) (sysctl_copy table) =
    Some (if (length table <=? room)%nat then Ok table else Err "cannot allocate memory"%string).
Proof.
  intros H. unfold darwinSyscall, sysctl_copy. rewrite length_replicate.
  replace (room =? 0)%nat with false by (symmetry; apply Nat.eqb_neq; lia).
  destruct (length table <=? room)%nat eqn:E; [|done]. apply Nat.leb_le in E.
  rewrite length_app, length_drop, length_replicate.
  replace (length table <=? _)%nat with true by (symmetry; apply Nat.leb_le; lia).
  by rewrite take_app_length.
Qed.

Lemma grown_table_hides_ide room table r :
  (0 < room < length table)%nat → darwinSyscall (Ok room) (sysctl_copy table) = Some r → IsInIDE r = false.
Proof.
  intros H. rewrite darwinSyscall_table by lia.
  replace (length table <=? room)%nat with false by (symmetry; apply Nat.leb_gt; lia). by intros [= <-].
Qed.

Lemma last_process_dropped buf n :
  (0 < n)%nat → length buf = (n * KINFO_STRUCT_SIZE)%nat →
  length <$> match getProcesses (Ok buf) with Ok l => Some l | Err _ => None end = Some (n - 1)%nat.
Proof.
  intros Hn Hl. rewrite getProcesses_spec, Hl. cbn [fmap option_fmap option_map]. f_equal.
  rewrite length_fmap, length_seq. symmetry.
  apply (Nat.div_unique _ _ _ (KINFO_STRUCT_SIZE - 1)); unfold KINFO_STRUCT_SIZE; lia.
Qed.

(** A table of one process, the IDE: it is not found. *)
Definition table1 : bytes := replicate 243 0 ++ goland ++ replicate 399 0.

Lemma ide_not_found : length table1 = KINFO_STRUCT_SIZE ∧ IsInIDE (Ok table1) = false ∧
  IsInIDE (Ok (table1 ++ table1)) = true.
Proof. by vm_compute. Qed.
End Darwin.

Module Windows.

(** An entry of a snapshot: the name is an array of 16-bit units. *)
Record ProcessEntry32 := MkEntry { ProcessID : Z; ParentProcessID : Z; ExeFile : list Z }.
Record WinProc := MkWinProc { wProcessID : Z; wParentProcessID : Z; Exe : list Z }.

(** The search for the terminator; running off the array panics. *)
Fixpoint name_end (l : list Z) : option nat :=
  match l with [] => None | c :: l => if c =? 0 then Some 0%nat else S <$> name_end l end.

Definition newWindowsProcess (e : ProcessEntry32) : option WinProc :=
  match name_end (ExeFile e) with
  | Some n => Some (MkWinProc (ProcessID e) (ParentProcessID e) (take n (ExeFile e)))
  | None => None
  end.

(** The error of [Process32Next]; the first is the end of the snapshot. *)
Inductive next_error := NoMoreFiles | OtherError (e : string).

(** A snapshot: its entries, and the error that ends the walk. *)
Record snapshot := MkSnapshot { createErr : option string; firstErr : option string; first : ProcessEntry32;
                                rest : list ProcessEntry32; ended : next_error }.

Fixpoint collect (l : list ProcessEntry32) : option (list WinProc) :=
  match l with
  | [] => Some []
  | e :: l => match newWindowsProcess e, collect l with Some p, Some ps => Some (p :: ps) | _, _ => None end
  end.

(** [getProcessesList]: the error, and the new list when there is none;
    [None] is a panic. *)
Definition getProcessesList (processList : list WinProc) (s : snapshot) : option (option string * list WinProc) :=
  match createErr s with
  | Some e => Some (Some e, processList)
  | None =>
      match firstErr s with
      | Some e => Some (Some e, processList)
      | None =>
          match collect (first s :: rest s) with
          | None => None
          | Some list =>
              match ended s with
              | NoMoreFiles => Some (None, list)
              | OtherError e => Some (Some e, processList)
              end
          end
      end
  end.

Definition GetProcessByID (processList : list WinProc) (s : snapshot) (id : Z) : option (option WinProc * list WinProc) :=
  match getProcessesList processList s with
  | None => None
  | Some (Some _, l) => Some (None, l)
  | Some (None, l) => Some (find (λ p, wProcessID p =? id) l, l)
  end.

(** [IsInIDE] of Windows: some name up to its terminator contains goland. *)
Fixpoint until_zero (l : list Z) : list Z :=
  match l with c :: l => if c =? 0 then [] else c :: until_zero l | [] => [] end.

Definition IsInIDE (s : snapshot) : bool :=
  match createErr s, firstErr s with
  | None, None => existsb (λ e, match bytes_index (until_zero (ExeFile e)) Darwin.goland with Some _ => true | None => false end)
                    (first s :: rest s)
  | _, _ => false
  end.

(** What is found has the identifier asked for and is in the snapshot just
    taken; when that fails nothing is found and the old list is kept. *)
Lemma GetProcessByID_spec old s id r l :
  GetProcessByID old s id = Some (r, l) →
  match r with
  | Some p => wProcessID p = id ∧ p ∈ l ∧ collect (first s :: rest s) = Some l
  | None => l = old ∨ (collect (first s :: rest s) = Some l ∧ Forall (λ p, wProcessID p ≠ id) l)
  end.
Proof.
  unfold GetProcessByID, getProcessesList. destruct (createErr s); [intros [= <- <-]; by left|].
  destruct (firstErr s); [intros [= <- <-]; by left|]. destruct (collect _) as [list|] eqn:E; [|done].
  destruct (ended s); [|intros [= <- <-]; by left]. intros [= <- <-].
  destruct (find _ list) as [p|] eqn:Ef.
  - apply find_some in Ef as [Hin Hp]. bool_to_prop. split; [done|]. split; [by apply list_elem_of_In|done].
  - right. split; [done|]. apply Forall_forall. intros p Hp%list_elem_of_In. apply Z.eqb_neq, (find_none _ _ Ef p Hp).
Qed.
End Windows.

Module Linux.
Definition IsInIDE : bool := false.
End Linux.

(** The file of utils/env/os that was compiled in, with what its system
    answers; [env.IsInIDE] calls it. *)
Module Env.
Inductive os := OnLinux | OnDarwin (syscall : result bytes) | OnWindows (s : Windows.snapshot).

Definition IsInIDE (o : os) : bool :=
  match o with
  | OnLinux => Linux.IsInIDE
  | OnDarwin syscall => Darwin.IsInIDE syscall
  | OnWindows s => Windows.IsInIDE s
  end.
End Env.
