(* ===== verification/Codecs.v ===== *)
(** * Codecs and password hashes (codec, crypt/bcrypt)

    [ICodec] is the interface the codecs implement.  The JSON and protobuf
    libraries and bcrypt enter through classes that state what is documented
    of them; that an implementation swallows the errors of the encoder is
    part of the interface, and its consequences are theorems about every
    codec. *)

From S2P Require Import Prelude GoBytes GoJson.

(** ** The interface *)

(** The codecs of values of a type [A]: [DecodeStruct] fills a target and
    may have changed it when it fails. *)
Class ICodec (A : Type) := {
  EncodeStruct : A → bytes;
  DecodeStruct : bytes → A → option string * A
}.

(** The promise: what was encoded is decoded into any target; for the values
    that cannot be encoded the bytes are empty, which do not decode. *)
Class ICodecLaws (A : Type) `{ICodec A} := {
  encodable : A → Prop;
  decode_encode a target : encodable a → DecodeStruct (EncodeStruct a) target = (None, a);
  encode_empty a : ¬ encodable a → EncodeStruct a = [];
  decode_empty target : (DecodeStruct [] target).1 ≠ None
}.

(** The users of a codec see no error, but they can tell: the bytes of a
    value decode exactly when it could be encoded. *)
Lemma swallowed_error_seen `{ICodecLaws A} a target :
  (encodable a → (DecodeStruct (EncodeStruct a) target).1 = None) ∧
  (¬ encodable a → (DecodeStruct (EncodeStruct a) target).1 ≠ None).
Proof. split; intros Ha; [by rewrite decode_encode|]. rewrite encode_empty by done. apply decode_empty. Qed.

(** ** codec/json *)

Module JsonCodec.
(** [json.Marshal] and [json.Unmarshal] on [A]: the bytes are nil with an
    error. *)
Class JsonLibrary (A : Type) := {
  Marshal : A → bytes * option string;
  Unmarshal : bytes → A → option string * A;
  Marshal_err a : (Marshal a).2 ≠ None → (Marshal a).1 = [];
  Unmarshal_Marshal a target : (Marshal a).2 = None → Unmarshal (Marshal a).1 target = (None, a);
  Unmarshal_empty target : (Unmarshal [] target).1 ≠ None
}.

Section codec.
Context {A : Type} `{JsonLibrary A}.

(** The bytes, and the line logged. *)
Definition EncodeStruct_log (data : A) : bytes * list string :=
  let '(b, err) := Marshal data in
  (b, match err with Some e => ["JSON encode failed: " ++ e]%string | None => [] end).

#[export] Instance Codec : ICodec A := {
  EncodeStruct data := (EncodeStruct_log data).1;
  DecodeStruct data target := Unmarshal data target
}.

#[export] Program Instance Codec_laws : ICodecLaws A := { encodable a := (Marshal a).2 = None }.
Next Obligation.
  intros a target Ha. cbn. unfold EncodeStruct_log. pose proof (Unmarshal_Marshal a target Ha) as Hu.
  by destruct (Marshal a).
Qed.
Next Obligation.
  intros a Ha. cbn. unfold EncodeStruct_log. pose proof (Marshal_err a Ha) as Hm. by destruct (Marshal a).
Qed.
Next Obligation. intros target. apply Unmarshal_empty. Qed.
End codec.

(** A library on two kinds of values: booleans, and what has no JSON. *)
Inductive sample := Boolean (b : bool) | Channel.

Definition sample_Marshal (v : sample) : bytes * option string :=
  match v with
  | Boolean b => (json.Marshal (json.Bool b), None)
  | Channel => ([], Some "unsupported type: chan"%string)
  end.
Definition sample_Unmarshal (data : bytes) (target : sample) : option string * sample :=
  match json.Parse data with
  | Some (json.Bool b) => (None, Boolean b)
  | Some _ => (Some "cannot unmarshal"%string, target)
  | None => (Some "unexpected end of JSON input"%string, target)
  end.

#[local] Instance sample_json : JsonLibrary sample.
Proof.
  refine {| Marshal := sample_Marshal; Unmarshal := sample_Unmarshal |}.
  - by intros [b|].
  - by intros [[]|] target.
  - by intros target.
Defined.

Lemma swallowed_ex :
  DecodeStruct (EncodeStruct (Boolean true)) Channel = (None, Boolean true) ∧
  EncodeStruct Channel = [] ∧ (DecodeStruct (EncodeStruct Channel) (Boolean true)).1 ≠ None.
Proof. by vm_compute. Qed.
End JsonCodec.

(** ** codec/pb *)

Module PbCodec.
(** [pbenc.EncodeStruct] and [pbenc.DecodeStruct]. *)
Class PbLibrary (A : Type) := {
  pb_Encode : A → bytes;
  pb_Decode : bytes → A → option string * A
}.

#[export] Instance Codec `{PbLibrary A} : ICodec A := { EncodeStruct := pb_Encode; DecodeStruct := pb_Decode }.
End PbCodec.

(** ** crypt/bcrypt *)

Module Bcrypt.
(** [GenerateFromPassword] with its salt, and [CompareHashAndPassword]; a
    password of more than 72 bytes is refused with no hash, and what is
    shorter than a hash matches nothing. *)
Class BcryptLibrary := {
  GenerateFromPassword : bytes → bytes → Z → bytes * option string;
  CompareHashAndPassword : bytes → bytes → option string;
  Generate_long salt p cost : (72 < length p)%nat → GenerateFromPassword salt p cost = ([], Some "password length exceeds 72 bytes"%string);
  Compare_Generate salt p cost h : GenerateFromPassword salt p cost = (h, None) → CompareHashAndPassword h p = None;
  Compare_short h p : (length h < 59)%nat → CompareHashAndPassword h p ≠ None
}.

Section bcrypt.
Context `{BcryptLibrary}.

Definition HashPassword (salt password : bytes) : bytes * option string := GenerateFromPassword salt password 14.

Definition CheckPasswordHash (password hash : bytes) : bool :=
  match CompareHashAndPassword hash password with None => true | Some _ => false end.

(** The password that was hashed is accepted; one that is too long has no
    hash, and what is returned in its place accepts no password. *)
Theorem HashPassword_checked salt password hash err :
  HashPassword salt password = (hash, err) →
  (err = None → CheckPasswordHash password hash = true) ∧
  ((72 < length password)%nat → err ≠ None ∧ ∀ other, CheckPasswordHash other hash = false).
Proof.
  unfold HashPassword, CheckPasswordHash. intros Hh. split.
  - intros ->. by rewrite (Compare_Generate salt password 14).
  - intros Hl. rewrite Generate_long in Hh by done. injection Hh as <- <-. split; [done|]. intros other.
    pose proof (Compare_short [] other ltac:(cbn; lia)). by destruct (CompareHashAndPassword [] other).
Qed.
End bcrypt.

(** A library that does not hash: 59 bytes and the password. *)
Definition open_Generate (salt p : bytes) (cost : Z) : bytes * option string :=
  if (72 <? length p)%nat then ([], Some "password length exceeds 72 bytes"%string) else (replicate 59 36 ++ p, None).
Definition open_Compare (h p : bytes) : option string :=
  if (length h <? 59)%nat then Some "hash too short"%string
  else if bool_decide (drop 59 h = p) then None else Some "mismatch"%string.

#[local] Instance open_bcrypt : BcryptLibrary.
Proof.
  refine {| GenerateFromPassword := open_Generate; CompareHashAndPassword := open_Compare |}; unfold open_Generate, open_Compare.
  - intros salt p cost Hl. by apply Nat.ltb_lt in Hl as ->.
  - intros salt p cost h. destruct (72 <? length p)%nat; [done|]. intros Hg.
    apply (f_equal fst) in Hg. cbn [fst] in Hg. subst h.
    rewrite length_app, length_replicate. replace (59 + length p <? 59)%nat with false by (symmetry; apply Nat.ltb_ge; lia).
    rewrite bool_decide_true; [done|]. by rewrite drop_app_length'.
  - intros h p Hl. by apply Nat.ltb_lt in Hl as ->.
Defined.

Lemma HashPassword_checked_witness :
  CheckPasswordHash [112; 119] (HashPassword [] [112; 119]).1 = true ∧
  ∀ other, CheckPasswordHash other (HashPassword [] (replicate 73 0)).1 = false.
Proof.
  split.
  - exact (proj1 (HashPassword_checked [] [112; 119] _ None eq_refl) eq_refl).
  - refine (proj2 (proj2 (HashPassword_checked [] (replicate 73 0) _ _ eq_refl) _)). vm_compute. lia.
Defined.
End Bcrypt.
