(* ===== verification/Config.v ===== *)
(** * Configuration values: defaults, environment, encoded strings
    (app/v3/config/basic/config.go, encoder.go)

    The reflected configuration is a tree of values that remember what the
    code asks of their types: the width of integers, whether a string or bool
    type is a named one, whether a struct field is exported, and its tag.
    Reflection calls that panic are [Err].  The environment, the YAML reader
    and the decoder are arguments; the decoder itself, with the
    ciphers of Crypt.v, is in the section [encoder]. *)

From S2P Require Import Prelude GoBytes GoStrconv GoIeee GoTime Crypt.

Module Config.

Definition defaultFileName : string := "config.yml".
Definition argCfgFile : string := "cfg=".
Definition encodedPrefix : string := "ENC(".
Definition encodedPostfix : string := ")".

(** A struct tag: its keys and values. *)
Definition StructTag : Type := list (string * string).

Fixpoint tag_lookup (k : string) (t : StructTag) : option string :=
  match t with
  | [] => None
  | (k', v) :: t => if (k' =? k)%string then Some v else tag_lookup k t
  end.

Section config.
(** [os.Getenv] (empty when unset) and the decoder of encoded strings. *)
Context (getenv : string → string).
Context (decode : string → result string).

Inductive value :=
| VString (named : bool) (s : string)
| VInt (width : Z) (i : Z)
| VUint (width : Z) (i : Z)
| VFloat (width : Z) (f : float.float)
| VBool (named : bool) (b : bool)
| VPtr (p : option value)
| VSlice (l : option (list value))
| VArray (l : list value)
| VMap (m : option (list (string * value)))
| VStruct (fields : list (bool * StructTag * value))   (* exported, tag, value *)
| VOther (isNil : bool).                                (* interfaces, functions, channels *)

(** The float types, and the zero test of [reflect.Value.IsZero] on them. *)
Definition float_format (width : Z) : float.format := if width =? 32 then float.binary32 else float.binary64.
Definition isZeroF (f : float.float) : bool := match f with float.Fin false 0 _ => true | _ => false end.

(** [isZero]; [asTime] is the type assertion to [time.Time] on a struct. *)
Definition isZero (asTime : list (bool * StructTag * value) → option Time) (v : value) : bool :=
  match v with
  | VPtr p => match p with None => true | Some _ => false end
  | VSlice (Some l) | VArray l => (length l =? 0)%nat
  | VSlice None => true
  | VStruct fs => match asTime fs with Some t => time.IsZero t | None => false end
  | VString _ s => (s =? "")%string
  | VInt _ i | VUint _ i => i =? 0
  | VFloat _ f => isZeroF f
  | VBool _ b => negb b
  | VMap m => match m with None => true | Some _ => false end
  | VOther isNil => isNil
  end.

(** ** Scalars

    The zero test of each is the case of [isZero] for its kind. *)

Definition processString (v : string) (stag : StructTag) : string :=
  let val := match tag_lookup "default" stag with
             | Some defValue => if (v =? "")%string then defValue else v
             | None => v
             end in
  let val := match tag_lookup "env" stag with
             | Some envName => if (getenv envName =? "")%string then val else getenv envName
             | None => val
             end in
  if strings.HasPrefix val encodedPrefix && strings.HasSuffix val ")" then
    let inner := strings.take (String.length val - String.length encodedPrefix - String.length encodedPostfix)
                   (strings.drop (String.length encodedPrefix) val) in
    match decode inner with
    | Ok decVal => decVal
    | Err _ => val
    end
  else val.

(** The steps the numeric kinds share: [parse] reads an environment value and
    [parseDef] a default; a text that does not parse changes nothing. *)
Definition process {A : Type} (isZero : A → bool) (parseDef parse : string → option A) (v : A)
    (stag : StructTag) : A :=
  let val := match tag_lookup "default" stag with
             | Some defValue => if isZero v then match parseDef defValue with Some d => d | None => v end else v
             | None => v
             end in
  match tag_lookup "env" stag with
  | Some envName =>
      if (getenv envName =? "")%string then val
      else match parse (getenv envName) with Some e => e | None => val end
  | None => val
  end.

Definition parseInt64 (s : string) : option Z :=
  match strconv.ParseInt s 10 64 with (z, None) => Some z | _ => None end.
Definition parseUint64 (s : string) : option Z :=
  match strconv.ParseUint s 10 64 with (z, None) => Some z | _ => None end.

Definition processInt (v : Z) (stag : StructTag) : Z :=
  process (λ z, z =? 0)
    (λ s, match parseInt64 s with Some z => Some z | None => duration.ParseDuration s end) parseInt64 v stag.
Definition processUInt (v : Z) (stag : StructTag) : Z :=
  process (λ z, z =? 0) parseUint64 parseUint64 v stag.
Definition parseFloat64 (s : string) : option float.float :=
  match float.ParseFloat (bytes_of_string s) float.binary64 with (f, None) => Some f | _ => None end.
Definition processFloat (v : float.float) (stag : StructTag) : float.float :=
  process isZeroF parseFloat64 parseFloat64 v stag.
Definition processBool (v : bool) (stag : StructTag) : bool :=
  process negb strconv.ParseBool strconv.ParseBool v stag.

(** ** Trees *)

Definition unexported : string := "reflect: Set using value obtained using unexported field".
Definition not_assignable : string := "reflect.Set: value is not assignable to type".

(** [x.Set(v)] where [v] came out of [modifyValue]: the plain [string] and
    [bool] it makes, and new pointers to them, are not assignable to a named
    type. *)
Fixpoint settable (target : value) : result unit :=
  match target with
  | VString true _ | VBool true _ => Err not_assignable
  | VPtr (Some e) => settable e
  | _ => Ok tt
  end.

Fixpoint modifyValue (v : value) (stag : StructTag) : result value :=
  let set (x : value) : result value := let? x' := modifyValue x stag in let? _ := settable x in Ok x' in
  match v with
  | VString named s => Ok (VString named (processString s stag))
  | VInt w i => Ok (VInt w (wrapS w (processInt i stag)))
  | VUint w i => Ok (VUint w (wrapU w (processUInt i stag)))
  | VFloat w f =>
      (* [value.Float()] is a float64, converted back to the type of the field *)
      Ok (VFloat w (float.convert (float_format w) (processFloat (float.convert float.binary64 f) stag)))
  | VBool named b => Ok (VBool named (processBool b stag))
  | VPtr None => Ok v
  | VPtr (Some e) =>
      (* the new pointer has the type of the modified element *)
      let? e' := modifyValue e stag in Ok (VPtr (Some e'))
  | VSlice None => Ok v
  | VSlice (Some l) => let? l' := traverse set l in Ok (VSlice (Some l'))
  | VArray l => let? l' := traverse set l in Ok (VArray l')
  | VMap None => Ok v
  | VMap (Some m) =>
      let? m' := traverse (λ kx : string * value, let '(k, x) := kx in let? x' := set x in Ok (k, x')) m in
      Ok (VMap (Some m'))
  | VStruct fs =>
      let? fs' := traverse (λ field : bool * StructTag * value,
                    let '(exported, tag, x) := field in
                    let? x' := modifyValue x tag in
                    let? _ := (if exported then settable x else Err unexported) in
                    Ok (exported, tag, x')) fs in
      Ok (VStruct fs')
  | VOther _ => Ok v
  end.

(** The zero value of the type of [v] (arrays and structs field by field). *)
Fixpoint zero (v : value) : value :=
  match v with
  | VString n _ => VString n ""
  | VInt w _ => VInt w 0
  | VUint w _ => VUint w 0
  | VFloat w _ => VFloat w (float.zero (float_format w) false)
  | VBool n _ => VBool n false
  | VPtr _ => VPtr None
  | VSlice _ => VSlice None
  | VArray l => VArray (zero <$> l)
  | VMap _ => VMap None
  | VStruct fs => VStruct ((λ f : bool * StructTag * value, (f.1.1, f.1.2, zero f.2)) <$> fs)
  | VOther _ => VOther true
  end.

(** [modifyStruct] on the fields of the configuration struct: a value that is
    not assignable leaves the field of the copy at its zero value. *)
Definition modifyStruct (fs : list (bool * StructTag * value)) : result (list (bool * StructTag * value)) :=
  traverse (λ field : bool * StructTag * value,
    let '(exported, tag, x) := field in
    let? x' := modifyValue x tag in
    let? x'' := match settable x with
                | Err _ => Ok (zero x)
                | Ok _ => if exported then Ok x' else Err unexported
                end in
    Ok (exported, tag, x'')) fs.

(** ** Loading *)

(** [os.Args[1:]]. *)
Fixpoint getEnvCfgVariable (args : list string) : string :=
  match args with
  | [] => getenv "cfg"
  | arg :: args =>
      if strings.HasPrefix arg argCfgFile then strings.drop (String.length argCfgFile) arg
      else getEnvCfgVariable args
  end.

(** [os.ReadFile] and [yaml.Unmarshal], which fills the fields. *)
Definition loadYaml (readFile : string → result bytes)
    (unmarshal : bytes → list (bool * StructTag * value) → result (list (bool * StructTag * value)))
    (fileName : string) (cfg : list (bool * StructTag * value)) : result (list (bool * StructTag * value)) :=
  let? yamlFile := readFile fileName in unmarshal yamlFile cfg.

(** [filepath.Dir] of a clean absolute path, as [os.Executable] returns it:
    what is before the last slash, and the slash alone at the root. *)
Fixpoint before_last_slash (path : bytes) : option bytes :=
  match path with
  | [] => None
  | c :: path =>
      match before_last_slash path with
      | Some d => Some (c :: d)
      | None => if c =? 47 then Some [] else None
      end
  end.
Definition Dir (path : bytes) : bytes :=
  match before_last_slash path with
  | Some [] => [47]
  | Some d => d
  | None => [46]
  end.

Definition getDefaultDirConfigFileName (executable : result string) : result string :=
  match executable with
  | Ok ex => Ok (string_of_bytes (Dir (bytes_of_string ex)) +:+ "/" +:+ defaultFileName)
  | Err e => Err ("getDefaultDirConfigFileName: " +:+ e)
  end.

Definition Load (fileExists : string → bool) (readFile : string → result bytes)
    (unmarshal : bytes → list (bool * StructTag * value) → result (list (bool * StructTag * value)))
    (executable : result string) (args : list string) (cfg : list (bool * StructTag * value)) :
    result (list (bool * StructTag * value)) :=
  let fileName := getEnvCfgVariable args in
  let? fileName := (if (fileName =? "")%string then getDefaultDirConfigFileName executable else Ok fileName) in
  let? cfg := (if negb (fileName =? "")%string && fileExists fileName
               then loadYaml readFile unmarshal fileName cfg else Ok cfg) in
  modifyStruct cfg.

(** ** Lemmas *)

(** A value with its scalars erased. *)
Fixpoint shape (v : value) : value :=
  match v with
  | VString n _ => VString n ""
  | VInt w _ => VInt w 0
  | VUint w _ => VUint w 0
  | VFloat w _ => VFloat w (float.zero (float_format w) false)
  | VBool n _ => VBool n false
  | VPtr p => VPtr (match p with Some e => Some (shape e) | None => None end)
  | VSlice l => VSlice (match l with Some l => Some (shape <$> l) | None => None end)
  | VArray l => VArray (shape <$> l)
  | VMap m => VMap (match m with
                    | Some m => Some ((λ kv : string * value, (kv.1, shape kv.2)) <$> m)
                    | None => None
                    end)
  | VStruct fs => VStruct ((λ f : bool * StructTag * value, (f.1.1, f.1.2, shape f.2)) <$> fs)
  | VOther b => VOther b
  end.

(** Every field of every struct is exported and no element has a named string
    or bool type: what the walk needs not to panic. *)
Fixpoint plain (v : value) : bool :=
  match v with VString true _ | VBool true _ => false | VPtr (Some e) => plain e | _ => true end.

Fixpoint walkable (v : value) : bool :=
  match v with
  | VPtr (Some e) => walkable e
  | VSlice (Some l) | VArray l => forallb (λ x, plain x && walkable x) l
  | VMap (Some m) => forallb (λ kv : string * value, plain kv.2 && walkable kv.2) m
  | VStruct fs => forallb (λ f : bool * StructTag * value, f.1.1 && plain f.2 && walkable f.2) fs
  | _ => true
  end.

Lemma plain_settable v : plain v = true → settable v = Ok tt.
Proof.
  revert v. fix IH 1. intros v. destruct v as [[] | | | |[]|[e|]| | | | |]; try done. exact (IH e).
Qed.

(** Induction on values, with the hypothesis on every element. *)
Section induction.
Context (P : value → Prop).
Context (Hscalar : ∀ v, match v with
  | VPtr (Some _) | VSlice (Some _) | VArray _ | VMap (Some _) | VStruct _ => False | _ => True end → P v).
Context (Hptr : ∀ e, P e → P (VPtr (Some e))).
Context (Hslice : ∀ l, Forall P l → P (VSlice (Some l))).
Context (Harray : ∀ l, Forall P l → P (VArray l)).
Context (Hmap : ∀ m, Forall (λ kx, P kx.2) m → P (VMap (Some m))).
Context (Hstruct : ∀ fs, Forall (λ f, P f.2) fs → P (VStruct fs)).

Fixpoint value_induction (v : value) : P v :=
  let elements := fix elements (l : list value) : Forall P l :=
    match l with [] => Forall_nil_2 P | x :: l => Forall_cons_2 P x l (value_induction x) (elements l) end in
  match v with
  | VPtr (Some e) => Hptr e (value_induction e)
  | VSlice (Some l) => Hslice l (elements l)
  | VArray l => Harray l (elements l)
  | VMap (Some m) =>
      Hmap m ((fix entries (m : list (string * value)) : Forall (λ kx, P kx.2) m :=
        match m with
        | [] => Forall_nil_2 _
        | kx :: m => Forall_cons_2 (λ kx, P kx.2) kx m (value_induction kx.2) (entries m)
        end) m)
  | VStruct fs =>
      Hstruct fs ((fix fields (fs : list (bool * StructTag * value)) : Forall (λ f, P f.2) fs :=
        match fs with
        | [] => Forall_nil_2 _
        | f :: fs => Forall_cons_2 (λ f, P f.2) f fs (value_induction f.2) (fields fs)
        end) fs)
  | v => Hscalar v I
  end.
End induction.

(** What the walk does to an element and to a field. *)
Definition keeps_shape (v : value) : Prop :=
  ∀ stag, walkable v = true → ∃ v', modifyValue v stag = Ok v' ∧ shape v' = shape v.

Definition set_in (stag : StructTag) (x : value) : result value :=
  let? x' := modifyValue x stag in let? _ := settable x in Ok x'.
Definition modify_field (field : bool * StructTag * value) : result (bool * StructTag * value) :=
  let '(exported, tag, x) := field in
  let? x' := modifyValue x tag in
  let? _ := (if exported then settable x else Err unexported) in
  Ok (exported, tag, x').
Definition set_entry (stag : StructTag) (kx : string * value) : result (string * value) :=
  let '(k, x) := kx in let? x' := set_in stag x in Ok (k, x').
Definition erase_entry (kv : string * value) : string * value := (kv.1, shape kv.2).
Definition erase_field (f : bool * StructTag * value) : bool * StructTag * value := (f.1.1, f.1.2, shape f.2).

Lemma set_one x stag : keeps_shape x → plain x && walkable x = true → ∃ x', set_in stag x = Ok x' ∧ shape x' = shape x.
Proof.
  intros Hx [Hp Hw]%andb_prop. destruct (Hx stag Hw) as (x' & Hm & Hs). exists x'. unfold set_in.
  rewrite Hm. cbn. by rewrite (plain_settable x Hp).
Qed.

(** Elements, entries and fields that keep their shape. *)
Lemma set_all stag l :
  Forall keeps_shape l → forallb (λ x, plain x && walkable x) l = true →
  ∃ l', traverse (set_in stag) l = Ok l' ∧ shape <$> l' = shape <$> l.
Proof.
  intros Hl Hw%forallb_Forall. apply traverse_ok. apply (Forall_impl _ _ _ (proj2 (Forall_and _ _) (conj Hl Hw))).
  intros x [Hx Hwx]. by apply set_one.
Qed.

Lemma entries_all stag m :
  Forall (λ kx, keeps_shape kx.2) m → forallb (λ kv : string * value, plain kv.2 && walkable kv.2) m = true →
  ∃ m', traverse (set_entry stag) m = Ok m' ∧ erase_entry <$> m' = erase_entry <$> m.
Proof.
  intros Hl Hw%forallb_Forall. apply traverse_ok. apply (Forall_impl _ _ _ (proj2 (Forall_and _ _) (conj Hl Hw))).
  intros [k x] [Hx Hwx]. destruct (set_one x stag Hx Hwx) as (x' & Hm & Hs). unfold set_entry. rewrite Hm.
  eexists. split; [done|]. unfold erase_entry. cbn. by rewrite Hs.
Qed.

Lemma fields_all fs :
  Forall (λ f, keeps_shape f.2) fs →
  forallb (λ f : bool * StructTag * value, f.1.1 && plain f.2 && walkable f.2) fs = true →
  ∃ fs', traverse modify_field fs = Ok fs' ∧ erase_field <$> fs' = erase_field <$> fs.
Proof.
  intros Hl Hw%forallb_Forall. apply traverse_ok. apply (Forall_impl _ _ _ (proj2 (Forall_and _ _) (conj Hl Hw))).
  intros [[[] tag] x] [Hx Hwx]; [|done]. cbn [fst snd andb] in *. destruct (andb_prop _ _ Hwx) as [Hp Hw'].
  destruct (Hx tag Hw') as (x' & Hm & Hs). unfold modify_field. rewrite Hm. cbn. rewrite (plain_settable x Hp).
  eexists. split; [done|]. unfold erase_field. cbn. by rewrite Hs.
Qed.

(** The walk succeeds on a walkable tree and changes scalars only. *)
Lemma modifyValue_walk : ∀ v, keeps_shape v.
Proof.
  apply value_induction.
  - intros [| | | | |[]|[]| |[]| |] H stag _; try done; eexists; (split; [reflexivity|done]).
  - intros e IH stag Hw. destruct (IH stag Hw) as (e' & He & Hs). cbn. rewrite He. eexists. split; [done|].
    cbn. by rewrite Hs.
  - intros l IH stag Hw. destruct (set_all stag l IH Hw) as (l' & Hl & Hs).
    cbn [modifyValue]. fold (set_in stag). rewrite Hl. eexists. split; [done|]. cbn. by rewrite Hs.
  - intros l IH stag Hw. destruct (set_all stag l IH Hw) as (l' & Hl & Hs).
    cbn [modifyValue]. fold (set_in stag). rewrite Hl. eexists. split; [done|]. cbn. by rewrite Hs.
  - intros m IH stag Hw. destruct (entries_all stag m IH Hw) as (m' & Hm & Hs).
    cbn [modifyValue]. change (traverse _ m) with (traverse (set_entry stag) m). rewrite Hm. eexists. split; [done|].
    cbn. by fold erase_entry; rewrite Hs.
  - intros fs IH stag Hw. destruct (fields_all fs IH Hw) as (fs' & Hf & Hs).
    cbn [modifyValue]. fold modify_field. rewrite Hf. eexists. split; [done|]. cbn. by fold erase_field; rewrite Hs.
Qed.

(** ** Properties *)


(** Where an integer comes from: an environment value that parses wins
    over everything, then a non-zero value of the file, then the default, read
    as a number or as a duration; the result is cut to the width of the field. *)
Theorem int_precedence w i tag envName defValue e d :
  tag_lookup "env" tag = Some envName → tag_lookup "default" tag = Some defValue →
  (getenv envName ≠ ""%string → parseInt64 (getenv envName) = Some e →
     modifyValue (VInt w i) tag = Ok (VInt w (wrapS w e))) ∧
  (getenv envName = ""%string → i ≠ 0 → modifyValue (VInt w i) tag = Ok (VInt w (wrapS w i))) ∧
  (getenv envName = ""%string → (parseInt64 defValue = Some d ∨ (parseInt64 defValue = None ∧ duration.ParseDuration defValue = Some d)) →
     modifyValue (VInt w 0) tag = Ok (VInt w (wrapS w d))).
Proof.
  intros He Hd. cbn [modifyValue]. unfold processInt, process. rewrite He, Hd. split_and!.
  - intros Hne Hp. apply String.eqb_neq in Hne. by rewrite Hne, Hp.
  - intros -> Hi. apply Z.eqb_neq in Hi. by rewrite Hi.
  - intros ->. cbn [Z.eqb String.eqb]. intros [->|[-> ->]]; done.
Qed.

(** A bool field whose default is true and that has no environment
    variable is true whatever the file says. *)
Theorem bool_default_true n b tag :
  tag_lookup "default" tag = Some "true"%string → tag_lookup "env" tag = None →
  modifyValue (VBool n b) tag = Ok (VBool n true).
Proof. intros Hd He. cbn [modifyValue]. unfold processBool, process. rewrite Hd, He. by destruct b. Qed.

(** A field of a named string type loses its value. *)
Lemma named_string_cleared tag s : modifyStruct [(true, tag, VString true s)] = Ok [(true, tag, VString true "")].
Proof. done. Qed.
End config.

(** ** Encoded values (encoder.go) *)

Section encoder.
Context `{Crypt.Md5} `{Crypt.BlockCipher}.

Record CryptDecoder := MkCryptDecoder { password : string; iterations : Z }.

Definition defaultJasyptIterations : Z := 1000.

Definition NewDecoder (getenv : string → string) : CryptDecoder :=
  let iterations :=
    let v := getenv "JASYPT_ITERATIONS" in
    if (v =? "")%string then defaultJasyptIterations
    else match strconv.Atoi v with
         | (n, None) => if 0 <? n then n else defaultJasyptIterations
         | (_, Some _) => defaultJasyptIterations
         end in
  MkCryptDecoder (getenv "JASYPT_PASSWORD") iterations.

(** [NewBasicConfig] and [NewBasicConfigWithDecoder]: the decoder and the
    structure that [Load] works with. *)
Record BasicConfig := MkBasicConfig { decoder : string → result string; cfg : list (bool * StructTag * value) }.

Definition Decode (cd : CryptDecoder) (plainText : string) : result string :=
  let? text := Crypt.Jasypt.Decrypt (bytes_of_string (password cd)) (iterations cd) plainText in
  Ok (string_of_bytes text).

Definition NewBasicConfigWithDecoder (cfg : list (bool * StructTag * value)) (inDecoder : string → result string) : BasicConfig :=
  MkBasicConfig inDecoder cfg.
Definition NewBasicConfig (getenv : string → string) (cfg : list (bool * StructTag * value)) : BasicConfig :=
  MkBasicConfig (Decode (NewDecoder getenv)) cfg.

End encoder.

(** ** Concrete runs *)

Definition env0 (n : string) : string := if (n =? "PORT")%string then "8081" else "".
Definition fields0 : list (bool * StructTag * value) :=
  [(true, [("env", "PORT"); ("default", "80")], VInt 64 0);
   (true, [("default", "true")], VBool false false);
   (true, [], VStruct [(true, [("default", "x")], VSlice (Some [VString false ""; VString false "y"]))])]%string.

Abbreviation modify0 := (modifyStruct env0 (λ s, Err s)).


(** A float32 field takes a default read as a float64: what does not fit
    becomes an infinity, without an error. *)
Lemma float32_overflows :
  modifyValue env0 (λ s, Err s) (VFloat 32 (float.zero float.binary32 false)) [("default", "1e300")]%string =
    Ok (VFloat 32 (float.Inf false)) ∧
  modifyValue env0 (λ s, Err s) (VFloat 64 (float.zero float.binary64 false)) [("default", "1.0")]%string =
    Ok (VFloat 64 (float.of_int float.binary64 1)).
Proof. split; by vm_compute. Qed.

Lemma int_precedence_witness :
  modifyValue env0 (λ s, Err s) (VInt 8 5)
    [("env", "PORT"); ("default", "80")]%string = Ok (VInt 8 (-111)).
Proof.
  apply (int_precedence env0 (λ s, Err s) 8 5 _ "PORT" "80" 8081 0);
    by vm_compute.
Defined.

(** [insecureSkipVerify], the field of tc/tcClientSender/tcClientConfigParams.go. *)
Lemma bool_default_true_witness :
  modifyValue env0 (λ s, Err s) (VBool false false)
    [("yaml", "insecureSkipVerify"); ("default", "true")]%string = Ok (VBool false true).
Proof. by apply (bool_default_true). Defined.

#[local] Existing Instance Crypt.toy_md5.
#[local] Existing Instance Crypt.toy_cipher.

Definition env1 (n : string) : string := if (n =? "JASYPT_PASSWORD")%string then "pw" else "".
Definition cipher1 : string :=
  match Crypt.Jasypt.Encrypt (bytes_of_string "pw") 1000 (bytes_of_string "secret") (Ok (seqZ 0 8)) with
  | Ok c => c
  | Err _ => ""
  end.

End Config.
