(* ===== verification/DbHelpers.v ===== *)
(** * Helpers of the database packages
    (db/types, utils/db/sql, utils/db/pgx, utils/db/ora, db/helpers/gorm)

    The nullable column types, the conversion of result sets to maps, and the
    level test of the gorm logger. *)

From S2P Require Import Prelude GoBytes GoStrconv GoIeee GoTime.

(** ** Nullable columns (db/types) *)

Module Types.

Abbreviation float64 := float.float.
Definition zeroF : float64 := float.zero float.binary64 false.

(** What a driver hands over; [DOther] is any other type. *)
Inductive driver_value :=
| DNil | DInt64 (v : Z) | DFloat64 (v : float64) | DBytes (v : bytes) | DString (v : bytes) | DTime (v : Time) | DOther.

(** The receiver of a [Scan] with the error: on an error it is unchanged. *)
Record NullFloat64 := MkNullFloat64 { value : float64; fValid : bool }.

Definition NullFloat64_Scan (nt : NullFloat64) (v : driver_value) : option string * NullFloat64 :=
  match v with
  | DNil => (None, MkNullFloat64 zeroF false)
  | DFloat64 f => (None, MkNullFloat64 f true)
  | DInt64 n => (None, MkNullFloat64 (float.of_int float.binary64 n) true)
  | DBytes b =>
      match float.ParseFloat b float.binary64 with
      | (f, None) => (None, MkNullFloat64 f true)
      | (_, Some strconv.ErrSyntax) => (Some "strconv.ParseFloat: invalid syntax"%string, nt)
      | (_, Some strconv.ErrRange) => (Some "strconv.ParseFloat: value out of range"%string, nt)
      end
  | _ => (Some "cannot scan into NullFloat64"%string, nt)
  end.

Definition NullFloat64_Value (nt : NullFloat64) : driver_value := if fValid nt then DFloat64 (value nt) else DNil.

Record NullString := MkNullString { Val : bytes; sValid : bool }.

Definition NullString_Scan (nt : NullString) (v : driver_value) : option string * NullString :=
  match v with
  | DNil => (None, MkNullString [] false)
  | DString s | DBytes s => (None, MkNullString s true)
  | _ => (Some "cannot scan into NullString"%string, nt)
  end.

Definition NullString_Value (nt : NullString) : driver_value := if sValid nt then DString (Val nt) else DNil.
Definition ValidValue (nt : NullString) : bytes := if sValid nt then Val nt else [].

Record NullTime := MkNullTime { nTime : Time; tValid : bool }.

Definition NullTime_Scan (nt : NullTime) (v : driver_value) : option string * NullTime :=
  let text s :=
    match layout.parse_in layout.RFC3339 s zone.UTC with
    | Some t => (None, MkNullTime t true)
    | None => match layout.parse_in layout.DateTime s zone.UTC with
              | Some t => (None, MkNullTime t true)
              | None => (Some "cannot scan into NullTime"%string, nt)
              end
    end in
  match v with
  | DNil => (None, MkNullTime zeroTime false)
  | DTime t => (None, MkNullTime t true)
  | DString s | DBytes s => text s
  | _ => (Some "cannot scan into NullTime"%string, nt)
  end.

Definition NullTime_Value (nt : NullTime) : driver_value := if tValid nt then DTime (nTime nt) else DNil.

Definition BitBool_Scan (b : bool) (src : driver_value) : option string * bool :=
  match src with
  | DNil => (None, false)
  | DBytes [] => (Some "empty []byte"%string, b)
  | DBytes (v :: _) => (None, v =? 1)
  | _ => (Some "bad []byte type assertion"%string, b)
  end.

Definition BitBool_Value (b : bool) : driver_value := if b then DBytes [1] else DBytes [0].

(** What is written to the database is read back: for every column
    type, scanning the value of a value gives it again, the null one being
    the same whatever it carried; and a scan that fails changes nothing. *)
Theorem column_roundtrip :
  (∀ x y, NullFloat64_Scan y (NullFloat64_Value x) = (None, if fValid x then x else MkNullFloat64 zeroF false)) ∧
  (∀ x y, NullString_Scan y (NullString_Value x) = (None, if sValid x then x else MkNullString [] false)) ∧
  (∀ x y, NullTime_Scan y (NullTime_Value x) = (None, if tValid x then x else MkNullTime zeroTime false)) ∧
  (∀ x y, BitBool_Scan y (BitBool_Value x) = (None, x)) ∧
  (∀ y v, (NullFloat64_Scan y v).1 ≠ None → (NullFloat64_Scan y v).2 = y) ∧
  (∀ y v, (NullString_Scan y v).1 ≠ None → (NullString_Scan y v).2 = y) ∧
  (∀ y v, (NullTime_Scan y v).1 ≠ None → (NullTime_Scan y v).2 = y) ∧
  (∀ y v, (BitBool_Scan y v).1 ≠ None → (BitBool_Scan y v).2 = y).
Proof.
  split_and!.
  - by intros [v []] y.
  - by intros [v []] y.
  - by intros [v []] y.
  - by intros [] y.
  - intros y []; cbn [NullFloat64_Scan fst snd]; try done. by destruct (float.ParseFloat v float.binary64) as [? [[]|]].
  - by intros y [].
  - intros y []; cbn [NullTime_Scan fst snd]; try done; destruct (layout.parse_in layout.RFC3339 _ _); try done; by destruct (layout.parse_in _ _ _).
  - by intros y [| | |[]| | |].
Qed.

(** A float that a database prints with the fewest digits is read as itself,
    and an int64 gives the same float as a number and as its digits. *)
Theorem NullFloat64_reads_texts nt x n :
  float.wf float.binary64 x → in_int64 n →
  NullFloat64_Scan nt (DBytes (float.FormatFloat float.binary64 x)) = (None, MkNullFloat64 x true) ∧
  NullFloat64_Scan nt (DInt64 n) = NullFloat64_Scan nt (DBytes (bytes_of_string (strconv.Itoa n))).
Proof.
  intros Hx Hn. cbn [NullFloat64_Scan].
  by rewrite (float.ParseFloat_FormatFloat _ x float.wf_binary64 Hx), (float.ParseFloat_Itoa n Hn).
Qed.

(** A time that a database prints in RFC 3339, with any offset in minutes, or
    as a date and a time in UTC is read as the instant it names. *)
Theorem NullTime_reads_texts nt f off :
  layout.fields_ok f → (60 | off) → - 86400 < off < 86400 →
  NullTime_Scan nt (DString (layout.format_fields (layout.chunks layout.RFC3339) off f)) =
    (None, MkNullTime ((layout.wall_of f - off) * Second) true) ∧
  NullTime_Scan nt (DBytes (layout.format_fields (layout.chunks layout.DateTime) 0 f)) =
    (None, MkNullTime (layout.wall_of f * Second) true).
Proof.
  intros Hok Hdiv Hoff. cbn [NullTime_Scan]. split.
  - by rewrite (layout.parse_in_ok _ _ _ f (Some off)) by (done || by apply layout.parse_format_RFC3339).
  - destruct (layout.parse_format_DateTime f 0 Hok) as [H1 H2].
    unfold layout.parse_in at 1. rewrite H1. by rewrite (layout.parse_in_ok _ _ _ f None).
Qed.
(** 0.1, 2^53 + 1 and an integer. *)
Lemma NullFloat64_reads_texts_witness :
  NullFloat64_Scan (MkNullFloat64 zeroF false) (DBytes (bytes_of_string "0.1")) =
    (None, MkNullFloat64 (float.Fin false 7205759403792794 (-56)) true) ∧
  NullFloat64_Scan (MkNullFloat64 zeroF false) (DInt64 9007199254740993) =
    NullFloat64_Scan (MkNullFloat64 zeroF false) (DBytes (bytes_of_string "9007199254740993")).
Proof.
  apply (NullFloat64_reads_texts (MkNullFloat64 zeroF false) (float.Fin false 7205759403792794 (-56)) 9007199254740993).
  - repeat split; cbn; lia.
  - unfold in_int64, MinInt64, MaxInt64. lia.
Defined.

Definition noon : layout.fields := layout.MkFields 2026 7 1 12 0 0 0.

Lemma NullTime_reads_texts_witness :
  NullTime_Scan (MkNullTime 0 false) (DString (bytes_of_string "2026-07-01T12:00:00+07:00")) =
    (None, MkNullTime (1782882000 * Second) true) ∧
  NullTime_Scan (MkNullTime 0 false) (DBytes (bytes_of_string "2026-07-01 12:00:00")) =
    (None, MkNullTime (1782907200 * Second) true).
Proof.
  apply (NullTime_reads_texts (MkNullTime 0 false) noon 25200);
    [by repeat split; vm_compute|by exists 420|lia].
Defined.
End Types.

(** ** Result sets (utils/db) *)

Module Rows.
Section rows.
(** Column values; [nil_] is the nil a row is reset to. *)
Context {V : Type} (nil_ : V) (Marshal : list (gmap string V) → result string).

(** A result set: what each [Next] finds, a row or the error of [Scan], and
    the error of the iteration.  [Scan] refuses a row that has not as many
    values as there are destinations. *)
Record rows := MkRows { Columns : result (list string); nexts : list (result (list V)); iterErr : option string }.

Definition Scan (cnt : nat) (r : result (list V)) : result (list V) :=
  match r with
  | Ok l => if decide (length l = cnt) then Ok l else Err "sql: expected destination arguments"
  | Err e => Err e
  end.

(** [for i := 0; i < cnt; i++ { entry[columns[i]] = row[i] }] *)
Definition make_entry (columns : list string) (row : list V) : gmap string V :=
  fold_left (λ entry cv, <[cv.1 := cv.2]> entry) (zip columns row) ∅.

(** The loop over the rows.  One array [row] is scanned into again and again;
    [scan_into] is what it holds after the reset and the scan. *)
Definition scan_into (row : list V) (cnt : nat) (next : result (list V)) : result (list V) :=
  let row := (λ _, nil_) <$> row in
  let? l := Scan cnt next in Ok ((λ xv, xv.2) <$> zip row l).

Fixpoint rows_loop (columns : list string) (row : list V) (nexts : list (result (list V))) (tableData : list (gmap string V)) :
    result (list (gmap string V)) :=
  match nexts with
  | [] => Ok tableData
  | next :: nexts =>
      match scan_into row (length columns) next with
      | Err e => Err e
      | Ok row => rows_loop columns row nexts (tableData ++ [make_entry columns row])
      end
  end.

Definition finish (rs : rows) (columns : list string) : result (list (gmap string V)) :=
  let? t := rows_loop columns (replicate (length columns) nil_) (nexts rs) [] in
  match iterErr rs with Some e => Err e | None => Ok t end.

(** database/sql reports an error of the columns; pgx and go-ora have none. *)
Definition RowsToObj (rs : rows) : result (list (gmap string V)) :=
  let? columns := Columns rs in finish rs columns.
Definition PGRowsToObj (fields : list string) (rs : rows) : result (list (gmap string V)) := finish rs fields.
Definition OraRowsToObj (columns : list string) (ds : rows) : result (list (gmap string V)) := finish ds columns.

Definition RowsToJson (rs : rows) : result string := let? obj := RowsToObj rs in Marshal obj.

Lemma scan_into_spec row cnt next :
  length row = cnt → scan_into row cnt next = Scan cnt next.
Proof.
  intros Hl. unfold scan_into. destruct (Scan cnt next) as [l|e] eqn:E; cbn; [|done]. f_equal.
  unfold Scan in E. destruct next as [l'|]; [|done]. destruct (decide _) as [Hd|]; [|done]. injection E as <-.
  apply snd_zip. rewrite length_fmap. lia.
Qed.

Lemma rows_loop_spec columns row nexts t r :
  length row = length columns →
  rows_loop columns row nexts t = Ok r ↔
  ∃ l, Scan (length columns) <$> nexts = Ok <$> l ∧ r = t ++ (make_entry columns <$> l).
Proof.
  revert row t. induction nexts as [|next nexts IH]; intros row t Hl; cbn [rows_loop].
  { split.
    - intros [= ->]. exists []. by rewrite app_nil_r.
    - intros ([|x l] & Hf & ->); [by rewrite app_nil_r|done]. }
  rewrite scan_into_spec by done. destruct (Scan (length columns) next) as [l1|e] eqn:E; cycle 1.
  { split; [done|]. intros ([|x l] & Hf & _); [done|]. cbn in Hf. injection Hf as Hf _. congruence. }
  assert (Hl1 : length l1 = length columns).
  { unfold Scan in E. destruct next as [l'|]; [|done]. destruct (decide _); [|done]. by injection E as <-. }
  rewrite IH by done. split.
  - intros (l & Hf & ->). exists (l1 :: l). cbn. rewrite E, Hf, <- app_assoc. done.
  - intros ([|x l] & Hf & ->); [done|]. cbn in Hf. rewrite E in Hf. injection Hf as <- Hf.
    exists l. split; [done|]. cbn. by rewrite <- app_assoc.
Qed.

(** When two columns share a name the later one wins. *)
Lemma make_entry_lookup columns row k :
  make_entry columns row !! k = snd <$> last (filter (λ cv, cv.1 = k) (zip columns row)).
Proof.
  unfold make_entry. assert (H : ∀ (l : list (string * V)) m,
    fold_left (λ entry cv, <[cv.1 := cv.2]> entry) l m !! k =
      match last (filter (λ cv, cv.1 = k) l) with Some cv => Some cv.2 | None => (m : gmap string V) !! k end).
  { induction l as [|[c v] l IH]; intros m; [done|]. cbn [fold_left]. rewrite IH, filter_cons. cbn [fst snd].
    destruct (decide (c = k)) as [->|Hne].
    - rewrite last_cons. destruct (last _); [done|]. cbn. by rewrite lookup_insert_eq.
    - destruct (last _); [done|]. by rewrite lookup_insert_ne. }
  rewrite H. destruct (last _); [done|]. by rewrite lookup_empty.
Qed.

Lemma Scan_all cnt nexts l :
  Scan cnt <$> nexts = Ok <$> l ↔ nexts = Ok <$> l ∧ Forall (λ row, length row = cnt) l.
Proof.
  revert l. induction nexts as [|n nexts IH]; intros [|x l]; cbn; try done; try (by split; [|intros [? _]]).
  split; [|intros [[= -> ->] [Hx Hl]%Forall_cons]].
  - intros [= Hn Hr]. apply IH in Hr as [-> Hl]. destruct n as [y|]; cbn in Hn; [|done].
    destruct (decide _) as [Hd|]; [|done]. injection Hn as ->. split; [done|by constructor].
  - f_equal; [cbn; by rewrite decide_True by done|]. by apply IH.
Qed.

(** A result set becomes the list of its rows, in order, each the map
    from the column names to the values of that row and no other, the last
    one where a name is repeated; and if reading the columns, scanning a row
    or the iteration fails, nothing but the error is returned. *)
Theorem RowsToObj_spec rs t :
  RowsToObj rs = Ok t ↔
  ∃ columns l, Columns rs = Ok columns ∧ nexts rs = Ok <$> l ∧ Forall (λ row, length row = length columns) l ∧
    iterErr rs = None ∧ length t = length l ∧
    ∀ i row, l !! i = Some row → ∃ entry, t !! i = Some entry ∧
      ∀ k, entry !! k = snd <$> last (filter (λ cv, cv.1 = k) (zip columns row)).
Proof.
  unfold RowsToObj, finish. destruct (Columns rs) as [columns|e]; cbn [result_bind].
  2: { split; [done|]. by intros (? & ? & ? & _). }
  assert (Hspec : ∀ r, rows_loop columns (replicate (length columns) nil_) (nexts rs) [] = Ok r ↔
    ∃ l, nexts rs = Ok <$> l ∧ Forall (λ row, length row = length columns) l ∧ r = make_entry columns <$> l).
  { intros r. rewrite rows_loop_spec by apply length_replicate. split.
    - intros (l & Hf & ->). apply Scan_all in Hf as [H1 H2]. by exists l.
    - intros (l & H1 & H2 & ->). exists l. split; [by apply Scan_all|done]. }
  split.
  - intros H. destruct (rows_loop _ _ _ _) as [r|e] eqn:E; cbn in H; [|done].
    destruct (iterErr rs) eqn:Ee; [done|]. injection H as ->. destruct (proj1 (Hspec t) eq_refl) as (l & H1 & H2 & ->).
    exists columns, l. split_and!; try done; [by rewrite length_fmap|]. intros i row Hi. exists (make_entry columns row).
    split; [by rewrite list_lookup_fmap, Hi|]. intros k. apply make_entry_lookup.
  - intros (columns' & l & [= <-] & H1 & H2 & He & Hlen & Hrows).
    rewrite (proj2 (Hspec (make_entry columns <$> l)) (ex_intro _ l (conj H1 (conj H2 eq_refl)))). cbn. rewrite He. f_equal.
    apply list_eq. intros i. rewrite list_lookup_fmap. destruct (l !! i) as [row|] eqn:Ei; cbn.
    + destruct (Hrows i row Ei) as (entry & -> & Hk). f_equal. apply map_eq. intros k. by rewrite Hk, make_entry_lookup.
    + symmetry. apply lookup_ge_None. rewrite Hlen. by apply lookup_ge_None.
Qed.

(** The three libraries give the same result for the same rows. *)
Lemma same_rows rs columns :
  Columns rs = Ok columns → RowsToObj rs = PGRowsToObj columns rs ∧ RowsToObj rs = OraRowsToObj columns rs.
Proof. intros H. unfold RowsToObj. by rewrite H. Qed.
End rows.
End Rows.

(** ** The gorm logger (db/helpers/gorm) *)

Module GormLog.

(** gorm's levels. *)
Definition Silent : Z := 1.
Definition Error_level : Z := 2.
Definition Warn_level : Z := 3.
Definition Info_level : Z := 4.

Record GormLoggerSlog := MkGormLogger { level : Z }.
Definition New : GormLoggerSlog := MkGormLogger 0.
Definition LogMode (sl : GormLoggerSlog) (l : Z) : GormLoggerSlog := MkGormLogger l.

Inductive entry := LInfo (s : string) | LWarn (s : string) | LError (s : string) | LTraceErr (e : string) | LTrace (rows : Z).

Definition Info (sl : GormLoggerSlog) (s : string) : list entry := if Info_level <=? level sl then [LInfo s] else [].
Definition Warn (sl : GormLoggerSlog) (s : string) : list entry := if Warn_level <=? level sl then [LWarn s] else [].
Definition Error (sl : GormLoggerSlog) (s : string) : list entry := if Error_level <=? level sl then [LError s] else [].

(** [fc] is called, for the number of rows, only when it is logged; its
    query is dropped. *)
Definition Trace (sl : GormLoggerSlog) (fc : string * Z) (err : option string) : list entry :=
  match err with
  | Some e => if Error_level <=? level sl then [LTraceErr e] else []
  | None => if level sl <? Info_level then [] else [LTrace fc.2]
  end.

Definition entry_level (e : entry) : Z :=
  match e with LInfo _ | LTrace _ => Info_level | LWarn _ => Warn_level | LError _ | LTraceErr _ => Error_level end.

(** Nothing above the level set is logged, and what is logged of a query does
    not depend on its text. *)
Lemma gorm_levels sl s rows q1 q2 err :
  Forall (λ e, entry_level e ≤ level sl) (Info sl s ++ Warn sl s ++ Error sl s ++ Trace sl (q1, rows) err) ∧
  Trace sl (q1, rows) err = Trace sl (q2, rows) err.
Proof.
  split; [|done]. unfold Info, Warn, Error, Trace.
  rewrite !Forall_app. split_and!; repeat case_match; bool_to_prop; repeat constructor; cbn; lia.
Qed.

(** A logger that [LogMode] was not called on logs nothing, errors included. *)
Lemma new_logs_nothing s fc err : Info New s ++ Warn New s ++ Error New s ++ Trace New fc err = [].
Proof. by destruct err. Qed.
End GormLog.
