(* ===== verification/Postgres.v ===== *)
(** * PostgreSQL service: pool, notifications, restarts (db/postgres/postgreSql.go)

    The sections under the mutex are functions of the object and of the world
    of the driver (pools and connections it has open, contexts cancelled,
    statements it was given).  [DoRestart] is two sections with a sleep
    between them; it, the listener and [DoPing] run in goroutines of their
    own, so the whole is a step relation over the sections. A notification
    is a text; the channel of 64 drops what comes when it is full. *)

From S2P Require Import Prelude GoBytes.

Module Postgres.

(** [notifyNamePattern]: ^[a-zA-Z_][a-zA-Z0-9_]*$ *)
Definition is_letter (a : ascii) : bool :=
  let n := byte_of_ascii a in (65 <=? n) && (n <=? 90) || (97 <=? n) && (n <=? 122) || (n =? 95).
Definition is_word (a : ascii) : bool :=
  let n := byte_of_ascii a in is_letter a || (48 <=? n) && (n <=? 57).
Fixpoint all_word (s : string) : bool :=
  match s with EmptyString => true | String a s => is_word a && all_word s end.
Definition notifyNamePattern (s : string) : bool :=
  match s with EmptyString => false | String a s => is_letter a && all_word s end.

Definition restartBaseDelay : Duration := 5 * Second.
Definition restartMaxDelay : Duration := 5 * Minute.

Record ConfigPostgreSQL := MkConfig {
  MinConns : Z; MaxConns : Z;
  HealthCheckPeriod : Duration; MaxConnIdleTime : Duration;
  MaxConnLifetime : Duration; MaxConnLifetimeJitter : Duration;
  WithInitPing : bool
}.

(** The fields of [pgxpool.Config] that the service sets. *)
Record PoolConfig := MkPoolConfig {
  pMinConns : Z; pMaxConns : Z; pHealthCheckPeriod : Duration; pMaxConnIdleTime : Duration;
  pMaxConnLifetime : Duration; pMaxConnLifetimeJitter : Duration
}.

(** [cfg] is what [pgxpool.ParseConfig] made of the DSN. *)
Definition pool_config (config : ConfigPostgreSQL) (cfg : PoolConfig) : PoolConfig :=
  MkPoolConfig
    (if -1 <? MinConns config then MinConns config else pMinConns cfg)
    (if -1 <? MaxConns config then MaxConns config else pMaxConns cfg)
    (if 0 <? HealthCheckPeriod config then HealthCheckPeriod config else pHealthCheckPeriod cfg)
    (if 0 <? MaxConnIdleTime config then MaxConnIdleTime config else pMaxConnIdleTime cfg)
    (if 0 <? MaxConnLifetime config then MaxConnLifetime config else pMaxConnLifetime cfg)
    (if 0 <? MaxConnLifetimeJitter config then MaxConnLifetimeJitter config else pMaxConnLifetimeJitter cfg).

(** The object; pools, connections and contexts are numbered, and [stdlibDB]
    is the pool it was made from. *)
Record PostgreSQL := MkPG {
  ctx : option nat;
  cancel : option nat;
  dbpool : option nat;
  stdlibDB : option nat;
  restarting : bool;
  restartBackoff : Duration;
  conn : option nat
}.

Definition NewPostgreSQL : PostgreSQL := MkPG None None None None false 0 None.

(** The goroutine [listenForEvent]: waiting, or sending its error to a
    channel that has room for one. *)
Inductive listener := Waiting (c : nat) | Sending (c : nat).

Record world := MkWorld {
  fresh_id : nat;
  open : gset nat;                  (* pools not closed *)
  held : gset nat;                  (* connections acquired and not released *)
  cancelled : gset nat;             (* contexts *)
  executed : list string;           (* statements, in order *)
  listeners : list listener
}.

Definition world0 : world := MkWorld 0 ∅ ∅ ∅ [] [].

(** What the driver answers during one start. *)
Record start_env := MkStartEnv {
  parsed : result PoolConfig; newPool : PoolConfig → option string; acquire : option string; listen : option string;
  ping : option string
}.

(** The options of [NewPostgreSQL]: what they make of the name to listen to. *)
Definition PGOption : Type := string → string.
Definition OptionNotifyListener (name : string) : PGOption := λ _, name.
Definition apply_options (opts : list PGOption) : string := fold_left (λ n opt, opt n) opts ""%string.

Section service.
Context (config : ConfigPostgreSQL) (notifyName : string).

Definition doStart (s : PostgreSQL) (w : world) (env : start_env) : option string * PostgreSQL * world :=
  let c := fresh_id w in
  let s := MkPG (Some c) (Some c) (dbpool s) (stdlibDB s) (restarting s) (restartBackoff s) (conn s) in
  let w := MkWorld (S c) (open w) (held w) (cancelled w) (executed w) (listeners w) in
  match parsed env with
  | Err e => (Some e, s, w)
  | Ok cfg =>
      match newPool env (pool_config config cfg) with
      | Some e => (Some e, MkPG (ctx s) (cancel s) None (stdlibDB s) (restarting s) (restartBackoff s) (conn s), w)
      | None =>
          let p := fresh_id w in
          let s := MkPG (ctx s) (cancel s) (Some p) (Some p) (restarting s) (restartBackoff s) (conn s) in
          let w := MkWorld (S p) ({[p]} ∪ open w) (held w) (cancelled w) (executed w) (listeners w) in
          if negb (notifyName =? "")%string then
            if negb (notifyNamePattern notifyName) then
              (Some ("invalid notify channel name: " ++ notifyName)%string, s, w)
            else
              match acquire env with
              | Some e =>
                  (Some e, MkPG (ctx s) (cancel s) (dbpool s) (stdlibDB s) (restarting s) (restartBackoff s) None, w)
              | None =>
                  let k := fresh_id w in
                  let s' := MkPG (ctx s) (cancel s) (dbpool s) (stdlibDB s) (restarting s) (restartBackoff s) in
                  let w' := MkWorld (S k) (open w) in
                  let executed' := executed w ++ [("LISTEN " ++ notifyName)%string] in
                  match listen env with
                  | None =>
                      (ping env, s' (Some k),
                       w' ({[k]} ∪ held w) (cancelled w) executed' (listeners w ++ [Waiting c]))
                  | Some e => (Some e, s' None, w' (({[k]} ∪ held w) ∖ {[k]}) (cancelled w) executed' (listeners w))
                  end
              end
          else if WithInitPing config then (ping env, s, w)
          else (None, s, w)
      end
  end.

Definition Start (s : PostgreSQL) (w : world) (env : start_env) : option string * PostgreSQL * world :=
  if restarting s then (Some "restart is in progress"%string, s, w) else doStart s w env.

Definition doStop (s : PostgreSQL) (w : world) : PostgreSQL * world :=
  let '(conn', held') :=
    if negb (notifyName =? "")%string then
      match conn s with Some k => (None, held w ∖ {[k]}) | None => (None, held w) end
    else (conn s, held w) in
  let cancelled' := match cancel s with Some c => {[c]} ∪ cancelled w | None => cancelled w end in
  let open' := match dbpool s with Some p => open w ∖ {[p]} | None => open w end in
  (MkPG (ctx s) None None None (restarting s) (restartBackoff s) conn',
   MkWorld (fresh_id w) open' held' cancelled' (executed w) (listeners w)).

Definition Stop (s : PostgreSQL) (w : world) : PostgreSQL * world := doStop s w.

(** [GetDB]: made again from the pool when it is missing. *)
Definition GetDB (s : PostgreSQL) : option nat * PostgreSQL :=
  match dbpool s with
  | None => (None, s)
  | Some p =>
      match stdlibDB s with
      | Some d => (Some d, s)
      | None => (Some p, MkPG (ctx s) (cancel s) (dbpool s) (Some p) (restarting s) (restartBackoff s) (conn s))
      end
  end.

Definition GetPgxDB (s : PostgreSQL) : option nat := dbpool s.

(** [logStats]: the counts of the pool, when there is one. *)
Record PoolStat := MkPoolStat { sMaxConns : Z; sAcquiredConns : Z; sTotalConns : Z; sIdleConns : Z }.
Definition logStats (stat : nat → PoolStat) (s : PostgreSQL) : option PoolStat := stat <$> dbpool s.
Definition LogStats (stat : nat → PoolStat) (s : PostgreSQL) : option PoolStat := logStats stat s.

(** ** Queries *)

(** [Query], [QueryRow] and [Exec] read the context and the pool in one
    section and then call the pool: [call] is the method of the driver, which
    gets the pool as it is, missing or not. *)
Definition Query {A R} (call : option nat → option nat → string → list A → R) (s : PostgreSQL) (sql : string)
    (args : list A) : R :=
  let '(ctx, pool) := (ctx s, dbpool s) in call pool ctx sql args.
Definition QueryRow {A R} (call : option nat → option nat → string → list A → R) (s : PostgreSQL) (sql : string)
    (args : list A) : R :=
  let '(ctx, pool) := (ctx s, dbpool s) in call pool ctx sql args.
Definition Exec {A R} (call : option nat → option nat → string → list A → R) (s : PostgreSQL) (sql : string)
    (args : list A) : R :=
  let '(ctx, pool) := (ctx s, dbpool s) in call pool ctx sql args.

(** [DoPing] up to its ping: the pool and the parent of the time limit, no
    context standing for [context.Background]. *)
Definition ping_target (s : PostgreSQL) : option (nat * option nat) :=
  match dbpool s with
  | None => None
  | Some pool => Some (pool, match ctx s with None => None | Some parent => Some parent end)
  end.

(** ** Restarts *)

(** [jitterDuration]; [r] is the number [rand.Int63n] returns. *)
Definition jitterDuration (d : Duration) (r : Z) : Duration :=
  let jitter := Z.quot d 5 in
  if jitter =? 0 then d else d - jitter + r mod (2 * jitter + 1).

Definition next_backoff (b : Duration) : Duration :=
  if b =? 0 then restartBaseDelay
  else if restartMaxDelay <? b * 2 then restartMaxDelay else b * 2.

Definition set_restart (s : PostgreSQL) (r : bool) (b : Duration) : PostgreSQL :=
  MkPG (ctx s) (cancel s) (dbpool s) (stdlibDB s) r b (conn s).

(** The first section of [DoRestart]: the delay to sleep, or an error. *)
Definition DoRestart_begin (s : PostgreSQL) (w : world) (r : Z) : result Duration * PostgreSQL * world :=
  if restarting s then (Err "restart is in progress", s, w)
  else
    let backoff := next_backoff (restartBackoff s) in
    let delay := jitterDuration backoff r in
    let '(s, w) := doStop (set_restart s true backoff) w in
    (Ok delay, s, w).

(** The second section, after the sleep. *)
Definition DoRestart_end (s : PostgreSQL) (w : world) (env : start_env) : option string * PostgreSQL * world :=
  let '(startErr, s, w) := doStart s w env in
  let s := match startErr with Some _ => s | None => set_restart s (restarting s) 0 end in
  (startErr, set_restart s false (restartBackoff s), w).

(** ** The goroutines *)

(** [DoPing]: about to read the pool, or waiting for the answer of the ping. *)
Inductive pinger := Spawned | Pinging.

Record sys := MkSys {
  pg : PostgreSQL; wd : world;
  sleepers : nat;                   (* restarts asleep *)
  pingers : list pinger;
  errorCh : list string;            (* capacity 1 *)
  notificationCh : list string;     (* capacity 64 *)
  received : list string;           (* what the driver gave the listeners *)
  taken : list string               (* what the client took from the channel *)
}.

Definition sys0 : sys := MkSys NewPostgreSQL world0 0 [] [] [] [] [].

Definition with_obj (x : sys) (s : PostgreSQL) (w : world) : sys :=
  MkSys s w (sleepers x) (pingers x) (errorCh x) (notificationCh x) (received x) (taken x).

(** The other goroutines' part of the state. *)
Definition with_rest (x : sys) (n : nat) (ps : list pinger) (ec : list string) : sys :=
  MkSys (pg x) (wd x) n ps ec (notificationCh x) (received x) (taken x).

Definition notifyCap : nat := 64.

(** A notification in [listenForEvent]: sent when the channel has room,
    dropped otherwise. *)
Definition notify (x : sys) (n : string) : sys :=
  MkSys (pg x) (wd x) (sleepers x) (pingers x) (errorCh x)
    (if (length (notificationCh x) <? notifyCap)%nat then notificationCh x ++ [n] else notificationCh x)
    (received x ++ [n]) (taken x).

(** [DoRestart] up to its sleep. *)
Definition begin_restart (x : sys) (r : Z) : sys :=
  match DoRestart_begin (pg x) (wd x) r with
  | (Ok _, s, w) => with_obj (with_rest x (S (sleepers x)) (pingers x) (errorCh x)) s w
  | (Err _, s, w) => with_obj x s w
  end.

Definition set_listener (w : world) (i : nat) (l : listener) : world :=
  MkWorld (fresh_id w) (open w) (held w) (cancelled w) (executed w) (<[i := l]> (listeners w)).
Definition drop_listener (w : world) (i : nat) : world :=
  MkWorld (fresh_id w) (open w) (held w) (cancelled w) (executed w) (delete i (listeners w)).

(** One step of the program and its clients.  With [strict] the client calls
    [Start] only on an object that has no pool. *)
Inductive step (strict : bool) : sys → sys → Prop :=
| step_start x env :
    (strict = true → dbpool (pg x) = None) →
    step strict x (let '(_, s, w) := Start (pg x) (wd x) env in with_obj x s w)
| step_stop x :
    step strict x (let '(s, w) := Stop (pg x) (wd x) in with_obj x s w)
| step_restart x r :
    step strict x (begin_restart x r)
| step_wake x env n :
    sleepers x = S n →
    step strict x (let '(_, s, w) := DoRestart_end (pg x) (wd x) env in with_obj (with_rest x n (pingers x) (errorCh x)) s w)
| step_notification x i c n :
    listeners (wd x) !! i = Some (Waiting c) →
    step strict x (notify x n)
| step_client_takes x n l :
    notificationCh x = n :: l →
    step strict x (MkSys (pg x) (wd x) (sleepers x) (pingers x) (errorCh x) l (received x) (taken x ++ [n]))
| step_listener_fails x i c :
    (* WaitForNotification returned an error *)
    listeners (wd x) !! i = Some (Waiting c) →
    step strict x (with_obj x (pg x) (set_listener (wd x) i (Sending c)))
| step_listener_sends x i c e :
    listeners (wd x) !! i = Some (Sending c) → errorCh x = [] →
    step strict x (with_obj (with_rest x (sleepers x) (pingers x ++ [Spawned]) [e]) (pg x) (drop_listener (wd x) i))
| step_client_reads x e l :
    errorCh x = e :: l →
    step strict x (with_rest x (sleepers x) (pingers x) l)
| step_ping_called x :
    step strict x (with_rest x (sleepers x) (pingers x ++ [Spawned]) (errorCh x))
| step_ping_reads x i :
    pingers x !! i = Some Spawned →
    step strict x (with_rest x (sleepers x)
      (match ping_target (pg x) with Some _ => <[i := Pinging]> (pingers x) | None => delete i (pingers x) end) (errorCh x))
| step_ping_ok x i :
    pingers x !! i = Some Pinging →
    step strict x (with_rest x (sleepers x) (delete i (pingers x)) (errorCh x))
| step_ping_fails x i r :
    pingers x !! i = Some Pinging →
    step strict x (begin_restart (with_rest x (sleepers x) (delete i (pingers x)) (errorCh x)) r).

Definition reachable (strict : bool) (x : sys) : Prop := star (step strict) sys0 x.

(** ** The invariant *)

(** The object accounts for everything that is open, and a listener whose
    context is live belongs to the present pool. *)
Record owned (s : PostgreSQL) (w : world) : Prop := {
  o_open : open w = match dbpool s with Some p => {[p]} | None => ∅ end;
  o_held : held w = match conn s with Some k => {[k]} | None => ∅ end;
  o_conn : is_Some (conn s) → is_Some (dbpool s) ∧ notifyName ≠ ""%string;
  o_fresh : (∀ c, c ∈ cancelled w → (c < fresh_id w)%nat) ∧ (∀ c, Waiting c ∈ listeners w → (c < fresh_id w)%nat);
  o_stmts : Forall (λ q, q = ("LISTEN " ++ notifyName)%string ∧ notifyNamePattern notifyName = true) (executed w);
  o_listen : ∀ c, Waiting c ∈ listeners w → c ∈ cancelled w ∨ (cancel s = Some c ∧ is_Some (dbpool s));
  o_ctx : ∀ c, cancel s = Some c → (c < fresh_id w)%nat
}.

Definition idle (s : PostgreSQL) (w : world) : Prop :=
  open w = ∅ ∧ held w = ∅ ∧ ∀ c, Waiting c ∈ listeners w → c ∈ cancelled w.

Lemma owned0 : owned NewPostgreSQL world0.
Proof. split; simpl; try done; [split; intros ? ?; set_solver|set_solver]. Qed.

Lemma owned_restart s w r b : owned s w → owned (set_restart s r b) w.
Proof. by intros [? ? ? ? ? ? ?]; split. Qed.

Lemma doStop_owned s w :
  owned s w → let '(s', w') := doStop s w in
  owned s' w' ∧ idle s' w' ∧ dbpool s' = None ∧ restarting s' = restarting s.
Proof.
  intros [Ho Hh Hc [Hf1 Hf2] He Hl Hx]. unfold doStop.
  assert (Hheld : (if negb (notifyName =? "")%string then
      match conn s with Some k => (None, held w ∖ {[k]}) | None => (None, held w) end
    else (conn s, held w)) = (None, ∅)).
  { destruct (conn s) as [k|] eqn:Ek.
    - destruct Hc as [_ Hn]; [done|]. apply String.eqb_neq in Hn. rewrite Hn. cbn. f_equal. set_solver.
    - rewrite Hh. by destruct (negb _). }
  rewrite Hheld.
  assert (Hopen : match dbpool s with Some p => open w ∖ {[p]} | None => open w end = ∅).
  { destruct (dbpool s); set_solver. }
  assert (Hlis : ∀ c, Waiting c ∈ listeners w →
      c ∈ match cancel s with Some c => {[c]} ∪ cancelled w | None => cancelled w end).
  { intros c Hin. destruct (Hl c Hin) as [?|[-> _]]; [|set_solver]. destruct (cancel s); set_solver. }
  split; [|done]. split; simpl; try done.
  - split; [|done]. intros c Hin. destruct (cancel s) as [c'|] eqn:E; [|by apply Hf1].
    apply elem_of_union in Hin as [->%elem_of_singleton|Hin]; [by apply Hx|by apply Hf1].
  - intros c Hin. left. by apply Hlis.
Qed.

(** A state without pool, after the ids of a start have been drawn. *)
Lemma owned_later s w n c :
  owned s w → dbpool s = None → (n > c)%nat → (c >= fresh_id w)%nat →
  owned (MkPG (Some c) (Some c) None (stdlibDB s) (restarting s) (restartBackoff s) (conn s))
    (MkWorld n (open w) (held w) (cancelled w) (executed w) (listeners w)).
Proof.
  intros [Ho Hh Hc [Hf1 Hf2] He Hl Hx] Hd Hn Hcf. rewrite Hd in *. split; simpl; try done.
  - split; intros k Hin; [apply Hf1 in Hin|apply Hf2 in Hin]; lia.
  - intros k Hin. left. destruct (Hl k Hin) as [?|[_ [? ?]]]; done.
  - intros k [= <-]. lia.
Qed.

(** ... then with a new pool, and with its listener. *)
Lemma owned_new_pool s w p d :
  owned s w → dbpool s = None →
  owned (MkPG (ctx s) (cancel s) (Some p) (Some d) (restarting s) (restartBackoff s) None)
    (MkWorld (fresh_id w) ({[p]} ∪ open w) (held w) (cancelled w) (executed w) (listeners w)).
Proof.
  intros [Ho Hh Hc Hf He Hl Hx] Hd. rewrite Hd in *.
  assert (conn s = None) as Hcn by (destruct (conn s); [by destruct Hc as [[? ?] _]|done]).
  rewrite Hcn in *. split; simpl; try done; [set_solver|].
  intros k Hin. destruct (Hl k Hin) as [?|[_ [? ?]]]; [by left|done].
Qed.

Lemma owned_listen s w k n ls :
  owned s w → is_Some (dbpool s) → conn s = None → notifyName ≠ ""%string → notifyNamePattern notifyName = true →
  (n >= fresh_id w)%nat → (∀ c, ls = Some c → cancel s = Some c) →
  owned (MkPG (ctx s) (cancel s) (dbpool s) (stdlibDB s) (restarting s) (restartBackoff s)
           (match ls with Some _ => Some k | None => None end))
    (MkWorld n (open w) (match ls with Some _ => {[k]} ∪ held w | None => ({[k]} ∪ held w) ∖ {[k]} end) (cancelled w)
       (executed w ++ [("LISTEN " ++ notifyName)%string])
       (match ls with Some c => listeners w ++ [Waiting c] | None => listeners w end)).
Proof.
  intros [Ho Hh Hc [Hf1 Hf2] He Hl Hx] Hd Hcn Hne Hp Hn Hls. rewrite Hcn in *.
  split; simpl; try done.
  - destruct ls; set_solver.
  - split; intros c Hin; [apply Hf1 in Hin; lia|]. destruct ls as [c'|]; [|apply Hf2 in Hin; lia].
    apply elem_of_app in Hin as [Hin|Hin%list_elem_of_singleton]; [apply Hf2 in Hin; lia|].
    injection Hin as ->. specialize (Hx c' (Hls c' eq_refl)). lia.
  - apply Forall_app. split; [done|]. by constructor.
  - intros c Hin. destruct ls as [c'|]; [|by apply Hl].
    apply elem_of_app in Hin as [Hin|Hin%list_elem_of_singleton]; [by apply Hl|].
    injection Hin as ->. right. split; [by apply Hls|done].
  - intros c Hcx. specialize (Hx c Hcx). lia.
Qed.

Lemma doStart_owned s w env :
  owned s w → dbpool s = None →
  let '(err, s', w') := doStart s w env in
  owned s' w' ∧ restarting s' = restarting s ∧ restartBackoff s' = restartBackoff s ∧
  (err = None → is_Some (dbpool s')).
Proof.
  intros Hown Hd.
  assert (Hcn : conn s = None).
  { destruct (conn s) as [k|] eqn:E; [|done]. destruct (o_conn _ _ Hown) as [[? ?] _]; [by rewrite E|congruence]. }
  set (c := fresh_id w). unfold doStart. fold c. rewrite Hd.
  pose proof (owned_later s w (S c) c Hown Hd ltac:(lia) ltac:(lia)) as H1.
  destruct (parsed env) as [cfg|e]; [|done]. destruct (newPool env _) as [e|]; [done|].
  pose proof (owned_later s w (S (S c)) c Hown Hd ltac:(lia) ltac:(lia)) as H2.
  apply (owned_new_pool _ _ (S c) (S c)) in H2; [|done]. rewrite Hcn.
  destruct (negb (notifyName =? "")%string) eqn:En; cbn.
  2: { by destruct (WithInitPing config). }
  apply negb_true_iff, String.eqb_neq in En.
  destruct (notifyNamePattern notifyName) eqn:Ep; cbn; [|done].
  destruct (acquire env) as [e|]; [done|].
  pose proof (λ ls, owned_listen _ _ (S (S c)) (S (S (S c))) ls H2 ltac:(done) eq_refl En Ep ltac:(cbn; lia)) as H3.
  destruct (listen env) as [e|]; (split; [|done]).
  - by apply (H3 None).
  - by apply (H3 (Some c)); intros ? [= <-].
Qed.

Record Inv (x : sys) : Prop := {
  i_owned : owned (pg x) (wd x);
  i_sleep : sleepers x = if restarting (pg x) then 1%nat else 0%nat;
  i_down : restarting (pg x) = true → dbpool (pg x) = None
}.

Lemma owned_listeners s w l :
  owned s w → (∀ c, Waiting c ∈ l → Waiting c ∈ listeners w) →
  owned s (MkWorld (fresh_id w) (open w) (held w) (cancelled w) (executed w) l).
Proof. intros [Ho Hh Hc [Hf1 Hf2] He Hls Hx] Hl. split; simpl; try done; [|by auto]. split; [done|]. auto. Qed.

Lemma Inv_sections x ps ec nc rc tk : Inv x → Inv (MkSys (pg x) (wd x) (sleepers x) ps ec nc rc tk).
Proof. by intros [? ? ?]; split. Qed.

Lemma begin_restart_Inv x r : Inv x → Inv (begin_restart x r).
Proof.
  intros [Ho Hs Hd]. unfold begin_restart, DoRestart_begin. destruct (restarting (pg x)) eqn:E.
  { by split; simpl; rewrite ?E. }
  pose proof (doStop_owned _ _ (owned_restart _ _ true (next_backoff (restartBackoff (pg x))) Ho)) as H.
  destruct (doStop _ _) as [s w]. destruct H as (H1 & _ & H2 & H3). split; simpl in *; [done| |done].
  by rewrite H3, Hs.
Qed.

Lemma pg_step_Inv x y : Inv x → step true x y → Inv y.
Proof.
  intros HI Hstep. pose proof HI as [Ho Hs Hd].
  destruct Hstep as [x env Hstrict|x|x r|x env n Hn|x i c n Hi|x n l Hl|x i c Hi|x i c e Hi Hc|x e l Hl|x|x i Hi|x i Hi|x i r Hi];
    try (by apply Inv_sections); try (by apply begin_restart_Inv); try (by apply begin_restart_Inv, Inv_sections).
  - unfold Start. destruct (restarting (pg x)) eqn:E; [by split; simpl; rewrite ?E|].
    pose proof (doStart_owned _ _ env Ho (Hstrict eq_refl)) as H.
    destruct (doStart _ _ _) as [[err s] w]. destruct H as (H1 & H2 & _). by split; simpl; rewrite ?H2, ?E.
  - pose proof (doStop_owned _ _ Ho) as H. unfold Stop. destruct (doStop _ _) as [s w].
    destruct H as (H1 & _ & H2 & H3). by split; simpl; rewrite ?H3.
  - unfold DoRestart_end. rewrite Hn in Hs.
    assert (Hr : restarting (pg x) = true) by (destruct (restarting (pg x)); [done|lia]).
    rewrite Hr in Hs. pose proof (doStart_owned _ _ env Ho (Hd Hr)) as H.
    destruct (doStart _ _ _) as [[err s] w]. destruct H as (H1 & H2 & _).
    split; simpl; [|lia|done]. destruct err; apply owned_restart; [done|by apply owned_restart].
  - split; simpl; try done. apply owned_listeners; [done|]. intros c' Hin.
    apply list_elem_of_lookup_1 in Hin as [j Hj]. destruct (decide (i = j)) as [<-|Hne].
    + rewrite list_lookup_insert_eq in Hj by (by eapply lookup_lt_Some). done.
    + rewrite list_lookup_insert_ne in Hj by done. by eapply list_elem_of_lookup_2.
  - split; simpl; try done. apply owned_listeners; [done|]. intros c' Hin. by eapply list_elem_of_delete_inv.
Qed.

Lemma Inv0 : Inv sys0.
Proof. split; [apply owned0|done|done]. Qed.

Lemma pg_reachable_Inv x : reachable true x → Inv x.
Proof. apply (star_invariant _ Inv pg_step_Inv), Inv0. Qed.

(** Statements, with or without the discipline. *)
Definition stmts_ok (w : world) : Prop :=
  Forall (λ q, q = ("LISTEN " ++ notifyName)%string ∧ notifyNamePattern notifyName = true) (executed w).

Lemma doStart_stmts s w env : stmts_ok w → stmts_ok (doStart s w env).2.
Proof.
  intros H. unfold doStart. destruct (parsed env) as [cfg|]; [|done]. destruct (newPool env _); [done|].
  destruct (negb (notifyName =? "")%string); [|by destruct (WithInitPing config)].
  destruct (notifyNamePattern notifyName) eqn:Ep; cbn; [|done].
  destruct (acquire env); [done|].
  destruct (listen env); (apply Forall_app; split; [done|]; by constructor).
Qed.

Lemma doStop_stmts s w : stmts_ok w → stmts_ok (doStop s w).2.
Proof. unfold doStop, stmts_ok. by destruct (if negb _ then _ else _). Qed.

Lemma begin_restart_stmts x r : stmts_ok (wd x) → stmts_ok (wd (begin_restart x r)).
Proof.
  intros H. unfold begin_restart, DoRestart_begin. destruct (restarting (pg x)); [done|].
  pose proof (doStop_stmts (set_restart (pg x) true (next_backoff (restartBackoff (pg x)))) _ H) as H'.
  by destruct (doStop _ _).
Qed.

Lemma step_stmts strict x y : stmts_ok (wd x) → step strict x y → stmts_ok (wd y).
Proof.
  intros H Hstep. destruct Hstep as [x env _|x|x r|x env n _|x i c n _|x n l _|x i c _|x i c e _ _|x e l _|x|x i _|x i _|x i r _]; try done;
    try (by apply begin_restart_stmts).
  - unfold Start. destruct (restarting (pg x)); [done|]. pose proof (doStart_stmts (pg x) _ env H) as H'.
    by destruct (doStart _ _ _) as [[? ?] ?].
  - unfold Stop. pose proof (doStop_stmts (pg x) _ H) as H'. by destruct (doStop _ _).
  - unfold DoRestart_end. pose proof (doStart_stmts (pg x) _ env H) as H'.
    by destruct (doStart _ _ _) as [[[?|] ?] ?].
Qed.

(** ** The pool the queries use *)

(** A pool of the object is open, and the context kept with it has not been
    cancelled. *)
Record live (s : PostgreSQL) (w : world) : Prop := {
  l_cancelled : ∀ c, c ∈ cancelled w → (c < fresh_id w)%nat;
  l_cancel : ∀ c, cancel s = Some c → (c < fresh_id w)%nat;
  l_pool : ∀ p, dbpool s = Some p → p ∈ open w ∧ ∃ c, ctx s = Some c ∧ cancel s = Some c ∧ c ∉ cancelled w
}.

Lemma live0 : live NewPostgreSQL world0.
Proof. split; simpl; [set_solver|done|done]. Qed.

Lemma live_restart s w r b : live s w → live (set_restart s r b) w.
Proof. by intros [? ? ?]; split. Qed.

Lemma live_ids s w n h x l k :
  live s w → (fresh_id w ≤ n)%nat →
  live (MkPG (ctx s) (cancel s) (dbpool s) (stdlibDB s) (restarting s) (restartBackoff s) k)
    (MkWorld n (open w) h (cancelled w) x l).
Proof. intros [H1 H2 H3] Hn. split; cbn; [intros c Hc; specialize (H1 c Hc); lia|intros c Hc; specialize (H2 c Hc); lia|done]. Qed.

(** The steps of a start: its context, then its pool. *)
Lemma live_context s w d k :
  live s w → (∀ p, d = Some p → p ∈ open w) →
  live (MkPG (Some (fresh_id w)) (Some (fresh_id w)) d k (restarting s) (restartBackoff s) (conn s))
    (MkWorld (S (fresh_id w)) (open w) (held w) (cancelled w) (executed w) (listeners w)).
Proof.
  intros [H1 H2 H3] Hd. split; cbn; [intros c Hc; specialize (H1 c Hc); lia|intros c [= <-]; lia|].
  intros p Hp. split; [by apply Hd|]. eexists. do 2 (split; [done|]). intros Hin%H1. lia.
Qed.

Lemma live_pool s w c :
  live s w → ctx s = Some c → cancel s = Some c → c ∉ cancelled w →
  live (MkPG (ctx s) (cancel s) (Some (fresh_id w)) (Some (fresh_id w)) (restarting s) (restartBackoff s) (conn s))
    (MkWorld (S (fresh_id w)) ({[fresh_id w]} ∪ open w) (held w) (cancelled w) (executed w) (listeners w)).
Proof.
  intros [H1 H2 H3] Hx Hc Hn. split; cbn; [intros c' Hc'; specialize (H1 c' Hc'); lia| |].
  - intros c' Hc'. specialize (H2 c' Hc'). lia.
  - intros p [= <-]. split; [set_solver|]. by exists c.
Qed.

Lemma doStart_live s w env : live s w → live (doStart s w env).1.2 (doStart s w env).2.
Proof.
  intros H. pose proof (live_context s w (dbpool s) (stdlibDB s) H (λ p Hp, proj1 (l_pool _ _ H p Hp))) as H1.
  assert (Hn : fresh_id w ∉ cancelled w) by (intros Hin%(l_cancelled _ _ H); lia).
  pose proof (live_pool _ _ (fresh_id w) H1 eq_refl eq_refl Hn) as H2.
  unfold doStart. destruct (parsed env) as [cfg|]; [|exact H1].
  destruct (newPool env _); [apply (live_context s w None (stdlibDB s) H); done|].
  destruct (negb (notifyName =? "")%string); [|by destruct (WithInitPing config)].
  destruct (negb (notifyNamePattern notifyName)); [exact H2|].
  destruct (acquire env); [apply (live_ids _ _ _ _ _ _ None H2); reflexivity|].
  destruct (listen env); (eapply (live_ids _ _ _ _ _ _ _ H2); cbn; lia).
Qed.

Lemma doStop_live s w : live s w → live (doStop s w).1 (doStop s w).2.
Proof.
  intros [H1 H2 H3]. unfold doStop. destruct (if negb _ then _ else _). split; cbn; [|done|done].
  intros c Hc. destruct (cancel s) as [c'|] eqn:E; [|by apply H1].
  apply elem_of_union in Hc as [->%elem_of_singleton|Hc]; [by apply H2|by apply H1].
Qed.

Lemma begin_restart_live x r : live (pg x) (wd x) → live (pg (begin_restart x r)) (wd (begin_restart x r)).
Proof.
  intros H. unfold begin_restart, DoRestart_begin. destruct (restarting (pg x)); [done|].
  pose proof (doStop_live _ _ (live_restart _ _ true (next_backoff (restartBackoff (pg x))) H)) as H'.
  by destruct (doStop _ _).
Qed.

Lemma step_live strict x y : live (pg x) (wd x) → step strict x y → live (pg y) (wd y).
Proof.
  intros H Hstep. destruct Hstep as [x env _|x|x r|x env n _|x i c n _|x n l _|x i c _|x i c e _ _|x e l _|x|x i _|x i _|x i r _];
    try done; try (by apply begin_restart_live); try (by destruct H; split).
  - unfold Start. destruct (restarting (pg x)); [done|]. pose proof (doStart_live _ _ env H) as H'.
    by destruct (doStart _ _ _) as [[? ?] ?].
  - unfold Stop. pose proof (doStop_live _ _ H) as H'. by destruct (doStop _ _).
  - unfold DoRestart_end. pose proof (doStart_live _ _ env H) as H'.
    destruct (doStart _ _ _) as [[[?|] ?] ?]; repeat apply live_restart; done.
Qed.

(** ** The notification channel *)

Definition notes_ok (x : sys) : Prop :=
  sublist (taken x ++ notificationCh x) (received x) ∧
  (length (notificationCh x) ≤ notifyCap)%nat ∧ (length (errorCh x) ≤ 1)%nat.

Lemma notify_notes x n : notes_ok x → notes_ok (notify x n).
Proof.
  intros (H1 & H2 & H3). unfold notes_ok, notify. cbn [taken notificationCh received errorCh].
  destruct (_ <? _)%nat eqn:E; (split; [|split; [|done]]); try done.
  - rewrite app_assoc. by apply sublist_app.
  - apply Nat.ltb_lt in E. rewrite length_app. cbn. lia.
  - by apply sublist_inserts_r.
Qed.

Lemma begin_restart_notes x r : notes_ok x → notes_ok (begin_restart x r).
Proof. intros H. unfold begin_restart. by destruct (DoRestart_begin _ _ _) as [[[?|?] ?] ?]. Qed.

Lemma step_notes strict x y : notes_ok x → step strict x y → notes_ok y.
Proof.
  intros H Hstep. destruct Hstep as [x env _|x|x r|x env n _|x i c n _|x n l Hl|x i c _|x i c e _ _|x e l He|x|x i _|x i _|x i r _];
    try done; try (by apply begin_restart_notes).
  - by destruct (Start _ _ _) as [[? ?] ?].
  - by destruct (Stop _ _).
  - by destruct (DoRestart_end _ _ _) as [[? ?] ?].
  - by apply notify_notes.
  - destruct H as (H1 & H2 & H3). rewrite Hl in H1, H2. split; cbn; [by rewrite <- app_assoc|].
    split; [cbn in H2; lia|done].
  - destruct H as (H1 & H2 & H3). split; [done|]. split; [done|]. cbn. lia.
  - destruct H as (H1 & H2 & H3). split; [done|]. split; [done|]. rewrite He in H3. cbn in *. lia.
Qed.

(** ** Properties *)

(** Under every interleaving, and whatever starts the clients repeat, a query
    reaches the driver with no pool at all or with an open pool and the
    context of the start that made it, which is not cancelled; a ping is sent
    on that same pool or not at all. *)
Theorem query_pool_live strict x sql (args : list string) :
  reachable strict x →
  Query (λ pool cx _ _, (pool, cx)) (pg x) sql args = (None, ctx (pg x)) ∧ ping_target (pg x) = None ∨
  ∃ p c, Query (λ pool cx _ _, (pool, cx)) (pg x) sql args = (Some p, Some c) ∧
    p ∈ open (wd x) ∧ c ∉ cancelled (wd x) ∧ ping_target (pg x) = Some (p, Some c).
Proof.
  intros Hr. assert (H : live (pg x) (wd x)).
  { apply (star_invariant _ (λ x, live (pg x) (wd x)) (step_live strict) sys0 x); [apply live0|exact Hr]. }
  unfold Query, ping_target. destruct (dbpool (pg x)) as [p|] eqn:E; [|by left].
  destruct (l_pool _ _ H p E) as (Ho & c & -> & _ & Hc). right. by exists p, c.
Qed.

(** [C39] What the client reads from the notification channel, and what waits in
    it, are notifications of the driver in their order and without
    repetition, at most 64 waiting; one is lost only when 64 others wait, and
    at most one error of a listener waits. *)
Theorem notifications_in_order strict x :
  reachable strict x →
  sublist (taken x ++ notificationCh x) (received x) ∧
  (length (notificationCh x) ≤ notifyCap)%nat ∧ (length (errorCh x) ≤ 1)%nat ∧
  ∀ n, (length (notificationCh x) < notifyCap)%nat →
    taken (notify x n) ++ notificationCh (notify x n) = (taken x ++ notificationCh x) ++ [n].
Proof.
  intros Hr. destruct (star_invariant _ notes_ok (step_notes strict) sys0 x) as (H1 & H2 & H3); [|exact Hr|].
  { repeat split; cbn; [constructor|lia|lia]. }
  do 3 (split; [done|]). intros n Hn. unfold notify. cbn [taken notificationCh].
  apply Nat.ltb_lt in Hn. rewrite Hn. by rewrite app_assoc.
Qed.

(** [C11] Under every interleaving of starts, stops, restarts, pings and
    listeners, when [Start] is only called on an object without pool: the
    pool and the connection of the object are the only ones open, at most one
    restart is under way, and a stop leaves nothing open and cancels every
    listener. *)
Theorem pools_owned x :
  reachable true x →
  open (wd x) = match dbpool (pg x) with Some p => {[p]} | None => ∅ end ∧
  held (wd x) = match conn (pg x) with Some k => {[k]} | None => ∅ end ∧
  sleepers x = (if restarting (pg x) then 1 else 0)%nat ∧
  let '(s, w) := Stop (pg x) (wd x) in
  open w = ∅ ∧ held w = ∅ ∧ ∀ c, Waiting c ∈ listeners w → c ∈ cancelled w.
Proof.
  intros [Ho Hs _]%pg_reachable_Inv. split; [apply Ho|]. split; [apply Ho|]. split; [done|].
  unfold Stop. pose proof (doStop_owned _ _ Ho) as H. destruct (doStop _ _). by destruct H as (_ & H & _).
Qed.

(** Whatever the clients do, every statement the listener executes is
    LISTEN with a plain identifier: letters, digits and underscores. *)
Theorem listen_statements_safe strict x q :
  reachable strict x → q ∈ executed (wd x) →
  ∃ a n, q = ("LISTEN " ++ String a n)%string ∧ is_letter a = true ∧ all_word n = true.
Proof.
  intros Hr Hq. assert (H : stmts_ok (wd x)).
  { apply (star_invariant _ (λ x, stmts_ok (wd x)) (step_stmts strict) sys0 x); [apply Forall_nil_2|exact Hr]. }
  unfold stmts_ok in H. rewrite Forall_forall in H. destruct (H q Hq) as [-> Hp].
  destruct notifyName as [|a n]; [done|]. cbn [notifyNamePattern] in Hp. apply andb_prop in Hp as [? ?].
  by exists a, n.
Qed.

(** A stop does not end a restart that is asleep: its second section
    still opens a pool, on an object the client has stopped. *)
Theorem stop_undone x :
  reachable true x → restarting (pg x) = true → notifyName = ""%string → WithInitPing config = false →
  let x1 := let '(s, w) := Stop (pg x) (wd x) in with_obj x s w in
  open (wd x1) = ∅ ∧
  ∃ x2, step true x1 x2 ∧ is_Some (dbpool (pg x2)) ∧ open (wd x2) ≠ ∅ ∧ restarting (pg x2) = false.
Proof.
  intros Hr Hrs Hn Hping. pose proof (pg_reachable_Inv x Hr) as [Ho Hs Hd]. rewrite Hrs in Hs.
  unfold Stop. pose proof (doStop_owned _ _ Ho) as H. destruct (doStop (pg x) (wd x)) as [s w].
  destruct H as (_ & (Hi & _) & _). split; [exact Hi|].
  eexists. split.
  { apply (step_wake true (with_obj x s w)
      (MkStartEnv (Ok (MkPoolConfig 0 4 0 0 0 0)) (λ _, None) None None None) 0 Hs). }
  unfold DoRestart_end, doStart. rewrite Hn, Hping. cbn. split; [done|]. split; [set_solver|done].
Qed.

(** ** Restarts one after the other *)

(** Whole restarts: the delay of each and whether it brought the pool back. *)
Fixpoint restarts (s : PostgreSQL) (w : world) (l : list (Z * start_env)) : list (result Duration * bool) * PostgreSQL * world :=
  match l with
  | [] => ([], s, w)
  | (r, env) :: l =>
      let '(d, s, w) := DoRestart_begin s w r in
      let '(err, s, w) := DoRestart_end s w env in
      let '(ds, s, w) := restarts s w l in
      ((d, match err with None => true | Some _ => false end) :: ds, s, w)
  end.

Definition backoff_at (n : nat) : Duration := Z.min (restartBaseDelay * 2 ^ Z.of_nat n) restartMaxDelay.

Lemma next_backoff_at n : next_backoff (backoff_at n) = backoff_at (S n).
Proof.
  unfold next_backoff, backoff_at. rewrite Nat2Z.inj_succ, Z.pow_succ_r by lia.
  assert (0 < 2 ^ Z.of_nat n) by (apply Z.pow_pos_nonneg; lia).
  unfold restartBaseDelay, restartMaxDelay, Minute, Second.
  destruct (Z.min_spec (5 * 1000000000 * 2 ^ Z.of_nat n) (5 * (60 * 1000000000))) as [[? ->]|[? ->]];
    (destruct (_ =? 0) eqn:E; bool_to_prop; [lia|]); destruct (_ <? _) eqn:E2; bool_to_prop; lia.
Qed.

Lemma backoff_at_range n : restartBaseDelay ≤ backoff_at n ≤ restartMaxDelay.
Proof.
  unfold backoff_at, restartBaseDelay, restartMaxDelay, Minute, Second.
  assert (0 < 2 ^ Z.of_nat n) by (apply Z.pow_pos_nonneg; lia). lia.
Qed.

Lemma jitterDuration_range d r : 5 ≤ d → d - d / 5 ≤ jitterDuration d r ≤ d + d / 5.
Proof.
  intros Hd. unfold jitterDuration. rewrite Z.quot_div_nonneg by lia.
  assert (1 ≤ d / 5) by (apply Z.div_le_lower_bound; lia).
  destruct (d / 5 =? 0) eqn:E; bool_to_prop; [lia|].
  pose proof (Z.mod_pos_bound r (2 * (d / 5) + 1) ltac:(lia)). lia.
Qed.

(** One restart of an object that is not restarting. *)
Lemma restart_round s w r env b :
  owned s w → restarting s = false → next_backoff (restartBackoff s) = b →
  let '(d, s1, w1) := DoRestart_begin s w r in
  let '(err, s2, w2) := DoRestart_end s1 w1 env in
  d = Ok (jitterDuration b r) ∧ owned s2 w2 ∧ restarting s2 = false ∧
  restartBackoff s2 = match err with None => 0 | Some _ => b end.
Proof.
  intros Ho Hr <-. unfold DoRestart_begin. rewrite Hr.
  set (b := next_backoff (restartBackoff s)).
  pose proof (doStop_owned _ _ (owned_restart _ _ true b Ho)) as H.
  assert (Hb : restartBackoff (doStop (set_restart s true b) w).1 = b).
  { unfold doStop. by destruct (if negb _ then _ else _). }
  destruct (doStop _ _) as [s1 w1]. destruct H as (H1 & _ & H2 & H3). cbn in Hb.
  unfold DoRestart_end. pose proof (doStart_owned _ _ env H1 H2) as H4.
  destruct (doStart _ _ _) as [[err s2] w2]. destruct H4 as (H4 & _ & H6 & _).
  split; [done|]. destruct err; (split; [by repeat apply owned_restart|]); [|done].
  split; [done|]. cbn. by rewrite H6.
Qed.

(** Restarts that fail one after the other sleep five seconds, then
    twice as long each time up to five minutes, give or take a fifth. *)
Theorem restart_delays s w l :
  owned s w → restarting s = false → restartBackoff s = 0 →
  let '(ds, _, _) := restarts s w l in
  Forall (λ d, d.2 = false) ds →
  ∀ i d ok, ds !! i = Some (d, ok) →
    ∃ z, d = Ok z ∧ backoff_at i - backoff_at i / 5 ≤ z ≤ backoff_at i + backoff_at i / 5.
Proof.
  intros Ho Hr Hb0.
  assert (Hb : next_backoff (restartBackoff s) = backoff_at 0) by by rewrite Hb0.
  clear Hb0. set (k := 0%nat) in *.
  assert (Hgoal : let '(ds, _, _) := restarts s w l in Forall (λ d, d.2 = false) ds →
     ∀ i d ok, ds !! i = Some (d, ok) → ∃ z, d = Ok z ∧
       backoff_at (k + i) - backoff_at (k + i) / 5 ≤ z ≤ backoff_at (k + i) + backoff_at (k + i) / 5); [|exact Hgoal].
  clearbody k. revert s w k Ho Hr Hb. induction l as [|[r env] l IH]; intros s w k Ho Hr Hb; [done|].
  cbn [restarts]. pose proof (restart_round s w r env _ Ho Hr Hb) as Hround.
  destruct (DoRestart_begin s w r) as [[d s1] w1]. destruct (DoRestart_end s1 w1 env) as [[err s2] w2].
  destruct Hround as (-> & Ho2 & Hr2 & Hb2).
  destruct err as [e|].
  - specialize (IH s2 w2 (S k) Ho2 Hr2 ltac:(rewrite Hb2; apply next_backoff_at)).
    destruct (restarts s2 w2 l) as [[ds s3] w3]. intros [_ Hall]%Forall_cons [|i] d ok Hi.
    + injection Hi as <- <-. rewrite Nat.add_0_r. eexists. split; [done|].
      apply jitterDuration_range. pose proof (backoff_at_range k). unfold restartBaseDelay, Second in *. lia.
    + rewrite <- Nat.add_succ_comm. by apply (IH Hall i d ok).
  - destruct (restarts s2 w2 l) as [[ds s3] w3]. by intros [? _]%Forall_cons.
Qed.
End service.

(** ** Concrete runs *)

Definition cfg0 : ConfigPostgreSQL := MkConfig (-1) (-1) 0 0 0 0 false.
Definition dsn0 : PoolConfig := MkPoolConfig 0 4 Minute Hour Hour 0.
Definition up : start_env := MkStartEnv (Ok dsn0) (λ _, None) None None None.
Definition down : start_env := MkStartEnv (Ok dsn0) (λ _, Some "refused"%string) None None None.

(** A second [Start] on a started object loses the first pool: stopping the
    object afterwards leaves it open. *)
Lemma start_twice_leaks :
  ∃ x, reachable cfg0 "" false x ∧ let '(s, w) := Stop "" (pg x) (wd x) in dbpool s = None ∧ open w ≠ ∅.
Proof.
  eexists. split.
  { eapply star_step; [by apply (step_start cfg0 "" false sys0 up)|].
    apply star_one. by apply (step_start cfg0 "" false _ up). }
  split; [done|]. intros H. assert (Hin : (1%nat ∈ (∅ : gset nat))); [|set_solver].
  rewrite <- H. vm_compute. done.
Qed.

(** A started object, and one whose restart is asleep. *)
Definition started (name : string) : sys :=
  let '(_, s, w) := Start cfg0 name (pg sys0) (wd sys0) up in with_obj sys0 s w.

Lemma started_reachable name : reachable cfg0 name true (started name).
Proof. apply star_one. by apply (step_start cfg0 name true sys0 up). Qed.

Lemma asleep_reachable : reachable cfg0 "" true (begin_restart "" (started "") 7).
Proof.
  eapply star_trans; [apply started_reachable|]. apply star_one. apply step_restart.
Qed.

(** While a restart sleeps there is no pool, and a query is a call on a nil
    pool: only [DoPing] and [GetDB] look. *)
Lemma query_during_restart :
  ∃ x, reachable cfg0 "" true x ∧ sleepers x = 1%nat ∧
    Query (λ pool _ sql args, (pool, sql, args)) (pg x) "SELECT 1" ["a"%string] = (None, "SELECT 1"%string, ["a"%string]).
Proof. exists (begin_restart "" (started "") 7). split; [apply asleep_reachable|]. split; vm_compute; reflexivity. Qed.

Lemma notifications_in_order_witness :
  let x := notify (notify (started "events") "one") "two" in
  let y := MkSys (pg x) (wd x) (sleepers x) (pingers x) (errorCh x) ["two"%string] (received x) ["one"%string] in
  reachable cfg0 "events" true y ∧ sublist (["one"; "two"]%string) (received y) ∧ notifyCap = 64%nat.
Proof.
  intros x y.
  assert (Hr : reachable cfg0 "events" true y).
  { eapply star_trans; [apply started_reachable|].
    eapply star_step; [by apply (step_notification _ _ true _ 0 0 "one")|].
    eapply star_step; [by apply (step_notification _ _ true _ 0 0 "two")|].
    apply star_one. by apply (step_client_takes cfg0 "events" true x "one" ["two"%string]). }
  split; [exact Hr|]. split; [apply (notifications_in_order cfg0 "events" true y Hr)|reflexivity].
Defined.

Lemma pools_owned_witness :
  dbpool (pg (started "events")) = Some 1%nat ∧ conn (pg (started "events")) = Some 2%nat ∧
  open (wd (started "events")) = {[1%nat]} ∧
  let '(s, w) := Stop "events" (pg (started "events")) (wd (started "events")) in open w = ∅ ∧ held w = ∅.
Proof.
  pose proof (pools_owned cfg0 "events" (started "events") (started_reachable "events")) as (H1 & H2 & _ & H).
  split; [reflexivity|]. split; [reflexivity|]. split; [exact H1|].
  destruct (Stop _ _ _). split; apply H.
Defined.

Lemma listen_statements_safe_witness :
  ∃ a n, ("LISTEN " ++ "events" = "LISTEN " ++ String a n)%string ∧ is_letter a = true ∧ all_word n = true.
Proof.
  apply (listen_statements_safe cfg0 "events" true (started "events") _ (started_reachable "events")).
  vm_compute. constructor.
Defined.

Lemma stop_undone_witness :
  let x := begin_restart "" (started "") 7 in
  let x1 := let '(s, w) := Stop "" (pg x) (wd x) in with_obj x s w in
  open (wd x1) = ∅ ∧
  ∃ x2, step cfg0 "" true x1 x2 ∧ is_Some (dbpool (pg x2)) ∧ open (wd x2) ≠ ∅ ∧ restarting (pg x2) = false.
Proof.
  apply (stop_undone cfg0 "" (begin_restart "" (started "") 7) asleep_reachable); reflexivity.
Defined.

Lemma restart_delays_witness :
  (restarts cfg0 "" NewPostgreSQL world0 [(0, down); (3, down); (5, down)]).1.1 =
    [(Ok (4 * Second), false); (Ok (8 * Second + 3), false); (Ok (16 * Second + 5), false)] ∧
  16 * Second ≤ 16 * Second + 5 ≤ 24 * Second.
Proof.
  split; [vm_compute; reflexivity|].
  pose proof (restart_delays cfg0 "" NewPostgreSQL world0 [(0, down); (3, down); (5, down)]
    (owned0 "") eq_refl eq_refl) as H.
  assert (E : (restarts cfg0 "" NewPostgreSQL world0 [(0, down); (3, down); (5, down)]).1.1 =
    [(Ok (4 * Second), false); (Ok (8 * Second + 3), false); (Ok (16 * Second + 5), false)])
    by (vm_compute; reflexivity).
  destruct (restarts _ _ _ _ _) as [[ds s] w]. cbn in E. subst ds.
  destruct (H ltac:(by repeat constructor) 2%nat _ _ eq_refl) as (z & [= <-] & Hz). exact Hz.
Defined.
End Postgres.
