(* ===== verification/DbSql.v ===== *)
(** * database/sql services: SQL Server and Oracle
    (db/mssql/msSql.go, db/oracle/oracleSql.go)

    A handle of [database/sql] is a number; the world records the handles that
    are open.  What the driver answers is an argument. *)

From S2P Require Import Prelude.

(** The pool settings both services make: what is set, when it is positive.
    The two durations are in seconds. *)
Record PoolParams := MkPoolParams { MaxOpenConns : Z; MaxIdleConns : Z; ConnMaxLifetime : Z; ConnMaxIdleTime : Z }.

Inductive setting := SetMaxOpen (n : Z) | SetMaxIdle (n : Z) | SetLifetime (d : Duration) | SetIdleTime (d : Duration).

Definition pool_settings (c : PoolParams) : list setting :=
  (if 0 <? MaxOpenConns c then [SetMaxOpen (MaxOpenConns c)] else []) ++
  (if 0 <? MaxIdleConns c then [SetMaxIdle (MaxIdleConns c)] else []) ++
  (if 0 <? ConnMaxLifetime c then [SetLifetime (wrap64 (ConnMaxLifetime c * Second))] else []) ++
  (if 0 <? ConnMaxIdleTime c then [SetIdleTime (wrap64 (ConnMaxIdleTime c * Second))] else []).

(** Handles opened and not closed, and the settings made on handles. *)
Record handles := MkHandles { next : nat; open : gset nat; applied : list (nat * setting) }.

Definition handles0 : handles := MkHandles 0 ∅ [].
Definition open_handle (params : PoolParams) (h : handles) : nat * handles :=
  (next h, MkHandles (S (next h)) ({[next h]} ∪ open h) (applied h ++ (pair (next h) <$> pool_settings params))).
Definition close_handle (h : handles) (d : nat) : handles := MkHandles (next h) (open h ∖ {[d]}) (applied h).

Definition fresh_handles (h : handles) (db : option nat) : Prop :=
  open h = match db with Some d => {[d]} | None => ∅ end ∧ ∀ d, db = Some d → (d < next h)%nat.

Definition params0 : PoolParams := MkPoolParams (-1) (-1) 3600 1800.

Lemma fresh_close h d : fresh_handles h (Some d) → fresh_handles (close_handle h d) None.
Proof. intros [Ho _]. split; [|done]. simpl. set_solver. Qed.

Lemma fresh_open params h : fresh_handles h None → fresh_handles (open_handle params h).2 (Some (next h)).
Proof. intros [Ho _]. split; simpl; [set_solver|]. intros d [= <-]. lia. Qed.

Module MsSQL.

(** An error of the driver: an [mssql.Error] carries its number. *)
Inductive error := SqlError (number : Z) | OtherError (message : string).

Definition transient_numbers : list Z :=
  [64; 233; 4060; 4221; 10053; 10054; 10928; 10929; 40020; 40143; 40166; 40197; 40501; 40540; 40613;
   42108; 42109; 49918; 49919; 49920; 1205; 1222].

Definition isTransient (e : error) : bool :=
  match e with
  | SqlError n => bool_decide (n ∈ transient_numbers)
  | OtherError _ => false
  end.

(** [pingWithRetry]: [pings] are the answers of the driver, [n] how many
    attempts are left, [attempt] the number of the present one; the result
    comes with the number of pings and the sleeps. *)
Fixpoint ping_loop (n : nat) (attempt : Z) (pings : Z → option error) : option error * Z * list Duration :=
  match pings attempt with
  | None => (None, 1, [])
  | Some e =>
      match n with
      | S n =>
          if (3 <=? attempt) || negb (isTransient e) then (Some e, 1, [])
          else let '(r, k, sl) := ping_loop n (attempt + 1) pings in (r, k + 1, Second :: sl)
      | O => (Some e, 1, [])
      end
  end.

(** Four turns are enough: the fourth returns whatever the ping says. *)
Definition pingWithRetry (pings : Z → option error) : option error * Z * list Duration := ping_loop 4 0 pings.

Definition already_started : error := OtherError "mssql is already started".

Definition Start (params : PoolParams) (db : option nat) (h : handles) (openErr : option error) (pings : Z → option error) :
    option error * option nat * handles :=
  match db with
  | Some _ => (Some already_started, db, h)
  | None =>
      match openErr with
      | Some e => (Some e, None, h)
      | None =>
          let '(d, h) := open_handle params h in
          match (pingWithRetry pings).1.1 with
          | Some e => (Some e, None, close_handle h d)
          | None => (None, Some d, h)
          end
      end
  end.

Definition Stop (db : option nat) (h : handles) (closeErr : option error) : option error * option nat * handles :=
  match db with
  | None => (None, None, h)
  | Some d => (closeErr, None, close_handle h d)
  end.

(** ** Lemmas *)

Lemma ping_loop_spec n attempt pings :
  0 ≤ attempt → 4 ≤ attempt + Z.of_nat n →
  let '(r, k, sl) := ping_loop n attempt pings in
  1 ≤ k ≤ Z.max 1 (4 - attempt) ∧ Z.of_nat (length sl) = k - 1 ∧ Forall (eq Second) sl ∧
  r = pings (attempt + k - 1) ∧
  (∀ i, attempt ≤ i < attempt + k - 1 → ∃ e, pings i = Some e ∧ isTransient e = true) ∧
  (∀ e, r = Some e → isTransient e = false ∨ 3 ≤ attempt + k - 1).
Proof.
  revert attempt. induction n as [|n IH]; intros attempt Ha Hn; cbn [ping_loop].
  { destruct (pings attempt) as [e|] eqn:E; split_and!; try done; try lia;
      rewrite ?E; try (f_equal; lia); try (replace (attempt + 1 - 1) with attempt by lia; done); intros; try done; try lia;
      right; lia. }
  destruct (pings attempt) as [e|] eqn:E.
  2: { replace (attempt + 1 - 1) with attempt by lia. rewrite E. split_and!; try done; lia. }
  destruct ((3 <=? attempt) || negb (isTransient e)) eqn:Et.
  { replace (attempt + 1 - 1) with attempt by lia. rewrite E. split_and!; try done; try lia.
    intros e' [= <-]. apply orb_prop in Et as [?|?]; bool_to_prop; auto. }
  apply orb_false_iff in Et as [Et1 Et2]. bool_to_prop.
  specialize (IH (attempt + 1) ltac:(lia) ltac:(lia)).
  destruct (ping_loop n (attempt + 1) pings) as [[r k] sl]. destruct IH as (H1 & H2 & H3 & H4 & H5 & H6).
  replace (attempt + (k + 1) - 1) with (attempt + 1 + k - 1) by lia.
  split_and!; try done; try lia.
  - cbn [length]. lia.
  - by constructor.
  - intros i Hi. destruct (decide (i = attempt)) as [->|]; [by exists e|]. apply H5. lia.
Qed.

(** The start pings at most four times, a second apart, goes on only
    after an error of the transient list, and reports the answer of its last
    ping. *)
Theorem pingWithRetry_spec pings :
  let '(r, k, sl) := pingWithRetry pings in
  1 ≤ k ≤ 4 ∧ sl = replicate (Z.to_nat (k - 1)) Second ∧ r = pings (k - 1) ∧
  (∀ i, 0 ≤ i < k - 1 → ∃ e, pings i = Some e ∧ isTransient e = true) ∧
  (∀ e, r = Some e → isTransient e = true → k = 4).
Proof.
  unfold pingWithRetry. pose proof (ping_loop_spec 4 0 pings ltac:(lia) ltac:(lia)) as H.
  destruct (ping_loop 4 0 pings) as [[r k] sl]. destruct H as (H1 & H2 & H3 & H4 & H5 & H6).
  cbn [Z.add] in *. split; [lia|]. split.
  { replace (Z.to_nat (k - 1)) with (length sl) by lia. clear -H3.
    induction H3 as [|x l <- _ IH]; [done|]. cbn. by f_equal. }
  split; [done|]. split; [done|]. intros e He Ht. destruct (H6 e He) as [Hf|Hk]; [congruence|lia].
Qed.

(** Whatever the driver answers, a start leaves a handle open exactly
    when it succeeds, never a second one, and a stop closes it. *)
Theorem mssql_no_leak params db h openErr pings closeErr :
  fresh_handles h db →
  let '(err, db', h') := Start params db h openErr pings in
  fresh_handles h' db' ∧ (err = None → db = None ∧ is_Some db') ∧ (db = None → err ≠ None → db' = None) ∧
  let '(_, db2, h2) := Stop db' h' closeErr in db2 = None ∧ open h2 = ∅.
Proof.
  intros Hf. unfold Start.
  assert (Hstop : ∀ db h, fresh_handles h db → let '(_, db2, h2) := Stop db h closeErr in db2 = None ∧ open h2 = ∅).
  { intros [d|] h1 H1; simpl; [apply fresh_close in H1|]; (split; [done|apply H1]). }
  destruct db as [d|]; [split_and!; try done; by apply Hstop|].
  destruct openErr as [e|]; [split_and!; try done; by apply Hstop|].
  pose proof (fresh_open params h Hf) as Hf'. unfold open_handle in *. cbn [snd] in Hf'.
  destruct (pingWithRetry pings).1.1 as [e|].
  - apply fresh_close in Hf'. split_and!; try done. by apply (Hstop None).
  - split_and!; try done. by apply (Hstop (Some _)).
Qed.

Lemma mssql_no_leak_witness :
  let '(err, db, h) := Start params0 None handles0 None (λ i, if i <? 2 then Some (SqlError 40613) else None) in
  err = None ∧ db = Some 0%nat ∧ open h = {[0%nat]} ∧ let '(_, _, h2) := Stop db h None in open h2 = ∅.
Proof.
  assert (H0 : fresh_handles handles0 None) by (split; [done|discriminate]).
  pose proof (mssql_no_leak params0 None handles0 None (λ i, if i <? 2 then Some (SqlError 40613) else None) None H0) as H.
  destruct (Start _ _ _ _ _) as [[err db] h] eqn:E. vm_compute in E. injection E as <- <- <-.
  destruct H as ([Ho _] & _ & _ & H). split; [reflexivity|]. split; [reflexivity|]. split; [exact Ho|].
  destruct (Stop _ _ _) as [[? ?] h2]. exact (proj2 H).
Defined.
End MsSQL.

Module Oracle.

Record OracleSQL := MkOracle { connection : option nat; started_with_ctx : bool }.

(** [doStart]: the handle of an earlier start is overwritten, and one whose
    ping failed is kept.  [InitWithoutPing] skips the ping. *)
Definition doStart (params : PoolParams) (InitWithoutPing : bool) (s : OracleSQL) (h : handles) (openErr ping : option string) :
    option string * OracleSQL * handles :=
  match openErr with
  | Some e => (Some e, MkOracle None true, h)
  | None =>
      let '(d, h) := open_handle params h in
      (if InitWithoutPing then None else ping, MkOracle (Some d) true, h)
  end.

Definition Start := doStart.

Definition doStop (s : OracleSQL) (h : handles) (closeErr : option string) : option string * OracleSQL * handles :=
  match connection s with
  | None => (None, s, h)
  | Some d => (closeErr, MkOracle None (started_with_ctx s), close_handle h d)
  end.

Definition Stop := doStop.

(** [DoRestart] runs as one section; the error of the stop is only logged. *)
Definition DoRestart (params : PoolParams) (InitWithoutPing : bool) (s : OracleSQL) (h : handles) (closeErr openErr ping : option string) :
    OracleSQL * handles :=
  let '(_, s, h) := doStop s h closeErr in
  let '(_, s, h) := doStart params InitWithoutPing s h openErr ping in
  (s, h).

Definition DoPing (s : OracleSQL) (ping : option string) : option string :=
  match connection s with None => Some "connection is nil"%string | Some _ => ping end.

Definition GetDB (s : OracleSQL) : option nat := connection s.

(** [checkConnection]: a ping that fails restarts the object. *)
Definition checkConnection (params : PoolParams) (InitWithoutPing : bool) (s : OracleSQL) (h : handles)
    (ping1 closeErr openErr ping2 : option string) : option nat * OracleSQL * handles :=
  let '(s, h) := match DoPing s ping1 with
                 | Some _ => DoRestart params InitWithoutPing s h closeErr openErr ping2
                 | None => (s, h)
                 end in
  (GetDB s, s, h).

(** The calls of a client, one after the other under the mutex. *)
Inductive call := CStart (openErr ping : option string) | CStop (closeErr : option string)
  | CRestart (closeErr openErr ping : option string).

Definition run_call (params : PoolParams) (iwp : bool) (x : OracleSQL * handles) (c : call) : OracleSQL * handles :=
  match c with
  | CStart o p => let '(_, s, h) := Start params iwp x.1 x.2 o p in (s, h)
  | CStop e => let '(_, s, h) := Stop x.1 x.2 e in (s, h)
  | CRestart e o p => DoRestart params iwp x.1 x.2 e o p
  end.

Definition run_calls (params : PoolParams) (iwp : bool) (l : list call) : OracleSQL * handles :=
  fold_left (run_call params iwp) l (MkOracle None false, handles0).

(** Starts happen on an object without handle. *)
Fixpoint disciplined (params : PoolParams) (iwp : bool) (x : OracleSQL * handles) (l : list call) : bool :=
  match l with
  | [] => true
  | c :: l =>
      match c with CStart _ _ => bool_decide (connection x.1 = None) | _ => true end &&
      disciplined params iwp (run_call params iwp x c) l
  end.

Lemma oracle_call_owned params iwp x c :
  fresh_handles x.2 (connection x.1) → match c with CStart _ _ => connection x.1 = None | _ => True end →
  fresh_handles (run_call params iwp x c).2 (connection (run_call params iwp x c).1).
Proof.
  destruct x as [s h]. cbn [fst snd].
  assert (Hstart : ∀ s h o p, fresh_handles h None →
    let '(_, s', h') := doStart params iwp s h o p in fresh_handles h' (connection s')).
  { intros s1 h1 [e|] p H1; [exact H1|]. exact (fresh_open params h1 H1). }
  assert (Hstop : ∀ e, fresh_handles h (connection s) →
    let '(_, s', h') := doStop s h e in fresh_handles h' None ∧ connection s' = None).
  { intros e H1. unfold doStop. destruct (connection s) as [d|] eqn:E; [|by rewrite E].
    split; [by apply (fresh_close h d)|done]. }
  destruct c as [o p|e|e o p]; cbn [run_call fst snd]; intros Hf Hc.
  - rewrite Hc in Hf. specialize (Hstart s h o p Hf). unfold Start. by destruct (doStart _ _ _ _ _ _) as [[? ?] ?].
  - specialize (Hstop e Hf). unfold Stop. destruct (doStop _ _ _) as [[? ?] ?]. destruct Hstop as [H1 H2].
    cbn [fst snd]. by rewrite H2.
  - unfold DoRestart. specialize (Hstop e Hf). destruct (doStop _ _ _) as [[? s1] h1]. destruct Hstop as [H1 _].
    specialize (Hstart s1 h1 o p H1). by destruct (doStart _ _ _ _ _ _) as [[? ?] ?].
Qed.

Lemma oracle_calls_owned params iwp l x :
  fresh_handles x.2 (connection x.1) → disciplined params iwp x l = true →
  fresh_handles (fold_left (run_call params iwp) l x).2 (connection (fold_left (run_call params iwp) l x).1).
Proof.
  revert x. induction l as [|c l IH]; intros x Hf Hd; [done|]. cbn [disciplined] in Hd.
  apply andb_prop in Hd as [Hc Hd]. cbn [fold_left]. apply IH; [|done]. apply oracle_call_owned; [done|].
  destruct c; try done. by apply bool_decide_eq_true in Hc.
Qed.

(** When starts happen only on a stopped object, the handle the object
    keeps is the only one open, through any number of restarts. *)
Theorem oracle_single_handle params iwp l :
  disciplined params iwp (MkOracle None false, handles0) l = true →
  let '(s, h) := run_calls params iwp l in
  open h = match connection s with Some d => {[d]} | None => ∅ end ∧
  ∀ e, let '(_, s', h') := Stop s h e in connection s' = None ∧ open h' = ∅.
Proof.
  intros Hd. assert (H0 : fresh_handles handles0 None) by (split; [done|discriminate]).
  pose proof (oracle_calls_owned params iwp l (MkOracle None false, handles0) H0 Hd) as Hf. fold (run_calls params iwp l) in Hf.
  destruct (run_calls params iwp l) as [s h]. cbn [fst snd] in Hf. split; [apply Hf|]. intros e.
  unfold Stop, doStop. destruct (connection s) as [d|] eqn:E; [|rewrite E; split; [done|apply Hf]].
  split; [done|]. by apply (fresh_close h d).
Qed.

Lemma oracle_single_handle_witness :
  let '(s, h) := run_calls params0 false [CStart None None; CRestart None None (Some "ORA-03113"%string); CRestart None None None] in
  connection s = Some 2%nat ∧ open h = {[2%nat]}.
Proof.
  pose proof (oracle_single_handle params0 false
    [CStart None None; CRestart None None (Some "ORA-03113"%string); CRestart None None None] eq_refl) as H.
  destruct (run_calls _ _ _) as [s h] eqn:E. vm_compute in E. injection E as <- <-. destruct H as [H _].
  split; [reflexivity|exact H].
Defined.

(** A start whose ping fails keeps its handle, and starting again loses it:
    a stop closes the second one only. *)
Lemma oracle_retry_start_leaks :
  let '(s, h) := run_calls params0 false [CStart None (Some "ORA-12541"%string); CStart None None; CStop None] in
  connection s = None ∧ open h = {[0%nat]}.
Proof. by vm_compute. Qed.
End Oracle.
