(* ===== verification/Otello.v ===== *)
(** * OpenTelemetry service (monitoring/otel/otello.go)

    What the service holds: one connection and up to three providers, each
    with goroutines that run until its shutdown.  The libraries answer with an
    error or not; connections and providers are numbers. *)

From S2P Require Import Prelude GoIeee.

Module Otello.

Record ConfigOtello := MkConfig {
  Url : string; ServiceName : string; UnqServiceName : string; Labels : list (string * string);  (* in the order of the iteration *)
  WithoutPrometheus : bool; SampleRatio : float.float; TLS : bool
}.

(** ** The attributes of the resource *)

(** [attribute.KeyValue]; the zero value has the empty key. *)
Record KeyValue := MkKeyValue { attr_key : string; attr_value : string }.
Definition zeroKeyValue : KeyValue := MkKeyValue "" "".

Definition ServiceNameKey : string := "service.name".

(** The loop over the labels, writing at index [i]. *)
Fixpoint put_labels (i : nat) (labels : list (string * string)) (attributes : list KeyValue) : list KeyValue :=
  match labels with
  | [] => attributes
  | (k, v) :: labels => put_labels (S i) labels (<[i := MkKeyValue k v]> attributes)
  end.

Definition attributes (config : ConfigOtello) : list KeyValue :=
  let i := (if (UnqServiceName config =? "")%string then 1 else 2)%nat in
  let attributes := replicate (length (Labels config) + i) zeroKeyValue in
  let attributes := <[0%nat := MkKeyValue ServiceNameKey (ServiceName config)]> attributes in
  let attributes :=
    if (UnqServiceName config =? "")%string then attributes
    else <[0%nat := MkKeyValue "service.unique.name" (UnqServiceName config)]> attributes in
  put_labels i (Labels config) attributes.

Lemma put_labels_spec labels pre :
  put_labels (length pre) labels (pre ++ replicate (length labels) zeroKeyValue) =
    pre ++ ((λ kv, MkKeyValue kv.1 kv.2) <$> labels).
Proof.
  revert pre. induction labels as [|[k v] labels IH]; intros pre; [done|]. cbn [put_labels length replicate].
  rewrite insert_app_r_alt by lia. rewrite Nat.sub_diag. cbn [insert list_insert].
  specialize (IH (pre ++ [MkKeyValue k v])). rewrite length_app, Nat.add_1_r, <- !app_assoc in IH. exact IH.
Qed.

(** The resource is described by the name of the service and its
    labels, in order.  With a unique name configured, that name takes the
    place of the service name and an attribute with an empty key follows. *)
Theorem attributes_spec config :
  let labels := (λ kv, MkKeyValue kv.1 kv.2) <$> Labels config in
  attributes config =
    if (UnqServiceName config =? "")%string then MkKeyValue ServiceNameKey (ServiceName config) :: labels
    else MkKeyValue "service.unique.name" (UnqServiceName config) :: zeroKeyValue :: labels.
Proof.
  intros labels. unfold attributes. rewrite Nat.add_comm. destruct (_ =? _)%string; cbn [Nat.add replicate insert list_insert].
  - apply (put_labels_spec (Labels config) [_]).
  - apply (put_labels_spec (Labels config) [_; _]).
Qed.

(** ** The service *)

(** What is open at the libraries. *)
Record world := MkWorld { next : nat; conns : gset nat; running : gset nat }.
Definition world0 : world := MkWorld 0 ∅ ∅.

(** The credentials of a connection, and the ratio of a tracer provider. *)
Inductive credentials := Insecure | NewTLS.

Record Otello := MkOtello {
  conn : option nat; tracerProvider : option nat; loggerProvider : option nat; meterProvider : option nat; inited : bool;
  ratio : option float.float;
  tracer : option string; logger : option string; meter : option string
}.
Definition NewOtello : Otello := MkOtello None None None None false None None None None.

Definition set_conn (o : Otello) (c : option nat) : Otello :=
  MkOtello c (tracerProvider o) (loggerProvider o) (meterProvider o) (inited o) (ratio o) (tracer o) (logger o) (meter o).
Definition set_tracerProvider (o : Otello) (p : nat) (r : float.float) : Otello :=
  MkOtello (conn o) (Some p) (loggerProvider o) (meterProvider o) (inited o) (Some r) (tracer o) (logger o) (meter o).
Definition set_loggerProvider (o : Otello) (p : nat) : Otello :=
  MkOtello (conn o) (tracerProvider o) (Some p) (meterProvider o) (inited o) (ratio o) (tracer o) (logger o) (meter o).
Definition set_meterProvider (o : Otello) (p : nat) : Otello :=
  MkOtello (conn o) (tracerProvider o) (loggerProvider o) (Some p) (inited o) (ratio o) (tracer o) (logger o) (meter o).
(** The end of a start: the instruments carry the name of the service. *)
Definition set_ready (o : Otello) (t l m : option string) : Otello :=
  MkOtello (conn o) (tracerProvider o) (loggerProvider o) (meterProvider o) true (ratio o) t l m.

(** [ratio <= 0]. *)
Definition nonpositive (x : float.float) : bool :=
  match x with float.Fin neg m _ => neg || (m =? 0) | float.Inf neg => neg | float.NaN => false end.

Definition sample_ratio (config : ConfigOtello) : float.float :=
  if nonpositive (SampleRatio config) then float.of_int float.binary64 1 else SampleRatio config.

(** [initConn]: the address and the credentials given to [grpc.NewClient],
    which answers with [err] or a connection. *)
Definition initConn (config : ConfigOtello) : string * credentials :=
  (Url config, if TLS config then NewTLS else Insecure).

Definition open_conn (w : world) : world := MkWorld (S (next w)) ({[next w]} ∪ conns w) (running w).
Definition close_conn (w : world) (c : option nat) : world :=
  match c with Some c => MkWorld (next w) (conns w ∖ {[c]}) (running w) | None => w end.
Definition run_provider (w : world) : world := MkWorld (S (next w)) (conns w) ({[next w]} ∪ running w).
Definition shutdown (w : world) (p : option nat) : world :=
  match p with Some p => MkWorld (next w) (conns w) (running w ∖ {[p]}) | None => w end.

(** What the libraries answer to a start. *)
Record start_env := MkStartEnv {
  connErr : string * credentials → option string; resourceErr : option string; traceErr : option string; logErr : option string; metricErr : option string
}.

Definition initTracerProvider (config : ConfigOtello) (o : Otello) (w : world) (err : option string) : option string * Otello * world :=
  match err with
  | None => (None, set_tracerProvider o (next w) (sample_ratio config), run_provider w)
  | Some e => (Some e, o, w)
  end.

Definition initLoggerProvider (o : Otello) (w : world) (err : option string) : option string * Otello * world :=
  match err with
  | None => (None, set_loggerProvider o (next w), run_provider w)
  | Some e => (Some e, o, w)
  end.

Definition initMeterProvider (o : Otello) (w : world) (err : option string) : option string * Otello * world :=
  match err with
  | None => (None, set_meterProvider o (next w), run_provider w)
  | Some e => (Some e, o, w)
  end.

Definition Start (config : ConfigOtello) (o : Otello) (w : world) (env : start_env) : option string * Otello * world :=
  let w := close_conn w (conn o) in
  let o := set_conn o None in
  match connErr env (initConn config) with
  | Some e => (Some e, o, w)
  | None =>
      let o := set_conn o (Some (next w)) in
      let w := open_conn w in
      match resourceErr env with
      | Some e => (Some e, o, w)
      | None =>
          let '(err, o, w) := initTracerProvider config o w (traceErr env) in
          match err with
          | Some e => (Some e, o, w)
          | None =>
              let '(err, o, w) := initLoggerProvider o w (logErr env) in
              match err with
              | Some e => (Some e, o, w)
              | None =>
                  let '(err, o, w) :=
                    if WithoutPrometheus config then (None, o, w) else initMeterProvider o w (metricErr env) in
                  match err with
                  | Some e => (Some e, o, w)
                  | None =>
                      let name := Some (ServiceName config) in
                      (None, set_ready o name name (if WithoutPrometheus config then meter o else name), w)
                  end
              end
          end
      end
  end.

(** [errors.Join] of the errors of the shutdowns and of the close. *)
Record stop_env := MkStopEnv {
  traceDown : option string; logDown : option string; metricDown : option string; closeErr : option string
}.

Definition only_if {A : Type} (p : option A) (e : option string) : list string :=
  match p, e with Some _, Some e => [e] | _, _ => [] end.

Definition Stop (config : ConfigOtello) (o : Otello) (w : world) (env : stop_env) : list string * Otello * world :=
  let metrics := if WithoutPrometheus config then None else meterProvider o in
  let errs := only_if (tracerProvider o) (traceDown env) ++ only_if (loggerProvider o) (logDown env) ++
              only_if metrics (metricDown env) ++ only_if (conn o) (closeErr env) in
  let w := shutdown (shutdown (shutdown w (tracerProvider o)) (loggerProvider o)) metrics in
  (errs, set_conn o None, close_conn w (conn o)).

(** ** What it holds *)

Definition ids (p : option nat) : gset nat := match p with Some p => {[p]} | None => ∅ end.

(** The connection kept is the only one open, and every provider that runs
    is in a field. *)
Record owned (config : ConfigOtello) (o : Otello) (w : world) : Prop := {
  ow_conn : conns w = ids (conn o);
  ow_running : running w ⊆ ids (tracerProvider o) ∪ ids (loggerProvider o) ∪ ids (meterProvider o);
  ow_meter : WithoutPrometheus config = true → meterProvider o = None
}.

Definition idle (w : world) : Prop := conns w = ∅ ∧ running w = ∅.

Lemma otel_owned0 config : owned config NewOtello world0.
Proof. by split. Qed.

Lemma otel_Start_owned config o w env :
  owned config o w → running w = ∅ →
  let '(err, o', w') := Start config o w env in owned config o' w'.
Proof.
  intros [Hc _ Hm] Hr. unfold Start.
  assert (Hc0 : conns (close_conn w (conn o)) = ∅) by (destruct (conn o); cbn in *; set_solver).
  assert (Hr0 : running (close_conn w (conn o)) = ∅) by by destruct (conn o).
  revert Hc0 Hr0. generalize (close_conn w (conn o)) as w0. intros w0 Hc0 Hr0.
  assert (Hend : ∀ o' w', conns w' = ids (conn o') →
    running w' ⊆ ids (tracerProvider o') ∪ ids (loggerProvider o') ∪ ids (meterProvider o') →
    (WithoutPrometheus config = true → meterProvider o' = None) → owned config o' w') by by split.
  unfold initTracerProvider, initLoggerProvider, initMeterProvider.
  destruct (connErr env _), (resourceErr env), (traceErr env), (logErr env);
    try (apply Hend; cbn; [set_solver|set_solver|exact Hm]).
  destruct (WithoutPrometheus config) eqn:E; [|destruct (metricErr env)]; apply Hend; cbn; first [set_solver | congruence | done].
Qed.

Lemma otel_Stop_owned config o w env :
  owned config o w → let '(errs, o', w') := Stop config o w env in owned config o' w' ∧ idle w' ∧ conn o' = None.
Proof.
  intros [Hc Hr Hm]. unfold Stop.
  set (metrics := if WithoutPrometheus config then None else meterProvider o).
  assert (Hmeter : metrics = meterProvider o) by (unfold metrics; destruct (WithoutPrometheus config); [by rewrite Hm|done]).
  rewrite Hmeter. clear metrics Hmeter. set (w' := close_conn _ _).
  assert (Hidle : idle w').
  { unfold w'. split; destruct (conn o), (tracerProvider o), (loggerProvider o), (meterProvider o); cbn in *; set_solver. }
  destruct Hidle as [H1 H2]. split; [|done]. split; cbn; [done|rewrite H2; set_solver|done].
Qed.

(** ** Calls in a row *)

Inductive call := CStart (env : start_env) | CStop (env : stop_env).

Definition run_call (config : ConfigOtello) (x : Otello * world) (c : call) : Otello * world :=
  match c with
  | CStart env => let '(_, o, w) := Start config x.1 x.2 env in (o, w)
  | CStop env => let '(_, o, w) := Stop config x.1 x.2 env in (o, w)
  end.

Definition run_calls (config : ConfigOtello) (l : list call) : Otello * world :=
  fold_left (run_call config) l (NewOtello, world0).

(** A start, successful or not, is followed by a stop before the next one. *)
Fixpoint alternating (started : bool) (l : list call) : bool :=
  match l with
  | [] => true
  | CStart _ :: l => negb started && alternating true l
  | CStop _ :: l => alternating false l
  end.

Lemma otel_calls_owned config l x started :
  owned config x.1 x.2 → (started = false → idle x.2) → alternating started l = true →
  owned config (fold_left (run_call config) l x).1 (fold_left (run_call config) l x).2.
Proof.
  revert x started. induction l as [|[env|env] l IH]; intros [o w] started Ho Hi Ha; [done|..];
    cbn [fold_left run_call alternating fst snd] in *.
  - apply andb_prop in Ha as [Hs Ha]. apply negb_true_iff in Hs.
    pose proof (otel_Start_owned config o w env Ho (proj2 (Hi Hs))) as H.
    destruct (Start config o w env) as [[e o'] w']. by apply (IH (o', w') true).
  - pose proof (otel_Stop_owned config o w env Ho) as H.
    destruct (Stop config o w env) as [[e o'] w']. destruct H as (H1 & H2 & _). by apply (IH (o', w') false).
Qed.

(** [C23] When every start is followed by a stop before the next one, at most
    one connection is open and every provider that runs is known to the
    service, even after starts that failed half way; and a stop always closes
    the connection and shuts every provider down. *)
Theorem otello_released config l env :
  alternating false l = true →
  let '(o, w) := run_calls config l in
  conns w = ids (conn o) ∧
  running w ⊆ ids (tracerProvider o) ∪ ids (loggerProvider o) ∪ ids (meterProvider o) ∧
  let '(_, o', w') := Stop config o w env in conns w' = ∅ ∧ running w' = ∅.
Proof.
  intros Ha. pose proof (otel_calls_owned config l (NewOtello, world0) false (otel_owned0 config) (λ _, conj eq_refl eq_refl) Ha) as H.
  unfold run_calls. destruct (fold_left _ _ _) as [o w]. cbn in H.
  pose proof (otel_Stop_owned config o w env H) as Hs. destruct (Stop config o w env) as [[e o'] w'].
  destruct H as [H1 H2 _]. split; [done|]. split; [done|]. apply Hs.
Qed.

Definition config0 : ConfigOtello := MkConfig "localhost:4317" "api" "api-1" [("region", "eu")]%string false (float.of_int float.binary64 0) true.
Definition up : start_env := MkStartEnv (λ _, None) None None None None.
Definition down : stop_env := MkStopEnv None None None None.

(** A start whose log exporter fails, a stop, and a good start. *)
Lemma otello_released_witness :
  let '(o, w) := run_calls config0 [CStart (MkStartEnv (λ _, None) None None (Some "refused"%string) None); CStop down; CStart up] in
  inited o = true ∧ size (running w) = 3%nat ∧ let '(_, o', w') := Stop config0 o w down in running w' = ∅.
Proof.
  pose proof (otello_released config0
    [CStart (MkStartEnv (λ _, None) None None (Some "refused"%string) None); CStop down; CStart up] down eq_refl) as H.
  assert (Hx : (inited (run_calls config0
    [CStart (MkStartEnv (λ _, None) None None (Some "refused"%string) None); CStop down; CStart up]).1,
    size (running (run_calls config0
    [CStart (MkStartEnv (λ _, None) None None (Some "refused"%string) None); CStop down; CStart up]).2)) = (true, 3%nat))
    by (vm_compute; reflexivity).
  destruct (run_calls config0 _) as [o w]. cbn in Hx. injection Hx as -> ->. destruct H as (_ & _ & H).
  destruct (Stop config0 o w down) as [[e o'] w']. split; [reflexivity|]. split; [reflexivity|]. apply H.
Defined.

(** A second start without a stop closes the old connection, but the old
    providers are overwritten and nobody shuts them down. *)
Lemma start_twice_leaks_providers :
  let '(o, w) := run_calls config0 [CStart up; CStart up; CStop down] in conns w = ∅ ∧ size (running w) = 3%nat.
Proof. by vm_compute. Qed.

(** The service goes on saying it is initialised after a stop. *)
Lemma stopped_is_inited : inited (run_calls config0 [CStart up; CStop down]).1 = true.
Proof. by vm_compute. Qed.

(** [GetTracer], [GetLogger], [GetMeter] and [Inited] read the fields;
    [ChildCtx] calls the tracer, and panics on a nil one. *)
Definition GetTracer (o : Otello) : option string := tracer o.
Definition GetLogger (o : Otello) : option string := logger o.
Definition GetMeter (o : Otello) : option string := meter o.
Definition Inited (o : Otello) : bool := inited o.
Definition ChildCtx (o : Otello) (spanName : string) : option (string * string) := t ← tracer o; Some (t, spanName).

(** What an initialised service has: its tracer and its logger, a sampling
    ratio that is positive (or a NaN), and a meter unless there is none. *)
Definition ready (config : ConfigOtello) (o : Otello) : Prop :=
  (inited o = true ↔ is_Some (tracer o)) ∧
  (inited o = true → logger o = Some (ServiceName config) ∧ tracer o = Some (ServiceName config) ∧
     (WithoutPrometheus config = false → meter o = Some (ServiceName config)) ∧ is_Some (ratio o)) ∧
  (∀ r, ratio o = Some r → nonpositive r = false).

Lemma sample_ratio_positive config : nonpositive (sample_ratio config) = false.
Proof. unfold sample_ratio. by destruct (nonpositive (SampleRatio config)) eqn:E. Qed.

(** A start that fails leaves the instruments as they were. *)
Lemma ready_ext config o o' :
  inited o' = inited o → tracer o' = tracer o → logger o' = logger o → meter o' = meter o →
  ratio o' = ratio o ∨ ratio o' = Some (sample_ratio config) → ready config o → ready config o'.
Proof.
  intros E1 E2 E3 E4 Hr (H1 & H2 & H3). unfold ready. rewrite E1, E2, E3, E4. split; [done|].
  destruct Hr as [-> | ->]; [done|]. split.
  - intros Hi. destruct (H2 Hi) as (? & ? & ? & _). by split_and!.
  - intros r [= <-]. apply sample_ratio_positive.
Qed.

Lemma run_call_ready config x c : ready config x.1 → ready config (run_call config x c).1.
Proof.
  destruct x as [o w]. intros Hr. cbn [fst] in *. destruct c as [env|env]; cbn [run_call fst snd]; [|apply (ready_ext config o); cbn; auto].
  unfold Start, initTracerProvider, initLoggerProvider, initMeterProvider.
  destruct (connErr env _), (resourceErr env), (traceErr env), (logErr env);
    try (apply (ready_ext config o); cbn; auto; fail).
  pose proof (sample_ratio_positive config) as Hp.
  destruct (WithoutPrometheus config) eqn:Ew; [|destruct (metricErr env); [apply (ready_ext config o); cbn; auto; fail|]];
    unfold ready; rewrite ?Ew; cbn; (split; [split; [intros _; by eexists|done]|]); (split; [intros _; split_and!; try done; by eexists|]); intros r [= <-]; exact Hp.
Qed.

(** Through any calls a service says it is initialised exactly when it has
    its instruments; spans can be made then, and only then. *)
Lemma calls_ready config l :
  ready config (run_calls config l).1 ∧
  (Inited (run_calls config l).1 = true ↔ ∀ spanName, is_Some (ChildCtx (run_calls config l).1 spanName)).
Proof.
  assert (H : ready config (run_calls config l).1).
  { unfold run_calls. assert (H0 : ready config (NewOtello, world0).1) by (split; [split; [done|by intros [? [=]]]|by split]).
    revert H0. generalize (NewOtello, world0). induction l as [|c l IH]; intros x Hx; [done|]. by apply IH, run_call_ready. }
  split; [exact H|]. destruct H as (H & _). unfold Inited, ChildCtx. rewrite H. destruct (tracer _) as [t|]; cbn.
  - split; eauto.
  - split; [by intros [??]|]. intros Hs. by destruct (Hs ""%string).
Qed.

(** ** Span contexts *)

(** [SpanID.IsValid]: some byte is not zero. *)
Definition IsValid (sid : list Z) : bool := existsb (λ b, negb (b =? 0)) sid.

(** [NewSpanID]: draws from the source of randomness until one is a valid
    identifier; [None] as an answer is a failed read. *)
Fixpoint NewSpanID (draws : list (option (list Z))) : option (list Z) :=
  match draws with
  | [] => None                                   (* still looping *)
  | Some sid :: draws => if IsValid sid then Some sid else NewSpanID draws
  | None :: draws => NewSpanID draws
  end.

Record SpanContext := MkSpanContext { TraceID : list Z; SpanID : list Z; Sampled : bool; Remote : bool }.

(** [fromHex] is [trace.TraceIDFromHex]. *)
Definition GetFromRemoteWithTraceID (fromHex : string → result (list Z)) (draws : list (option (list Z)))
    (traceIDString : string) (remote : bool) : option (result SpanContext) :=
  match fromHex traceIDString with
  | Err e => Some (Err e)
  | Ok tid =>
      match NewSpanID draws with
      | Some sid => Some (Ok (MkSpanContext tid sid true remote))
      | None => None
      end
  end.

(** The first valid draw is the one returned: the loop ends as soon as the
    source gives a valid identifier. *)
Lemma NewSpanID_spec draws sid :
  NewSpanID draws = Some sid ↔
  ∃ pre post, draws = pre ++ Some sid :: post ∧ IsValid sid = true ∧ ∀ s, Some s ∈ pre → IsValid s = false.
Proof.
  assert (Hskip : ∀ d draws', (∀ s, d = Some s → IsValid s = false) →
    (∃ pre post, draws' = pre ++ Some sid :: post ∧ IsValid sid = true ∧ ∀ s, Some s ∈ pre → IsValid s = false) ↔
    (∃ pre post, d :: draws' = pre ++ Some sid :: post ∧ IsValid sid = true ∧ ∀ s, Some s ∈ pre → IsValid s = false)).
  { intros d draws' Hd. split.
    - intros (pre & post & -> & Hv & Hp). exists (d :: pre), post. split; [done|]. split; [done|].
      intros s [Hs|Hs]%elem_of_cons; [by apply Hd|by apply Hp].
    - intros ([|d' pre] & post & Heq & Hv & Hp); simplify_eq/=.
      + specialize (Hd sid eq_refl). congruence.
      + exists pre, post. split; [done|]. split; [done|]. intros s Hs. apply Hp. by constructor. }
  induction draws as [|[s|] draws IH]; cbn [NewSpanID].
  - split; [done|]. intros ([|? ?] & post & ? & _); done.
  - destruct (IsValid s) eqn:E; [|by rewrite IH; apply Hskip; intros ? [= <-]].
    split; [intros [= <-]; exists [], draws; split; [done|]; split; [done|set_solver]|].
    intros ([|d pre] & post & Heq & Hv & Hp); simplify_eq/=; [done|].
    rewrite (Hp s) in E; [done|constructor].
  - rewrite IH. by apply Hskip.
Qed.
End Otello.
