(* ===== verification/PrettyLog.v ===== *)
(** * The indenting log handler (app/v3/log/prettylog/plog.go, buffer.go)

    A record is rendered into a buffer taken from a pool and written at once.
    [Line] is what is written; the derivation of handlers runs on a store of
    slices, because handlers made from one parent must not share memory; and
    concurrent calls run on the pool of buffers as a step relation. *)

From S2P Require Import Prelude GoBytes GoStrconv GoUtf8 GoTime.

Module PrettyLog.

Definition LevelDebug : Z := -4.
Definition LevelInfo : Z := 0.
Definition LevelWarn : Z := 4.
Definition LevelError : Z := 8.

Definition maxStrSize : nat := 900.
Definition maxBufferSize : Z := Z.shiftl 16 10.

(** ** Truncation at a rune boundary *)

(** [utf8.RuneStart] *)
Definition RuneStart (b : Z) : bool := negb (Z.land b 192 =? 128).

(** [for end > 0 && !utf8.RuneStart(r.Message[end]) { end-- }]; the index is
    in range, as [end] starts below the length. *)
Fixpoint rune_end (msg : bytes) (n : nat) : nat :=
  match n with
  | O => O
  | S m => if RuneStart (nth n msg 0) then n else rune_end msg m
  end.

Definition dots : bytes := [46; 46; 46].

Definition shown (msg : bytes) : bytes :=
  if decide (maxStrSize < length msg)%nat then take (rune_end msg maxStrSize) msg ++ dots else msg.

Lemma RuneStart_range b : is_byte b → RuneStart b = negb ((128 <=? b) && (b <? 192)).
Proof.
  intros Hb. unfold RuneStart. f_equal. unfold is_byte in Hb.
  assert (Hall : forallb (λ n, Bool.eqb (Z.land (Z.of_nat n) 192 =? 128) ((128 <=? Z.of_nat n) && (Z.of_nat n <? 192)))
    (seq 0 256) = true) by (vm_compute; reflexivity).
  rewrite forallb_forall in Hall. specialize (Hall (Z.to_nat b)).
  rewrite Z2Nat.id in Hall by lia. apply eqb_prop, Hall, in_seq. lia.
Qed.

Lemma EncodeRune_shape r :
  utf8.ValidRune r = true →
  (1 ≤ length (utf8.EncodeRune r) ≤ 4)%nat ∧
  ∀ i, (i < length (utf8.EncodeRune r))%nat → RuneStart (nth i (utf8.EncodeRune r) 0) = bool_decide (i = 0%nat).
Proof.
  intros Hv. unfold utf8.EncodeRune. rewrite Hv. unfold utf8.ValidRune, utf8.in_range in Hv.
  assert (Hr : 0 ≤ r ≤ 1114111) by (apply orb_prop in Hv as [Hv|Hv]; bool_to_prop; lia).
  assert (Hs : ∀ b, 0 ≤ b < 256 → (b < 128 ∨ 192 ≤ b) → RuneStart b = true).
  { intros b Hb Hx. rewrite RuneStart_range by done. destruct Hx; ztest; [done|by rewrite andb_false_r]. }
  assert (Hc : ∀ b, 0 ≤ b < 64 → RuneStart (128 + b) = false).
  { intros b Hb. rewrite RuneStart_range by (unfold is_byte; lia). by ztest. }
  assert (Hm : ∀ x, 0 ≤ x mod 64 < 64) by (intros x; apply Z.mod_pos_bound; lia).
  destruct (r <? 128) eqn:E1; [|destruct (r <? 2048) eqn:E2; [|destruct (r <? 65536) eqn:E3]]; bool_to_prop;
    cbn [length]; (split; [lia|]); intros i Hi;
    repeat (destruct i as [|i]; cbn [nth];
      [first [apply Hs; [Z.div_mod_to_equations; lia|Z.div_mod_to_equations; lia] | by apply Hc] |]); lia.
Qed.

(** A boundary of the first part is a boundary of the whole. *)
Lemma rune_end_app a l m :
  RuneStart (nth 0 l 0) = true → rune_end (a ++ l) (length a + m) = (length a + rune_end l m)%nat.
Proof.
  intros H0. induction m as [|m IH].
  - rewrite Nat.add_0_r. cbn [rune_end]. rewrite Nat.add_0_r.
    assert (Hn : nth (length a) (a ++ l) 0 = nth 0 l 0) by (rewrite app_nth2; [by rewrite Nat.sub_diag|lia]).
    destruct a as [|x a]; [done|]. cbn [length rune_end] in *. by rewrite Hn, H0.
  - rewrite Nat.add_succ_r. cbn [rune_end]. rewrite app_nth2 by lia.
    replace (S (length a + m) - length a)%nat with (S m) by lia.
    destruct (RuneStart (nth (S m) l 0)); [lia|exact IH].
Qed.

Lemma rune_end_0 l n : (∀ i, (0 < i ≤ n)%nat → RuneStart (nth i l 0) = false) → rune_end l n = 0%nat.
Proof.
  induction n as [|n IH]; intros Hf; [done|]. cbn [rune_end]. rewrite Hf by lia. apply IH. intros i Hi. apply Hf. lia.
Qed.

Lemma rune_end_boundary rs n :
  Forall (λ r, utf8.ValidRune r = true) rs → (n < length (utf8.of_runes rs))%nat →
  ∃ k, rune_end (utf8.of_runes rs) n = length (utf8.of_runes (take k rs)) ∧
    (length (utf8.of_runes (take k rs)) ≤ n < length (utf8.of_runes (take k rs)) + 4)%nat.
Proof.
  intros Hrs. revert n. induction Hrs as [|r rs Hr Hrs IH]; intros n Hn; [cbn in Hn; lia|].
  destruct (EncodeRune_shape r Hr) as [Hw Hst].
  change (utf8.of_runes (r :: rs)) with (utf8.EncodeRune r ++ utf8.of_runes rs) in *.
  rewrite length_app in Hn. destruct (decide (n < length (utf8.EncodeRune r))%nat) as [Hlt|Hge].
  - exists 0%nat. split; [|cbn; lia]. cbn [take utf8.of_runes mbind list_bind length]. apply rune_end_0.
    intros i Hi. rewrite app_nth1 by lia. rewrite Hst by lia. by rewrite bool_decide_false by lia.
  - destruct (IH (n - length (utf8.EncodeRune r))%nat ltac:(lia)) as (k & Hk & Hb). exists (S k).
    cbn [take]. change (utf8.of_runes (r :: take k rs)) with (utf8.EncodeRune r ++ utf8.of_runes (take k rs)).
    rewrite length_app. split; [|lia].
    replace n with (length (utf8.EncodeRune r) + (n - length (utf8.EncodeRune r)))%nat at 1 by lia.
    rewrite rune_end_app; [by rewrite Hk|].
    destruct Hrs as [|r2 rs Hr2 Hrs]; [cbn in Hn; lia|]. destruct (EncodeRune_shape r2 Hr2) as [Hw2 Hst2].
    change (utf8.of_runes (r2 :: rs)) with (utf8.EncodeRune r2 ++ utf8.of_runes rs). rewrite app_nth1 by lia.
    rewrite Hst2 by lia. done.
Qed.

(** A message is shown whole when it has at most 900 bytes; a longer
    valid UTF-8 one is cut between two of its runes, at most three bytes
    before the limit, and followed by three dots. *)
Theorem shown_spec rs :
  Forall (λ r, utf8.ValidRune r = true) rs →
  let msg := utf8.of_runes rs in
  if decide (length msg ≤ maxStrSize)%nat then shown msg = msg
  else ∃ k, shown msg = utf8.of_runes (take k rs) ++ dots ∧
         (maxStrSize - 3 ≤ length (utf8.of_runes (take k rs)) ≤ maxStrSize)%nat.
Proof.
  intros Hrs msg. unfold shown. destruct (decide (length msg ≤ maxStrSize)%nat) as [Hle|Hgt].
  - by rewrite decide_False by lia.
  - rewrite decide_True by lia. destruct (rune_end_boundary rs maxStrSize Hrs ltac:(fold msg; lia)) as (k & Hk & Hb).
    exists k. fold msg in Hk. rewrite Hk. split; [|lia]. f_equal.
    assert (Hsplit : msg = utf8.of_runes (take k rs) ++ utf8.of_runes (drop k rs)).
    { unfold msg, utf8.of_runes. by rewrite <- bind_app, take_drop. }
    rewrite Hsplit. by rewrite take_app_length.
Qed.

(** 450 two-byte letters fit; with one byte before them the cut falls inside
    the last letter, which is left out. *)
Lemma shown_spec_witness :
  let rs := 33 :: replicate 450 1103 in
  length (utf8.of_runes rs) = 901%nat ∧
  ∃ k, shown (utf8.of_runes rs) = utf8.of_runes (take k rs) ++ dots ∧ length (utf8.of_runes (take k rs)) = 899%nat.
Proof.
  assert (Hrs : Forall (λ r, utf8.ValidRune r = true) (33 :: replicate 450 1103)).
  { constructor; [reflexivity|]. apply Forall_replicate. reflexivity. }
  pose proof (shown_spec _ Hrs) as H. cbv zeta in H. split; [vm_compute; reflexivity|].
  exists 450%nat. destruct (decide _) as [Hd|_]; [exfalso; revert Hd; apply (bool_decide_unpack _); vm_compute; exact I|].
  destruct H as (k & Hk & _). split; [vm_compute; reflexivity|vm_compute; reflexivity].
Defined.

(** ** Handlers derived from handlers *)

Section handler.
(** What an [any] holds, and the library functions applied to it:
    [reflect.TypeOf] is nil for a nil interface, and otherwise tells structs. *)
Context {A : Type} (Sprint Sprintf_v : A → bytes) (is_struct : A → option bool) (Marshal : A → result bytes).

(** [slog.Value]: a value of kind Any, or another one with its text. *)
Inductive Value := VAny (a : A) | VOther (text : bytes).
Record Attr := MkAttr { Key : bytes; Val : Value }.
Definition value_String (v : Value) : bytes := match v with VAny a => Sprint a | VOther text => text end.

Record groupOrAttrs := MkGoa { group : bytes; attrs : list Attr }.
Definition zeroGoa : groupOrAttrs := MkGoa [] [].

(** Slices: an array of the store and a length. *)
Record slice := MkSlice { loc : nat; len : nat }.
Record store := MkStore { arrays : gmap nat (list groupOrAttrs); next_loc : nat }.
Definition read (st : store) (s : slice) : list groupOrAttrs := take (len s) (default [] (arrays st !! loc s)).

Record IndentHandler := MkHandler { Level : Z; goas : slice; withGID : bool }.

(** [New]: [level] is [opts.Level] unless [opts] or it is nil. *)
Definition New (level : option Z) : IndentHandler :=
  MkHandler (match level with Some l => l | None => LevelDebug end) (MkSlice 0 0) true.
Definition store0 : store := MkStore ∅ 1.

(** [log.NewLog] and [log.NewLogWithLevel] of basiclog.go. *)
Definition NewLog : IndentHandler := New (Some LevelDebug).
Definition NewLogWithLevel (level : Z) : IndentHandler := New (Some level).

Definition WithoutGID (h : IndentHandler) : IndentHandler := MkHandler (Level h) (goas h) false.
Definition Enabled (h : IndentHandler) (level : Z) : bool := Level h <=? level.

(** The builtin [copy]. *)
Definition copy (dst src : list groupOrAttrs) : list groupOrAttrs :=
  let n := Nat.min (length dst) (length src) in take n src ++ drop n dst.

Definition withGroupOrAttrs (h : IndentHandler) (st : store) (goa : groupOrAttrs) : IndentHandler * store :=
  let n := len (goas h) in
  let arr := copy (replicate (n + 1) zeroGoa) (read st (goas h)) in
  let arr := if 0 <=? Z.of_nat (n + 1) - 1 then <[(n + 1 - 1)%nat := goa]> arr else arr in
  (MkHandler (Level h) (MkSlice (next_loc st) (n + 1)) (withGID h),
   MkStore (<[next_loc st := arr]> (arrays st)) (S (next_loc st))).

Definition WithGroup (h : IndentHandler) (st : store) (name : bytes) : IndentHandler * store :=
  if decide (name = []) then (h, st) else withGroupOrAttrs h st (MkGoa name []).
Definition WithAttrs (h : IndentHandler) (st : store) (l : list Attr) : IndentHandler * store :=
  match l with [] => (h, st) | _ => withGroupOrAttrs h st (MkGoa [] l) end.

(** Handlers made one after the other, each from any earlier one. *)
Inductive derivation := DGroup (name : bytes) | DAttrs (l : list Attr) | DWithoutGID.

Definition derive (d : derivation) (h : IndentHandler) (st : store) : IndentHandler * store :=
  match d with DGroup name => WithGroup h st name | DAttrs l => WithAttrs h st l | DWithoutGID => (WithoutGID h, st) end.

Definition run_derivation (x : list IndentHandler * store) (pd : nat * derivation) : list IndentHandler * store :=
  match x.1 !! pd.1 with
  | Some h => let '(h2, st) := derive pd.2 h x.2 in (x.1 ++ [h2], st)
  | None => x
  end.
Definition run_derivations (level : option Z) (l : list (nat * derivation)) : list IndentHandler * store :=
  fold_left run_derivation l ([New level], store0).

(** The specification: each handler has a list of its own. *)
Definition own (d : derivation) : list groupOrAttrs :=
  match d with
  | DGroup [] | DAttrs [] | DWithoutGID => []
  | DGroup name => [MkGoa name []]
  | DAttrs l => [MkGoa [] l]
  end.
Definition spec_derivation (x : list (list groupOrAttrs)) (pd : nat * derivation) : list (list groupOrAttrs) :=
  match x !! pd.1 with Some l => x ++ [l ++ own pd.2] | None => x end.
Definition spec_derivations (l : list (nat * derivation)) : list (list groupOrAttrs) := fold_left spec_derivation l [[]].

Definition wf_slice (st : store) (s : slice) : Prop :=
  (loc s < next_loc st)%nat ∧ (len s ≤ length (default [] (arrays st !! loc s)))%nat.

Lemma wf_slice_length st s : wf_slice st s → length (read st s) = len s.
Proof. intros [_ H]. unfold read. rewrite length_take. lia. Qed.

Lemma withGroupOrAttrs_spec h st goa :
  wf_slice st (goas h) →
  let '(h2, st2) := withGroupOrAttrs h st goa in
  wf_slice st2 (goas h2) ∧ read st2 (goas h2) = read st (goas h) ++ [goa] ∧
  ∀ s, wf_slice st s → wf_slice st2 s ∧ read st2 s = read st s.
Proof.
  intros Hw. pose proof (wf_slice_length _ _ Hw) as Hlen. unfold withGroupOrAttrs. ztest.
  set (src := read st (goas h)) in *. set (n := len (goas h)) in *.
  assert (Harr : <[(n + 1 - 1)%nat := goa]> (copy (replicate (n + 1) zeroGoa) src) = src ++ [goa]).
  { unfold copy. rewrite length_replicate, Nat.min_r by lia. rewrite take_ge, drop_replicate, Hlen by lia.
    replace (n + 1 - n)%nat with 1%nat by lia. rewrite insert_app_r_alt by lia. rewrite Hlen.
    by replace (n + 1 - 1 - n)%nat with 0%nat by lia. }
  rewrite Harr. cbn [goas]. split_and!.
  - split; cbn [loc len arrays next_loc]; [lia|]. rewrite lookup_insert_eq. cbn. rewrite length_app. cbn. lia.
  - unfold read at 1. cbn [loc len arrays]. rewrite lookup_insert_eq. cbn. apply take_ge. rewrite length_app. cbn. lia.
  - intros s [Hs1 Hs2]. unfold wf_slice, read. cbn [loc len arrays next_loc].
    rewrite lookup_insert_ne by lia. split; [split; [lia|done]|done].
Qed.

Lemma derive_spec d h st :
  wf_slice st (goas h) →
  let '(h2, st2) := derive d h st in
  wf_slice st2 (goas h2) ∧ read st2 (goas h2) = read st (goas h) ++ own d ∧
  ∀ s, wf_slice st s → wf_slice st2 s ∧ read st2 s = read st s.
Proof.
  intros Hw. destruct d as [[|c name]|[|a l]|]; cbn [derive own]; unfold WithGroup, WithAttrs;
    try (destruct (decide _); try done); try (by rewrite app_nil_r); by apply withGroupOrAttrs_spec.
Qed.

(** [C18] Handlers derived from handlers do not share what they carry:
    whatever is derived from what, and in any order, every handler carries
    exactly the groups and attributes given along its own derivation. *)
Theorem handlers_independent level l :
  let '(hs, st) := run_derivations level l in (λ h, read st (goas h)) <$> hs = spec_derivations l.
Proof.
  assert (H : ∀ l hs st specs, Forall (λ h, wf_slice st (goas h)) hs → (λ h, read st (goas h)) <$> hs = specs →
    let '(hs', st') := fold_left run_derivation l (hs, st) in
    (λ h, read st' (goas h)) <$> hs' = fold_left spec_derivation l specs).
  { clear l. induction l as [|[i d] l IH]; intros hs st specs Hw Hs; [done|]. cbn [fold_left].
    assert (Hi : specs !! i = (λ h, read st (goas h)) <$> hs !! i) by by rewrite <- Hs, list_lookup_fmap.
    unfold run_derivation at 2, spec_derivation at 2. cbn [fst snd]. rewrite Hi.
    destruct (hs !! i) as [h|] eqn:Eh; cbn [fmap option_fmap option_map]; [|by apply IH].
    pose proof (proj1 (Forall_lookup _ _) Hw i h Eh) as Hwh.
    pose proof (derive_spec d h st Hwh) as Hd. destruct (derive d h st) as [h2 st2]. destruct Hd as (H1 & H2 & H3).
    apply IH.
    - apply Forall_app. split; [|by constructor]. eapply Forall_impl; [exact Hw|]. intros x Hx. by apply H3.
    - rewrite fmap_app, <- Hs. cbn. rewrite H2. f_equal. apply list_fmap_ext. intros j x Hx.
      apply H3. by apply (proj1 (Forall_lookup _ _) Hw j). }
  apply H; [|done]. constructor; [|constructor]. split; cbn; lia.
Qed.

(** ** The line of a record *)

Record funcDataEntry := MkFde { file : bytes; funcName : bytes; line_no : bytes }.

(** The time has its location; [PC] is [None] for 0. *)
Record Record_ := MkRecord { rLevel : Z; rTime : Time; rLoc : zone.Location; PC : option Z; Message : bytes; rAttrs : list Attr }.

(** The part after the last separator, or the whole. *)
Definition after_last (sep : Z) (l : bytes) : bytes :=
  rev (fst (fold_left (λ '(acc, go) b, if go : bool then (if b =? sep then (acc, false) else (acc ++ [b], true)) else (acc, go))
              (rev l) ([], true))).

(** [f, _ := runtime.CallersFrames([]uintptr{r.PC}).Next()]: the name of the
    function, the file and the line. *)
Context (frames : Z → bytes * bytes * Z).

Definition funcData (pc : Z) : funcDataEntry :=
  let '(name, path, no) := frames pc in
  MkFde (after_last 47 path) (after_last 46 name) (bytes_of_string (strconv.Itoa no)).

(** The two locked sections of [writeFuncData]. *)
Definition cache_look (cache : gmap Z funcDataEntry) (pc : Z) : option funcDataEntry := cache !! pc.
Definition cache_store (cache : gmap Z funcDataEntry) (pc : Z) : gmap Z funcDataEntry := <[pc := funcData pc]> cache.

Definition fde_bytes (fde : funcDataEntry) : bytes := file fde ++ [32] ++ funcName fde ++ [58] ++ line_no fde.

Definition writeFuncData (cache : gmap Z funcDataEntry) (pc : Z) : bytes * gmap Z funcDataEntry :=
  match cache_look cache pc with
  | Some fde => (fde_bytes fde, cache)
  | None => (fde_bytes (funcData pc), cache_store cache pc)
  end.

(** [stack] is what [runtime.Stack] wrote; slicing it at 10 panics when it is
    shorter. *)
Definition writeGID (h : IndentHandler) (stack : bytes) : option bytes :=
  if withGID h then
    if (length stack <? 10)%nat then None
    else
      let b := drop 10 stack in
      let b := match bytes_index b [32] with Some i => take (Z.to_nat i) b | None => b end in
      Some ([32; 91] ++ b ++ [93; 32])
  else Some [].

Definition levelStr (level : Z) : bytes :=
  bytes_of_string
    (if level =? LevelDebug then "DBG "%string else if level =? LevelInfo then "INF "%string
     else if level =? LevelWarn then "WRN "%string else if level =? LevelError then "ERR "%string
     else (strconv.FormatInt level 10 ++ " ")%string).

Definition writeGroups (l : list groupOrAttrs) : bytes :=
  concat ((λ goa,
    (match group goa with [] => [] | g => [32] ++ g ++ [58; 32] end) ++
    (match attrs goa with
     | [] => []
     | l => [91] ++ concat ((λ a, Key a ++ [61] ++ value_String (Val a)) <$> l) ++ [93; 32]
     end)) <$> l).

(** The text of an attribute of the record; [None] is the panic of
    [reflect.TypeOf(nil).Kind()]. *)
Definition attr_text (level : Z) (v : Value) : option bytes :=
  match v with
  | VOther text => Some text
  | VAny a =>
      if level =? LevelDebug then
        match is_struct a with
        | None => None
        | Some true => Some (match Marshal a with Ok b => b | Err _ => Sprintf_v a end)
        | Some false => Some (Sprintf_v a)
        end
      else Some (Sprintf_v a)
  end.

Fixpoint attr_loop (level : Z) (l : list Attr) : option bytes :=
  match l with
  | [] => Some []
  | a :: l =>
      match attr_text level (Val a), attr_loop level l with
      | Some t, Some rest => Some (Key a ++ [61] ++ t ++ [32] ++ rest)
      | _, _ => None
      end
  end.

Definition writeAttrData (r : Record_) : option bytes :=
  match rAttrs r with [] => Some [] | l => match attr_loop (rLevel r) l with Some b => Some ([32] ++ b) | None => None end end.

Definition timestampFormat : string := "06.01.02 15:04:05.0000".

Definition timestamp (r : Record_) : bytes := bytes_of_string (layout.Format timestampFormat (rLoc r) (rTime r)).

(** [Handle] up to the write: the line, and the cache. *)
Definition Handle (h : IndentHandler) (st : store) (cache : gmap Z funcDataEntry) (stack : bytes) (r : Record_) :
    option bytes * gmap Z funcDataEntry :=
  match writeGID h stack with
  | None => (None, cache)
  | Some gid =>
      let '(fd, cache) := match PC r with Some pc => writeFuncData cache pc | None => ([], cache) end in
      (match writeAttrData r with
       | None => None
       | Some ad =>
           Some (levelStr (rLevel r) ++ timestamp r ++ gid ++ fd ++ [32; 45; 32] ++ shown (Message r) ++
                 writeGroups (read st (goas h)) ++ ad ++ [10])
       end, cache)
  end.

Lemma attr_loop_None level l :
  attr_loop level l = None ↔ level = LevelDebug ∧ ∃ k a, MkAttr k (VAny a) ∈ l ∧ is_struct a = None.
Proof.
  assert (Ht : ∀ v, attr_text level v = None ↔ level = LevelDebug ∧ ∃ a, v = VAny a ∧ is_struct a = None).
  { intros [a|t]; cbn [attr_text]; [|split; [done|by intros (_ & ? & ? & _)]].
    destruct (level =? LevelDebug) eqn:E; bool_to_prop; [|split; [done|by intros (? & _)]].
    destruct (is_struct a) as [[|]|] eqn:Es; split; try done; try (intros (_ & ? & [= <-] & ?); congruence).
    intros _. split; [done|]. by exists a. }
  induction l as [|[k v] l IH]; cbn [attr_loop Val Key]; [split; [done|]; intros (_ & k & a & Hin & _); set_solver|].
  destruct (attr_text level v) as [t|] eqn:Et.
  - assert (Hn : ¬ (level = LevelDebug ∧ ∃ a, v = VAny a ∧ is_struct a = None)) by (rewrite <- Ht; congruence).
    assert (Hx : match attr_loop level l with Some rest => Some (k ++ [61] ++ t ++ [32] ++ rest) | None => None end = None ↔
      attr_loop level l = None) by (by destruct (attr_loop level l)).
    rewrite Hx, IH. split.
    + intros (Hl & k' & a & Hin & Hs). split; [done|]. exists k', a. split; [by right|done].
    + intros (Hl & k' & a & [Heq|Hin]%elem_of_cons & Hs); [|split; [done|by exists k', a]].
      injection Heq as <- <-. destruct Hn. split; [done|by exists a].
  - destruct (proj1 (Ht v) Et) as (Hl & a & -> & Hs). split; [|done]. intros _. split; [done|].
    exists k, a. split; [by left|done].
Qed.

(** Rendering a record fails in one case only: a debug record with an
    attribute whose value is a nil interface panics.  Otherwise one line is
    produced, ended by its newline, and the cache of function names, when it
    holds what the runtime says, changes nothing to the line and still holds
    what the runtime says. *)
Theorem Handle_line h st cache stack r :
  (10 ≤ length stack)%nat → (∀ pc fde, cache !! pc = Some fde → fde = funcData pc) →
  let '(line, cache') := Handle h st cache stack r in
  (line = None ↔ rLevel r = LevelDebug ∧ ∃ k a, MkAttr k (VAny a) ∈ rAttrs r ∧ is_struct a = None) ∧
  (∀ l, line = Some l → last l = Some 10) ∧
  line = (Handle h st ∅ stack r).1 ∧
  (∀ pc fde, cache' !! pc = Some fde → fde = funcData pc).
Proof.
  intros Hs Hc. unfold Handle, writeGID. rewrite (proj2 (Nat.ltb_ge _ _) Hs).
  assert (Hg : ∃ g, (if withGID h then Some ([32; 91] ++
      match bytes_index (drop 10 stack) [32] with Some i => take (Z.to_nat i) (drop 10 stack) | None => drop 10 stack end
      ++ [93; 32]) else Some []) = Some g) by (destruct (withGID h); eauto).
  cbv zeta. destruct Hg as [g ->].
  assert (Hfd : ∀ c, (∀ pc fde, c !! pc = Some fde → fde = funcData pc) →
    let '(fd, c') := match PC r with Some pc => writeFuncData c pc | None => ([], c) end in
    fd = match PC r with Some pc => fde_bytes (funcData pc) | None => [] end ∧
    (∀ pc fde, c' !! pc = Some fde → fde = funcData pc)).
  { intros c Hcc. destruct (PC r) as [pc|]; [|done]. unfold writeFuncData, cache_look, cache_store.
    destruct (c !! pc) as [fde|] eqn:E; [by rewrite (Hcc pc fde E)|]. split; [done|].
    intros pc' fde. destruct (decide (pc = pc')) as [<-|Hne]; [rewrite lookup_insert_eq; by intros [= <-]|].
    rewrite lookup_insert_ne by done. apply Hcc. }
  assert (H0 : ∀ pc fde, (∅ : gmap Z funcDataEntry) !! pc = Some fde → fde = funcData pc) by set_solver.
  apply Hfd in Hc, H0. revert Hc H0.
  destruct (match PC r with Some pc => writeFuncData cache pc | None => _ end) as [fd cache'].
  destruct (match PC r with Some pc => writeFuncData _ pc | None => _ end) as [fd0 cache0].
  intros [-> H1] [-> _]. cbn [fst].
  assert (Had : writeAttrData r = None ↔ attr_loop (rLevel r) (rAttrs r) = None).
  { unfold writeAttrData. destruct (rAttrs r) as [|a l]; [done|]. by destruct (attr_loop _ _). }
  rewrite attr_loop_None in Had. destruct (writeAttrData r) as [ad|].
  - split; [split; [done|]; intros Hx; by apply Had in Hx|].
    split; [|split; [done|exact H1]]. intros l [= <-]. by rewrite !app_assoc, !app_comm_cons, !app_assoc, last_snoc.
  - split; [split; [intros _; by apply Had|done]|].
    split; [done|]. split; [done|exact H1].
Qed.
End handler.

(** ** Concrete records *)

(** Anys are a nil interface and a struct; functions are called main.run. *)
Definition sample_frames (pc : Z) : bytes * bytes * Z :=
  (bytes_of_string "main.run", bytes_of_string "/src/app/main.go", 42).
Definition sample_stack : bytes := bytes_of_string "goroutine 17 [running]:".

Definition sample (a : bool) : option bytes :=
  (Handle (λ _, [63]) (λ _, [63]) (λ a : bool, if a then Some true else None) (λ _, Ok (bytes_of_string "{}")) sample_frames
    (New (Some LevelDebug)) store0 ∅ sample_stack
    (MkRecord LevelDebug (1782907200 * Second) zone.UTC (Some 1) (bytes_of_string "hello") [MkAttr (bytes_of_string "k") (VAny a)])).1.

(** A struct is printed; a nil interface at the debug level panics. *)
Lemma Handle_line_witness :
  sample true = Some (bytes_of_string "DBG 26.07.01 12:00:00.0000 [17] main.go run:42 - hello k={} " ++ [10]) ∧ sample false = None ∧
  last (default [] (sample true)) = Some 10.
Proof.
  assert (E : sample true = Some (bytes_of_string "DBG 26.07.01 12:00:00.0000 [17] main.go run:42 - hello k={} " ++ [10]))
    by (vm_compute; reflexivity).
  split; [exact E|]. split; [vm_compute; reflexivity|].
  assert (Hs : (10 ≤ length sample_stack)%nat) by (cbn; lia).
  assert (Hc : ∀ pc fde, (∅ : gmap Z funcDataEntry) !! pc = Some fde → fde = funcData sample_frames pc)
    by (intros pc fde H; rewrite lookup_empty in H; discriminate).
  pose proof (Handle_line (λ _, [63]) (λ _, [63]) (λ a : bool, if a then Some true else None)
    (λ _, Ok (bytes_of_string "{}")) sample_frames (New (Some LevelDebug)) store0 ∅ sample_stack
    (MkRecord LevelDebug (1782907200 * Second) zone.UTC (Some 1) (bytes_of_string "hello") [MkAttr (bytes_of_string "k") (VAny true)]) Hs Hc) as H.
  unfold sample in *. destruct (Handle _ _ _ _ _ _ _ _ _ _) as [line cache']. cbn [fst] in *.
  destruct H as (_ & H & _). rewrite E. cbn [default]. by apply H.
Defined.

(** The attributes given to a handler are printed without separator. *)
Lemma attrs_run_together :
  writeGroups (λ a : unit, []) [MkGoa [] [MkAttr [97] (VOther [49]); MkAttr [98] (VOther [50])]] =
    bytes_of_string "[a=1b=2] ".
Proof. reflexivity. Qed.

(** ** The pool of buffers *)

Record buffer := MkBuffer { data : bytes; bcap : Z }.
Definition New_buffer : buffer := MkBuffer [] 1024.
Definition Write_ (b : buffer) (p : bytes) (grown : Z) : buffer := MkBuffer (data b ++ p) grown.

(** The pool, the buffers, and what was written: each write with the line
    its call rendered. *)
Record pool_state := MkPool { pool : list nat; bufs : gmap nat buffer; next_buf : nat; out : list (bytes * bytes) }.

Definition Free (x : pool_state) (b : nat) : pool_state :=
  match bufs x !! b with
  | Some buf =>
      if bcap buf <=? maxBufferSize
      then MkPool (pool x ++ [b]) (<[b := MkBuffer [] (bcap buf)]> (bufs x)) (next_buf x) (out x)
      else x
  | None => x
  end.

Definition WriteByte (b : buffer) (char : Z) (grown : Z) : buffer := Write_ b [char] grown.
Definition WriteString (b : buffer) (str : bytes) (grown : Z) : buffer := Write_ b str grown.
Definition WriteStringIf (b : buffer) (ok : bool) (str : bytes) (grown : Z) : buffer := if ok then WriteString b str grown else b.

(** A call of [Handle]: filling its buffer, what is still to write; the line
    is the ghost of what it renders.  [Leaving] is before the deferred free. *)
Inductive pc := Entering | Filling (b : nat) (todo line : bytes) | Leaving (b : nat) | Done.

Record sys := MkSys { shared : pool_state; calls : list pc }.
Definition sys0 : sys := MkSys (MkPool [] ∅ 0 []) [].

Inductive step : sys → sys → Prop :=
| step_call x l : step (MkSys x l) (MkSys x (l ++ [Entering]))
| step_get_pooled x l i pre b post line :
    l !! i = Some Entering → pool x = pre ++ b :: post →
    step (MkSys x l) (MkSys (MkPool (pre ++ post) (bufs x) (next_buf x) (out x)) (<[i := Filling b line line]> l))
| step_get_new x l i line :
    l !! i = Some Entering →
    step (MkSys x l) (MkSys (MkPool (pool x) (<[next_buf x := New_buffer]> (bufs x)) (S (next_buf x)) (out x))
                            (<[i := Filling (next_buf x) line line]> l))
| step_write x l i b p todo line buf grown :
    l !! i = Some (Filling b (p ++ todo) line) → bufs x !! b = Some buf →
    step (MkSys x l) (MkSys (MkPool (pool x) (<[b := Write_ buf p grown]> (bufs x)) (next_buf x) (out x))
                            (<[i := Filling b todo line]> l))
| step_out x l i b line buf :
    l !! i = Some (Filling b [] line) → bufs x !! b = Some buf →
    step (MkSys x l) (MkSys (MkPool (pool x) (bufs x) (next_buf x) (out x ++ [(line, data buf)])) (<[i := Leaving b]> l))
| step_panic x l i b todo line :
    l !! i = Some (Filling b todo line) → step (MkSys x l) (MkSys x (<[i := Leaving b]> l))
| step_free x l i b :
    l !! i = Some (Leaving b) → step (MkSys x l) (MkSys (Free x b) (<[i := Done]> l))
| step_collect x l pre b post :
    pool x = pre ++ b :: post →
    step (MkSys x l) (MkSys (MkPool (pre ++ post) (bufs x) (next_buf x) (out x)) l).

Definition uses (p : pc) : option nat :=
  match p with Filling b _ _ | Leaving b => Some b | Entering | Done => None end.

Record Inv (x : pool_state) (l : list pc) : Prop := {
  p_nodup : NoDup (pool x);
  p_pool b : b ∈ pool x → ∃ buf, bufs x !! b = Some buf ∧ data buf = [];
  p_live i p b : l !! i = Some p → uses p = Some b → b ∉ pool x ∧ is_Some (bufs x !! b);
  p_fill i b todo line buf : l !! i = Some (Filling b todo line) → bufs x !! b = Some buf → data buf ++ todo = line;
  p_apart i j p q b : l !! i = Some p → l !! j = Some q → uses p = Some b → uses q = Some b → i = j;
  p_fresh b : is_Some (bufs x !! b) → (b < next_buf x)%nat;
  p_out line d : (line, d) ∈ out x → d = line
}.

Definition unused (l : list pc) (b : nat) : Prop := ∀ j q, l !! j = Some q → uses q ≠ Some b.

(** A call changes and keeps at most the buffer it had, whose content fits. *)
Lemma Inv_call x l i p p' :
  Inv x l → l !! i = Some p → (∀ b, uses p' = Some b → uses p = Some b) →
  (∀ b todo line buf, p' = Filling b todo line → bufs x !! b = Some buf → data buf ++ todo = line) →
  Inv x (<[i := p']> l).
Proof.
  intros [I1 I2 I3 I4 I5 I6 I7] Hi Hu Hf. split; try done.
  - intros j q b [(-> & -> & _)|[_ Hj]]%list_lookup_insert_Some Hq; [by apply (I3 j p), Hu|by apply (I3 j q)].
  - intros j b todo line buf [(-> & -> & _)|[_ Hj]]%list_lookup_insert_Some Hb; [by eapply Hf|by eapply I4].
  - intros j k q r b [(-> & -> & _)|[Hj Hj']]%list_lookup_insert_Some [(-> & -> & _)|[Hk Hk']]%list_lookup_insert_Some Hq Hr; try done.
    + by apply (I5 j k p r b); auto.
    + by apply (I5 j k q p b); auto.
    + by apply (I5 j k q r b).
Qed.

(** The buffer of a call is written. *)
Lemma Inv_buf x l i p b buf' :
  Inv x l → l !! i = Some p → uses p = Some b → (∀ todo line, p ≠ Filling b todo line) →
  Inv (MkPool (pool x) (<[b := buf']> (bufs x)) (next_buf x) (out x)) l.
Proof.
  intros [I1 I2 I3 I4 I5 I6 I7] Hi Hu Hf. destruct (I3 i p b Hi Hu) as [Hnp Hb]. split; cbn; try done.
  - intros c Hc. rewrite lookup_insert_ne by (intros ->; done). by apply I2.
  - intros j q c Hj Hq. split; [by apply (I3 j q)|]. destruct (decide (b = c)) as [->|].
    + rewrite lookup_insert_eq. by eexists.
    + rewrite lookup_insert_ne by done. by apply (I3 j q).
  - intros j c todo line buf Hj Hc. destruct (decide (b = c)) as [->|Hne].
    + assert (i = j) as <- by by apply (I5 i j p (Filling c todo line) c). simplify_eq. by destruct (Hf todo line).
    + rewrite lookup_insert_ne in Hc by done. by eapply I4.
  - intros c Hc. destruct (decide (b = c)) as [->|]; [by apply I6|]. rewrite lookup_insert_ne in Hc by done. by apply I6.
Qed.

(** The pool loses a buffer. *)
Lemma Inv_take x l pre b post :
  Inv x l → pool x = pre ++ b :: post →
  Inv (MkPool (pre ++ post) (bufs x) (next_buf x) (out x)) l ∧ b ∉ pre ++ post ∧ unused l b ∧
  ∃ buf, bufs x !! b = Some buf ∧ data buf = [].
Proof.
  intros [I1 I2 I3 I4 I5 I6 I7] Hp. rewrite Hp in *.
  assert (Hsub : ∀ c, c ∈ pre ++ post → c ∈ pre ++ b :: post) by set_solver.
  assert (Hb : b ∈ pre ++ b :: post) by set_solver.
  rewrite <- Permutation_middle in I1. apply NoDup_cons in I1 as [Hn I1]. split_and!; try done; try (by apply I2).
  - split; cbn; try done.
    + intros c Hc. by apply I2, Hsub.
    + intros j q c Hj Hq. destruct (I3 j q c Hj Hq) as [H ?]. split; [|done]. intros Hc. by apply H, Hsub.
  - intros j q Hj Hq. by destruct (I3 j q b Hj Hq) as [H _].
Qed.

(** A buffer nobody uses becomes that of a call. *)
Lemma Inv_acquire x l i p b buf line :
  Inv x l → l !! i = Some p → b ∉ pool x → unused l b → bufs x !! b = Some buf → data buf = [] →
  Inv x (<[i := Filling b line line]> l).
Proof.
  intros [I1 I2 I3 I4 I5 I6 I7] Hi Hp Hu Hb Hd. split; try done.
  - intros j q c [(-> & <- & _)|[_ Hj]]%list_lookup_insert_Some Hq; [|by apply (I3 j q)].
    injection Hq as <-. split; [done|by eexists].
  - intros j c todo ln buf' [(-> & Heq & _)|[_ Hj]]%list_lookup_insert_Some Hc; [|by eapply I4].
    injection Heq as -> -> ->. simplify_eq. by rewrite Hd.
  - intros j k q r c [(-> & <- & _)|[Hj Hj']]%list_lookup_insert_Some [(-> & <- & _)|[Hk Hk']]%list_lookup_insert_Some Hq Hr; try done.
    + injection Hq as ->. by destruct (Hu k r).
    + injection Hr as ->. by destruct (Hu j q).
    + by apply (I5 j k q r c).
Qed.

Lemma Inv_new x l :
  Inv x l →
  let x' := MkPool (pool x) (<[next_buf x := New_buffer]> (bufs x)) (S (next_buf x)) (out x) in
  Inv x' l ∧ next_buf x ∉ pool x ∧ unused l (next_buf x).
Proof.
  intros [I1 I2 I3 I4 I5 I6 I7]. cbv zeta.
  assert (Hne : ∀ c, is_Some (bufs x !! c) → next_buf x ≠ c) by (intros c Hc; specialize (I6 c Hc); lia).
  assert (Hpool : ∀ c, c ∈ pool x → is_Some (bufs x !! c)) by (intros c Hc; destruct (I2 c Hc) as (buf & ? & _); by exists buf).
  split; [split; cbn; try done|split].
  - intros c Hc. rewrite lookup_insert_ne by (by apply Hne, Hpool). by apply I2.
  - intros j q c Hj Hq. destruct (I3 j q c Hj Hq) as [? Hc]. split; [done|]. by rewrite lookup_insert_ne by (by apply Hne).
  - intros j c todo line buf Hj Hc. destruct (I3 j _ c Hj eq_refl) as [_ Hcc].
    rewrite lookup_insert_ne in Hc by (by apply Hne). by eapply I4.
  - intros c. destruct (decide (next_buf x = c)) as [<-|]; [lia|]. rewrite lookup_insert_ne by done. intros Hc.
    specialize (I6 c Hc). lia.
  - intros Hc. by apply (Hne (next_buf x)), eq_refl; apply Hpool.
  - intros j q Hj Hq. destruct (I3 j q _ Hj Hq) as [_ Hc]. by apply (Hne _ Hc).
Qed.

Lemma Inv_free x l b : Inv x l → b ∉ pool x → unused l b → Inv (Free x b) l.
Proof.
  intros HI Hp Hu. unfold Free. destruct (bufs x !! b) as [buf|] eqn:Eb; [|done]. destruct (_ <=? _); [|done].
  destruct HI as [I1 I2 I3 I4 I5 I6 I7].
  assert (Hused : ∀ j q c, l !! j = Some q → uses q = Some c → b ≠ c) by (intros j q c Hj Hq ->; by apply (Hu j q)).
  split; cbn; try done.
  - apply NoDup_app. split; [done|]. split; [|apply NoDup_singleton]. intros c Hc ->%list_elem_of_singleton. done.
  - intros c [Hc| ->%list_elem_of_singleton]%elem_of_app; [|rewrite lookup_insert_eq; by eexists].
    rewrite lookup_insert_ne by (intros ->; done). by apply I2.
  - intros j q c Hj Hq. destruct (I3 j q c Hj Hq) as [? Hc]. pose proof (Hused j q c Hj Hq).
    rewrite lookup_insert_ne by done. split; [|done]. intros [?| ->%list_elem_of_singleton]%elem_of_app; done.
  - intros j c todo line buf' Hj. rewrite lookup_insert_ne by (by apply (Hused j _ c Hj)). by apply I4 with j.
  - intros c. destruct (decide (b = c)) as [<-|]; [intros _; apply I6; by eexists|]. rewrite lookup_insert_ne by done. apply I6.
Qed.

Lemma pool_step_Inv s t : Inv (shared s) (calls s) → step s t → Inv (shared t) (calls t).
Proof.
  intros HI Hstep. destruct Hstep as [x l|x l i pre b post line Hi Hp|x l i line Hi|x l i b p todo line buf grown Hi Hb
    |x l i b line buf Hi Hb|x l i b todo line Hi|x l i b Hi|x l pre b post Hp]; cbn in *.
  - assert (Hl : ∀ j q b, (l ++ [Entering]) !! j = Some q → uses q = Some b → l !! j = Some q).
    { intros j q b [Hj|[_ Hj]]%lookup_app_Some Hq; [done|]. apply list_lookup_singleton_Some in Hj as [_ <-]. done. }
    destruct HI as [I1 I2 I3 I4 I5 I6 I7]. split; try done.
    + intros j q b Hj Hq. by apply (I3 j q); [eapply Hl|].
    + intros j b todo line buf Hj. by apply (I4 j), (Hl _ _ b).
    + intros j k q r b Hj Hk Hq Hr. by apply (I5 j k q r b); [eapply Hl|eapply Hl|..].
  - destruct (Inv_take _ _ _ _ _ HI Hp) as (H1 & H2 & H3 & buf & H4 & H5). by apply (Inv_acquire _ _ _ Entering _ buf).
  - destruct (Inv_new _ _ HI) as (H1 & H2 & H3). apply (Inv_acquire _ _ _ Entering _ New_buffer); try done.
    cbn. by rewrite lookup_insert_eq.
  - pose proof (Inv_call _ _ i _ (Leaving b) HI Hi ltac:(done) ltac:(done)) as H1.
    assert (Hlt : (i < length l)%nat) by by apply lookup_lt_Some in Hi.
    pose proof (Inv_buf _ _ i (Leaving b) b (Write_ buf p grown) H1 (list_lookup_insert_eq _ _ _ Hlt) eq_refl ltac:(done)) as H2.
    rewrite <- (list_insert_insert_eq l i (Filling b todo line) (Leaving b)).
    apply (Inv_call _ _ i (Leaving b)); [exact H2|by apply list_lookup_insert_eq|done|].
    intros c todo' line' buf' [= <- <- <-]. cbn. rewrite lookup_insert_eq. intros [= <-]. cbn. rewrite <- app_assoc.
    by apply (p_fill _ _ HI i b).
  - pose proof (Inv_call _ _ i _ (Leaving b) HI Hi ltac:(done) ltac:(done)) as [I1 I2 I3 I4 I5 I6 I7].
    split; try done. cbn. intros line' d [?|[= -> ->]%list_elem_of_singleton]%elem_of_app; [by apply I7|].
    pose proof (p_fill _ _ HI i b [] line buf Hi Hb) as H. by rewrite app_nil_r in H.
  - by apply (Inv_call _ _ i _ (Leaving b) HI Hi).
  - pose proof (Inv_call _ _ i _ Done HI Hi ltac:(done) ltac:(done)) as H1.
    destruct (p_live _ _ HI i _ b Hi eq_refl) as [H2 _]. apply Inv_free; [done|done|].
    intros j q [(-> & <- & _)|[Hne Hj]]%list_lookup_insert_Some Hq; [done|]. destruct Hne.
    by apply (p_apart _ _ HI i j (Leaving b) q b).
  - by destruct (Inv_take _ _ _ _ _ HI Hp) as [H _].
Qed.

(** [C17] Under every interleaving of logging goroutines, panics and garbage
    collections of the pool, every write to the output is one whole line,
    exactly the one its call rendered: buffers are never shared, and a buffer
    taken from the pool holds nothing of an earlier line. *)
Theorem lines_whole s :
  star step sys0 s → ∀ line d, (line, d) ∈ out (shared s) → d = line.
Proof.
  intros Hs. assert (HI : Inv (shared s) (calls s)); [|apply HI].
  apply (star_invariant _ (λ s, Inv (shared s) (calls s)) pool_step_Inv sys0); [|exact Hs].
  split; cbn; try done; try set_solver; try constructor. intros b Hb. rewrite lookup_empty in Hb. by apply is_Some_None in Hb.
Qed.

(** A call that panics leaves half a line in its buffer; the next call gets
    that buffer back from the pool and writes its own line. *)
Lemma lines_whole_witness :
  ∃ s, star step sys0 s ∧ out (shared s) = [([5; 6], [5; 6])] ∧ ∀ line d, (line, d) ∈ out (shared s) → d = line.
Proof.
  eexists. assert (H : star step sys0 (MkSys (MkPool [] {[0%nat := MkBuffer [5; 6] 1024]} 1 [([5; 6], [5; 6])]) [Done; Leaving 0])).
  { eapply star_step; [apply step_call|]. eapply star_step; [apply (step_get_new _ _ 0 [1; 2; 3]); reflexivity|].
    eapply star_step; [eapply (step_write _ _ 0 0 [1; 2] [3] _ _ 1024); reflexivity|].
    eapply star_step; [eapply (step_panic _ _ 0); reflexivity|]. eapply star_step; [eapply (step_free _ _ 0); reflexivity|].
    eapply star_step; [apply step_call|]. eapply star_step; [apply (step_get_pooled _ _ 1 [] 0 [] [5; 6]); reflexivity|].
    eapply star_step; [eapply (step_write _ _ 1 0 [5; 6] [] _ _ 1024); reflexivity|].
    eapply star_step; [eapply (step_out _ _ 1); reflexivity|]. vm_compute. constructor. }
  split; [exact H|]. split; [reflexivity|]. exact (lines_whole _ H).
Defined.
End PrettyLog.
