(* ===== verification/Lifecycle.v ===== *)
(** * The interface between the application controller and its services
    (interface [Service] of app/v3/appcv3.go)

    The controller only knows that services can be started and stopped.  The
    state [S] is that of all of them; what a service promises about what it
    holds open is [Releases], which the components discharge in Services.v and
    from which the theorems of App.v are derived. *)

From S2P Require Import Prelude.

(** [Service]: a start or a stop gives an error or nil. *)
Class Lifecycle (id S : Type) := {
  svc_start : id → S → option string * S;
  svc_stop : id → S → option string * S
}.

(** What the services promise: [held s] are the services that hold something
    open.  A service is only started while it holds nothing. *)
Class Releases (id S : Type) `{Lifecycle id S, Countable id} (ok : S → Prop) (held : S → gset id) : Prop := {
  start_ok i s : ok s → i ∉ held s → ok (svc_start i s).2;
  start_held i s : ok s → i ∉ held s → held (svc_start i s).2 ⊆ {[i]} ∪ held s;
  stop_ok i s : ok s → ok (svc_stop i s).2;
  stop_held i s : ok s → held (svc_stop i s).2 ⊆ held s ∖ {[i]}
}.

(** A service whose failed start holds nothing. *)
Class CleanStart {id S : Type} `{Lifecycle id S, Countable id} (ok : S → Prop) (held : S → gset id) (i : id) : Prop :=
  clean_start s e : ok s → i ∉ held s → (svc_start i s).1 = Some e → held (svc_start i s).2 ⊆ held s.

(** ** Calls in a row *)

Section calls.
Context {id S : Type} `{Lifecycle id S}.

(** Errors of the stops are logged only. *)
Fixpoint stop_all (l : list id) (s : S) : S :=
  match l with
  | [] => s
  | i :: l => stop_all l (svc_stop i s).2
  end.

Lemma stop_all_app l1 l2 s : stop_all (l1 ++ l2) s = stop_all l2 (stop_all l1 s).
Proof. revert s. induction l1 as [|i l1 IH]; intros s; [done|]. apply IH. Qed.
End calls.

Section releases.
Context {id S : Type} `{Releases id S ok held}.

Lemma stop_all_releases l s :
  ok s → ok (stop_all l s) ∧ held (stop_all l s) ⊆ held s ∖ list_to_set l.
Proof.
  revert s. induction l as [|i l IH]; intros s Hs; [cbn; split; [done|set_solver]|].
  cbn [stop_all]. destruct (IH (svc_stop i s).2) as [Ha Hb]; [by apply stop_ok|].
  pose proof (stop_held i s Hs) as Hc. split; [done|]. set_solver.
Qed.
End releases.

(** ** Traces

    The same services with every call written down: the instance is made from
    any other, so a theorem about traces holds for every implementation. *)

Inductive event (id : Type) :=
| LoadConfig
| BeforeInit
| AfterInit
| StartService (i : id)
| StopService (i : id)
| Process
| Cancel
| OnAppRecover (e : string).
Arguments LoadConfig {id}.
Arguments BeforeInit {id}.
Arguments AfterInit {id}.
Arguments StartService {id} _.
Arguments StopService {id} _.
Arguments Process {id}.
Arguments Cancel {id}.
Arguments OnAppRecover {id} _.

Record traced (id S : Type) := MkTraced { inner : S; log : list (event id) }.
Arguments MkTraced {id S} _ _.
Arguments inner {id S} _.
Arguments log {id S} _.

Definition write {id S : Type} (e : event id) (t : traced id S) : traced id S := MkTraced (inner t) (log t ++ [e]).

#[export] Instance traced_lifecycle {id S} `{Lifecycle id S} : Lifecycle id (traced id S) := {
  svc_start i t := let '(e, s) := svc_start i (inner t) in (e, MkTraced s (log t ++ [StartService i]));
  svc_stop i t := let '(e, s) := svc_stop i (inner t) in (e, MkTraced s (log t ++ [StopService i]))
}.

Section traces.
Context {id S : Type} `{Lifecycle id S}.
Implicit Types (t : traced id S).

Lemma traced_stop_all l t :
  stop_all l t = MkTraced (stop_all l (inner t)) (log t ++ (StopService <$> l)).
Proof.
  revert t. induction l as [|i l IH]; intros t; cbn [stop_all fmap list_fmap].
  { rewrite app_nil_r. by destruct t. }
  rewrite IH. cbn. destruct (svc_stop i (inner t)) as [e s]. cbn. by rewrite <- app_assoc.
Qed.
End traces.

(** ** Components

    One component as a system of its own, and two systems side by side. *)

Class Component (C : Type) := {
  c_start : C → option string * C;
  c_stop : C → option string * C;
  c_ok : C → Prop;
  c_idle : C → Prop;
  c_idle_dec :: ∀ c, Decision (c_idle c)
}.

Class ComponentLaws (C : Type) `{Component C} : Prop := {
  c_start_ok c : c_ok c → c_idle c → c_ok (c_start c).2;
  c_stop_ok c : c_ok c → c_ok (c_stop c).2;
  c_stop_idle c : c_ok c → c_idle (c_stop c).2
}.

(** A component whose failed start leaves nothing open. *)
Class CleanComponent (C : Type) `{Component C} : Prop :=
  c_clean c e : c_ok c → c_idle c → (c_start c).1 = Some e → c_idle (c_start c).2.

#[export] Instance component_lifecycle `{Component C} : Lifecycle unit C := {
  svc_start _ := c_start; svc_stop _ := c_stop
}.

Definition held1 `{Component C} (c : C) : gset unit := if decide (c_idle c) then ∅ else {[tt]}.

Section component.
Context `{HC : Component C}.

Lemma held1_in (c : C) : tt ∈ held1 c ↔ ¬ c_idle c.
Proof. unfold held1. destruct (decide _); set_solver. Qed.

Lemma held1_empty (c : C) : held1 c = ∅ ↔ c_idle c.
Proof. unfold held1. destruct (decide _); set_solver. Qed.

#[export] Instance component_releases `{!ComponentLaws C} : Releases unit C c_ok held1.
Proof.
  split; intros [] c Hc; cbn.
  - intros Hi. apply c_start_ok; [done|]. rewrite held1_in in Hi. by destruct (decide (c_idle c)).
  - intros _ []. set_solver.
  - by apply c_stop_ok.
  - rewrite (proj2 (held1_empty _) (c_stop_idle c Hc)). set_solver.
Qed.

#[export] Instance component_clean `{!CleanComponent C} : CleanStart c_ok (held1 (C:=C)) tt.
Proof.
  intros c e Hc Hi He. rewrite held1_in in Hi. assert (c_idle c) as Hidle by by destruct (decide (c_idle c)).
  cbn in *. rewrite (proj2 (held1_empty _) (c_clean c e Hc Hidle He)). set_solver.
Qed.
End component.

#[export] Instance prod_lifecycle {idA A idB B} `{Lifecycle idA A, Lifecycle idB B} : Lifecycle (idA + idB) (A * B) := {
  svc_start i s := match i with
    | inl i => let '(e, a) := svc_start i s.1 in (e, (a, s.2))
    | inr i => let '(e, b) := svc_start i s.2 in (e, (s.1, b))
    end;
  svc_stop i s := match i with
    | inl i => let '(e, a) := svc_stop i s.1 in (e, (a, s.2))
    | inr i => let '(e, b) := svc_stop i s.2 in (e, (s.1, b))
    end
}.

Definition ok2 {A B : Type} (okA : A → Prop) (okB : B → Prop) (s : A * B) : Prop := okA s.1 ∧ okB s.2.
Definition held2 {idA idB A B : Type} `{Countable idA, Countable idB} (hA : A → gset idA) (hB : B → gset idB)
    (s : A * B) : gset (idA + idB) := set_map inl (hA s.1) ∪ set_map inr (hB s.2).

Section product.
Context `{HA : Lifecycle idA A, Countable idA, HB : Lifecycle idB B, Countable idB}.
Context (okA : A → Prop) (okB : B → Prop) (hA : A → gset idA) (hB : B → gset idB).

Lemma held2_inl s i : inl i ∈ held2 hA hB s ↔ i ∈ hA s.1.
Proof. unfold held2. set_solver. Qed.
Lemma held2_inr s i : inr i ∈ held2 hA hB s ↔ i ∈ hB s.2.
Proof. unfold held2. set_solver. Qed.

Lemma held2_empty s : held2 hA hB s = ∅ ↔ hA s.1 = ∅ ∧ hB s.2 = ∅.
Proof.
  unfold held2. split.
  - intros He. split; apply set_eq; intros x; (split; [|set_solver]); intros Hx;
      [rewrite <- held2_inl in Hx|rewrite <- held2_inr in Hx]; unfold held2 in Hx; rewrite He in Hx; set_solver.
  - intros [-> ->]. set_solver.
Qed.

#[export] Instance prod_releases `{!Releases idA A okA hA, !Releases idB B okB hB} :
  Releases (idA + idB) (A * B) (ok2 okA okB) (held2 hA hB).
Proof.
  split; intros [i|i] [a b] [Ha Hb]; cbn in *; rewrite ?held2_inl, ?held2_inr; cbn.
  - intros Hi. pose proof (start_ok i a Ha Hi). by destruct (svc_start i a).
  - intros Hi. pose proof (start_ok i b Hb Hi). by destruct (svc_start i b).
  - intros Hi. pose proof (start_held i a Ha Hi) as Hs. destruct (svc_start i a) as [e a']. cbn in *.
    unfold held2. set_solver.
  - intros Hi. pose proof (start_held i b Hb Hi) as Hs. destruct (svc_start i b) as [e b']. cbn in *.
    unfold held2. set_solver.
  - pose proof (stop_ok i a Ha). by destruct (svc_stop i a).
  - pose proof (stop_ok i b Hb). by destruct (svc_stop i b).
  - pose proof (stop_held i a Ha) as Hs. destruct (svc_stop i a) as [e a']. cbn in *.
    unfold held2. set_solver.
  - pose proof (stop_held i b Hb) as Hs. destruct (svc_stop i b) as [e b']. cbn in *.
    unfold held2. set_solver.
Qed.

#[export] Instance prod_clean_l i `{!CleanStart okA hA i} : CleanStart (ok2 okA okB) (held2 hA hB) (inl i).
Proof.
  intros [a b] e [Ha Hb] Hi. rewrite held2_inl in Hi. cbn in *. intros He.
  pose proof (clean_start a e Ha Hi) as Hc. destruct (svc_start i a) as [e' a']. cbn in *. specialize (Hc He).
  unfold held2. set_solver.
Qed.
#[export] Instance prod_clean_r i `{!CleanStart okB hB i} : CleanStart (ok2 okA okB) (held2 hA hB) (inr i).
Proof.
  intros [a b] e [Ha Hb] Hi. rewrite held2_inr in Hi. cbn in *. intros He.
  pose proof (clean_start b e Hb Hi) as Hc. destruct (svc_start i b) as [e' b']. cbn in *. specialize (Hc He).
  unfold held2. set_solver.
Qed.
End product.
