(* ===== verification/App.v ===== *)
(** * application controller (app/v3/appcv3.go)

    The controller over any services that implement [Lifecycle].  The hooks
    of the application are functions on the state of the services, the ticks
    and signals of the processing loop are arguments. *)

From S2P Require Import Prelude Lifecycle.

Module App.

(** [Waiting]: the loop waits for a tick or a signal that has not come. *)
Inductive outcome := Completed | Waiting | Panicked (e : string).

(** What wakes [doProcess]: a tick or a signal. *)
Inductive wake := Tick | Quit.

(** The application: its hooks, what [Start] and [Stop] return, the
    configuration manager, the processing function (which panics with a
    message) and what the services see of the cancelled context. *)
Record Application (id S : Type) := MkApplication {
  cmLoad : option (S → option string * S);
  onBeforeInit : option (S → S);
  onAfterInit : option (S → S);
  toStart : list id;
  toStop : list (option id);
  processing : option (option (S → option string * S) * Duration);
  onRecover : option (string → S → S);
  onCancel : S → S
}.
Arguments MkApplication {id S} _ _ _ _ _ _ _ _.
Arguments cmLoad {id S} _.
Arguments onBeforeInit {id S} _.
Arguments onAfterInit {id S} _.
Arguments toStart {id S} _.
Arguments toStop {id S} _.
Arguments processing {id S} _.
Arguments onRecover {id S} _.
Arguments onCancel {id S} _.

(** [NewAppControllerV3] has no configuration manager; [SetConfigManager]
    gives it one, and [checkConfigManager], which nobody calls, makes one for
    the field [Config] of the application and panics when it has none. *)
Definition with_cm {id S : Type} (app : Application id S) (load : option (S → option string * S)) : Application id S :=
  MkApplication load (onBeforeInit app) (onAfterInit app) (toStart app) (toStop app) (processing app) (onRecover app) (onCancel app).
Definition NewAppControllerV3 {id S : Type} (app : Application id S) : Application id S := with_cm app None.
Definition SetConfigManager {id S : Type} (v3 : Application id S) (load : S → option string * S) : Application id S :=
  with_cm v3 (Some load).
Definition checkConfigManager {id S : Type} (v3 : Application id S) (field : option (S → option string * S)) :
    option (Application id S) :=
  match cmLoad v3, field with
  | Some _, _ => Some v3
  | None, Some load => Some (SetConfigManager v3 load)
  | None, None => None
  end.

Section controller.
Context {id S : Type} `{Lifecycle id S}.
Implicit Types (app : Application id S).

(** [initServices]: [started] are the services started so far, in order. *)
Fixpoint initServices_loop (services started : list id) (s : S) : S * outcome :=
  match services with
  | [] => (s, Completed)
  | v :: services =>
      match svc_start v s with
      | (Some e, s) => (stop_all (reverse started) s, Panicked e)
      | (None, s) => initServices_loop services (started ++ [v]) s
      end
  end.

Definition initServices (services : list id) (s : S) : S * outcome := initServices_loop services [] s.

(** [deInitServices]: nil services are skipped, errors are logged. *)
Fixpoint deInitServices (services : list (option id)) (s : S) : S :=
  match services with
  | [] => s
  | Some service :: services => deInitServices services (svc_stop service s).2
  | None :: services => deInitServices services s
  end.

(** The function the loop runs at each tick, if there is one. *)
Definition timerFunc app : option (S → option string * S) :=
  match processing app with
  | Some (Some f, d) => if 0 <? d then Some f else None
  | _ => None
  end.

Fixpoint doProcess (f : option (S → option string * S)) (wakes : list wake) (s : S) : S * outcome :=
  match wakes with
  | [] => (s, Waiting)
  | Quit :: _ => (s, Completed)
  | Tick :: wakes =>
      match f with
      | Some f' =>
          match f' s with
          | (Some e, s) => (s, Panicked e)
          | (None, s) => doProcess f wakes s
          end
      | None => doProcess f wakes s
      end
  end.

(** The calls up to the one that does not return. *)
Definition andThen (x : S * outcome) (k : S → S * outcome) : S * outcome :=
  match x with
  | (s, Completed) => k s
  | (s, r) => (s, r)
  end.

Definition hook (h : option (S → S)) (s : S) : S := match h with Some h => h s | None => s end.

Definition loadConfig app (s : S) : S * outcome :=
  match cmLoad app with
  | None => (s, Completed)
  | Some load => match load s with (None, s) => (s, Completed) | (Some e, s) => (s, Panicked e) end
  end.

Definition Run_body app (wakes : list wake) (s : S) : S * outcome :=
  andThen (loadConfig app s) (λ s,
    andThen (initServices (toStart app) (hook (onBeforeInit app) s)) (λ s,
      andThen (doProcess (timerFunc app) wakes (hook (onAfterInit app) s)) (λ s,
        (onCancel app (deInitServices (toStop app) s), Completed)))).

(** [Run]: the deferred function hands a panic to the application, when it
    has the hook, and the panic ends there. *)
Definition Run app (wakes : list wake) (s : S) : S * outcome :=
  match Run_body app wakes s with
  | (s, Panicked e) =>
      match onRecover app with Some h => (h e s, Completed) | None => (s, Panicked e) end
  | x => x
  end.

Lemma deInitServices_stop_all services s : deInitServices services s = stop_all (omap (λ i, i) services) s.
Proof. revert s. induction services as [|[i|] l IH]; intros s; cbn; [done| |]; apply IH. Qed.
End controller.

(** ** What the services hold *)

Section releases.
Context {id S : Type} `{Releases id S ok held}.

Lemma initServices_loop_held services started s :
  ok s → held s ⊆ list_to_set started → NoDup (started ++ services) →
  let '(s', r) := initServices_loop services started s in
  ok s' ∧
  match r with
  | Completed => held s' ⊆ list_to_set (started ++ services)
  | Panicked _ => ∃ i, i ∈ services ∧ held s' ⊆ {[i]} ∧ (CleanStart ok held i → held s' = ∅)
  | Waiting => False
  end.
Proof.
  revert started s. induction services as [|v services IH]; intros started s Hs Hh Hnd; cbn [initServices_loop].
  { by rewrite app_nil_r. }
  assert (Hv : v ∉ held s).
  { intros Hin. apply Hh, elem_of_list_to_set in Hin. apply NoDup_app in Hnd as (_ & Hd & _).
    apply (Hd v Hin). constructor. }
  pose proof (start_ok v s Hs Hv) as Hok. pose proof (start_held v s Hs Hv) as Hheld.
  destruct (svc_start v s) as [[e|] s1] eqn:E; cbn [snd] in *.
  - destruct (stop_all_releases (reverse started) s1 Hok) as [Ha Hb].
    split; [done|]. exists v. split; [constructor|].
    assert (Hrev : list_to_set (reverse started) =@{gset id} list_to_set started).
    { apply set_eq. intros x. by rewrite !elem_of_list_to_set, elem_of_reverse. }
    rewrite Hrev in Hb. split; [set_solver|]. intros Hc. pose proof (Hc s e Hs Hv) as Hc'.
    rewrite E in Hc'. cbn in Hc'. specialize (Hc' eq_refl). set_solver.
  - assert (Hnd' : NoDup ((started ++ [v]) ++ services)) by by rewrite <- app_assoc.
    specialize (IH (started ++ [v]) s1 Hok). rewrite list_to_set_app_L in IH.
    specialize (IH ltac:(set_solver) Hnd'). destruct (initServices_loop services _ s1) as [s2 r].
    destruct IH as [Ha Hb]. split; [done|]. destruct r as [| |e]; [by rewrite <- app_assoc in Hb|done|].
    destruct Hb as (i & Hi & Hb). exists i. split; [by constructor|done].
Qed.

(** What an application may do: its hooks and its configuration leave the
    services as they are, its processing function uses only services it
    starts. *)
Definition quiet (f : S → S) : Prop := ∀ s, ok s → ok (f s) ∧ held (f s) ⊆ held s.
Definition within (T : gset id) (f : S → S) : Prop := ∀ s, ok s → held s ⊆ T → ok (f s) ∧ held (f s) ⊆ T.

Record well_behaved (app : Application id S) : Prop := {
  wb_load : ∀ load, cmLoad app = Some load → quiet (λ s, (load s).2);
  wb_before : quiet (hook (onBeforeInit app));
  wb_after : quiet (hook (onAfterInit app));
  wb_process : ∀ f, timerFunc app = Some f → within (list_to_set (toStart app)) (λ s, (f s).2);
  wb_cancel : quiet (onCancel app);
  wb_nodup : NoDup (toStart app);
  wb_stop : ∀ i, i ∈ toStart app → Some i ∈ toStop app
}.

Lemma doProcess_within T f wakes s :
  (∀ f', f = Some f' → within T (λ s, (f' s).2)) → ok s → held s ⊆ T →
  ok (doProcess f wakes s).1 ∧ held (doProcess f wakes s).1 ⊆ T.
Proof.
  intros Hf. revert s. induction wakes as [|[|] wakes IH]; intros s Hs Hh; cbn [doProcess]; try done.
  destruct f as [f'|]; [|by apply IH]. destruct (Hf f' eq_refl s Hs Hh) as [Ha Hb].
  destruct (f' s) as [[e|] s1]; cbn [fst snd] in *; [done|]. by apply IH.
Qed.

(** [C6] A run that completes leaves no service holding anything, when every
    service it starts is among those it stops; a run that does not holds at
    most the services it started. *)
Theorem run_releases app wakes s :
  well_behaved app → ok s → held s = ∅ →
  let '(s', r) := Run_body app wakes s in
  ok s' ∧ match r with Completed => held s' = ∅ | _ => held s' ⊆ list_to_set (toStart app) end.
Proof.
  intros [Hl Hbe Haf Hp Hc Hnd Hst] Hs Hh. set (T := list_to_set (toStart app)) in *.
  unfold Run_body, loadConfig.
  assert (Hload : let '(s1, r) := loadConfig app s in ok s1 ∧ held s1 = ∅ ∧ r ≠ Waiting).
  { unfold loadConfig. destruct (cmLoad app) as [load|]; [|done]. destruct (Hl load eq_refl s Hs) as [Ha Hb].
    destruct (load s) as [[e|] s1]; cbn in *; (split; [done|]; split; [set_solver|done]). }
  fold (loadConfig app s). destruct (loadConfig app s) as [s1 [| |e]]; destruct Hload as (Hs1 & Hh1 & Hr);
    cbn [andThen]; [|done|split; [done|set_solver]].
  destruct (Hbe s1 Hs1) as [Hs2 Hh2]. set (s2 := hook _ s1) in *.
  pose proof (initServices_loop_held (toStart app) [] s2 Hs2 ltac:(set_solver) Hnd) as Hi.
  fold (initServices (toStart app) s2) in Hi. destruct (initServices (toStart app) s2) as [s3 [| |e]];
    destruct Hi as [Hs3 Hi]; cbn [andThen]; [|done|].
  2: { destruct Hi as (i & Hi & Hh3 & _). split; [done|]. etrans; [exact Hh3|]. intros x ->%elem_of_singleton.
       by apply elem_of_list_to_set. }
  destruct (Haf s3 Hs3) as [Hs4 Hh4]. set (s4 := hook _ s3) in *.
  destruct (doProcess_within T (timerFunc app) wakes s4 Hp Hs4 ltac:(set_solver)) as [Hs5 Hh5].
  destruct (doProcess _ _ _) as [s5 [| |e]]; cbn [andThen fst] in *; [|done|done].
  rewrite deInitServices_stop_all. destruct (stop_all_releases (omap (λ i, i) (toStop app)) s5 Hs5) as [Hs6 Hh6].
  destruct (Hc _ Hs6) as [Hs7 Hh7]. split; [done|].
  assert (held (onCancel app (stop_all (omap (λ i, i) (toStop app)) s5)) ⊆ ∅); [|set_solver].
  intros x Hx. apply Hh7, Hh6, elem_of_difference in Hx as [Hx Hn]. apply Hh5, elem_of_list_to_set, Hst in Hx.
  destruct Hn. apply elem_of_list_to_set, list_elem_of_omap. eauto.
Qed.

(** When a start fails, the services started before it hold nothing
    any more; the one that failed may, unless its failed start is clean. *)
Theorem rollback_releases services s :
  ok s → held s = ∅ → NoDup services →
  let '(s', r) := initServices services s in
  ∀ e, r = Panicked e →
    ∃ i, i ∈ services ∧ held s' ⊆ {[i]} ∧ (CleanStart ok held i → held s' = ∅).
Proof.
  intros Hs Hh Hnd. unfold initServices.
  pose proof (initServices_loop_held services [] s Hs ltac:(set_solver) Hnd) as H2.
  destruct (initServices_loop services [] s) as [s' r]. destruct H2 as [_ H2]. by intros e ->.
Qed.
End releases.

(** ** The order of the calls *)

Section traces.
Context {id S : Type} `{Lifecycle id S}.
Implicit Types (app : Application id S).

(** The application whose hooks write down that they ran. *)
Definition lift (e : event id) (f : S → S) (t : traced id S) : traced id S :=
  MkTraced (f (inner t)) (log t ++ [e]).
Definition lift_err (e : event id) (f : S → option string * S) (t : traced id S) : option string * traced id S :=
  let '(r, s) := f (inner t) in (r, MkTraced s (log t ++ [e])).

Definition traced_app app : Application id (traced id S) :=
  MkApplication (lift_err LoadConfig <$> cmLoad app) (lift BeforeInit <$> onBeforeInit app)
    (lift AfterInit <$> onAfterInit app) (toStart app) (toStop app)
    (match processing app with Some (f, d) => Some (lift_err Process <$> f, d) | None => None end)
    ((λ h e, lift (OnAppRecover e) (h e)) <$> onRecover app)
    (lift Cancel (onCancel app)).

Lemma timerFunc_traced app : timerFunc (traced_app app) = lift_err Process <$> timerFunc app.
Proof. unfold timerFunc. cbn. destruct (processing app) as [[[f|] d]|]; cbn; try done. by destruct (0 <? d). Qed.

Lemma initServices_trace services started t :
  let '(t', r) := initServices_loop services started t in
  match r with
  | Panicked e =>
      ∃ pre v post, services = pre ++ v :: post ∧
        log t' = log t ++ (StartService <$> pre ++ [v]) ++ (StopService <$> reverse (started ++ pre))
  | Completed => log t' = log t ++ (StartService <$> services)
  | Waiting => False
  end.
Proof.
  revert started t. induction services as [|v services IH]; intros started t; cbn [initServices_loop].
  { by rewrite app_nil_r. }
  cbn [svc_start traced_lifecycle]. destruct (svc_start v (inner t)) as [[e|] s]; cbn [snd].
  - exists [], v, services. split; [done|]. rewrite traced_stop_all, app_nil_r. cbn [log inner].
    by rewrite <- app_assoc.
  - specialize (IH (started ++ [v]) (MkTraced s (log t ++ [StartService v]))).
    destruct (initServices_loop services _ _) as [t' [| |e]]; cbn [log] in IH; [by rewrite <- app_assoc in IH|done|].
    destruct IH as (pre & w & post & -> & ->). exists (v :: pre), w, post. split; [done|].
    by rewrite <- !app_assoc.
Qed.

(** [C21] Services are started in order; when one fails to start, those
    started before it are stopped, last first, and nothing else happens. *)
Theorem initServices_rollback services s :
  let '(t, r) := initServices services (MkTraced s []) in
  match r with
  | Panicked e =>
      ∃ pre v post, services = pre ++ v :: post ∧
        log t = (StartService <$> pre ++ [v]) ++ (StopService <$> reverse pre)
  | Completed => log t = StartService <$> services
  | Waiting => False
  end.
Proof. exact (initServices_trace services [] (MkTraced s [])). Qed.

Lemma doProcess_trace f wakes t :
  ∃ n, log (doProcess (lift_err Process <$> f) wakes t).1 = log t ++ replicate n Process.
Proof.
  revert t. induction wakes as [|[|] wakes IH]; intros t; cbn [doProcess];
    [exists 0%nat; by rewrite app_nil_r| |exists 0%nat; by rewrite app_nil_r].
  destruct f as [f|]; [|apply (IH t)]. cbn [fmap option_fmap option_map] in *. unfold lift_err at 1.
  destruct (f (inner t)) as [[e|] s]; [by exists 1%nat|].
  destruct (IH (MkTraced s (log t ++ [Process]))) as [n Hn]. exists (Datatypes.S n). rewrite Hn. cbn.
  by rewrite <- app_assoc.
Qed.

Lemma deInitServices_trace services t :
  log (deInitServices services t) = log t ++ (StopService <$> omap (λ i, i) services).
Proof. by rewrite deInitServices_stop_all, traced_stop_all. Qed.

(** A run that completes and that the application did not recover makes
    its calls in this order: the configuration, the hook, the starts, the
    hook, the processing ticks, the stops, the cancellation. *)
Theorem Run_order app wakes s t :
  Run_body (traced_app app) wakes (MkTraced s []) = (t, Completed) →
  ∃ n, log t =
    (match cmLoad app with Some _ => [LoadConfig] | None => [] end) ++
    (match onBeforeInit app with Some _ => [BeforeInit] | None => [] end) ++
    (StartService <$> toStart app) ++
    (match onAfterInit app with Some _ => [AfterInit] | None => [] end) ++
    replicate n Process ++ (StopService <$> omap (λ i, i) (toStop app)) ++ [Cancel].
Proof.
  unfold Run_body. 
  assert (Hload : let '(t1, r) := loadConfig (traced_app app) (MkTraced s []) in
    log t1 = match cmLoad app with Some _ => [LoadConfig] | None => [] end).
  { unfold loadConfig. cbn. destruct (cmLoad app) as [load|]; [|done]. cbn. unfold lift_err. cbn.
    by destruct (load s) as [[e|] s1]. }
  destruct (loadConfig _ _) as [t1 [| |e]]; [|done|done]. cbn [andThen].
  set (t2 := hook _ t1). assert (H2 : log t2 = log t1 ++ match onBeforeInit app with Some _ => [BeforeInit] | None => [] end).
  { subst t2. cbn. destruct (onBeforeInit app); cbn; [done|by rewrite app_nil_r]. }
  pose proof (initServices_trace (toStart app) [] t2) as Hi. fold (initServices (toStart app) t2) in Hi.
  cbn [toStart traced_app].
  destruct (initServices (toStart app) t2) as [t3 [| |e]]; [|done|done]. cbn [andThen].
  set (t4 := hook _ t3). assert (H4 : log t4 = log t3 ++ match onAfterInit app with Some _ => [AfterInit] | None => [] end).
  { subst t4. cbn. destruct (onAfterInit app); cbn; [done|by rewrite app_nil_r]. }
  rewrite timerFunc_traced. destruct (doProcess_trace (timerFunc app) wakes t4) as [n Hn].
  destruct (doProcess _ _ _) as [t5 [| |e]]; [|done|done]. cbn [andThen fst] in *. intros [= <-].
  exists n. cbn [log lift onCancel traced_app toStop]. rewrite deInitServices_trace, Hn, H4, Hi, H2, Hload.
  by rewrite <- !app_assoc.
Qed.

(** The calls do not change what the services do. *)
Lemma initServices_inner services started t :
  let '(t', r) := initServices_loop services started t in
  initServices_loop services started (inner t) = (inner t', r).
Proof.
  revert started t. induction services as [|v services IH]; intros started t; cbn [initServices_loop]; [done|].
  cbn [svc_start traced_lifecycle]. destruct (svc_start v (inner t)) as [[e|] s].
  - by rewrite traced_stop_all.
  - apply (IH _ (MkTraced s _)).
Qed.

Lemma doProcess_inner f wakes t :
  let '(t', r) := doProcess (lift_err Process <$> f) wakes t in doProcess f wakes (inner t) = (inner t', r).
Proof.
  revert t. induction wakes as [|[|] wakes IH]; intros t; cbn [doProcess]; [done| |done].
  destruct f as [f|]; [|apply (IH t)]. cbn [fmap option_fmap option_map] in *. unfold lift_err at 1.
  destruct (f (inner t)) as [[e|] s]; [done|]. apply (IH (MkTraced s _)).
Qed.

Lemma deInitServices_inner services t : inner (deInitServices services t) = deInitServices services (inner t).
Proof. by rewrite !deInitServices_stop_all, traced_stop_all. Qed.

Lemma hook_inner e h (t : traced id S) : inner (hook (lift e <$> h) t) = hook h (inner t).
Proof. by destruct h. Qed.

Lemma Run_body_inner app wakes t :
  let '(t', r) := Run_body (traced_app app) wakes t in Run_body app wakes (inner t) = (inner t', r).
Proof.
  unfold Run_body.
  assert (Hload : let '(t1, r) := loadConfig (traced_app app) t in loadConfig app (inner t) = (inner t1, r)).
  { unfold loadConfig. cbn. destruct (cmLoad app) as [load|]; [|done]. cbn. unfold lift_err.
    by destruct (load (inner t)) as [[e|] s1]. }
  destruct (loadConfig (traced_app app) t) as [t1 [| |e]]; rewrite Hload; try done. cbn [andThen].
  cbn [toStart traced_app onBeforeInit onAfterInit]. rewrite <- hook_inner with (e := BeforeInit).
  pose proof (initServices_inner (toStart app) [] (hook (lift BeforeInit <$> onBeforeInit app) t1)) as Hi.
  fold (initServices (toStart app) (inner (hook (lift BeforeInit <$> onBeforeInit app) t1))) in Hi.
  fold (initServices (toStart app) (hook (lift BeforeInit <$> onBeforeInit app) t1)) in Hi.
  destruct (initServices (toStart app) (hook _ t1)) as [t3 [| |e]]; rewrite Hi; try done. cbn [andThen].
  rewrite <- hook_inner with (e := AfterInit). rewrite timerFunc_traced.
  pose proof (doProcess_inner (timerFunc app) wakes (hook (lift AfterInit <$> onAfterInit app) t3)) as Hp.
  destruct (doProcess _ _ (hook (lift AfterInit <$> _) t3)) as [t5 [| |e]]; rewrite Hp; try done. cbn [andThen].
  cbn [toStop traced_app onCancel lift inner]. by rewrite deInitServices_inner.
Qed.

(** Writing the calls down changes nothing: the traced run ends as the
    run does, with the services in the same state. *)
Theorem traced_run_refines app wakes s :
  let '(t, r) := Run (traced_app app) wakes (MkTraced s []) in Run app wakes s = (inner t, r).
Proof.
  unfold Run. pose proof (Run_body_inner app wakes (MkTraced s [])) as H1. cbn [inner] in H1.
  destruct (Run_body (traced_app app) _ _) as [t [| |e]]; rewrite H1; try done.
  cbn [traced_app onRecover]. by destruct (onRecover app).
Qed.

(** A panic of the processing function stops no service: every service
    the application started goes on running. *)
Theorem panic_leaves_services app wakes s t e :
  Run_body (traced_app app) wakes (MkTraced s []) = (t, Panicked e) → Process ∈ log t →
  ∀ i, (i ∈ toStart app → StartService i ∈ log t) ∧ StopService i ∉ log t.
Proof.
  unfold Run_body.
  assert (Hload : let '(t1, r) := loadConfig (traced_app app) (MkTraced s []) in ∀ x, x ∈ log t1 → x = LoadConfig).
  { unfold loadConfig. cbn. destruct (cmLoad app) as [load|]; [|cbn; set_solver]. cbn. unfold lift_err. cbn.
    destruct (load s) as [[e'|] s1]; cbn; set_solver. }
  destruct (loadConfig _ _) as [t1 [| |e1]]; cbn [andThen]; [|done|].
  2: { intros [= <- _] Hin. by apply Hload in Hin. }
  set (t2 := hook _ t1). assert (H2 : ∀ x, x ∈ log t2 → x = LoadConfig ∨ x = BeforeInit).
  { subst t2. cbn. destruct (onBeforeInit app); cbn; [|auto]. intros x. rewrite elem_of_app. set_solver. }
  clearbody t2. pose proof (initServices_trace (toStart app) [] t2) as Hi. fold (initServices (toStart app) t2) in Hi.
  cbn [toStart traced_app].
  destruct (initServices (toStart app) t2) as [t3 [| |e3]]; cbn [andThen]; [|done|].
  2: { destruct Hi as (pre & v & post & _ & Hl). intros [= <- _]. rewrite Hl, !elem_of_app, !list_elem_of_fmap.
       intros [Hx|[(? & ? & _)|(? & ? & _)]]; try done. apply H2 in Hx. naive_solver. }
  set (t4 := hook _ t3). assert (H4 : ∀ x, x ∈ log t4 ↔ x ∈ log t3 ∨ (x = AfterInit ∧ is_Some (onAfterInit app))).
  { subst t4. cbn. destruct (onAfterInit app); cbn; intros x; [rewrite elem_of_app, list_elem_of_singleton|];
      naive_solver. }
  clearbody t4. rewrite timerFunc_traced. destruct (doProcess_trace (timerFunc app) wakes t4) as [n Hn].
  destruct (doProcess _ _ _) as [t5 [| |e5]]; cbn [andThen fst] in *; [done|done|].
  intros [= <- _] _ i. rewrite Hn, Hi in *. split.
  - intros Hin. rewrite elem_of_app. left. apply H4. left. rewrite elem_of_app, list_elem_of_fmap. eauto.
  - rewrite elem_of_app, H4, elem_of_app, list_elem_of_fmap, elem_of_replicate.
    intros [[[Hx|(? & ? & _)]|[? _]]|[? _]]; try done. apply H2 in Hx. naive_solver.
Qed.
End traces.

(** ** Concrete runs *)

(** Services that hold their own number; number 9 does not start. *)
Definition demo_start (i : nat) (s : gset nat) : option string * gset nat :=
  if (i =? 9)%nat then (Some "refused"%string, s) else (None, {[i]} ∪ s).
Definition demo_stop (i : nat) (s : gset nat) : option string * gset nat := (None, s ∖ {[i]}).
#[local] Instance demo : Lifecycle nat (gset nat) := { svc_start := demo_start; svc_stop := demo_stop }.
#[local] Instance demo_releases : Releases nat (gset nat) (λ _, True) (λ s, s).
Proof.
  split; try done; intros i s _; cbn; unfold demo_start.
  intros _. destruct (i =? 9)%nat; set_solver.
Qed.
#[local] Instance demo_clean : CleanStart (S:=gset nat) (λ _, True) (λ s, s) 9%nat.
Proof. intros s e _ _ _. done. Qed.

Definition demo_app (process : gset nat → option string * gset nat) : Application nat (gset nat) :=
  MkApplication None (Some (λ s, s)) None [1; 2]%nat [Some 2%nat; None; Some 1%nat] (Some (Some process, Second)) None (λ s, s).

Lemma run_releases_witness :
  let '(s, r) := Run_body (demo_app (λ s, (None, s))) [Tick; Quit] ∅ in r = Completed ∧ s = ∅.
Proof.
  assert (Hwb : well_behaved (ok := λ _, True) (held := λ s : gset nat, s) (demo_app (λ s, (None, s)))).
  { split; try done.
    - intros f Hf. unfold timerFunc in Hf. cbn in Hf. injection Hf as <-. done.
    - cbn. repeat constructor; set_solver.
    - cbn. set_solver. }
  pose proof (run_releases (demo_app (λ s, (None, s))) [Tick; Quit] ∅ Hwb I eq_refl) as H.
  destruct (Run_body _ _ _) as [s r] eqn:E.
  assert (Er : r = Completed) by (replace r with (Run_body (demo_app (λ s, (None, s))) [Tick; Quit] ∅).2
    by (by rewrite E); vm_compute; reflexivity).
  rewrite Er in H. split; [exact Er|apply H].
Defined.

Lemma rollback_releases_witness :
  let '(s, r) := initServices [1; 2; 9; 3]%nat (∅ : gset nat) in r = Panicked "refused" ∧ s = ∅.
Proof.
  assert (Hnd : NoDup [1; 2; 9; 3]%nat) by (repeat constructor; set_solver).
  pose proof (rollback_releases (ok := λ _, True) (held := λ s, s) [1; 2; 9; 3]%nat ∅ I eq_refl Hnd) as H.
  destruct (initServices [1; 2; 9; 3]%nat ∅) as [s r] eqn:E.
  assert (Er : r = Panicked "refused") by (replace r with (initServices [1; 2; 9; 3]%nat (∅ : gset nat)).2
    by (by rewrite E); vm_compute; reflexivity).
  split; [exact Er|]. destruct (H _ Er) as (i & Hi & Hs & Hc).
  vm_compute in E. injection E as E1 E2. vm_compute. exact (eq_sym E1).
Defined.

Definition ticking : Application nat (gset nat) := demo_app (λ s, (None, s)).
Definition panicking : Application nat (gset nat) := demo_app (λ s, (Some "nil map"%string, s)).
Definition traced0 : traced nat (gset nat) := MkTraced ∅ [].

Lemma Run_order_witness :
  let t := (Run_body (traced_app ticking) [Tick; Tick; Quit] traced0).1 in
  ∃ n, log t = [BeforeInit] ++ (StartService <$> [1; 2]%nat) ++ replicate n Process ++
         (StopService <$> [2; 1]%nat) ++ [Cancel].
Proof. exact (Run_order (H:=demo) ticking [Tick; Tick; Quit] (∅ : gset nat) _ ltac:(vm_compute; reflexivity)). Defined.

Definition panicked : traced nat (gset nat) := (Run_body (traced_app panicking) [Tick; Quit] traced0).1.

Lemma panic_leaves_services_witness : StartService 1%nat ∈ log panicked ∧ StopService 1%nat ∉ log panicked.
Proof.
  assert (Hrun : Run_body (traced_app panicking) [Tick; Quit] traced0 = (panicked, Panicked "nil map"))
    by (vm_compute; reflexivity).
  assert (Hp : Process ∈ log panicked) by (vm_compute; set_solver).
  destruct (panic_leaves_services panicking [Tick; Quit] _ panicked "nil map" Hrun Hp 1%nat) as [H1 H2].
  split; [apply H1; vm_compute; set_solver|exact H2].
Defined.
End App.
