(* ===== verification/Concurrent.v ===== *)
(** * The controller among running goroutines (app/v3/appcv3.go)

    App.v runs the controller over services that only move when they are
    called.  Here their goroutines, their clients and the network go on
    between two calls of the controller, in any order: a service is a
    transition system ([Process]), services are put side by side, and the
    controller of App.v becomes one more thread.  It does not wait for a stop
    to return, which only allows more interleavings. *)

From S2P Require Import Prelude Lifecycle App.

(** What the controller did to a service: nothing yet, a start, a stop. *)
Inductive phase := Fresh | Started | Stopped.

#[global] Instance phase_eq_dec : EqDecision phase.
Proof. solve_decision. Defined.

(** ** One service

    Its calls as relations, its own steps, the states in which its goroutines
    have ended and its calls returned, those in which nothing is held open,
    and its invariant in each phase. *)

Class Process (C : Type) := {
  p_start : C → option string → C → Prop;
  p_stop : C → C → Prop;
  p_step : C → C → Prop;
  p_ended : C → Prop;
  p_idle : C → Prop;
  p_inv : phase → C → Prop
}.

(** The promise: the invariant follows the calls and holds in between; once
    stopped the goroutines can always be brought to their end, and then
    nothing is held. *)
Class ProcessLaws (C : Type) `{Process C} : Prop := {
  p_start_inv c e c' : p_inv Fresh c → p_start c e c' → p_inv Started c';
  p_stop_inv ph c c' : p_inv ph c → p_stop c c' → p_inv Stopped c';
  p_step_inv ph c c' : p_inv ph c → p_step c c' → p_inv ph c';
  p_can_end ph c : ph ≠ Started → p_inv ph c → ∃ c', star p_step c c' ∧ p_ended c';
  p_end_idle ph c : ph ≠ Started → p_inv ph c → p_ended c → p_idle c
}.

(** A component without goroutines is a process that moves when called. *)
#[export] Instance component_process `{Component C} : Process C := {
  p_start c e c' := c_start c = (e, c');
  p_stop c c' := c' = (c_stop c).2;
  p_step _ _ := False;
  p_ended _ := True;
  p_idle := c_idle;
  p_inv ph c := c_ok c ∧ (ph ≠ Started → c_idle c)
}.

#[export] Instance component_process_laws `{Component C, !ComponentLaws C} : ProcessLaws C.
Proof.
  split; cbn.
  - intros c e c' [Hok Hi] Hs. split; [|done]. pose proof (c_start_ok c Hok (Hi ltac:(done))) as H'. by rewrite Hs in H'.
  - intros ph c c' [Hok _] ->. split; [by apply c_stop_ok|]. intros _. by apply c_stop_idle.
  - done.
  - intros ph c _ _. exists c. split; [apply star_refl|done].
  - intros ph c Hne [_ Hi] _. by apply Hi.
Qed.

(** ** Services side by side *)

Class Running (id S : Type) := {
  r_start : id → S → option string → S → Prop;
  r_stop : id → S → S → Prop;
  r_step : S → S → Prop;
  r_ended : S → Prop;
  r_idle : id → S → Prop;
  r_phase : S → id → phase;
  r_inv : S → Prop
}.

(** [r_phase] after a call on [i]. *)
Definition phase_set {id : Type} (f g : id → phase) (i : id) (ph : phase) : Prop :=
  g i = ph ∧ ∀ j, j ≠ i → g j = f j.

Class RunningLaws (id S : Type) `{Running id S} : Prop := {
  r_start_inv i s e s' : r_inv s → r_phase s i = Fresh → r_start i s e s' →
    r_inv s' ∧ phase_set (r_phase s) (r_phase s') i Started;
  r_stop_inv i s s' : r_inv s → r_stop i s s' → r_inv s' ∧ phase_set (r_phase s) (r_phase s') i Stopped;
  r_step_inv s s' : r_inv s → r_step s s' → r_inv s' ∧ ∀ i, r_phase s' i = r_phase s i;
  r_can_end s : r_inv s → (∀ i, r_phase s i ≠ Started) → ∃ s', star r_step s s' ∧ r_ended s';
  r_end_idle i s : r_inv s → r_phase s i ≠ Started → r_ended s → r_idle i s
}.

(** One service with the phase it is in, which is not part of the program. *)
#[export] Instance process_running `{Process C} : Running unit (phase * C) := {
  r_start _ s e s' := p_start s.2 e s'.2 ∧ s'.1 = Started;
  r_stop _ s s' := p_stop s.2 s'.2 ∧ s'.1 = Stopped;
  r_step s s' := p_step s.2 s'.2 ∧ s'.1 = s.1;
  r_ended s := p_ended s.2;
  r_idle _ s := p_idle s.2;
  r_phase s _ := s.1;
  r_inv s := p_inv s.1 s.2
}.

Lemma star_phase `{Process C} ph c c' : star p_step c c' → star r_step (ph, c) (ph, c').
Proof.
  induction 1 as [c|c1 c2 c3 Hs _ IH]; [apply star_refl|]. eapply star_step; [|exact IH]. by split.
Qed.

#[export] Instance process_running_laws `{Process C, !ProcessLaws C} : RunningLaws unit (phase * C).
Proof.
  split; cbn.
  - intros [] [ph c] e [ph' c'] Hi Hph [Hs Hph']; cbn in *. subst. split; [by eapply p_start_inv|].
    by split; [|intros []].
  - intros [] [ph c] [ph' c'] Hi [Hs Hph']; cbn in *. subst. split; [by eapply p_stop_inv|]. by split; [|intros []].
  - intros [ph c] [ph' c'] Hi [Hs Hph']; cbn in *. subst. split; [by eapply p_step_inv|done].
  - intros [ph c] Hi Hph. destruct (p_can_end ph c (Hph tt) Hi) as (c' & Hs & He). exists (ph, c').
    split; [by apply star_phase|done].
  - intros [] [ph c] Hi Hph He. by eapply p_end_idle.
Qed.

#[export] Instance prod_running `{Running idA A, Running idB B} : Running (idA + idB) (A * B) := {
  r_start i s e s' := match i with
    | inl i => r_start i s.1 e s'.1 ∧ s'.2 = s.2
    | inr i => r_start i s.2 e s'.2 ∧ s'.1 = s.1
    end;
  r_stop i s s' := match i with
    | inl i => r_stop i s.1 s'.1 ∧ s'.2 = s.2
    | inr i => r_stop i s.2 s'.2 ∧ s'.1 = s.1
    end;
  r_step s s' := (r_step s.1 s'.1 ∧ s'.2 = s.2) ∨ (r_step s.2 s'.2 ∧ s'.1 = s.1);
  r_ended s := r_ended s.1 ∧ r_ended s.2;
  r_idle i s := match i with inl i => r_idle i s.1 | inr i => r_idle i s.2 end;
  r_phase s i := match i with inl i => r_phase s.1 i | inr i => r_phase s.2 i end;
  r_inv s := r_inv s.1 ∧ r_inv s.2
}.

Lemma star_prod_l `{Running idA A, Running idB B} (a a' : A) (b : B) : star r_step a a' → star r_step (a, b) (a', b).
Proof.
  induction 1 as [a|a1 a2 a3 Hs _ IH]; [apply star_refl|]. eapply star_step; [|exact IH]. left. by split.
Qed.
Lemma star_prod_r `{Running idA A, Running idB B} (a : A) (b b' : B) : star r_step b b' → star r_step (a, b) (a, b').
Proof.
  induction 1 as [b|b1 b2 b3 Hs _ IH]; [apply star_refl|]. eapply star_step; [|exact IH]. right. by split.
Qed.

#[export] Instance prod_running_laws `{Running idA A, !RunningLaws idA A, Running idB B, !RunningLaws idB B} :
  RunningLaws (idA + idB) (A * B).
Proof.
  split; cbn.
  - intros [i|i] [a b] e [a' b'] [Ha Hb] Hph [Hs Heq]; cbn in *; subst.
    + destruct (r_start_inv i a e a' Ha Hph Hs) as [Ha' [H1 H2]]. split; [done|]. split; [done|].
      intros [j|j] Hj; [apply H2; congruence|done].
    + destruct (r_start_inv i b e b' Hb Hph Hs) as [Hb' [H1 H2]]. split; [done|]. split; [done|].
      intros [j|j] Hj; [done|apply H2; congruence].
  - intros [i|i] [a b] [a' b'] [Ha Hb] [Hs Heq]; cbn in *; subst.
    + destruct (r_stop_inv i a a' Ha Hs) as [Ha' [H1 H2]]. split; [done|]. split; [done|].
      intros [j|j] Hj; [apply H2; congruence|done].
    + destruct (r_stop_inv i b b' Hb Hs) as [Hb' [H1 H2]]. split; [done|]. split; [done|].
      intros [j|j] Hj; [done|apply H2; congruence].
  - intros [a b] [a' b'] [Ha Hb] [[Hs Heq]|[Hs Heq]]; cbn in *; subst.
    + destruct (r_step_inv a a' Ha Hs) as [Ha' Hp]. split; [done|]. intros [j|j]; [apply Hp|done].
    + destruct (r_step_inv b b' Hb Hs) as [Hb' Hp]. split; [done|]. intros [j|j]; [done|apply Hp].
  - intros [a b] [Ha Hb] Hph. destruct (r_can_end a Ha (λ i, Hph (inl i))) as (a' & Hsa & Hea).
    destruct (r_can_end b Hb (λ i, Hph (inr i))) as (b' & Hsb & Heb). exists (a', b'). split; [|done].
    eapply star_trans; [by apply star_prod_l|by apply star_prod_r].
  - intros [i|i] [a b] [Ha Hb] Hph [Hea Heb]; by apply r_end_idle.
Qed.

(** ** The controller *)

(** What [Run] is given: the services to start and to stop, and what one tick
    of the processing function does. *)
Record program (id S : Type) := MkProgram { toStart : list id; toStop : list (option id); work : S → S → Prop }.
Arguments MkProgram {id S} _ _ _.
Arguments toStart {id S} _.
Arguments toStop {id S} _.
Arguments work {id S} _.

Inductive cpc (id : Type) :=
| Starting (todo started : list id)            (* initServices *)
| Working                                      (* doProcess *)
| Stopping (todo : list (option id))           (* deInitServices *)
| Finished
| Rollback (failed : id) (todo : list id)      (* the stops of initServices *)
| Failed (failed : id).
Arguments Starting {id} _ _.
Arguments Working {id}.
Arguments Stopping {id} _.
Arguments Finished {id}.
Arguments Rollback {id} _ _.
Arguments Failed {id} _.

Section controller.
Context {id S : Type} `{EqDecision id, Running id S} (P : program id S).

Inductive cstep : cpc id * S → cpc id * S → Prop :=
| ctl_start v todo started s s' :
    r_start v s None s' → cstep (Starting (v :: todo) started, s) (Starting todo (started ++ [v]), s')
| ctl_start_fails v todo started s e s' :
    r_start v s (Some e) s' → cstep (Starting (v :: todo) started, s) (Rollback v (reverse started), s')
| ctl_started started s : cstep (Starting [] started, s) (Working, s)
| ctl_tick s s' : work P s s' → cstep (Working, s) (Working, s')
| ctl_quit s : cstep (Working, s) (Stopping (toStop P), s)
| ctl_stop v todo s s' : r_stop v s s' → cstep (Stopping (Some v :: todo), s) (Stopping todo, s')
| ctl_skip todo s : cstep (Stopping (None :: todo), s) (Stopping todo, s)
| ctl_finish s : cstep (Stopping [], s) (Finished, s)
| ctl_rollback v w todo s s' : r_stop w s s' → cstep (Rollback v (w :: todo), s) (Rollback v todo, s')
| ctl_failed v s : cstep (Rollback v [], s) (Failed v, s)
| ctl_others p s s' : r_step s s' → cstep (p, s) (p, s').

Definition started_run (s : S) : cpc id * S := (Starting (toStart P) [], s).

(** What the controller may rely on of its own work. *)
Definition work_ok : Prop :=
  ∀ s s', r_inv s → (∀ i, i ∈ toStart P → r_phase s i = Started) → work P s s' →
    r_inv s' ∧ ∀ i, r_phase s' i = r_phase s i.

Definition stops_what_it_starts : Prop := ∀ i, i ∈ toStart P → Some i ∈ toStop P.

(** The phases that go with a point of the controller. *)
Definition phases_at (p : cpc id) (ph : id → phase) : Prop :=
  match p with
  | Starting todo started =>
      toStart P = started ++ todo ∧ (∀ i, i ∈ started → ph i = Started) ∧ (∀ i, i ∉ started → ph i = Fresh)
  | Working => (∀ i, i ∈ toStart P → ph i = Started) ∧ (∀ i, i ∉ toStart P → ph i = Fresh)
  | Stopping todo => ∀ i, ph i = Started → Some i ∈ todo
  | Finished => ∀ i, ph i ≠ Started
  | Rollback v todo => ∀ i, ph i = Started → i = v ∨ i ∈ todo
  | Failed v => ∀ i, ph i = Started → i = v
  end.

Definition cinv (x : cpc id * S) : Prop := r_inv x.2 ∧ phases_at x.1 (r_phase x.2).

Lemma phases_at_ext p ph ph' : (∀ i, ph' i = ph i) → phases_at p ph → phases_at p ph'.
Proof.
  intros He. destruct p; cbn; setoid_rewrite He; done.
Qed.

(** A stop takes a service out of those that run. *)
Lemma stopped_rest (Q : id → Prop) v ph ph' :
  phase_set ph ph' v Stopped → (∀ i, ph i = Started → i = v ∨ Q i) → ∀ i, ph' i = Started → Q i.
Proof.
  intros [Hv Ho] Hq i Hi. assert (i ≠ v) as Hne by congruence. rewrite Ho in Hi by done.
  destruct (Hq i Hi); [done|done].
Qed.

(** The services that run are those whose start was called. *)
Lemma running_in (l : list id) ph i : (∀ j, j ∉ l → ph j = Fresh) → ph i = Started → i ∈ l.
Proof. intros Hfr Hs. destruct (decide (i ∈ l)) as [|Hn]; [done|]. rewrite Hfr in Hs; done. Qed.

Context `{!RunningLaws id S} (Hwork : work_ok) (Hcover : stops_what_it_starts) (Hnodup : NoDup (toStart P)).

Lemma cstep_inv x y : cinv x → cstep x y → cinv y.
Proof.
  intros [Hi Hp] Hs. destruct Hs as [v todo started s s' Hc|v todo started s e s' Hc|started s|s s' Hc|s|v todo s s' Hc
    |todo s|s|v w todo s s' Hc|v s|p s s' Hc]; cbn in Hi, Hp.
  1, 2: destruct Hp as (Hl & Hst & Hfr);
    assert (Hv : v ∉ started) by (intros Hin; rewrite Hl in Hnodup; apply NoDup_app in Hnodup as (_ & Hd & _); apply (Hd v Hin); constructor);
    destruct (r_start_inv v s _ s' Hi (Hfr v Hv) Hc) as [Hi' [Hph Hoth]].
  - split; [done|]. cbn. split; [by rewrite <- app_assoc|]. split.
    + intros i [Hin|Hin]%elem_of_app; [|apply list_elem_of_singleton in Hin as ->; done].
      rewrite Hoth; [by apply Hst|]. by intros ->.
    + intros i Hin. apply not_elem_of_app in Hin as [H1 H2]. rewrite Hoth; [by apply Hfr|]. intros ->. apply H2. constructor.
  - split; [done|]. cbn. intros i Hs. destruct (decide (i = v)) as [->|Hne]; [by left|right].
    rewrite Hoth in Hs by done. apply elem_of_reverse. by eapply running_in.
  - split; [done|]. destruct Hp as (Hl & Hst & Hfr). rewrite app_nil_r in Hl. cbn. rewrite Hl. done.
  - destruct Hp as [Hst Hfr]. destruct (Hwork _ _ Hi Hst Hc) as [Hi' Hph]. split; [done|].
    apply (phases_at_ext Working _ _ Hph). done.
  - split; [done|]. destruct Hp as [Hst Hfr]. cbn. intros i Hs. apply Hcover. by eapply running_in.
  - destruct (r_stop_inv v s s' Hi Hc) as [Hi' Hph]. split; [done|]. cbn. eapply stopped_rest; [done|].
    intros i Hs. apply Hp, elem_of_cons in Hs as [[= ->]|Hs]; auto.
  - split; [done|]. cbn. intros i Hs. by apply Hp, elem_of_cons in Hs as [?|Hs].
  - split; [done|]. cbn. intros i Hs. apply Hp in Hs. by apply elem_of_nil in Hs.
  - destruct (r_stop_inv w s s' Hi Hc) as [Hi' Hph]. split; [done|]. cbn. eapply stopped_rest; [done|].
    intros i Hs. destruct (Hp i Hs) as [->|Hin]; [by right; left|]. apply elem_of_cons in Hin as [->|Hin]; auto.
  - split; [done|]. cbn. intros i Hs. destruct (Hp i Hs) as [->|Hin]; [done|]. by apply elem_of_nil in Hin.
  - destruct (r_step_inv s s' Hi Hc) as [Hi' Hph]. split; [done|]. by eapply phases_at_ext.
Qed.
(** Nothing was called yet. *)
Definition fresh (s : S) : Prop := r_inv s ∧ ∀ i, r_phase s i = Fresh.

Lemma run_inv s x : fresh s → star cstep (started_run s) x → cinv x.
Proof.
  intros [Hi Hf]. apply (star_invariant _ cinv cstep_inv). split; [done|]. cbn. split; [done|].
  split; [|by intros i _]. intros i Hin. by apply elem_of_nil in Hin.
Qed.

Lemma star_step_inv s s' : r_inv s → star r_step s s' → r_inv s' ∧ ∀ i, r_phase s' i = r_phase s i.
Proof.
  intros Hi Hs. revert Hi. induction Hs as [s|s1 s2 s3 Hs _ IH]; intros Hi; [done|].
  destruct (r_step_inv s1 s2 Hi Hs) as [Hi2 Hp2]. destruct (IH Hi2) as [Hi3 Hp3]. split; [done|].
  intros i. by rewrite Hp3.
Qed.

(** A program that starts some services and stops them again at its
    end: however the controller, the goroutines of all the services, their
    clients and the network interleave, once [Run] has finished the services
    can all come to their end, and whenever they have none of them holds
    anything. *)
Theorem finished_releases s s1 :
  fresh s → star cstep (started_run s) (Finished, s1) →
  (∃ s2, star r_step s1 s2 ∧ r_ended s2) ∧
  (∀ s2 i, star r_step s1 s2 → r_ended s2 → r_idle i s2).
Proof.
  intros Hf Hs. destruct (run_inv s _ Hf Hs) as [Hi Hp]. cbn in Hi, Hp. split; [by apply r_can_end|].
  intros s2 i Hs2 He. destruct (star_step_inv s1 s2 Hi Hs2) as [Hi2 Hp2]. apply r_end_idle; [done| |done]. by rewrite Hp2.
Qed.

(** [C25] When a service fails to start, the ones started before it are
    stopped, and in the same way hold nothing once they have come to their
    end; only what the failed start left can remain. *)
Theorem failed_releases s s1 v s2 i :
  fresh s → star cstep (started_run s) (Failed v, s1) → star r_step s1 s2 → r_ended s2 → i ≠ v → r_idle i s2.
Proof.
  intros Hf Hs Hs2 He Hne. destruct (run_inv s _ Hf Hs) as [Hi Hp]. cbn in Hi, Hp.
  destruct (star_step_inv s1 s2 Hi Hs2) as [Hi2 Hp2]. apply r_end_idle; [done| |done]. rewrite Hp2. auto.
Qed.
End controller.

(** ** The controller of App.v is one of the interleavings

    [erase] forgets the phases: the calls of App.v are those of the running
    services. *)

Class Erases {id S T : Type} `{Running id S, Lifecycle id T} (erase : S → T) : Prop := {
  erase_start i s : ∃ s', r_start i s (svc_start i (erase s)).1 s' ∧ erase s' = (svc_start i (erase s)).2;
  erase_stop i s : ∃ s', r_stop i s s' ∧ erase s' = (svc_stop i (erase s)).2
}.

#[export] Instance component_erases `{Component C} : Erases (id := unit) (λ s : phase * C, s.2).
Proof.
  split; intros [] [ph c]; cbn.
  - exists (Started, (c_start c).2). split; [|done]. split; [cbn; by destruct (c_start c)|done].
  - by exists (Stopped, (c_stop c).2).
Qed.

#[export] Instance prod_erases `{Running idA A, Lifecycle idA TA, Running idB B, Lifecycle idB TB}
  (eA : A → TA) (eB : B → TB) `{!Erases eA, !Erases eB} : Erases (λ s : A * B, (eA s.1, eB s.2)).
Proof.
  split; intros [i|i] [a b]; cbn.
  - destruct (erase_start i a) as (a' & Hs & He). exists (a', b). cbn. rewrite He.
    destruct (svc_start i (eA a)) as [e ta]. by split.
  - destruct (erase_start i b) as (b' & Hs & He). exists (a, b'). cbn. rewrite He.
    destruct (svc_start i (eB b)) as [e tb]. by split.
  - destruct (erase_stop i a) as (a' & Hs & He). exists (a', b). cbn. rewrite He.
    destruct (svc_stop i (eA a)) as [e ta]. by split.
  - destruct (erase_stop i b) as (b' & Hs & He). exists (a, b'). cbn. rewrite He.
    destruct (svc_stop i (eB b)) as [e tb]. by split.
Qed.

Section included.
Context {id S T : Type} `{EqDecision id, Running id S, Lifecycle id T} (erase : S → T) `{!Erases erase}.
Context (P : program id S) (app : App.Application id T).

(** An application without hooks that starts, stops and does the same. *)
Record matches : Prop := {
  m_start : App.toStart app = toStart P;
  m_stop : App.toStop app = toStop P;
  m_load : App.cmLoad app = None;
  m_before : App.onBeforeInit app = None;
  m_after : App.onAfterInit app = None;
  m_cancel t : App.onCancel app t = t;
  m_work f s t : App.timerFunc app = Some f → f (erase s) = (None, t) → ∃ s', work P s s' ∧ erase s' = t
}.

Lemma included_start todo started s t :
  App.initServices_loop todo started (erase s) = (t, App.Completed) →
  ∃ s' l, star (cstep P) (Starting todo started, s) (Starting [] l, s') ∧ erase s' = t.
Proof.
  revert started s. induction todo as [|v todo IH]; intros started s Hr; cbn in Hr.
  { injection Hr as <-. exists s, started. split; [apply star_refl|done]. }
  destruct (erase_start v s) as (s1 & Hs & He). destruct (svc_start v (erase s)) as [[e|] t1]; [done|]. cbn in *. subst t1.
  destruct (IH _ s1 Hr) as (s2 & l & Hst & Hl). exists s2, l. split; [|done]. eapply star_step; [by apply ctl_start|done].
Qed.

Lemma included_stop todo s :
  ∃ s', star (cstep P) (Stopping todo, s) (Stopping [], s') ∧ erase s' = App.deInitServices todo (erase s).
Proof.
  revert s. induction todo as [|[v|] todo IH]; intros s; cbn [App.deInitServices].
  - exists s. split; [apply star_refl|done].
  - destruct (erase_stop v s) as (s1 & Hs & He). destruct (IH s1) as (s2 & Hst & Hl). rewrite He in Hl.
    exists s2. split; [|done]. eapply star_step; [by apply ctl_stop|done].
  - destruct (IH s) as (s2 & Hst & Hl). exists s2. split; [|done]. eapply star_step; [apply ctl_skip|done].
Qed.

Lemma included_work f wakes s t :
  (∀ f', f = Some f' → App.timerFunc app = Some f') → matches →
  App.doProcess f wakes (erase s) = (t, App.Completed) → ∃ s', star (cstep P) (Working, s) (Working, s') ∧ erase s' = t.
Proof.
  intros Hf Hm. revert s. induction wakes as [|[|] wakes IH]; intros s Hr; cbn in Hr; [done| |].
  - destruct f as [f|]; [|by apply IH]. destruct (f (erase s)) as [[e|] t1] eqn:E; [done|].
    destruct (m_work Hm f s t1 (Hf f eq_refl) E) as (s1 & Hw & <-). destruct (IH s1 Hr) as (s2 & Hst & Hl).
    exists s2. split; [|done]. eapply star_step; [by apply ctl_tick|done].
  - injection Hr as <-. exists s. split; [apply star_refl|done].
Qed.

End included.
