(* ===== verification/Services.v ===== *)
(** * The services of the library under the controller

    The mail sender, SQL Server, Oracle, PostgreSQL, the TrueConf client, the
    telemetry service, the SMS centre, bbolt and websspi implement the
    interface of Lifecycle.v; the theorems of the controller then hold for an
    application made of them. *)

From S2P Require Import Prelude GoBytes Lifecycle App MailSender DbSql Postgres TcWire TcClient Otello SmscSession Smsc Bbolt Websspi.

Module Services.

Definition mail_svc : Type := MailSender.mailSenderState * MailSender.world.
Definition mssql_svc : Type := option nat * handles.
Definition oracle_svc : Type := Oracle.OracleSQL * handles.
Definition pg_svc : Type := Postgres.PostgreSQL * Postgres.world.
Definition tc_svc : Type := TcClient.TcClient.
Definition otel_svc : Type := Otello.Otello * Otello.world.
Definition smsc_svc : Type := SmscSession.world.
Definition bolt_svc : Type := Bbolt.BBolt (B := Bbolt.map_bucket).
Definition sspi_svc : Type := Websspi.SSPI * Websspi.world.

(** What the libraries answer, as functions of the state they are called in,
    and the configurations of the services. *)
Record libraries := MkLibraries {
  splitHostPort : string → option (string * string);
  mailConfig : MailSender.ConfigMailSender;
  mailClose : mail_svc → option MailSender.error;
  mailMsg : MailSender.error → string;
  sqlParams : PoolParams;
  sqlOpen : mssql_svc → option MsSQL.error;
  sqlPing : mssql_svc → Z → option MsSQL.error;
  sqlClose : mssql_svc → option MsSQL.error;
  sqlMsg : MsSQL.error → string;
  oraParams : PoolParams;
  InitWithoutPing : bool;
  oraOpen : oracle_svc → option string;
  oraPing : oracle_svc → option string;
  oraClose : oracle_svc → option string;
  pgConfig : Postgres.ConfigPostgreSQL;
  notifyName : string;
  pgEnv : pg_svc → Postgres.start_env;
  tcAuth : tc_svc → list TcClient.http_answer;
  tcNow : tc_svc → Time;
  tcEnv : tc_svc → TcClient.connect_env;
  tcClose : tc_svc → option string;
  otelConfig : Otello.ConfigOtello;
  otelEnv : otel_svc → Otello.start_env;
  otelDown : otel_svc → Otello.stop_env;
  smscDryRun : bool;
  smscOpen : smsc_svc → option string;
  smscClose : smsc_svc → option string;
  boltOpen : bolt_svc → result (gmap bytes Bbolt.map_bucket);
  boltClose : bolt_svc → option string;
  sspiNew : sspi_svc → option string;
  sspiFree : sspi_svc → option string
}.

Section services.
Context (L : libraries).

(** ** Instances *)

#[local] Instance mail_component : Component mail_svc := {
  c_start s := let '(e, st) := MailSender.Start (splitHostPort L) (mailConfig L) s.1 in (mailMsg L <$> e, (st, s.2));
  c_stop s := let '(e, st, w) := MailSender.Stop s.1 s.2 (mailClose L s) in (mailMsg L <$> e, (st, w));
  c_ok s := MailSender.owned s.1 s.2;
  c_idle s := MailSender.open s.2 = ∅
}.

#[local] Instance mail_laws : ComponentLaws mail_svc.
Proof.
  split; intros [st w]; cbn.
  - intros Hw _. unfold MailSender.Start. destruct (_ =? _)%string; [done|].
    by destruct MailSender.hostAndPort as [[h p]|e].
  - intros Hw. pose proof (MailSender.owned_close st w Hw) as Hc. unfold MailSender.closeLocked, MailSender.Stop in *.
    by destruct (MailSender.client st); [destruct Hc|].
  - intros Hw. pose proof (MailSender.owned_close st w Hw) as Hc. unfold MailSender.closeLocked, MailSender.Stop in *.
    destruct Hw as [Ho _]. destruct (MailSender.client st) as [c|] eqn:E; [|exact Ho].
    destruct Hc as [[Hc _] Hn]. by rewrite Hn in Hc.
Qed.

#[local] Instance mail_clean : CleanComponent mail_svc.
Proof.
  intros [st w] e _ Hw. cbn in *. by destruct (MailSender.Start (splitHostPort L) (mailConfig L) st).
Qed.

#[local] Instance mssql_component : Component mssql_svc := {
  c_start s := let '(e, db, h) := MsSQL.Start (sqlParams L) s.1 s.2 (sqlOpen L s) (sqlPing L s) in (sqlMsg L <$> e, (db, h));
  c_stop s := let '(e, db, h) := MsSQL.Stop s.1 s.2 (sqlClose L s) in (sqlMsg L <$> e, (db, h));
  c_ok s := fresh_handles s.2 s.1;
  c_idle s := open s.2 = ∅
}.

Lemma MsSQL_Start_spec s :
  fresh_handles s.2 s.1 → open s.2 = ∅ →
  let '(e, db, h) := MsSQL.Start (sqlParams L) s.1 s.2 (sqlOpen L s) (sqlPing L s) in
  fresh_handles h db ∧ (e ≠ None → open h = ∅).
Proof.
  intros Hf Hi. assert (Hn : s.1 = None). { destruct Hf as [Ho _]. destruct s.1; [set_solver|done]. }
  rewrite Hn in *. unfold MsSQL.Start. destruct (sqlOpen L s) as [e|]; [done|].
  pose proof (fresh_open (sqlParams L) _ Hf) as Hf'. destruct (open_handle (sqlParams L) s.2) as [d h] eqn:E.
  injection E as <- <-. cbn in Hf'. destruct (MsSQL.pingWithRetry _).1.1 as [e|]; [|done].
  apply fresh_close in Hf'. split; [done|]. intros _. apply Hf'.
Qed.

#[local] Instance mssql_laws : ComponentLaws mssql_svc.
Proof.
  split; intros s Hf; cbn.
  - intros Hi. pose proof (MsSQL_Start_spec s Hf Hi) as H.
    destruct (MsSQL.Start _ _ _ _ _) as [[e db] h]. apply H.
  - cbn in Hf. destruct s as [[d|] h]; [by apply fresh_close|done].
  - cbn in Hf. destruct s as [[d|] h]; [by apply fresh_close in Hf as [? _]|apply Hf].
Qed.

#[local] Instance mssql_clean : CleanComponent mssql_svc.
Proof.
  intros s e Hf Hi He. pose proof (MsSQL_Start_spec s Hf Hi) as H. cbn in *.
  destruct (MsSQL.Start _ _ _ _ _) as [[e' db] h]. destruct H as [_ H]. apply H. by destruct e'.
Qed.

#[local] Instance oracle_component : Component oracle_svc := {
  c_start s := let '(e, o, h) := Oracle.Start (oraParams L) (InitWithoutPing L) s.1 s.2 (oraOpen L s) (oraPing L s) in (e, (o, h));
  c_stop s := let '(e, o, h) := Oracle.Stop s.1 s.2 (oraClose L s) in (e, (o, h));
  c_ok s := fresh_handles s.2 (Oracle.connection s.1);
  c_idle s := open s.2 = ∅
}.

#[local] Instance oracle_laws : ComponentLaws oracle_svc.
Proof.
  assert (Hn : ∀ s : oracle_svc, fresh_handles s.2 (Oracle.connection s.1) → open s.2 = ∅ → Oracle.connection s.1 = None).
  { intros s [Ho _] Hi. destruct (Oracle.connection s.1); [set_solver|done]. }
  split; intros s Hf; cbn in *.
  - intros Hi. pose proof (Oracle.oracle_call_owned (oraParams L) (InitWithoutPing L) s
      (Oracle.CStart (oraOpen L s) (oraPing L s)) Hf (Hn s Hf Hi)) as H. cbn in H.
    by destruct (Oracle.Start _ _ _ _ _ _) as [[e o] h].
  - pose proof (Oracle.oracle_call_owned (oraParams L) (InitWithoutPing L) s (Oracle.CStop (oraClose L s)) Hf I) as H. cbn in H.
    by destruct (Oracle.Stop _ _ _) as [[e o] h].
  - unfold Oracle.Stop, Oracle.doStop. destruct (Oracle.connection s.1) as [d|] eqn:E; [|apply Hf].
    by apply fresh_close in Hf as [? _].
Qed.

#[local] Instance pg_component : Component pg_svc := {
  c_start s := let '(e, p, w) := Postgres.Start (pgConfig L) (notifyName L) s.1 s.2 (pgEnv L s) in (e, (p, w));
  c_stop s := (None, Postgres.Stop (notifyName L) s.1 s.2);
  c_ok s := Postgres.owned (notifyName L) s.1 s.2;
  c_idle s := Postgres.open s.2 = ∅ ∧ Postgres.held s.2 = ∅
}.

#[local] Instance pg_laws : ComponentLaws pg_svc.
Proof.
  split; intros s Hf; cbn in *.
  - intros [Hi _]. assert (Hn : Postgres.dbpool s.1 = None).
    { pose proof (Postgres.o_open _ _ _ Hf). destruct (Postgres.dbpool s.1); [set_solver|done]. }
    unfold Postgres.Start. destruct (Postgres.restarting s.1); [done|].
    pose proof (Postgres.doStart_owned (pgConfig L) (notifyName L) _ _ (pgEnv L s) Hf Hn) as H.
    destruct (Postgres.doStart _ _ _ _ _) as [[e p] w]. apply H.
  - pose proof (Postgres.doStop_owned (notifyName L) _ _ Hf) as H. unfold Postgres.Stop.
    destruct (Postgres.doStop _ _ _). apply H.
  - pose proof (Postgres.doStop_owned (notifyName L) _ _ Hf) as H. unfold Postgres.Stop.
    destruct (Postgres.doStop _ _ _). destruct H as (_ & (H1 & H2 & _) & _). done.
Qed.

#[local] Instance tc_component : Component tc_svc := {
  c_start t := TcClient.Start t (tcAuth L t) (tcNow L t) (tcEnv L t);
  c_stop t := (tcClose L t, TcClient.Stop t);
  c_ok := TcClient.owned;
  c_idle t := TcClient.open t = ∅
}.

#[local] Instance tc_laws : ComponentLaws tc_svc.
Proof.
  split; intros t Hf; cbn in *.
  - intros _. by apply TcClient.Start_owned.
  - by apply TcClient.Stop_owned.
  - by apply TcClient.Stop_owned.
Qed.

#[local] Instance tc_clean : CleanComponent tc_svc.
Proof.
  intros t e Hf Hi He. cbn in *.
  assert (Hn : TcClient.wsconn t = None).
  { destruct Hf as [Ho _]. destruct (TcClient.wsconn t); [set_solver|done]. }
  unfold TcClient.Start in *. destruct (TcClient.started t); [done|].
  destruct (TcClient.getAuthorizationToken (tcAuth L t)).1.1 as [a|e']; [|exact Hi].
  set (t1 := TcClient.set_token _ _ _ _) in *.
  assert (H1 : TcClient.owned t1). { destruct Hf as (Ho & Hx & _). split; [exact Ho|]. split; [exact Hx|done]. }
  pose proof (TcClient.wsConnect_spec t1 (TcWire.AccessToken a) (tcEnv L t) H1) as (_ & _ & Hfail & _).
  destruct (TcClient.wsConnect t1 _ _) as [err t2]. cbn in *. subst err. cbn. by apply Hfail.
Qed.

#[local] Arguments Otello.Start : simpl never.
#[local] Arguments Otello.Stop : simpl never.

#[local] Instance otel_component : Component otel_svc := {
  c_start s := let '(e, o, w) := Otello.Start (otelConfig L) s.1 s.2 (otelEnv L s) in (e, (o, w));
  c_stop s := let '(e, o, w) := Otello.Stop (otelConfig L) s.1 s.2 (otelDown L s) in (head e, (o, w));
  c_ok s := Otello.owned (otelConfig L) s.1 s.2;
  c_idle s := Otello.conns s.2 = ∅ ∧ Otello.running s.2 = ∅
}.

#[local] Instance otel_laws : ComponentLaws otel_svc.
Proof.
  split; intros s Hf; cbn in *.
  - intros [_ Hi]. pose proof (Otello.otel_Start_owned (otelConfig L) _ _ (otelEnv L s) Hf Hi) as H.
    by destruct (Otello.Start _ _ _ _) as [[e o] w].
  - pose proof (Otello.otel_Stop_owned (otelConfig L) _ _ (otelDown L s) Hf) as H.
    destruct (Otello.Stop _ _ _ _) as [[e o] w]. apply H.
  - pose proof (Otello.otel_Stop_owned (otelConfig L) _ _ (otelDown L s) Hf) as H.
    destruct (Otello.Stop _ _ _ _) as [[e o] w]. apply H.
Qed.

#[local] Instance smsc_component : Component smsc_svc := {
  c_start w := SmscSession.start (smscDryRun L) w (smscOpen L w);
  c_stop w := SmscSession.stop (smscDryRun L) w (smscClose L w);
  c_ok w := SmscSession.owned w ∧ SmscSession.dry (smscDryRun L) w;
  c_idle w := SmscSession.open w = ∅
}.

#[local] Instance smsc_laws : ComponentLaws smsc_svc.
Proof.
  split; intros w [Ho Hd]; cbn.
  - intros Hi. apply (SmscSession.step_owned (smscDryRun L) w 0 (SmscSession.LStart (smscOpen L w)) _ 0); [|done].
    by constructor.
  - apply (SmscSession.step_owned (smscDryRun L) w 0 (SmscSession.LStop (smscClose L w)) _ 0); [|done].
    by constructor.
  - destruct (SmscSession.smsc_stop_owned (smscDryRun L) w (smscClose L w) Ho) as [_ H].
    destruct (smscDryRun L) eqn:E; [|by apply H]. unfold SmscSession.stop. cbn. by apply Hd.
Qed.

#[local] Instance smsc_clean : CleanComponent smsc_svc.
Proof.
  intros w e [Ho _] Hi He. apply (SmscSession.smsc_start_owned (smscDryRun L) w (smscOpen L w) Ho Hi).
  intros Hn. pose proof (eq_trans (eq_sym Hn) He). done.
Qed.

#[local] Instance bolt_component : Component bolt_svc := {
  c_start b := Bbolt.Start b (boltOpen L b);
  c_stop b := Bbolt.Stop b (boltClose L b);
  c_ok _ := True;
  c_idle b := Bbolt.handle b = None
}.

#[local] Instance bolt_laws : ComponentLaws bolt_svc.
Proof. split; [done..|]. intros b _. cbn. unfold Bbolt.Stop. by destruct (Bbolt.handle b) eqn:E. Qed.

#[local] Instance bolt_clean : CleanComponent bolt_svc.
Proof.
  intros b e _ Hi He. cbn in *. unfold Bbolt.Start in *. rewrite Hi in *. by destruct (boltOpen L b).
Qed.

#[local] Instance sspi_component : Component sspi_svc := {
  c_start s := let '(e, ss, w) := Websspi.Start s.1 s.2 (sspiNew L s) in (e, (ss, w));
  c_stop s := let '(e, w) := Websspi.Stop s.1 s.2 (sspiFree L s) in (e, (s.1, w));
  c_ok s := Websspi.owned s.1 s.2;
  c_idle s := Websspi.held s.2 = ∅
}.

#[local] Instance sspi_laws : ComponentLaws sspi_svc.
Proof.
  split; intros s Hf; cbn in *.
  - intros Hi. pose proof (Websspi.sspi_Start_owned s.1 s.2 (sspiNew L s) Hi) as H.
    destruct (Websspi.Start _ _ _) as [[e ss] w]. apply H.
  - pose proof (Websspi.sspi_Stop_owned s.1 s.2 (sspiFree L s) Hf) as H.
    destruct (Websspi.Stop _ _ _) as [e w]. apply H.
  - pose proof (Websspi.sspi_Stop_owned s.1 s.2 (sspiFree L s) Hf) as H.
    destruct (Websspi.Stop _ _ _) as [e w]. apply H.
Qed.

#[local] Instance sspi_clean : CleanComponent sspi_svc.
Proof.
  intros s e _ Hi He. cbn in *. pose proof (Websspi.sspi_Start_owned s.1 s.2 (sspiNew L s) Hi) as H.
  destruct (Websspi.Start _ _ _) as [[e' ss] w]. destruct H as [_ H]. cbn in *. apply H. by rewrite He.
Qed.

(** ** The system *)

Definition system : Type :=
  mail_svc * (mssql_svc * (oracle_svc * (pg_svc * (tc_svc * (otel_svc * (smsc_svc * (bolt_svc * sspi_svc))))))).
Definition service_id : Type :=
  unit + (unit + (unit + (unit + (unit + (unit + (unit + (unit + unit))))))).

Definition Mail : service_id := inl tt.
Definition Mssql : service_id := inr (inl tt).
Definition Ora : service_id := inr (inr (inl tt)).
Definition Pg : service_id := inr (inr (inr (inl tt))).
Definition Tc : service_id := inr (inr (inr (inr (inl tt)))).
Definition Otel : service_id := inr (inr (inr (inr (inr (inl tt))))).
Definition Sms : service_id := inr (inr (inr (inr (inr (inr (inl tt)))))).
Definition Bolt : service_id := inr (inr (inr (inr (inr (inr (inr (inl tt))))))).
Definition Sspi : service_id := inr (inr (inr (inr (inr (inr (inr (inr tt))))))).

(** Everything the libraries have open on behalf of the services. *)
Definition nothing_open (s : system) : Prop :=
  let '(m, (q, (o, (p, (t, (y, (c, (b, a)))))))) := s in
  MailSender.open m.2 = ∅ ∧ open q.2 = ∅ ∧ open o.2 = ∅ ∧
  (Postgres.open p.2 = ∅ ∧ Postgres.held p.2 = ∅) ∧ TcClient.open t = ∅ ∧
  (Otello.conns y.2 = ∅ ∧ Otello.running y.2 = ∅) ∧
  SmscSession.open c = ∅ ∧ Bbolt.handle b = None ∧ Websspi.held a.2 = ∅.

#[local] Instance sys_lifecycle : Lifecycle service_id system := _.

Definition sys_ok : system → Prop :=
  ok2 c_ok (ok2 c_ok (ok2 c_ok (ok2 c_ok (ok2 c_ok (ok2 c_ok (ok2 c_ok (ok2 c_ok c_ok))))))).
Definition sys_held : system → gset service_id :=
  held2 held1 (held2 held1 (held2 held1 (held2 held1 (held2 held1 (held2 held1 (held2 held1 (held2 held1 held1))))))).

#[local] Instance sys_releases : Releases service_id system sys_ok sys_held := _.

Lemma sys_held_empty s : sys_held s = ∅ ↔ nothing_open s.
Proof.
  destruct s as (m & q & o & p & t & y & c & b & a). unfold sys_held.
  etrans; [apply held2_empty|]. rewrite !held2_empty. cbn [fst snd]. by rewrite !held1_empty.
Qed.

(** An application whose processing function sends mail: it starts services
    of the system, stops the same ones, and sends one message per tick. *)
Definition mailing_app (start : list service_id) (send : mail_svc → MailSender.answers) (period : Duration) :
    App.Application service_id system :=
  App.MkApplication None None None start (Some <$> start)
    (Some (Some (λ s, let '(_, st, w) := MailSender.SendMessage (splitHostPort L) (mailConfig L) s.1.1 s.1.2 (send s.1) in
                      (None, ((st, w), s.2))), period)) None (λ s, s).


(** When a service of the system fails to start, the controller leaves
    nothing open but what the failed start itself left: nothing for the mail
    sender, SQL Server, the TrueConf client, the SMS centre, bbolt and
    websspi. *)
Theorem system_rollback start s :
  NoDup start → sys_ok s → nothing_open s →
  let '(s', r) := App.initServices start s in
  ∀ e, r = App.Panicked e →
    ∃ i, i ∈ start ∧ sys_held s' ⊆ {[i]} ∧ (i ∈ [Mail; Mssql; Tc; Sms; Bolt; Sspi] → nothing_open s').
Proof.
  intros Hnd Hok Hs. apply sys_held_empty in Hs.
  pose proof (App.rollback_releases start s Hok Hs Hnd) as H.
  destruct (App.initServices start s) as [s' r]. intros e He. destruct (H e He) as (i & Hi & Hh & Hc).
  exists i. split; [done|]. split; [done|]. intros Hin. apply sys_held_empty, Hc.
  rewrite !elem_of_cons in Hin. destruct Hin as [->|[->|[->|[->|[->|[->|Hin]]]]]]; [apply _..|set_solver].
Qed.
End services.

(** ** Concrete runs *)

(** Libraries that answer well, but for an Oracle server that is down. *)
Definition libraries0 : libraries := {|
  splitHostPort _ := Some ("mx", "25")%string;
  mailConfig := MailSender.MkConfig "mx:25" "u" "p" false "30s" false;
  mailClose _ := None;
  mailMsg _ := "mail"%string;
  sqlParams := params0;
  sqlOpen _ := None;
  sqlPing _ _ := None;
  sqlClose _ := None;
  sqlMsg _ := "mssql"%string;
  oraParams := params0;
  InitWithoutPing := false;
  oraOpen _ := None;
  oraPing _ := Some "ORA-12541"%string;
  oraClose _ := None;
  pgConfig := Postgres.cfg0;
  notifyName := "events"%string;
  pgEnv _ := Postgres.up;
  tcAuth _ := [TcClient.good_token];
  tcNow _ := 1000 * Second;
  tcEnv _ := TcClient.good_env;
  tcClose _ := None;
  otelConfig := Otello.config0;
  otelEnv _ := Otello.up;
  otelDown _ := Otello.down;
  smscDryRun := false;
  smscOpen _ := None;
  smscClose _ := None;
  boltOpen _ := Ok ∅;
  boltClose _ := None;
  sspiNew _ := None;
  sspiFree _ := None
|}.

Definition system0 : system :=
  ((MailSender.emptyState, MailSender.MkWorld 0 ∅ []),
   ((None, handles0), ((Oracle.MkOracle None false, handles0),
    ((Postgres.NewPostgreSQL, Postgres.world0), (TcClient.NewTcClient, ((Otello.NewOtello, Otello.world0),
    (SmscSession.idle0, (Bbolt.MkBBolt None, (Websspi.NewSSPI, Websspi.MkWorld ∅ 0))))))))).

Lemma system0_ok : sys_ok libraries0 system0.
Proof.
  split; [by split|]. split; [by split|]. split; [by split|]. split; [apply Postgres.owned0|].
  split; [done|]. split; [apply Otello.otel_owned0|]. split; [by split; [split|]|]. by split.
Qed.

Lemma system0_idle : nothing_open system0.
Proof. done. Qed.

Definition app0 : App.Application service_id system :=
  mailing_app libraries0 [Mail; Mssql; Pg; Tc; Otel; Sms; Bolt; Sspi] (λ _, MailSender.MkAnswers None None None None None) Second.


(** Oracle does not start: the mail sender and SQL Server are stopped, and
    the handle of the failed start stays open. *)
Lemma system_rollback_witness :
  let '(s, r) := App.initServices (H := sys_lifecycle libraries0) [Mail; Mssql; Ora; Tc] system0 in
  r = App.Panicked "ORA-12541" ∧ sys_held libraries0 s = {[Ora]} ∧ ∃ i, sys_held libraries0 s ⊆ {[i]}.
Proof.
  assert (Hnd : NoDup [Mail; Mssql; Ora; Tc]) by (apply (bool_decide_unpack _); vm_compute; exact I).
  pose proof (system_rollback libraries0 _ system0 Hnd system0_ok system0_idle) as H.
  assert (Hr : (App.initServices (H := sys_lifecycle libraries0) [Mail; Mssql; Ora; Tc] system0).2 =
    App.Panicked "ORA-12541") by (vm_compute; reflexivity).
  assert (Hh : sys_held libraries0 (App.initServices (H := sys_lifecycle libraries0) [Mail; Mssql; Ora; Tc] system0).1 =
    {[Ora]}) by (vm_compute; reflexivity).
  destruct (App.initServices _ _) as [s r]. cbn in Hr, Hh. destruct (H _ Hr) as (i & _ & Hi & _).
  split_and!; [done|done|by exists i].
Defined.
End Services.
