(* ===== verification/ConcurrentSystem.v ===== *)
(** * A program of running services

    RabbitMQ and the web server, with their goroutines, are processes in the
    sense of Concurrent.v, and so are the mail sender, SQL Server, Oracle and
    the telemetry service, whose methods run under one mutex; the theorems of
    Concurrent.v then hold for a program made of them.  PostgreSQL and the
    TrueConf client are left out because they do not keep the promise of a
    process: a restart of the one that sleeps while it is stopped opens a pool
    afterwards ([stop_undone] of Postgres.v), and a pump of the other can
    crash ([reader_crashes] of TcPumps.v). *)

From S2P Require Import Prelude GinWeb RabbitMQ MailSender DbSql Otello Lifecycle App Services Concurrent.

(** ** The web server *)

Module GinProcess.
Import GinWeb.

#[export] Instance gin_process : Process web := {
  p_start s e s' := e = None ∧ s' = Start s;
  p_stop s s' := s' = Stop s;
  p_step s s' := s' = Cancel s ∨ (∃ good, s' = serve_step good s) ∨ ∃ i, s' = shut_step i s;
  p_ended s := serve s = SNone ∨ ∃ log, serve s = SEnd log;
  p_idle s := open s = ∅;
  p_inv ph s := Inv s ∧ match ph with Fresh => srv s = false | Started => True | Stopped => srv s = true → shut s ≠ [] end
}.

Lemma step_exec s s' : p_step s s' → ∃ a, a ≠ AStart ∧ s' = exec s a.
Proof.
  intros [->|[[good ->]|[i ->]]]; [exists ACancel|exists (AServe good)|exists (AShut i)]; by split.
Qed.

(** Shutdowns are never forgotten, and only [Start] creates the server. *)
Lemma exec_shut s a : shut s ≠ [] → shut (exec s a) ≠ [].
Proof.
  intros Hn. destruct a; cbn.
  - unfold Start. by destruct (srv s).
  - unfold Stop. destruct (srv s); [|done]. cbn. by intros [? _]%app_eq_nil.
  - unfold Cancel. destruct (waiting s); [|done]. cbn. by intros [? _]%app_eq_nil.
  - unfold serve_step, at_pc. repeat case_match; done.
  - assert (∀ p, <[i:=p]> (shut s) ≠ []) as H by (intros p Hi; apply Hn, length_zero_iff_nil; by rewrite <- (length_insert _ i p), Hi).
    unfold shut_step. destruct (shut s !! i) as [[]|]; cbn; try done; try apply H. case_bool_decide; [apply H|done].
Qed.

Lemma exec_srv s a : a ≠ AStart → srv (exec s a) = srv s.
Proof.
  intros Hn. destruct a; cbn; [done| | | |].
  - unfold Stop. by destruct (srv s) eqn:E.
  - unfold Cancel. by destruct (waiting s).
  - unfold serve_step, at_pc. repeat case_match; done.
  - unfold shut_step. repeat case_match; done.
Qed.

(** A shutdown that has begun can close the listeners. *)
Lemma can_close s : Inv s → shut s ≠ [] → ∃ s', star p_step s s' ∧ Inv s' ∧ closing s'.
Proof.
  intros HI Hn. destruct (shut s) as [|p l] eqn:E; [done|].
  assert (Hstep : ∀ s, p_step s (shut_step 0 s)) by (intros s0; right; right; by exists 0%nat).
  assert (Hin : ∀ q s', shut s' = q :: l → past_close q = true → closing s') by (intros q s' Hs Hq; exists q; rewrite Hs; split; [constructor|done]).
  assert (Hclose : ∀ s, shut s = HClose :: l → shut (shut_step 0 s) = HGroup :: l) by (intros s0 Hs; unfold shut_step; by rewrite Hs).
  destruct p.
  - assert (shut (shut_step 0 s) = HClose :: l) as E1 by (unfold shut_step; by rewrite E).
    exists (shut_step 0 (shut_step 0 s)). split; [eapply star_step; [apply Hstep|apply star_one, Hstep]|].
    split; [by do 2 apply shut_step_Inv|]. by eapply Hin; [apply Hclose|].
  - exists (shut_step 0 s). split; [apply star_one, Hstep|]. split; [by apply shut_step_Inv|]. by eapply Hin; [apply Hclose|].
  - exists s. split; [apply star_refl|]. split; [done|by eapply Hin].
  - exists s. split; [apply star_refl|]. split; [done|by eapply Hin].
  - exists s. split; [apply star_refl|]. split; [done|by eapply Hin].
Qed.

#[export] Instance gin_laws : ProcessLaws web.
Proof.
  split.
  - intros s e s' [HI Hs] [-> ->]. split; [by apply web_Start_Inv|done].
  - intros ph s s' [HI _] ->. split; [by apply (exec_Inv AStop)|]. unfold Stop. destruct (srv s) eqn:E; [|by rewrite E].
    intros _. cbn. by intros [_ ?]%app_eq_nil.
  - intros ph s s' [HI Hph] (a & Ha & ->)%step_exec. split; [by apply exec_Inv|].
    destruct ph; [by rewrite exec_srv|done|]. rewrite exec_srv by done. intros Hs. by apply exec_shut, Hph.
  - intros ph s Hne [HI Hph]. destruct (srv s) eqn:Es; cycle 1.
    { exists s. split; [apply star_refl|]. left. destruct (decide (serve s = SNone)) as [|Hn]; [done|].
      apply (i_srv _ HI) in Hn. congruence. }
    destruct ph; [done|done|]. destruct (can_close s HI (Hph eq_refl)) as (s1 & Hs1 & HI1 & Hc1).
    exists (run [AServe true; AServe true; AServe true] s1). split.
    + eapply star_trans; [done|]. do 2 (eapply star_step; [right; left; by exists true|]). apply star_one. right; left. by exists true.
    + destruct (closing_run [AServe true; AServe true; AServe true] s1 HI1 Hc1) as (_ & Hl & _).
      assert (left_ (serve s1) ≤ 3)%nat by (destruct (serve s1); cbn; lia).
      assert (serve_steps [AServe true; AServe true; AServe true] = 3%nat) as Hn by done. rewrite Hn in Hl.
      destruct (serve (run _ s1)) eqn:E; cbn in Hl; try lia; [by left|right; by eexists].
  - intros ph s Hne [HI _] He. pose proof (i_open _ HI) as Ho. cbn in *.
    destruct He as [E|[log E]]; rewrite E in Ho; set_solver.
Qed.
End GinProcess.

(** ** RabbitMQ *)

Module RabbitProcess.
Import RabbitMQ.

Section rabbit.
Context (r : params).

(** The context a goroutine waits on, and how far it is from its end. *)
Definition waits (p : pc) : option nat := match p with Wait _ g _ | Delay _ g => Some g | _ => None end.

Definition rank (p : pc) : nat :=
  match p with
  | Exit => 0
  | Loop _ | Wait _ _ _ | Delay _ _ => 1
  | Register _ => 2
  | After _ => 3
  | Dial _ | ChannelOpen _ _ | QueueDeclare _ _ | ConsumeCall _ _ | Connected _ => 4
  | DialClose _ | Channel _ | ConsumeRead _ | ConsumeStore _ _ => 5
  | Dialed _ _ | QueueStore _ _ _ => 6
  | QueueRead _ => 7
  | ConfirmCall _ _ | ConfirmStore _ => 8
  | ConfirmRead _ => 9
  | SetupReturns _ => 10
  | ChannelStore _ _ _ => 11
  end.

Definition stop_rank (p : spc) : nat :=
  match p with StopLock => 3 | StopChannel _ _ => 2 | StopConn _ => 1 | StopDone => 0 end.

(** A step of the goroutine leaves the contexts and [stopped] alone, and it
    waits on the present context only. *)
Lemma conn_step_keeps s p e s' p' :
  conn_step r s p e = Some (s', p') →
  ctx s' = ctx s ∧ cancelled s' = cancelled s ∧ stopped s' = stopped s ∧
  (∀ g, waits p' = Some g → g = ctx s ∨ waits p = Some g).
Proof.
  intros H. destruct p; cbn [conn_step] in H; try discriminate H;
    destruct e; cbn [dial_step channel_step enableConfirms_step queue_step initConsumer_step loop_step] in H; try discriminate H;
    unfold dial_store, channel_store, closeConnLocked in H; repeat case_match; try discriminate H; injection H as <- <-;
    (split_and!; [done..|]); intros g' Hg; cbn in Hg; try discriminate Hg; injection Hg as <-; by left.
Qed.

(** The step for one answer of the library. *)
Ltac down Hd e :=
  exists e; cbn; rewrite ?Hd; unfold dial_store, channel_store; repeat case_match; eexists _, _; (split; [reflexivity|cbn; lia]).

(** Once its context is cancelled every goroutine can go on towards its end. *)
Lemma conn_step_down s p :
  p ≠ Exit → ctx_done s (ctx s) = true → (∀ g, waits p = Some g → g = ctx s) →
  ∃ e s' p', conn_step r s p e = Some (s', p') ∧ (rank p' < rank p)%nat.
Proof.
  intros Hp Hd Hw. destruct p as [a|a|a|a c|a|a c|a c ch|a|a|a ch|a|a|a ch|a ch name|a|a ch|a ch|a|a|a|a g reg|a g|]; try done.
  all: try rewrite (Hw _ eq_refl).
  1, 21, 22: by down Hd ADone || by down Hd AOk.
  all: down Hd AErr || down Hd AOk.
Qed.

(** The labels that are not calls of the controller. *)
Definition own (l : label) : bool := match l with LStart _ | LStop => false | _ => true end.

Definition rabbit_start (x : sys) (e : option string) (x' : sys) : Prop :=
  e = (if negb (Disabled (config r)) && (Url (config r) =? "")%string then Some "empty url"%string else None) ∧
  ∃ g, g ∉ cancelled (state x) ∧ x' = Start r g x.

Definition rabbit_inv (ph : phase) (x : sys) : Prop :=
  Inv x ∧
  (∀ i p g, threads x !! i = Some p → waits p = Some g → g = ctx (state x)) ∧
  (Disabled (config r) = true → threads x = [] ∧ open_conns (state x) = ∅) ∧
  match ph with
  | Fresh => threads x = [] ∧ stops x = [] ∧ open_conns (state x) = ∅
  | Started => True
  | Stopped => ctx (state x) ∈ cancelled (state x) ∧
      (Disabled (config r) = true ∨ stopped (state x) = true ∨ StopLock ∈ stops x)
  end.

#[export] Instance rabbit_process : Process sys := {
  p_start := rabbit_start;
  p_stop x x' := x' = Stop_begin r x;
  p_step x x' := ∃ l, own l = true ∧ sys_step r l x = Some x';
  p_ended x := Forall (λ p, p = Exit) (threads x) ∧ Forall (λ p, p = StopDone) (stops x);
  p_idle x := open_conns (state x) = ∅;
  p_inv := rabbit_inv
}.

Lemma own_Inv l x x' : Inv x → own l = true → sys_step r l x = Some x' → Inv x'.
Proof. intros HI Hl Hs. apply (step_solo_Inv r x); [done|]. exists l. split; [|done]. by intros g ->. Qed.

(** The three kinds of own steps. *)
Lemma own_cases l x x' : own l = true → sys_step r l x = Some x' →
  (∃ i e p s p', threads x !! i = Some p ∧ conn_step r (state x) p e = Some (s, p') ∧
     x' = MkSys s (<[i := p']> (threads x)) (stops x)) ∨
  (∃ i p s p', stops x !! i = Some p ∧ stop_step (state x) p = Some (s, p') ∧
     x' = MkSys s (threads x) (<[i := p']> (stops x))) ∨
  (∃ c, x' = MkSys (close_conn (state x) c) (threads x) (stops x)).
Proof.
  destruct l as [i e|g| |i|c]; intros Hl Hs; try done; cbn in Hs.
  - left. destruct (threads x !! i) as [p|] eqn:Hi; [|done]. cbn in Hs.
    destruct (conn_step r (state x) p e) as [[s p']|] eqn:Hc; [|done]. injection Hs as <-. by exists i, e, p, s, p'.
  - right; left. destruct (stops x !! i) as [p|] eqn:Hi; [|done]. cbn in Hs.
    destruct (stop_step (state x) p) as [[s p']|] eqn:Hc; [|done]. injection Hs as <-. by exists i, p, s, p'.
  - right; right. injection Hs as <-. by exists c.
Qed.

Lemma stop_step_keeps s p s' p' : stop_step s p = Some (s', p') →
  ctx s' = ctx s ∧ cancelled s' = cancelled s ∧ (stopped s = true → stopped s' = true) ∧
  (p = StopLock → stopped s' = true) ∧ open_conns s' ⊆ open_conns s ∧ (stop_rank p' < stop_rank p)%nat.
Proof.
  destruct p as [|ch c|[c|]|]; cbn; intros [= <- <-]; cbn; split_and!; try done; try set_solver; lia.
Qed.

(** What a stop that has begun has left to do is never forgotten. *)
Lemma StopLock_kept (l : list spc) i p q : l !! i = Some p → p ≠ StopLock → StopLock ∈ l → StopLock ∈ <[i := q]> l.
Proof.
  intros Hi Hp [j Hj]%list_elem_of_lookup. apply (list_elem_of_lookup_2 _ j).
  rewrite list_lookup_insert_ne; [done|]. intros ->. congruence.
Qed.

Lemma rabbit_step_inv ph l x x' : rabbit_inv ph x → own l = true → sys_step r l x = Some x' → rabbit_inv ph x'.
Proof.
  intros (HI & Hw & Hd & Hph) Hl Hs. split; [by eapply own_Inv|].
  destruct (own_cases l x x' Hl Hs) as [(i & e & p & s & p' & Hi & Hc & ->)|[(i & p & s & p' & Hi & Hc & ->)|[c ->]]]; cbn.
  - destruct (conn_step_keeps _ _ _ _ _ Hc) as (E1 & E2 & E3 & Hg).
    assert (Hth : threads x ≠ []) by (intros E; by rewrite E in Hi).
    split; [|split; [|destruct ph]].
    + intros j q g Hj Hq. rewrite E1. apply list_lookup_insert_Some in Hj as [(-> & -> & _)|[_ Hj]]; [|by eapply Hw].
      destruct (Hg g Hq) as [|Hg']; [done|by eapply Hw].
    + intros Hdis. by destruct (Hd Hdis).
    + by destruct Hph.
    + done.
    + by rewrite E1, E2, E3.
  - destruct (stop_step_keeps _ _ _ _ Hc) as (E1 & E2 & E3 & E4 & E5 & _).
    assert (Hst : stops x ≠ []) by (intros E; by rewrite E in Hi).
    split; [|split; [|destruct ph]].
    + intros j q g Hj Hq. rewrite E1. by eapply Hw.
    + intros Hdis. destruct (Hd Hdis) as [-> Ho]. split; [done|set_solver].
    + by destruct Hph as (_ & ? & _).
    + done.
    + rewrite E1, E2. destruct Hph as [Hcx Hor]. split; [done|].
      destruct (decide (p = StopLock)) as [->|Hp]; [right; left; by apply E4|].
      destruct Hor as [?|[?|?]]; [by left|right; left; by apply E3|right; right; by eapply StopLock_kept].
  - split; [done|]. split; [|destruct ph].
    + intros Hdis. destruct (Hd Hdis) as [-> Ho]. split; [done|set_solver].
    + destruct Hph as (-> & -> & Ho). split_and!; [done|done|set_solver].
    + done.
    + done.
Qed.

(** After a stop, something is always left to do until all has ended. *)
Definition left_of (x : sys) : nat := sum_list (rank <$> threads x) + sum_list (stop_rank <$> stops x).

Lemma stopped_down x : rabbit_inv Stopped x → p_ended x ∨ ∃ l x', own l = true ∧ sys_step r l x = Some x' ∧ (left_of x' < left_of x)%nat.
Proof.
  intros (HI & Hw & Hd & Hc & _). destruct (Forall_or_lookup (λ p, p = Exit) (threads x)) as [Ht|(i & p & Hi & Hp)].
  - destruct (Forall_or_lookup (λ p, p = StopDone) (stops x)) as [Hs|(i & p & Hi & Hp)]; [by left|right].
    assert (∃ s p', stop_step (state x) p = Some (s, p')) as (s & p' & Hs).
    { destruct p as [|ch c|[c|]|]; try done; by eexists _, _. }
    exists (LStopStep i), (MkSys s (threads x) (<[i := p']> (stops x))). split; [done|]. split; [cbn; by rewrite Hi; cbn; rewrite Hs|].
    apply stop_step_keeps in Hs as (_ & _ & _ & _ & _ & Hr). unfold left_of. cbn [threads stops].
    pose proof (sum_list_insert stop_rank (stops x) i p p' Hi). lia.
  - right. destruct (conn_step_down (state x) p Hp) as (e & s & p' & Hs & Hr).
    + by apply bool_decide_eq_true.
    + intros g. by apply (Hw i).
    + exists (LConn i e), (MkSys s (<[i := p']> (threads x)) (stops x)). split; [done|]. split; [cbn; by rewrite Hi; cbn; rewrite Hs|].
      unfold left_of. cbn [threads stops]. pose proof (sum_list_insert rank (threads x) i p p' Hi). lia.
Qed.

Lemma stopped_can_end x : rabbit_inv Stopped x → ∃ x', star p_step x x' ∧ p_ended x'.
Proof.
  remember (left_of x) as n eqn:E. revert x E. induction n as [n IH] using lt_wf_ind. intros x -> Hi.
  destruct (stopped_down x Hi) as [He|(l & x1 & Hl & Hs & Hlt)]; [exists x; split; [apply star_refl|done]|].
  destruct (IH _ Hlt x1 eq_refl (rabbit_step_inv _ l _ _ Hi Hl Hs)) as (x2 & Hs2 & He). exists x2. split; [|done].
  eapply star_step; [by exists l|done].
Qed.

Lemma Stop_begin_inv ph x : rabbit_inv ph x → rabbit_inv Stopped (Stop_begin r x).
Proof.
  intros (HI & Hw & Hd & _). split.
  { apply (step_solo_Inv r x); [done|]. exists LStop. split; [by intros g|done]. }
  unfold Stop_begin. destruct (Disabled (config r)) eqn:Ed; cbn [negb]; cbn; split_and!; try done.
  - set_solver.
  - by left.
  - set_solver.
  - right; right. set_solver.
Qed.

Lemma Start_begin_inv x e x' : rabbit_inv Fresh x → rabbit_start x e x' → rabbit_inv Started x'.
Proof.
  intros (HI & _ & Hd & Ht & Hs & Ho) [_ (g & Hg & ->)]. split; [apply Start_Inv; [done|by rewrite Ht]|].
  unfold Start. rewrite Ht. destruct (Disabled (config r)), (Url (config r) =? "")%string; cbn; split_and!; try done;
    intros [|i] p g' Hi; cbn in Hi; try done; by injection Hi as <-.
Qed.

#[export] Instance rabbit_laws : ProcessLaws sys.
Proof.
  split.
  - apply Start_begin_inv.
  - intros ph x x' Hi ->. by eapply Stop_begin_inv.
  - intros ph x x' Hi (l & Hl & Hs). by eapply rabbit_step_inv.
  - intros [| |] x Hne Hi; [|done|by apply stopped_can_end]. exists x. split; [apply star_refl|].
    destruct Hi as (_ & _ & _ & Ht & Hs & _). cbn. rewrite Ht, Hs. by split.
  - intros [| |] x Hne Hi [Ht Hs]; [|done|]; destruct Hi as (HI & _ & Hd & Hph).
    + apply Hph.
    + destruct Hph as [_ [Hdis|[Hst|Hin]]]; [by apply Hd|by apply Inv_released|].
      cbn in Hs. rewrite Forall_forall in Hs. by apply Hs in Hin.
Qed.
End rabbit.
End RabbitProcess.

(** ** The program *)

Module RunningSystem.
Import Services.

Section system.
Context (L : libraries) (r : RabbitMQ.params).

#[local] Existing Instances mail_component mail_laws mssql_component mssql_laws oracle_component oracle_laws
  otel_component otel_laws.

Definition system : Type :=
  (phase * mail_svc) * ((phase * mssql_svc) * ((phase * oracle_svc) * ((phase * otel_svc) *
  ((phase * RabbitMQ.sys) * (phase * GinWeb.web))))).
Definition service_id : Type := unit + (unit + (unit + (unit + (unit + unit)))).

Definition Mail : service_id := inl tt.
Definition Mssql : service_id := inr (inl tt).
Definition Ora : service_id := inr (inr (inl tt)).
Definition Otel : service_id := inr (inr (inr (inl tt))).
Definition Rabbit : service_id := inr (inr (inr (inr (inl tt)))).
Definition Gin : service_id := inr (inr (inr (inr (inr tt)))).

#[local] Instance mail_process : Process mail_svc := component_process (H := mail_component L).
#[local] Instance mssql_process : Process mssql_svc := component_process (H := mssql_component L).
#[local] Instance oracle_process : Process oracle_svc := component_process (H := oracle_component L).
#[local] Instance otel_process : Process otel_svc := component_process (H := otel_component L).
#[local] Instance mail_plaws : ProcessLaws mail_svc := component_process_laws (H := mail_component L).
#[local] Instance mssql_plaws : ProcessLaws mssql_svc := component_process_laws (H := mssql_component L).
#[local] Instance oracle_plaws : ProcessLaws oracle_svc := component_process_laws (H := oracle_component L).
#[local] Instance otel_plaws : ProcessLaws otel_svc := component_process_laws (H := otel_component L).
#[local] Instance rabbit_proc : Process RabbitMQ.sys := RabbitProcess.rabbit_process r.
#[local] Instance rabbit_plaws : ProcessLaws RabbitMQ.sys := RabbitProcess.rabbit_laws r.

#[local] Instance gin_proc : Process GinWeb.web := GinProcess.gin_process.
#[local] Instance gin_plaws : ProcessLaws GinWeb.web := GinProcess.gin_laws.

#[local] Instance sys_running : Running service_id system := _.
#[local] Instance sys_laws : RunningLaws service_id system := _.

Definition nothing_open (s : system) : Prop :=
  let '(m, (q, (o, (y, (b, g))))) := s in
  MailSender.open m.2.2 = ∅ ∧ DbSql.open q.2.2 = ∅ ∧ DbSql.open o.2.2 = ∅ ∧
  (Otello.conns y.2.2 = ∅ ∧ Otello.running y.2.2 = ∅) ∧
  RabbitMQ.open_conns (RabbitMQ.state b.2) = ∅ ∧ GinWeb.open g.2 = ∅.

Lemma idle_nothing_open s : (∀ i, r_idle i s) → nothing_open s.
Proof.
  intros Hi. destruct s as (m & q & o & y & b & g). pose proof (Hi Mail) as H1. pose proof (Hi Mssql) as H2.
  pose proof (Hi Ora) as H3. pose proof (Hi Otel) as H4. pose proof (Hi Rabbit) as H5. pose proof (Hi Gin) as H6.
  done.
Qed.

(** A tick sends one message; the mail server answers as it likes. *)
Definition send_mail (s s' : system) : Prop :=
  ∃ answers, let '(_, st, w) := MailSender.SendMessage (splitHostPort L) (mailConfig L) s.1.2.1 s.1.2.2 answers in
             s' = ((s.1.1, (st, w)), s.2).

Definition mailing (start : list service_id) : program service_id system :=
  MkProgram start (Some <$> start) send_mail.

Lemma send_mail_ok start : Mail ∈ start → work_ok (mailing start).
Proof.
  intros Hin s s' Hi Hph [ans Hw]. destruct s as [[ph [st w]] rest]. destruct Hi as [[Hok Hidle] Hrest].
  pose proof (MailSender.SendMessage_spec_aux (splitHostPort L) (mailConfig L) st w ans Hok) as H.
  cbn in Hw. destruct (MailSender.SendMessage _ _ _ _ _) as [[e st'] w']. destruct H as [Hok' _]. subst s'.
  split; [|by intros [[]|i]]. split; [|exact Hrest]. split; [exact Hok'|].
  intros Hne. by destruct Hne; apply (Hph Mail).
Qed.

Lemma mailing_stops start : stops_what_it_starts (mailing start).
Proof. intros i Hi. cbn. apply list_elem_of_fmap. by exists i. Qed.

(** [C3] A program over six running services, the message queue and the
    web server among them, that sends mail at every tick: however its
    controller, their goroutines, the broker and the network interleave, once
    [Run] has finished everything can come to its end, and then no SMTP or
    AMQP connection, no database handle, no telemetry provider and no
    listening socket is open. *)
Theorem running_system_released start s s1 :
  NoDup start → Mail ∈ start → fresh s →
  star (cstep (mailing start)) (started_run (mailing start) s) (Finished, s1) →
  (∃ s2, star r_step s1 s2 ∧ r_ended s2) ∧
  (∀ s2, star r_step s1 s2 → r_ended s2 → nothing_open s2).
Proof.
  intros Hnd Hin Hf Hs.
  destruct (finished_releases (mailing start) (send_mail_ok start Hin) (mailing_stops start) Hnd s s1 Hf Hs) as [H1 H2].
  split; [done|]. intros s2 Hs2 He. apply idle_nothing_open. intros i. by apply (H2 s2 i).
Qed.
End system.

(** ** A concrete run

    Mail is sent while the web server listens and the queue is being dialled;
    everything is stopped with the dialled connection still in the hands of
    its goroutine. *)

Definition r0 : RabbitMQ.params := RabbitMQ.r0.
Definition mail0 : mail_svc := (MailSender.emptyState, MailSender.MkWorld 0 ∅ []).
Definition mail1 : mail_svc := (c_start (Component := mail_component libraries0) mail0).2.
Definition answers0 : MailSender.answers := MailSender.MkAnswers None None None None None.
Definition mail2 : mail_svc :=
  let '(_, st, w) := MailSender.SendMessage (splitHostPort libraries0) (mailConfig libraries0) mail1.1 mail1.2 answers0 in (st, w).
Definition mail3 : mail_svc := (c_stop (Component := mail_component libraries0) mail2).2.
Definition queue_after (ls : list RabbitMQ.label) : RabbitMQ.sys :=
  default RabbitMQ.init_sys (RabbitMQ.run r0 ls RabbitMQ.init_sys).
Definition dialling : list RabbitMQ.label :=
  [RabbitMQ.LStart 1; RabbitMQ.LConn 0 RabbitMQ.AOk; RabbitMQ.LConn 0 RabbitMQ.AOk; RabbitMQ.LConn 0 RabbitMQ.AOk].
Definition web_after (l : list GinWeb.action) : GinWeb.web := GinWeb.run l GinWeb.web0.
Definition listening : list GinWeb.action := [GinWeb.AStart; GinWeb.AServe true; GinWeb.AServe true].

Definition at_ (m : phase * mail_svc) (b : phase * RabbitMQ.sys) (g : phase * GinWeb.web) : system :=
  (m, ((Fresh, (None, DbSql.handles0)), ((Fresh, (DbSql.Oracle.MkOracle None false, DbSql.handles0)),
   ((Fresh, (Otello.NewOtello, Otello.world0)), (b, g))))).

Definition running0 : system := at_ (Fresh, mail0) (Fresh, RabbitMQ.init_sys) (Fresh, GinWeb.web0).
Definition running1 : system :=
  at_ (Stopped, mail3) (Stopped, queue_after (dialling ++ [RabbitMQ.LStop])) (Stopped, web_after (listening ++ [GinWeb.AStop])).

#[local] Instance running0_sys : Running service_id system := sys_running libraries0 r0.
#[local] Instance running0_laws : RunningLaws service_id system := sys_laws libraries0 r0.

Lemma running0_fresh : fresh running0.
Proof.
  split; [|by intros [[]|[[]|[[]|[[]|[[]|[]]]]]]].
  split; [by split|]. split; [by split|]. split; [by split|]. split; [split; [apply Otello.otel_owned0|done]|].
  split; [|split; [apply GinWeb.web0_Inv|done]].
  split; [apply RabbitMQ.init_Inv|]. split; [by intros [|i]|]. by split.
Qed.

(** A call or a step of one service of the tuple. *)
Ltac rest := split; [|reflexivity].
Ltac other := right; rest.

Ltac goto m b g := eapply (star_step _ _ (_, at_ m b g)).

Lemma running_run :
  star (cstep (mailing libraries0 [Mail; Rabbit; Gin])) (started_run (mailing libraries0 [Mail; Rabbit; Gin]) running0) (Finished, running1).
Proof.
  goto (Started, mail1) (Fresh, RabbitMQ.init_sys) (Fresh, GinWeb.web0).
  { apply ctl_start. rest. by split. }
  goto (Started, mail1) (Started, queue_after (take 1 dialling)) (Fresh, GinWeb.web0).
  { apply ctl_start. do 4 rest. rest. split; [|reflexivity]. split; [reflexivity|]. exists 1%nat. split; [set_solver|reflexivity]. }
  goto (Started, mail1) (Started, queue_after (take 1 dialling)) (Started, web_after (take 1 listening)).
  { apply ctl_start. do 5 rest. by split. }
  eapply star_step; [apply ctl_started|].
  (* the goroutine of the queue dials, then mail is sent *)
  goto (Started, mail1) (Started, queue_after (take 2 dialling)) (Started, web_after (take 1 listening)).
  { apply ctl_others. do 4 other. left. rest. rest. exists (RabbitMQ.LConn 0 RabbitMQ.AOk). by split. }
  goto (Started, mail1) (Started, queue_after (take 3 dialling)) (Started, web_after (take 1 listening)).
  { apply ctl_others. do 4 other. left. rest. rest. exists (RabbitMQ.LConn 0 RabbitMQ.AOk). by split. }
  goto (Started, mail1) (Started, queue_after dialling) (Started, web_after (take 1 listening)).
  { apply ctl_others. do 4 other. left. rest. rest. exists (RabbitMQ.LConn 0 RabbitMQ.AOk). by split. }
  goto (Started, mail2) (Started, queue_after dialling) (Started, web_after (take 1 listening)).
  { apply ctl_tick. exists answers0. reflexivity. }
  (* the web server listens *)
  goto (Started, mail2) (Started, queue_after dialling) (Started, web_after (take 2 listening)).
  { apply ctl_others. do 5 other. rest. right; left. exists true. reflexivity. }
  goto (Started, mail2) (Started, queue_after dialling) (Started, web_after listening).
  { apply ctl_others. do 5 other. rest. right; left. exists true. reflexivity. }
  eapply star_step; [apply ctl_quit|].
  goto (Stopped, mail3) (Started, queue_after dialling) (Started, web_after listening).
  { apply ctl_stop. rest. by split. }
  goto (Stopped, mail3) (Stopped, queue_after (dialling ++ [RabbitMQ.LStop])) (Started, web_after listening).
  { apply ctl_stop. do 4 rest. rest. by split. }
  eapply (star_step _ _ (_, running1)).
  { apply ctl_stop. do 5 rest. by split. }
  apply star_one, ctl_finish.
Qed.

Lemma running_system_released_witness :
  ∃ s1, star (cstep (mailing libraries0 [Mail; Rabbit; Gin])) (started_run (mailing libraries0 [Mail; Rabbit; Gin]) running0) (Finished, s1) ∧
    RabbitMQ.open_conns (RabbitMQ.state s1.2.2.2.2.1.2) = {[1%nat]} ∧ GinWeb.open s1.2.2.2.2.2.2 = {[0%nat]} ∧
    ∃ s2, star r_step s1 s2 ∧ nothing_open s2.
Proof.
  exists running1. split; [exact running_run|]. split; [reflexivity|]. split; [reflexivity|].
  assert (Hnd : NoDup [Mail; Rabbit; Gin]) by (apply (bool_decide_unpack _); vm_compute; exact I).
  destruct (running_system_released libraries0 r0 [Mail; Rabbit; Gin] running0 running1 Hnd ltac:(constructor) running0_fresh running_run)
    as [(s2 & Hs & He) Hall].
  exists s2. split; [exact Hs|exact (Hall s2 Hs He)].
Defined.
(** Oracle does not answer: the mail sender, started before it, is stopped. *)
Definition oracle1 : oracle_svc := (c_start (Component := oracle_component libraries0) (DbSql.Oracle.MkOracle None false, DbSql.handles0)).2.
Definition mail_stopped : mail_svc := (c_stop (Component := mail_component libraries0) mail1).2.
Definition with_oracle (m : phase * mail_svc) : system :=
  (m, ((Fresh, (None, DbSql.handles0)), ((Started, oracle1), running0.2.2.2))).

Lemma failed_releases_witness :
  ∃ s1, star (cstep (mailing libraries0 [Mail; Ora])) (started_run (mailing libraries0 [Mail; Ora]) running0) (Failed Ora, s1) ∧
    ∀ s2 i, star r_step s1 s2 → r_ended s2 → i ≠ Ora → r_idle i s2.
Proof.
  assert (Hrun : star (cstep (mailing libraries0 [Mail; Ora])) (started_run (mailing libraries0 [Mail; Ora]) running0)
    (Failed Ora, with_oracle (Stopped, mail_stopped))).
  { goto (Started, mail1) (Fresh, RabbitMQ.init_sys) (Fresh, GinWeb.web0); [apply ctl_start; rest; by split|].
    eapply (star_step _ _ (Rollback Ora (reverse ([] ++ [Mail])), with_oracle (Started, mail1))).
    { eapply (ctl_start_fails _ _ _ _ _ "ORA-12541"%string). do 2 rest. rest. by split. }
    change (reverse ([] ++ [Mail])) with [Mail].
    eapply (star_step _ _ (_, with_oracle (Stopped, mail_stopped))); [apply ctl_rollback; rest; by split|].
    apply star_one, ctl_failed. }
  assert (Hnd : NoDup [Mail; Ora]) by (apply (bool_decide_unpack _); vm_compute; exact I).
  exists (with_oracle (Stopped, mail_stopped)). split; [exact Hrun|]. intros s2 i.
  exact (failed_releases (mailing libraries0 [Mail; Ora]) (send_mail_ok libraries0 r0 [Mail; Ora] ltac:(constructor)) (mailing_stops libraries0 [Mail; Ora]) Hnd
    running0 _ Ora s2 i running0_fresh Hrun).
Defined.

(** The mail sender alone: a run of App.v, and the run it is. *)
Definition mail_program : program unit (phase * mail_svc) := MkProgram [tt] [Some tt] (λ _ _, False).
Definition mail_app : App.Application unit mail_svc :=
  App.MkApplication None None None [tt] [Some tt] None None (λ s, s).
#[local] Instance mail_only : Component mail_svc := mail_component libraries0.

End RunningSystem.
